(* ===== verification/_CoqProject ===== *)
-Q . S2P
Prelude.v
Mem.v
KvUtils.v
HashTable.v
ServerMM.v
Server.v
Rdma.v
ClientState.v
Network.v
PostEffects.v
ClientMM.v
BlockMap.v
ClientIndex.v
LogWalk.v
Rebuild.v
ClientConsensus.v
Snapshot.v
ClientOps.v
IndexView.v
IndexChange.v
IndexInsert.v
IndexModify.v
Recovery.v
StartUp.v
ClientCR.v
ClientCRSpec.v
RequestFrame.v
Workload.v
Fibers.v
Release.v
CacheDump.v
FsCommon.v
Engine.v
EngineSpec.v
FsTree.v
EngineClient.v
