(* ===== verification/Prelude.v ===== *)
(** * FUSEE-FS: a verification library for the FUSEE key-value store and the
    FUSEE-FS file-system engine

    ** The program

    FUSEE is a key-value store on disaggregated memory.  Memory nodes
    ([src/src/server.cc], [src/src/server_mm.cc]) own large regions of memory and
    hand out blocks; they answer a few messages over UDP and otherwise stay
    passive.  Clients ([src/src/client.cc], [src/src/client_mm.cc]) work on that
    memory with one-sided RDMA requests through their network manager
    ([src/src/nm.cc], [src/src/ib.cc]): a RACE hash index
    ([src/src/hashtable.cc]) maps keys to blocks, its slots are replicated and
    modified by compare-and-swap, and conflicts between clients are settled by
    the SNAPSHOT protocol without a server.  Every block is also an entry of the
    log of the client that wrote it, from which a restarted client rebuilds its
    allocator and finishes its last operation.  FUSEE-FS ([src/fs]) stores the
    inodes and directory entries of a file system in that store; a central
    service is to grant locks and groups of inode numbers.

    ** The files

    - [Prelude] (this file): machine integers, the error-and-state monad [M],
      little-endian encodings, record updates, tactics and hint databases.
    - [Mem]: byte-addressed memories.
    - [KvUtils]: [kv_utils.h/.cc], messages and their byte order, the layout of
      log entries, the configuration loader, packed garbage-collection slots.
    - [HashTable]: [hashtable.h/.cc], layouts, the key hash, fingerprints, bucket
      choice, 40-bit pointers, free slots, comparison of keys.
    - [ServerMM], [Server]: a memory node: its memory manager (Module [Smm]) and
      its request loop (Module [Srv]).
    - [Rdma]: [ib.h/.cc], work requests and their chaining; the class [Fabric] is
      the interface of the verbs library.
    - [ClientState]: the records [Nm.t], [Cmm.t], [KVReqCtx] and [Cl.t] of the
      classes [UDPNetworkManager], [ClientMM], [KVReqCtx] and [Client], together
      in [Sys] with the world of the fabric and the nodes reachable over UDP.
    - [Network]: [nm.cc], posting and completion of requests; [PostEffects]: what
      a posted list of requests does to the memories, request by request.
    - [ClientMM], [BlockMap], [LogWalk], [Rebuild]: [client_mm.cc], the client's
      allocator; its static block map against that of the nodes; the walk over
      the log; the reconstruction of the allocator after a crash.
    - [ClientIndex]: the part of [client.cc] and [client.h] between keys and
      requests: candidate buckets, request lists, search of the buckets that were
      read, the address cache, redirection of reads away from crashed nodes.
    - [ClientConsensus], [Snapshot]: the decision on a slot in [client.cc], and
      the protocol between any number of clients as a step relation.
    - [ClientOps]: search, insert, update and delete, phase by phase, for fibers
      and synchronous, with cache, crash points and crashed nodes.
    - [IndexView], [IndexChange], [IndexInsert], [IndexModify]: the bytes of the
      nodes read as a map from keys to values ([index_lookup]), the effect on that
      map of a change of one slot, and search, insertion, update and deletion
      against it.
    - [Recovery], [StartUp]: recovery of the last operation; the constructor of
      the client.
    - [ClientCR], [ClientCRSpec]: [client_cr.h/.cc], the baseline client, whose
      backups are changed one after the other by swaps repeated until they
      succeed (Module [CR]), and the correctness of those swaps.
    - [RequestFrame]: what no operation of either client changes in its context.
    - [Workload], [Fibers]: the requests a client is given, generated or from a
      file; the fibers that run them and their counters, and the division of the
      requests among fibers, for both clients.
    - [Release], [CacheDump]: the additions by which freed blocks are released on
      the nodes; the cache written to a file and read back.
    - [FsCommon]: paths, inodes, permissions and the central service (Module
      [Central]).
    - [Engine], [EngineSpec], [FsTree], [EngineClient]: the file-system engine
      over the interface [KvOps] of a store; its specification and refinement on
      every store with the laws [KvLaws]; the tree invariant; the instance of the
      interface by the operations of the client.

    A member function is a definition of the same name in the monad [M] over the
    state it acts on; a member variable is a record field of the same name.  A
    run ends with [Done] and a result or with [Stopped]: [Exited] for [exit] and
    failed assertions, [Undefined] where the C++ code has undefined behaviour
    (null pointers, indices outside of a vector, division by zero), [Diverges]
    where the fuel of a loop ran out.  Pointers into the client's memory are
    addresses, so buffers that alias in the code alias in the model.

    ** The theorems

    - Encodings are inverse to each other, and the optimised hash equals a
      reference one ([KvUtils], [HashTable], [ClientIndex.log_links_roundtrip]).
    - A memory node queues disjoint aligned blocks, never hands one out twice and
      takes back only what it handed out; a client computes the same placement,
      symmetric and with replicas on different nodes; an allocation request over
      the wire is one allocation ([ServerMM], [Server], [BlockMap]).
    - Waiting on the completion queue and waiting for the polling thread end in
      the same state ([Network.sync_async_equivalent]); connecting to the nodes
      ends with the tables filled ([StartUp]).
    - The client's allocator on every branch, the links of the log, the undo of
      an allocation, the walk over a log, and the allocator a restarted client
      rebuilds from its log and meta area ([ClientMM], [LogWalk], [Rebuild]).
    - The search of buckets finds exactly the candidates, the first block with
      the key and a free slot iff there is one; reads of crashed nodes go to the
      same offset of a healthy replica ([ClientIndex]).
    - SNAPSHOT, for one round of clients that start from the same value: in every
      interleaving all winners write the same value, so that there is one winner
      when the new values differ; primary and backups agree afterwards; and once a
      client has heard from every backup the outcome is settled
      ([Snapshot]).  Concurrent deletions all write 0, and the second to publish
      reaches a branch that the code takes for impossible
      ([Snapshot.concurrent_deletes_late]).  The code decides as the protocol says
      whatever other clients do to the remote memories ([ClientConsensus]).
    - Search returns the value of a block with the key of the request, as long as
      the slots it follows name nodes the client is connected to; insertion
      publishes the block it wrote or changes nothing; full buckets are refused
      and the block is given back ([ClientOps]).
    - On a fabric without other clients, search, through the cache or the index, is
      the lookup of the map the nodes hold ([IndexView.kv_search_refines_index]).
      With one index replica, insertion of an absent key with a free slot adds the
      pair of the request and leaves every other key alone
      ([IndexInsert.kv_insert_updates_index]), and a search after it returns the
      inserted value ([IndexInsert.insert_search_roundtrip]); update of a key that
      the cache does not know gives a known key its new value and refuses an
      unknown one, deletion frees the slot of its key, and neither disturbs other
      keys, when the old block can be released without an undefined shift
      ([IndexModify]).
    - The repeated swaps of the baseline client set every replica when they are
      synchronous; those for fibers may skip a backup; its insertions publish
      their block even when they give it back ([ClientCRSpec]).
    - Requests whose entries fit the input buffer are loaded as specified
      ([Workload]); fibers share no request, and those that count operations count
      exactly ([Fibers]).  The additions that release freed blocks go where the
      overrun of [target_sid] sends them ([Release]), and a saved cache is restored
      ([CacheDump]).
    - The file-system operations refine pure functions on abstract file systems,
      errors included; histories keep the directory tree, whose root counts its
      entries from the value that [InitThread] left in it; what was created is
      found ([EngineSpec], [FsTree]); paths keep their components, keys never
      collide and a granted lock excludes others ([FsCommon]).
    - Examples run whole operations: insertion, update, deletion and search on
      replicated memories, recovery after every crash point ([Recovery]), and
      file-system operations through the client ([EngineClient]).  They include
      what the code does wrong: [Recovery.finished_insert_done_twice],
      [ClientOps.kv_insert_kv_out_of_bounds], [EngineSpec.mkdir_leaves_orphan],
      [EngineSpec.mkdir_redo_lost], [EngineSpec.mkdir_root],
      [Workload.cr_load_kv_requests_out_of_range],
      [Fibers.update_failures_uncounted], [Fibers.redo_changes_key],
      [CacheDump.dump_empty_cache] and [CacheDump.load_short_file].

    ** Parameters, fuel and bounds

    The verbs library is the class [Fabric].  Theorems about the client assume
    [ReliableFabric]: the requests of a chain take effect in order, each on
    remote memories that other clients may have changed in any way since the
    previous request; [QuietFabric] is the case without other clients, and
    [quiet_fabric] a model.  The contents of uninitialised memory ([junk],
    [stack_ctx], [heap_ctx]), addresses and keys given by [malloc], [mmap] and
    memory registration, queue-pair ends, the clock and the answer of the eRPC
    call for inode groups are arguments.

    Requests take effect when posted, so a wait needs one round per queued
    completion: that is the fuel of [poll_until] and [wait_loop], and the theorems
    show it is enough.  [skip_full] gets one round per node plus one, the number
    after which its test repeats.  [traverse_loop] and [recover_loop] get as many
    rounds as their entries fit in the recovery buffer, past which the code
    writes out of bounds.  [round_robin] gets the length of the longest queue plus
    one.  [new_group_loop] gets one round: after a new group was fetched the
    sequence number is below the group size.  The two waits for other clients,
    for the winner of a slot ([wait_primary]) and for the first client
    ([wait_init]), take the number of rounds [spin] as an argument and are
    [Diverges] beyond it.  So do the repeated swaps of the baseline client, with
    [retries]; its scan of the meta area gets one round per entry of the area.
    A fiber runs until another thread raises its flag: [rounds] has an entry for
    each time its loop finds the flag down, and [redo] bounds the repetitions
    followed of an insertion that demands to be redone.

    ** Not modelled

    The programs of the benchmarks, except for the division of the requests among
    fibers; timers, the creation of threads and fibers and
    their affinity; the switch from one fiber to another inside an operation: a
    fiber is run alone, and what others do reaches it through the fabric only; the
    configuration of queue pairs and devices, which only fills structures of the verbs library;
    program entry points, tests and benchmarks; the event loop of the central
    service, which belongs to the eRPC library.  Releases of C++ memory and debug
    output have no effect in the model.  The polling thread is modelled by the
    rounds it makes while a request waits.

    ** Plan

    Open: a general theorem for the recovery of an operation; update and deletion
    with a cache hit and with several index replicas against the map; the laws
    [KvLaws] for the client itself on a quiet fabric. *)

From stdpp Require Export base numbers list gmap strings.
From Stdlib Require Export ZArith Lia.

#[global] Open Scope Z_scope.

(** ** Machine integers

    A w-bit unsigned integer is a [Z] in [0, 2^w); an arithmetic operation of
    the source that may wrap is followed by the truncation of its type. *)

Definition u8  (z : Z) : Z := z mod 2 ^ 8.
Definition u16 (z : Z) : Z := z mod 2 ^ 16.
Definition u32 (z : Z) : Z := z mod 2 ^ 32.
Definition u64 (z : Z) : Z := z mod 2 ^ 64.

(** Two's complement reinterpretation of a 32-bit pattern ([int], [int32_t]). *)
Definition i32 (z : Z) : Z :=
  let r := z mod 2 ^ 32 in if r <? 2 ^ 31 then r else r - 2 ^ 32.

Definition in_u8  (z : Z) : Prop := 0 <= z < 2 ^ 8.
Definition in_u16 (z : Z) : Prop := 0 <= z < 2 ^ 16.
Definition in_u32 (z : Z) : Prop := 0 <= z < 2 ^ 32.
Definition in_u64 (z : Z) : Prop := 0 <= z < 2 ^ 64.

(** ** How a computation of the program ends *)

(** [Exited] is [exit(1)], [abort()] or a failed [assert]; [Diverges] is a loop
    that does not end under the given environment; [Undefined] is undefined
    behaviour of C++ (a null dereference, an index out of range, a shift by the
    width of the type). *)
Inductive stop := Exited | Diverges | Undefined.

Inductive outcome (S A : Type) : Type :=
  | Done (a : A) (s : S)
  | Stopped (e : stop) (s : S).
Arguments Done {S A} a s.
Arguments Stopped {S A} e s.

(** The state and error monad in which the stateful code is written.  It uses
    the notations [x ← c; k] and [c ;; k] of stdpp. *)
Definition M (S A : Type) : Type := S → outcome S A.

#[global] Instance M_ret S : MRet (M S) := λ A a s, Done a s.
#[global] Instance M_bind S : MBind (M S) := λ A B k c s,
  match c s with
  | Done a s' => k a s'
  | Stopped e s' => Stopped e s'
  end.

Definition get {S} : M S S := λ s, Done s s.
Definition gets {S A} (f : S → A) : M S A := λ s, Done (f s) s.
Definition modify {S} (f : S → S) : M S unit := λ s, Done tt (f s).
Definition stopm {S A} (e : stop) : M S A := λ s, Stopped e s.
Definition assertm {S} (b : bool) : M S unit :=
  λ s, if b then Done tt s else Stopped Exited s.
Definition of_option {S A} (o : option A) : M S A :=
  λ s, match o with Some a => Done a s | None => Stopped Undefined s end.
Definition skip {S} : M S unit := mret tt.
Definition whenm {S} (b : bool) (c : M S unit) : M S unit := if b then c else skip.

(** [for (x : l) body] *)
Fixpoint forM {S A} (l : list A) (body : A → M S unit) : M S unit :=
  match l with
  | [] => skip
  | x :: l' => body x ;; forM l' body
  end.

(** [for (int i = a; i < b; i++)] ranges over [zrange a b]. *)
Definition zrange (a b : Z) : list Z :=
  (λ k : nat, a + Z.of_nat k) <$> seq 0 (Z.to_nat (b - a)).

(** A [while] loop with fuel: [body] returns [true] to go on and [false] to
    leave the loop; running out of fuel is [Diverges]. *)
Fixpoint whileM {S} (fuel : nat) (body : M S bool) : M S unit :=
  match fuel with
  | O => stopm Diverges
  | Datatypes.S fuel' => b ← body; if b : bool then whileM fuel' body else skip
  end.

(** ** Record update

    [r <| f := v |>] is the record [r] with field [f] set to [v]; a record type
    that is updated declares its eta expansion as an instance of [Eta]. *)
Class Eta (R : Type) := eta : R → R.
Class Setter {R E : Type} (f : R → E) := set_field : (E → E) → R → R.
Arguments set_field {R E} f {_} _ _.

Ltac derive_setter R f :=
  let inst := constr:(_ : Eta R) in
  let e := eval cbv delta [eta] in (@eta R inst) in
  let e := eval hnf in e in
  lazymatch eval pattern f in e with
  | ?upd _ =>
      let u := eval cbv beta in (λ g : _ → _, upd (λ r, g (f r))) in exact u
  end.
#[global] Hint Extern 1 (@Setter ?R ?E ?f) => derive_setter R f : typeclass_instances.

Notation "r <| f := v |>" := (set_field f (λ _, v) r)
  (at level 1, v at level 99, left associativity, format "r <| f  :=  v |>").
Notation "r <| f ::= g |>" := (set_field f g r)
  (at level 1, g at level 99, left associativity, format "r <| f  ::=  g |>").

(** ** Little-endian bytes *)

Fixpoint le_bytes (n : nat) (z : Z) : list Z :=
  match n with
  | O => []
  | Datatypes.S n' => z mod 256 :: le_bytes n' (z / 256)
  end.

Fixpoint le_val (bs : list Z) : Z :=
  match bs with
  | [] => 0
  | b :: bs' => b + 256 * le_val bs'
  end.

Definition is_byte (b : Z) : Prop := 0 <= b < 256.

(** ** Tactics and hint databases *)

Create HintDb fusee discriminated.
Create Rewrite HintDb fusee.

(** Runs the monad: exposes the next [match] of a computation. *)
Ltac unM :=
  unfold whenm, skip, mbind, mret, M_bind, M_ret, get, gets, modify, stopm, assertm,
    of_option in *.

Ltac case_bool :=
  match goal with
  | |- context [if ?b then _ else _] => destruct b eqn:?
  | H : context [if ?b then _ else _] |- _ => destruct b eqn:?
  end.

(** Boolean comparisons on [Z] to propositions, everywhere. *)
Ltac zify_bool :=
  repeat match goal with
  | H : (_ && _)%bool = true |- _ => apply andb_true_iff in H; destruct H
  | H : (_ || _)%bool = false |- _ => apply orb_false_iff in H; destruct H
  | H : negb _ = true |- _ => apply negb_true_iff in H
  | H : negb _ = false |- _ => apply negb_false_iff in H
  | H : (_ =? _) = true |- _ => apply Z.eqb_eq in H
  | H : (_ =? _) = false |- _ => apply Z.eqb_neq in H
  | H : (_ <? _) = true |- _ => apply Z.ltb_lt in H
  | H : (_ <? _) = false |- _ => apply Z.ltb_ge in H
  | H : (_ <=? _) = true |- _ => apply Z.leb_le in H
  | H : (_ <=? _) = false |- _ => apply Z.leb_gt in H
  end.

(** Shifts by constants to multiplications and divisions, masks to [mod]. *)
Lemma land_mask (z n : Z) : 0 <= n → Z.land z (2 ^ n - 1) = z mod 2 ^ n.
Proof. intros Hn. rewrite <- Z.land_ones, Z.ones_equiv by done. f_equal. Qed.

Lemma lor_disjoint (a b n : Z) :
  0 <= n → 0 <= b < 2 ^ n → Z.lor (a * 2 ^ n) b = a * 2 ^ n + b.
Proof.
  intros Hn Hb. symmetry. apply Z.add_nocarry_lor.
  apply Z.bits_inj'. intros i Hi. rewrite Z.land_spec, Z.bits_0.
  destruct (Z.lt_ge_cases i n).
  - rewrite Z.mul_pow2_bits_low by done. done.
  - rewrite <- (Z.mod_small b (2 ^ n)) by done.
    rewrite Z.mod_pow2_bits_high by lia. by rewrite andb_false_r.
Qed.

Lemma lor_disjoint_r (a b n : Z) :
  0 <= n → 0 <= b < 2 ^ n → Z.lor b (a * 2 ^ n) = a * 2 ^ n + b.
Proof. intros. rewrite Z.lor_comm. by apply lor_disjoint. Qed.

Ltac bits_to_arith :=
  repeat first
    [ rewrite Z.shiftr_div_pow2 by lia
    | rewrite Z.shiftl_mul_pow2 by lia ].

(** ** Little-endian lemmas *)

Lemma le_bytes_length n z : length (le_bytes n z) = n.
Proof. revert z; induction n; intros; cbn; auto. Qed.

Lemma le_bytes_byte n z : Forall is_byte (le_bytes n z).
Proof.
  revert z; induction n; intros; cbn; constructor; auto.
  apply Z.mod_pos_bound. lia.
Qed.

Lemma pow256_S (n : nat) : 256 ^ Z.of_nat (S n) = 256 * 256 ^ Z.of_nat n.
Proof. rewrite Nat2Z.inj_succ, Z.pow_succ_r; lia. Qed.

Lemma pow256_pos (n : nat) : 0 < 256 ^ Z.of_nat n.
Proof. apply Z.pow_pos_nonneg; lia. Qed.

Lemma le_val_bytes n z : le_val (le_bytes n z) = z mod 256 ^ Z.of_nat n.
Proof.
  revert z; induction n as [|n IH]; intros z; cbn [le_bytes le_val].
  - by rewrite Z.mod_1_r.
  - rewrite IH, pow256_S. pose proof (pow256_pos n).
    rewrite Z.rem_mul_r by lia. lia.
Qed.

Lemma le_val_bound bs :
  Forall is_byte bs → 0 <= le_val bs < 256 ^ Z.of_nat (length bs).
Proof.
  induction 1 as [|b bs Hb _ IH]; cbn [le_val length]; [cbn; lia|].
  rewrite pow256_S. unfold is_byte in Hb. lia.
Qed.

Lemma le_bytes_val bs : Forall is_byte bs → le_bytes (length bs) (le_val bs) = bs.
Proof.
  induction 1 as [|b bs Hb _ IH]; cbn [le_val length le_bytes]; [done|].
  unfold is_byte in Hb. rewrite (Z.mul_comm 256). f_equal.
  - rewrite Z.mod_add, Z.mod_small by lia. done.
  - rewrite Z.div_add, Z.div_small by lia. done.
Qed.

(** A sequence of bytes is determined by its length and its value. *)
Lemma le_val_inj bs1 bs2 :
  Forall is_byte bs1 → Forall is_byte bs2 → length bs1 = length bs2 →
  le_val bs1 = le_val bs2 → bs1 = bs2.
Proof.
  intros H1 H2 Hl Hv.
  rewrite <- (le_bytes_val bs1), <- (le_bytes_val bs2), Hl, Hv by done. done.
Qed.

(** ** Ranges *)

Lemma zrange_length a b : length (zrange a b) = Z.to_nat (b - a).
Proof. unfold zrange. by rewrite length_fmap, length_seq. Qed.

Lemma elem_of_zrange a b i : i ∈ zrange a b ↔ a <= i < b.
Proof.
  unfold zrange. rewrite list_elem_of_fmap. split.
  - intros (k & -> & Hk%elem_of_seq). lia.
  - intros H. exists (Z.to_nat (i - a)). rewrite elem_of_seq. split; lia.
Qed.

Lemma zrange_nil a b : b <= a → zrange a b = [].
Proof. intros H. unfold zrange. by replace (Z.to_nat (b - a)) with 0%nat by lia. Qed.

Lemma zrange_cons a b : a < b → zrange a b = a :: zrange (a + 1) b.
Proof.
  intros H. unfold zrange.
  replace (Z.to_nat (b - a)) with (S (Z.to_nat (b - (a + 1)))) by lia.
  cbn [seq fmap list_fmap]. f_equal; [lia|].
  rewrite <- fmap_S_seq, <- list_fmap_compose.
  apply list_fmap_ext. intros i k _. unfold compose. lia.
Qed.

Lemma zrange_snoc a b : a <= b → zrange a (b + 1) = zrange a b ++ [b].
Proof.
  intros H. unfold zrange.
  replace (Z.to_nat (b + 1 - a)) with (Z.to_nat (b - a) + 1)%nat by lia.
  rewrite seq_app, fmap_app. f_equal. cbn. f_equal. lia.
Qed.

Lemma zrange_lookup a b (k : nat) :
  a + Z.of_nat k < b → zrange a b !! k = Some (a + Z.of_nat k).
Proof.
  intros H. unfold zrange. rewrite list_lookup_fmap, lookup_seq_lt by lia. done.
Qed.

Lemma zrange_app a b c : a <= b <= c → zrange a c = zrange a b ++ zrange b c.
Proof.
  intros H. replace c with (b + Z.of_nat (Z.to_nat (c - b))) by lia.
  induction (Z.to_nat (c - b)) as [|n IH].
  - rewrite (zrange_nil b) by lia. by rewrite Z.add_0_r, app_nil_r.
  - replace (b + Z.of_nat (S n)) with (b + Z.of_nat n + 1) by lia.
    rewrite !zrange_snoc, IH, app_assoc by lia. done.
Qed.

Lemma filter_zrange_none (P : Z → Prop) `{!∀ x, Decision (P x)} a b :
  (∀ i, a <= i < b → ¬ P i) → filter P (zrange a b) = [].
Proof.
  intros Hn. destruct (filter P (zrange a b)) as [|x l] eqn:E; [done|].
  assert (x ∈ filter P (zrange a b)) as [HP Hx%elem_of_zrange]%list_elem_of_filter
    by (rewrite E; apply list_elem_of_here). by destruct (Hn x).
Qed.

Lemma filter_all {A} (P : A → Prop) `{!∀ x, Decision (P x)} l :
  Forall P l → filter P l = l.
Proof. induction 1; [done|]. rewrite filter_cons_True by done. by f_equal. Qed.

(** One index per round of [N] has a given remainder. *)
Lemma filter_mod_zrange N r (q : nat) :
  0 <= r < N →
  filter (λ j, j mod N = r) (zrange 0 (Z.of_nat q * N)) =
  (λ i, i * N + r) <$> zrange 0 (Z.of_nat q).
Proof.
  intros Hr. induction q as [|q IH]; [done|].
  replace (Z.of_nat (S q)) with (Z.of_nat q + 1) by lia.
  rewrite (zrange_snoc 0), fmap_app by lia. set (a := Z.of_nat q * N) in *.
  assert (0 <= a) by nia. replace ((Z.of_nat q + 1) * N) with (a + N) by lia.
  rewrite (zrange_app 0 a), filter_app, IH by lia. f_equal.
  assert (∀ j, a <= j < a + N → j mod N = j - a) as Hm.
  { intros j Hj. rewrite <- (Z.mod_small (j - a) N) by lia.
    unfold a. rewrite <- (Z.mod_add (j - _) (Z.of_nat q)) by lia. f_equal. lia. }
  rewrite (zrange_app a (a + r)), filter_app by lia.
  rewrite (filter_zrange_none _ a) by (intros j Hj; rewrite Hm; lia).
  rewrite zrange_cons by lia. rewrite filter_cons_True by (rewrite Hm; lia).
  rewrite filter_zrange_none by (intros j Hj; rewrite Hm; lia). done.
Qed.

Lemma NoDup_zrange a b : NoDup (zrange a b).
Proof.
  unfold zrange. apply NoDup_fmap_2; [intros x y; lia|]. apply NoDup_seq.
Qed.

(** The last element of a range that satisfies a predicate. *)
Lemma last_filter_zrange (P : Z → Prop) `{!∀ x, Decision (P x)} a b :
  a <= b →
  match last (filter P (zrange a b)) with
  | Some x => a <= x < b ∧ P x ∧ ∀ i, x < i < b → ¬ P i
  | None => ∀ i, a <= i < b → ¬ P i
  end.
Proof.
  intros Hab. replace b with (a + Z.of_nat (Z.to_nat (b - a))) by lia.
  induction (Z.to_nat (b - a)) as [|n IH].
  - rewrite zrange_nil by lia. cbn. intros; lia.
  - replace (a + Z.of_nat (S n)) with (a + Z.of_nat n + 1) by lia.
    rewrite zrange_snoc, filter_app by lia.
    destruct (decide (P (a + Z.of_nat n))) as [HP|HP].
    + rewrite filter_cons_True, filter_nil, last_snoc by done.
      split_and!; [lia|lia|done|intros; lia].
    + rewrite filter_cons_False, filter_nil, app_nil_r by done.
      assert (∀ i, a + Z.of_nat n <= i < a + Z.of_nat n + 1 → ¬ P i).
      { intros i Hi. by replace i with (a + Z.of_nat n) by lia. }
      destruct (last _); [destruct IH as (? & ? & IH); split_and!; try lia; [done|]|];
        intros i Hi; (destruct (decide (i < a + Z.of_nat n)); [apply IH; lia|auto with lia]).
Qed.

(** ** Loops *)

Lemma forM_app {S A} (l1 l2 : list A) (body : A → M S unit) s :
  forM (l1 ++ l2) body s =
  match forM l1 body s with
  | Done _ s' => forM l2 body s'
  | Stopped e s' => Stopped e s'
  end.
Proof.
  revert s. induction l1 as [|x l1 IH]; intros s; [done|].
  cbn [forM app]. unM. destruct (body x s) as [[] s'|e s']; [apply IH|done].
Qed.

(** Invariant rule for [for]: [I] indexed by the elements already visited. *)
Lemma forM_inv {S A} (I : list A → S → Prop) (l : list A) (body : A → M S unit) :
  (∀ done x rest s, l = done ++ x :: rest → I done s →
     ∃ s', body x s = Done tt s' ∧ I (done ++ [x]) s') →
  ∀ s, I [] s → ∃ s', forM l body s = Done tt s' ∧ I l s'.
Proof.
  intros Hstep.
  assert (∀ rest done s, l = done ++ rest → I done s →
            ∃ s', forM rest body s = Done tt s' ∧ I l s') as Hgen.
  { induction rest as [|x rest IH]; intros done s Heq HI.
    - exists s. split; [done|]. by rewrite Heq, app_nil_r.
    - destruct (Hstep done x rest s Heq HI) as (s' & Hb & HI').
      cbn [forM]. unM. rewrite Hb.
      apply (IH (done ++ [x])); [|done]. by rewrite <- app_assoc. }
  intros s HI. by apply (Hgen l []).
Qed.

(** Invariant rule for [for (i = a; i < b; i++)]. *)
Lemma forM_zrange_inv {S} (I : Z → S → Prop) (a b : Z) (body : Z → M S unit) s :
  a <= b → I a s →
  (∀ i s, a <= i < b → I i s → ∃ s', body i s = Done tt s' ∧ I (i + 1) s') →
  ∃ s', forM (zrange a b) body s = Done tt s' ∧ I b s'.
Proof.
  intros Hab Ha Hstep. remember (Z.to_nat (b - a)) as n eqn:Hn.
  revert a s Hab Ha Hstep Hn. induction n as [|n IH]; intros a s Hab Ha Hstep Hn.
  - assert (a = b) as -> by lia. rewrite zrange_nil by lia. by exists s.
  - rewrite zrange_cons by lia. cbn [forM]. unM.
    destruct (Hstep a s) as (s' & -> & Hs'); [lia|done|].
    apply IH; [lia|done| |lia]. intros i s1 Hi. apply Hstep. lia.
Qed.

#[export] Hint Resolve le_bytes_byte NoDup_zrange : fusee.
#[export] Hint Rewrite le_bytes_length zrange_length : fusee.
