(* ===== verification/Mem.v ===== *)
(** * Byte-addressed memory

    The local memory of a client process and the memory region of each memory
    node are maps from addresses to bytes.  RDMA reads and writes copy ranges of
    bytes; the C++ code reads and writes little-endian fields of packed structs
    at fixed offsets. *)

From S2P Require Import Prelude.

Definition mem := Z → Z.

Definition mem_zero : mem := λ _, 0.

(** The little-endian value of the [n] bytes at [a]. *)
Fixpoint load (n : nat) (m : mem) (a : Z) : Z :=
  match n with
  | O => 0
  | S n' => m a mod 256 + 256 * load n' m (a + 1)
  end.

(** [m] with the [n] bytes at [a] set to the little-endian bytes of [v]. *)
Definition store (n : nat) (m : mem) (a v : Z) : mem :=
  λ x, if (a <=? x) && (x <? a + Z.of_nat n) then (v / 256 ^ (x - a)) mod 256 else m x.

(** [memcpy]: [dst] with the [n] bytes at [da] taken from [src] at [sa]. *)
Definition copy (n : Z) (src : mem) (sa : Z) (dst : mem) (da : Z) : mem :=
  λ x, if (da <=? x) && (x <? da + n) then src (sa + (x - da)) else dst x.

(** The [n] bytes at [a], as a list. *)
Definition load_bytes (n : Z) (m : mem) (a : Z) : list Z :=
  (λ i, m (a + i) mod 256) <$> zrange 0 n.

Definition store_bytes (m : mem) (a : Z) (bs : list Z) : mem :=
  λ x, if (a <=? x) && (x <? a + Z.of_nat (length bs))
       then bs !!! Z.to_nat (x - a) else m x.

Definition load8  := load 1.
Definition load16 := load 2.
Definition load32 := load 4.
Definition load64 := load 8.
Definition store8  := store 1.
Definition store16 := store 2.
Definition store32 := store 4.
Definition store64 := store 8.

(** Agreement of two memories on a range. *)
Definition same_on (a n : Z) (m1 m2 : mem) : Prop :=
  ∀ x, a <= x < a + n → m1 x mod 256 = m2 x mod 256.

(** ** Lemmas *)

Lemma load_range n m a : 0 <= load n m a < 256 ^ Z.of_nat n.
Proof.
  revert a; induction n as [|n IH]; intros a; cbn [load]; [cbn; lia|].
  rewrite pow256_S. specialize (IH (a + 1)).
  pose proof (Z.mod_pos_bound (m a) 256 ltac:(lia)). lia.
Qed.

Lemma load_ext n m1 m2 a a' :
  (∀ i, 0 <= i < Z.of_nat n → m1 (a + i) mod 256 = m2 (a' + i) mod 256) →
  load n m1 a = load n m2 a'.
Proof.
  revert a a'; induction n as [|n IH]; intros a a' H; cbn [load]; [done|].
  f_equal.
  - specialize (H 0 ltac:(lia)). by rewrite !Z.add_0_r in H.
  - f_equal. apply IH. intros i Hi. specialize (H (i + 1) ltac:(lia)).
    by rewrite !(Z.add_comm i 1), !Z.add_assoc in H.
Qed.

Lemma load_same_on n m1 m2 a :
  same_on a (Z.of_nat n) m1 m2 → load n m1 a = load n m2 a.
Proof. intros H. apply load_ext. intros i Hi. apply H. lia. Qed.

(** Frame rules: a store or a copy outside the range is not seen. *)
Lemma load_store_ne n k m a b v :
  a + Z.of_nat n <= b ∨ b + Z.of_nat k <= a →
  load n (store k m b v) a = load n m a.
Proof.
  intros H. apply load_ext. intros i Hi. unfold store.
  destruct ((b <=? a + i) && (a + i <? b + Z.of_nat k)) eqn:E; [|done].
  zify_bool. lia.
Qed.

Lemma load_copy_ne n k src sa m a b :
  a + Z.of_nat n <= b ∨ b + k <= a →
  load n (copy k src sa m b) a = load n m a.
Proof.
  intros H. apply load_ext. intros i Hi. unfold copy.
  destruct ((b <=? a + i) && (a + i <? b + k)) eqn:E; [|done].
  zify_bool. lia.
Qed.

(** A load inside a copied range reads the source. *)
Lemma load_copy n k src sa m a b :
  b <= a → a + Z.of_nat n <= b + k →
  load n (copy k src sa m b) a = load n src (sa + (a - b)).
Proof.
  intros H1 H2. apply load_ext. intros i Hi. unfold copy.
  replace ((b <=? a + i) && (a + i <? b + k)) with true.
  - f_equal. f_equal. lia.
  - symmetry. apply andb_true_iff. split; [apply Z.leb_le|apply Z.ltb_lt]; lia.
Qed.

Lemma load_bytes_le n m a : load n m a = le_val (load_bytes (Z.of_nat n) m a).
Proof.
  revert a; induction n as [|n IH]; intros a; [done|].
  cbn [load]. unfold load_bytes. rewrite zrange_cons by lia.
  cbn [fmap list_fmap le_val]. rewrite Z.add_0_r. f_equal. f_equal.
  rewrite IH. unfold load_bytes. f_equal. unfold zrange.
  rewrite <- !list_fmap_compose.
  replace (Z.to_nat (Z.of_nat (S n) - (0 + 1))) with (Z.to_nat (Z.of_nat n - 0)) by lia.
  apply list_fmap_ext. intros i k _. unfold compose. do 2 f_equal. lia.
Qed.

Lemma load_bytes_ext n m1 m2 a a' :
  (∀ i, 0 <= i < n → m1 (a + i) mod 256 = m2 (a' + i) mod 256) →
  load_bytes n m1 a = load_bytes n m2 a'.
Proof.
  intros H. unfold load_bytes. apply list_fmap_ext.
  intros i x Hx. apply H, elem_of_zrange, list_elem_of_lookup. eauto.
Qed.

Lemma load_bytes_length n m a : length (load_bytes n m a) = Z.to_nat n.
Proof. unfold load_bytes. rewrite length_fmap, zrange_length. f_equal. lia. Qed.

Lemma load_bytes_byte n m a : Forall is_byte (load_bytes n m a).
Proof.
  apply Forall_fmap, Forall_forall. intros x _. apply Z.mod_pos_bound. lia.
Qed.

Lemma load_bytes_lookup n m a (k : nat) :
  Z.of_nat k < n → load_bytes n m a !! k = Some (m (a + Z.of_nat k) mod 256).
Proof.
  intros Hk. unfold load_bytes. rewrite list_lookup_fmap, zrange_lookup by lia.
  cbn. do 3 f_equal.
Qed.

(** A list of bytes read from memory is cut where the address is moved. *)
Lemma take_load_bytes (k : nat) n m a :
  Z.of_nat k <= n → take k (load_bytes n m a) = load_bytes (Z.of_nat k) m a.
Proof.
  intros Hk. apply list_eq. intros i. destruct (decide (i < k)%nat) as [Hi|Hi].
  - rewrite lookup_take_lt, !load_bytes_lookup by lia. done.
  - rewrite lookup_take_ge by lia. symmetry. apply lookup_ge_None.
    rewrite load_bytes_length. lia.
Qed.

Lemma drop_load_bytes (k : nat) n m a :
  Z.of_nat k <= n →
  drop k (load_bytes n m a) = load_bytes (n - Z.of_nat k) m (a + Z.of_nat k).
Proof.
  intros Hk. apply list_eq. intros i. rewrite lookup_drop.
  destruct (decide (Z.of_nat i < n - Z.of_nat k)) as [Hi|Hi].
  - rewrite !load_bytes_lookup by lia. do 3 f_equal. lia.
  - rewrite !(proj2 (lookup_ge_None _ _)) by (rewrite load_bytes_length; lia). done.
Qed.

Lemma load_bytes_cons n m a :
  0 < n → load_bytes n m a = m a mod 256 :: load_bytes (n - 1) m (a + 1).
Proof.
  intros Hn. rewrite <- (take_drop 1 (load_bytes n m a)).
  rewrite take_load_bytes, drop_load_bytes by lia.
  change (load_bytes (Z.of_nat 1) m a) with [m (a + 0) mod 256].
  by rewrite Z.add_0_r.
Qed.

(** Reading back what was stored. *)
Lemma store_byte n m a v i :
  0 <= i < Z.of_nat n → store n m a v (a + i) mod 256 = (v / 256 ^ i) mod 256.
Proof.
  intros Hi. unfold store.
  replace ((a <=? a + i) && (a + i <? a + Z.of_nat n)) with true.
  - rewrite Z.mod_mod by lia. do 3 f_equal. lia.
  - symmetry. apply andb_true_iff. split; [apply Z.leb_le|apply Z.ltb_lt]; lia.
Qed.

Lemma load_digits n m a v :
  (∀ i, 0 <= i < Z.of_nat n → m (a + i) mod 256 = (v / 256 ^ i) mod 256) →
  load n m a = v mod 256 ^ Z.of_nat n.
Proof.
  revert a v; induction n as [|n IH]; intros a v H; cbn [load]; [by rewrite Z.mod_1_r|].
  rewrite (IH (a + 1) (v / 256)).
  - specialize (H 0 ltac:(lia)). rewrite Z.add_0_r, Z.pow_0_r, Z.div_1_r in H.
    rewrite H, pow256_S. pose proof (pow256_pos n).
    rewrite Z.rem_mul_r by lia. lia.
  - intros i Hi. specialize (H (i + 1) ltac:(lia)).
    rewrite <- Z.add_assoc, (Z.add_comm 1), H.
    rewrite Z.add_1_r, Z.pow_succ_r, Z.div_div by lia. done.
Qed.

Lemma load_store_eq n m a v : load n (store n m a v) a = v mod 256 ^ Z.of_nat n.
Proof. apply load_digits. intros. by apply store_byte. Qed.

Lemma load64_store64_eq m a v : load64 (store64 m a v) a = u64 v.
Proof. apply load_store_eq. Qed.

#[export] Hint Resolve load_range load_bytes_byte : fusee.
#[export] Hint Rewrite load_bytes_length load64_store64_eq : fusee.

Lemma load_bytes_store_bytes m a bs :
  Forall is_byte bs → load_bytes (Z.of_nat (length bs)) (store_bytes m a bs) a = bs.
Proof.
  intros Hb. apply list_eq. intros k. destruct (decide (k < length bs)%nat) as [Hk|Hk].
  - rewrite load_bytes_lookup by lia. unfold store_bytes.
    rewrite (proj2 (Z.leb_le _ _)), (proj2 (Z.ltb_lt _ _)) by lia. cbn [andb].
    replace (Z.to_nat (a + Z.of_nat k - a)) with k by lia.
    destruct (lookup_lt_is_Some_2 bs k Hk) as [b Eb].
    rewrite (list_lookup_total_correct _ _ _ Eb), Eb. f_equal.
    rewrite Forall_lookup in Hb. apply Z.mod_small. by apply (Hb k).
  - rewrite !(proj2 (lookup_ge_None _ _)); [done|lia|rewrite load_bytes_length; lia].
Qed.

Lemma load_bytes_store_bytes_ne n m a b bs :
  a + n <= b ∨ b + Z.of_nat (length bs) <= a →
  load_bytes n (store_bytes m b bs) a = load_bytes n m a.
Proof.
  intros H. apply load_bytes_ext. intros i Hi. f_equal. unfold store_bytes.
  destruct ((b <=? a + i) && (a + i <? b + Z.of_nat (length bs))) eqn:E; [|done].
  zify_bool. lia.
Qed.

Lemma load_store_bytes_ne n m a b bs :
  a + Z.of_nat n <= b ∨ b + Z.of_nat (length bs) <= a →
  load n (store_bytes m b bs) a = load n m a.
Proof. intros H. rewrite !load_bytes_le. by rewrite load_bytes_store_bytes_ne. Qed.

Lemma load_bytes_copy n k src sa m a b :
  b <= a → a + n <= b + k → load_bytes n (copy k src sa m b) a = load_bytes n src (sa + (a - b)).
Proof.
  intros H1 H2. apply load_bytes_ext. intros i Hi. unfold copy.
  rewrite (proj2 (Z.leb_le b (a + i))), (proj2 (Z.ltb_lt (a + i) (b + k))) by lia. cbn [andb].
  do 2 f_equal. lia.
Qed.

Lemma load_bytes_copy_ne n k src sa m a b :
  a + n <= b ∨ b + k <= a → load_bytes n (copy k src sa m b) a = load_bytes n m a.
Proof.
  intros H. apply load_bytes_ext. intros i Hi. unfold copy.
  destruct ((b <=? a + i) && (a + i <? b + k)) eqn:E; [|done].
  apply andb_true_iff in E as [E1 E2]. apply Z.leb_le in E1. apply Z.ltb_lt in E2. lia.
Qed.

Lemma copy_below n src sa m b x : x < b → copy n src sa m b x = m x.
Proof. intros H. unfold copy. by rewrite (proj2 (Z.leb_gt b x)). Qed.
