(* ===== verification/KvUtils.v ===== *)
(** * Shared structures and encodings ([src/src/kv_utils.h], [src/src/kv_utils.cc])

    The messages exchanged over UDP and their network byte order, the layout of
    the log header and tail kept in every key-value block, the packed garbage
    collection slot, and the loader of the configuration file. *)

From Stdlib Require Import SpecFloat Ascii.
From S2P Require Import Prelude Mem.

(** ** Byte order *)

(** [htons], [htonl], [ntohs] and [ntohl] on a little-endian host: the bytes of
    the argument in the reverse order. *)
Definition bswap (n : nat) (v : Z) : Z := le_val (rev (le_bytes n v)).
Definition htons (v : Z) : Z := bswap 2 v.
Definition ntohs (v : Z) : Z := bswap 2 v.
Definition htonl (v : Z) : Z := bswap 4 v.
Definition ntohl (v : Z) : Z := bswap 4 v.

(** [htonl] takes a [uint32_t]: its argument is truncated by the call. *)
Definition htonll (val : Z) : Z :=
  u64 (u64 (Z.shiftl (htonl (u32 val)) 32) + htonl (u32 (Z.shiftr val 32))).
Definition ntohll (val : Z) : Z :=
  u64 (u64 (Z.shiftl (ntohl (u32 val)) 32) + ntohl (u32 (Z.shiftr val 32))).

(** ** Messages *)

Inductive KVLogOp := KV_OP_INSERT | KV_OP_UPDATE | KV_OP_DELETE | KV_OP_FINISH.
Definition KVLogOp_val (o : KVLogOp) : Z :=
  match o with
  | KV_OP_INSERT => 1 | KV_OP_UPDATE => 2 | KV_OP_DELETE => 3 | KV_OP_FINISH => 4
  end.

(** [enum KVMsgType], as the numbers that travel in the [type] field. *)
Definition REQ_CONNECT : Z := 0.
Definition REQ_ALLOC : Z := 1.
Definition REQ_ALLOC_SUBTABLE : Z := 2.
Definition REP_CONNECT : Z := 3.
Definition REP_ALLOC : Z := 4.
Definition REP_ALLOC_SUBTABLE : Z := 5.

Record QpInfo := mkQpInfo {
  qp_num : Z; lid : Z; port_num : Z; gid : list Z; gid_idx : Z }.
Record MrInfo := mkMrInfo { mr_addr : Z; rkey : Z }.
Record ConnInfo := mkConnInfo { qp_info : QpInfo; gc_info : MrInfo }.

(** The [union] of a message; a member that was not the last one written is not
    read by the program, and reading it is undefined here. *)
Inductive KVMsgBody := conn_info (c : ConnInfo) | mr_info (m : MrInfo).
Record KVMsg := mkKVMsg { msg_type : Z; msg_id : Z; msg_body : KVMsgBody }.

#[export] Instance MrInfo_eq : EqDecision MrInfo.
Proof. solve_decision. Defined.
#[export] Instance QpInfo_eq : EqDecision QpInfo.
Proof. solve_decision. Defined.
#[export] Instance ConnInfo_eq : EqDecision ConnInfo.
Proof. solve_decision. Defined.
#[export] Instance KVMsgBody_eq : EqDecision KVMsgBody.
Proof. solve_decision. Defined.
#[export] Instance KVMsg_eq : EqDecision KVMsg.
Proof. solve_decision. Defined.

Definition serialize_qp_info (q : QpInfo) : QpInfo :=
  mkQpInfo (htonl (qp_num q)) (htons (lid q)) (port_num q) (gid q) (gid_idx q).
Definition deserialize_qp_info (q : QpInfo) : QpInfo :=
  mkQpInfo (ntohl (qp_num q)) (ntohs (lid q)) (port_num q) (gid q) (gid_idx q).
Definition serialize_mr_info (m : MrInfo) : MrInfo :=
  mkMrInfo (htonll (mr_addr m)) (htonl (rkey m)).
Definition deserialize_mr_info (m : MrInfo) : MrInfo :=
  mkMrInfo (ntohll (mr_addr m)) (ntohl (rkey m)).
Definition serialize_conn_info (c : ConnInfo) : ConnInfo :=
  mkConnInfo (serialize_qp_info (qp_info c)) (serialize_mr_info (gc_info c)).
Definition deserialize_conn_info (c : ConnInfo) : ConnInfo :=
  mkConnInfo (deserialize_qp_info (qp_info c)) (deserialize_mr_info (gc_info c)).

(** The [switch] on the message type: which member of the union it selects. *)
Definition is_conn_type (t : Z) : bool := (t =? REQ_CONNECT) || (t =? REP_CONNECT).
Definition is_mr_type (t : Z) : bool :=
  (t =? REQ_ALLOC) || (t =? REP_ALLOC) || (t =? REQ_ALLOC_SUBTABLE)
  || (t =? REP_ALLOC_SUBTABLE).

Definition on_body (t : Z) (fc : ConnInfo → ConnInfo) (fm : MrInfo → MrInfo)
    (b : KVMsgBody) : option KVMsgBody :=
  if is_conn_type t then
    match b with conn_info c => Some (conn_info (fc c)) | mr_info _ => None end
  else if is_mr_type t then
    match b with mr_info m => Some (mr_info (fm m)) | conn_info _ => None end
  else Some b.

(** [None] stands for the read of the union's inactive member. *)
Definition serialize_kvmsg (k : KVMsg) : option KVMsg :=
  b ← on_body (msg_type k) serialize_conn_info serialize_mr_info (msg_body k);
  Some (mkKVMsg (htons (msg_type k)) (htons (msg_id k)) b).

Definition deserialize_kvmsg (k : KVMsg) : option KVMsg :=
  let t := ntohs (msg_type k) in
  let i := ntohs (msg_id k) in
  b ← on_body t deserialize_conn_info deserialize_mr_info (msg_body k);
  Some (mkKVMsg t i b).

(** ** The log header and tail of a key-value block

    [struct KVLogHeader] and [struct KVLogTail] are not packed: the offsets are
    the ones of the System V layout. *)

Definition sizeof_KVLogHeader : Z := 8.
Definition off_is_valid : Z := 0.
Definition off_key_length : Z := 2.
Definition off_value_length : Z := 4.

Definition sizeof_KVLogTail : Z := 32.
Definition off_next_addr : Z := 0.
Definition off_prev_addr : Z := 6.
Definition off_old_value : Z := 16.
Definition off_crc : Z := 24.
Definition off_op : Z := 25.

Definition log_is_valid (m : mem) (head : Z) : bool :=
  load8 m (head + off_is_valid) =? 1.
Definition log_is_committed (m : mem) (tail : Z) : bool :=
  negb (load64 m (tail + off_old_value) =? 0).
Definition log_is_insert (m : mem) (tail : Z) : bool :=
  load8 m (tail + off_op) =? KVLogOp_val KV_OP_INSERT.

Definition roundup_256 (len : Z) : Z :=
  if len mod 256 =? 0 then len else u64 ((len / 256 + 1) * 256).

(** [uint64_t] arithmetic: the additions wrap. *)
Definition round_up (addr align : Z) : Z :=
  u64 (u64 (addr + align - 1) - u64 (addr + align - 1) mod align).

(** ** Garbage collection slots *)

Definition BLOCK_ADDR_BMASK : Z := 0x1FFFFF.
Definition BLOCK_OFF_BMASK : Z := 0x3FFFF.
Definition SUBBLOCK_NUM_BMASK : Z := 0xF.

Record DecodedClientGCSlot := mkGCSlot {
  pr_addr : Z; bk_addr : Z; num_subblocks : Z }.

Definition encode_gc_slot (d : DecodedClientGCSlot) : Z :=
  let masked_block_off := Z.land (Z.shiftr (pr_addr d) 8) BLOCK_OFF_BMASK in
  let masked_pr_addr := Z.land (Z.shiftr (pr_addr d) 26) BLOCK_ADDR_BMASK in
  let masked_bk_addr := Z.land (Z.shiftr (bk_addr d) 26) BLOCK_ADDR_BMASK in
  let masked_num_subblock := Z.land (num_subblocks d) SUBBLOCK_NUM_BMASK in
  Z.lor (Z.lor (Z.lor (u64 (Z.shiftl masked_block_off 46))
                      (u64 (Z.shiftl masked_pr_addr 25)))
               (u64 (Z.shiftl masked_bk_addr 4)))
        masked_num_subblock.

Definition decode_gc_slot (e : Z) : DecodedClientGCSlot :=
  let block_offset := Z.shiftr e 46 in
  let pr_block_addr := Z.land (Z.shiftr e 25) BLOCK_ADDR_BMASK in
  let bk_block_addr := Z.land (Z.shiftr e 4) BLOCK_ADDR_BMASK in
  let num := u8 (Z.land e SUBBLOCK_NUM_BMASK) in
  mkGCSlot (Z.lor (u64 (Z.shiftl pr_block_addr 26)) (u64 (Z.shiftl block_offset 8)))
           (Z.lor (u64 (Z.shiftl bk_block_addr 26)) (u64 (Z.shiftl block_offset 8)))
           num.

(** ** The configuration file *)

Record GlobalConfig := mkGlobalConfig {
  role : Z; conn_type : Z; server_id : Z; udp_port : Z; memory_num : Z;
  memory_ips : gmap Z string;
  ib_dev_id : Z; ib_port_id : Z; ib_gid_idx : Z;
  server_base_addr : Z; server_data_len : Z; block_size : Z; subblock_size : Z;
  client_local_size : Z;
  num_replication : Z; num_idx_rep : Z; num_coroutines : Z;
  main_core_id : Z; poll_core_id : Z; bg_core_id : Z; gc_core_id : Z;
  is_recovery : Z;
  miss_rate_threash : spec_float; workload_run_time : Z; micro_workload_num : Z }.

#[global] Instance eta_GlobalConfig : Eta GlobalConfig := λ c,
  mkGlobalConfig (role c) (conn_type c) (server_id c) (udp_port c) (memory_num c)
    (memory_ips c) (ib_dev_id c) (ib_port_id c) (ib_gid_idx c) (server_base_addr c)
    (server_data_len c) (block_size c) (subblock_size c) (client_local_size c)
    (num_replication c) (num_idx_rep c) (num_coroutines c) (main_core_id c)
    (poll_core_id c) (bg_core_id c) (gc_core_id c) (is_recovery c)
    (miss_rate_threash c) (workload_run_time c) (micro_workload_num c).

Definition CLIENT : Z := 0.
Definition SERVER : Z := 1.
Definition IB : Z := 0.
Definition ROCE : Z := 1.

(** What [load_config] asks of a [boost::property_tree]: [get<T>(key)] is [None]
    where it throws a [ptree_error] (the key is missing or is not a [T]). *)
Record ptree := mkPtree {
  pt_string : string → option string;
  pt_u16 : string → option Z;
  pt_u32 : string → option Z;
  pt_u64 : string → option Z;
  pt_int : string → option Z;
  pt_float : string → option spec_float;
  (** [get_child(key)], each child read with [get<std::string>("")] *)
  pt_children : string → option (list (option string)) }.

(** [get<T>(key, default)] *)
Definition get_or {A} (o : option A) (d : A) : A := default d o.

(** The [float] nearest to [0.1]. *)
Definition float_0_1 : spec_float := S754_finite false 13421773 (-27).

(** [sscanf(s, "0x%lx", &x)]: the value assigned, if the input matches. *)
Definition hex_digit (c : ascii) : option Z :=
  let n := Z.of_nat (nat_of_ascii c) in
  if (48 <=? n) && (n <=? 57) then Some (n - 48)
  else if (65 <=? n) && (n <=? 70) then Some (n - 55)
  else if (97 <=? n) && (n <=? 102) then Some (n - 87)
  else None.

Fixpoint hex_digits (s : string) (acc : Z) : Z :=
  match s with
  | EmptyString => acc
  | String c s' =>
      match hex_digit c with Some d => hex_digits s' (acc * 16 + d) | None => acc end
  end.

Fixpoint skip_spaces (s : string) : string :=
  match s with
  | String c s' =>
      let n := nat_of_ascii c in
      if (Nat.eqb n 32 || (Nat.leb 9 n && Nat.leb n 13))%nat then skip_spaces s' else s
  | EmptyString => s
  end.

Definition opt_0x (s : string) : string :=
  match s with
  | String "0" (String "x" s') | String "0" (String "X" s') => s'
  | _ => s
  end.

Definition scan_lx (s : string) : option Z :=
  let s := skip_spaces s in
  let '(neg, s) := match s with
                   | String "-" s' => (true, s')
                   | String "+" s' => (false, s')
                   | _ => (false, s)
                   end in
  let s := opt_0x s in
  match s with
  | String c _ =>
      match hex_digit c with
      | Some _ =>
          let v := hex_digits s 0 in
          if 2 ^ 64 <=? v then Some (2 ^ 64 - 1)
          else Some (if neg : bool then u64 (- v) else v)
      | None => None
      end
  | EmptyString => None
  end.

Definition sscanf_0x_lx (s : string) : option Z :=
  match s with
  | String "0" (String "x" s') => scan_lx s'
  | _ => None
  end.

(** A [get] that throws leaves the [try] block: the fields already assigned
    keep their new values and the function returns [-1]. *)
Definition need {A} (o : option A) (k : A → M GlobalConfig Z) : M GlobalConfig Z :=
  match o with Some a => k a | None => mret (-1) end.

(** The loop over [memory_ips]: [strcpy] into [memory_ips[i]], undefined when the
    row or the string does not fit the [char [16][16]]. *)
Fixpoint load_ips (i : Z) (vs : list (option string)) (k : M GlobalConfig Z)
    : M GlobalConfig Z :=
  match vs with
  | [] => k
  | v :: vs' =>
      need v (λ ip,
        if (i <? 16) && (Z.of_nat (String.length ip) <? 16) then
          modify (λ c, c <| memory_ips ::= <[i := ip]> |>) ;; load_ips (i + 1) vs' k
        else stopm Undefined)
  end.

(** [json] is the result of [read_json]: [None] if it throws. *)
Definition load_config (json : option ptree) : M GlobalConfig Z :=
  need json (λ pt,
  need (pt_string pt "role") (λ role_str,
  modify (λ c, c <| role := if bool_decide (role_str = "SERVER") then SERVER else CLIENT |>) ;;
  need (pt_string pt "conn_type") (λ conn_type_str,
  modify (λ c, c <| conn_type := if bool_decide (conn_type_str = "IB") then IB else ROCE |>) ;;
  need (pt_u32 pt "server_id") (λ v, modify (λ c, c <| server_id := v |>) ;;
  need (pt_u16 pt "udp_port") (λ v, modify (λ c, c <| udp_port := v |>) ;;
  need (pt_u16 pt "memory_num") (λ v, modify (λ c, c <| memory_num := v |>) ;;
  need (pt_children pt "memory_ips") (λ ips,
  load_ips 0 ips (
  need (pt_u32 pt "ib_dev_id") (λ v, modify (λ c, c <| ib_dev_id := v |>) ;;
  need (pt_u32 pt "ib_port_id") (λ v, modify (λ c, c <| ib_port_id := v |>) ;;
  modify (λ c, c <| ib_gid_idx := i32 (get_or (pt_u32 pt "ib_gid_idx") (u32 (-1))) |>) ;;
  need (pt_string pt "server_base_addr") (λ s,
  modify (λ c, c <| server_base_addr := default (server_base_addr c) (sscanf_0x_lx s) |>) ;;
  need (pt_u64 pt "server_data_len") (λ v, modify (λ c, c <| server_data_len := v |>) ;;
  need (pt_u64 pt "block_size") (λ v, modify (λ c, c <| block_size := v |>) ;;
  need (pt_u64 pt "subblock_size") (λ v, modify (λ c, c <| subblock_size := v |>) ;;
  need (pt_u64 pt "client_local_size") (λ v, modify (λ c, c <| client_local_size := v |>) ;;
  need (pt_u32 pt "num_replication") (λ v, modify (λ c, c <| num_replication := v |>) ;;
  modify (λ c, c <| num_coroutines := get_or (pt_u32 pt "num_coroutines") 1 |>) ;;
  modify (λ c, c <| main_core_id := get_or (pt_u32 pt "main_core_id") 0 |>) ;;
  modify (λ c, c <| poll_core_id := get_or (pt_u32 pt "poll_core_id") 0 |>) ;;
  modify (λ c, c <| bg_core_id := get_or (pt_u32 pt "bg_core_id") 0 |>) ;;
  modify (λ c, c <| gc_core_id := get_or (pt_u32 pt "gc_core_id") 0 |>) ;;
  modify (λ c, c <| is_recovery := i32 (get_or (pt_u32 pt "is_recovery") 0) |>) ;;
  modify (λ c, c <| num_idx_rep := get_or (pt_u32 pt "num_idx_rep") 1 |>) ;;
  modify (λ c, c <| miss_rate_threash := get_or (pt_float pt "miss_rate_threash") float_0_1 |>) ;;
  modify (λ c, c <| workload_run_time := get_or (pt_int pt "workload_run_time") 10 |>) ;;
  modify (λ c, c <| micro_workload_num := get_or (pt_int pt "micro_workload_num") 10000 |>) ;;
  mret 0)))))))))))))))).

(** ** Lemmas and theorems *)

Lemma bswap_invol n v : bswap n (bswap n v) = v mod 256 ^ Z.of_nat n.
Proof.
  unfold bswap. pose proof (le_bytes_byte n v) as Hb.
  rewrite <- (le_bytes_length n v) at 1.
  rewrite <- length_rev, le_bytes_val by (by apply Forall_rev).
  by rewrite rev_involutive, le_val_bytes.
Qed.

Lemma bswap_range n v : 0 <= bswap n v < 256 ^ Z.of_nat n.
Proof.
  unfold bswap.
  pose proof (le_val_bound (rev (le_bytes n v))) as H.
  rewrite length_rev, le_bytes_length in H. apply H, Forall_rev, le_bytes_byte.
Qed.

Lemma ntohs_htons v : in_u16 v → ntohs (htons v) = v.
Proof. intros H. unfold ntohs, htons. rewrite bswap_invol. by apply Z.mod_small. Qed.

Lemma ntohl_htonl v : in_u32 v → ntohl (htonl v) = v.
Proof. intros H. unfold ntohl, htonl. rewrite bswap_invol. by apply Z.mod_small. Qed.

(** [htonll] swaps the two halves and the bytes of each. *)
Lemma htonll_split v :
  htonll v = htonl (u32 v) * 2 ^ 32 + htonl (u32 (v / 2 ^ 32)).
Proof.
  unfold htonll, u64. bits_to_arith.
  pose proof (bswap_range 4 (u32 v)). pose proof (bswap_range 4 (u32 (v / 2 ^ 32))).
  unfold htonl. rewrite (Z.mod_small (_ * _)) by lia. apply Z.mod_small. lia.
Qed.

Lemma ntohll_htonll v : in_u64 v → ntohll (htonll v) = v.
Proof.
  intros Hv. assert (ntohll = htonll) as -> by reflexivity.
  rewrite (htonll_split (htonll v)), htonll_split.
  set (hi := u32 v). set (lo := u32 (v / 2 ^ 32)).
  pose proof (bswap_range 4 hi) as H1. pose proof (bswap_range 4 lo) as H2.
  change (256 ^ Z.of_nat 4) with (2 ^ 32) in *.
  fold (htonl hi) in H1. fold (htonl lo) in H2.
  assert (u32 (htonl hi * 2 ^ 32 + htonl lo) = htonl lo) as ->.
  { unfold u32. rewrite Z.add_comm, Z.mod_add by lia. by apply Z.mod_small. }
  assert (u32 ((htonl hi * 2 ^ 32 + htonl lo) / 2 ^ 32) = htonl hi) as ->.
  { unfold u32. rewrite Z.div_add_l, (Z.div_small (htonl lo)), Z.add_0_r by lia.
    by apply Z.mod_small. }
  change htonl with ntohl at 1 3.
  rewrite !ntohl_htonl by (apply Z.mod_pos_bound; lia).
  subst hi lo. unfold u32, in_u64 in *.
  rewrite (Z.mod_small (v / 2 ^ 32)) by (split; [apply Z.div_pos|apply Z.div_lt_upper_bound]; lia).
  pose proof (Z.div_mod v (2 ^ 32)). lia.
Qed.

(** A message the program builds: fields within their widths, and the union
    holding the member its type selects. *)
Definition mr_wf (m : MrInfo) : Prop := in_u64 (mr_addr m) ∧ in_u32 (rkey m).
Definition conn_wf (c : ConnInfo) : Prop :=
  in_u32 (qp_num (qp_info c)) ∧ in_u16 (lid (qp_info c)) ∧ mr_wf (gc_info c).
Definition kvmsg_wf (k : KVMsg) : Prop :=
  in_u16 (msg_type k) ∧ in_u16 (msg_id k) ∧
  match msg_body k with
  | conn_info c => conn_wf c ∧ is_mr_type (msg_type k) = false
  | mr_info m => mr_wf m ∧ is_conn_type (msg_type k) = false
  end.

Lemma deserialize_serialize_mr_info m :
  mr_wf m → deserialize_mr_info (serialize_mr_info m) = m.
Proof.
  destruct m as [a r]. intros [Ha Hr]. unfold deserialize_mr_info, serialize_mr_info.
  cbn [mr_addr rkey] in *. by rewrite ntohll_htonll, ntohl_htonl.
Qed.

Lemma deserialize_serialize_conn_info c :
  conn_wf c → deserialize_conn_info (serialize_conn_info c) = c.
Proof.
  destruct c as [[q l p g gi] m]. intros (Hq & Hl & Hm).
  unfold deserialize_conn_info, serialize_conn_info, deserialize_qp_info,
    serialize_qp_info. cbn [qp_info gc_info qp_num lid port_num gid gid_idx] in *.
  by rewrite ntohl_htonl, ntohs_htons, deserialize_serialize_mr_info.
Qed.

Lemma serialize_deserialize (k : KVMsg) :
  kvmsg_wf k → ∃ w, serialize_kvmsg k = Some w ∧ deserialize_kvmsg w = Some k.
Proof.
  destruct k as [t i b]. intros (Ht & Hi & Hb). cbn in Ht, Hi, Hb.
  unfold serialize_kvmsg, on_body; cbn [msg_type msg_id msg_body].
  destruct b as [c|m]; destruct Hb as [Hwf Hty];
    destruct (is_conn_type t) eqn:Ec; try done; try rewrite Hty;
    try (destruct (is_mr_type t) eqn:Em; [|]); cbn [mbind option_bind];
    (eexists; split; [reflexivity|]);
    unfold deserialize_kvmsg, on_body; cbn [msg_type msg_id msg_body];
    rewrite !ntohs_htons, Ec by done; try rewrite Hty; try rewrite Em;
    cbn [mbind option_bind];
    rewrite ?deserialize_serialize_conn_info, ?deserialize_serialize_mr_info by done; done.
Qed.

(** C40. Round trip of the UDP messages: [deserialize_kvmsg] undoes
    [serialize_kvmsg] on every well-formed message, of any type (the two
    families the [switch] knows and the ones it leaves alone), although the two
    functions look at the [type] field in different byte orders. *)
Theorem kvmsg_roundtrip (k : KVMsg) :
  kvmsg_wf k → (w ← serialize_kvmsg k; deserialize_kvmsg w) = Some k.
Proof.
  intros H. destruct (serialize_deserialize k H) as (w & -> & Hw). exact Hw.
Qed.

Example kvmsg_roundtrip_witness :
  (w ← serialize_kvmsg (mkKVMsg REQ_ALLOC 7 (mr_info (mkMrInfo 0x10000000 99)));
   deserialize_kvmsg w) = Some (mkKVMsg REQ_ALLOC 7 (mr_info (mkMrInfo 0x10000000 99))).
Proof.
  apply (kvmsg_roundtrip (mkKVMsg REQ_ALLOC 7 (mr_info (mkMrInfo 0x10000000 99)))).
  repeat split; vm_compute; congruence.
Defined.

(** A decoded slot of the region the encoding can address: 256-byte granularity,
    47-bit addresses, and primary and backup at the same offset of their 64 MB
    blocks. *)
Definition gc_slot_wf (d : DecodedClientGCSlot) : Prop :=
  0 <= pr_addr d < 2 ^ 47 ∧ 0 <= bk_addr d < 2 ^ 47 ∧
  pr_addr d mod 256 = 0 ∧ bk_addr d mod 2 ^ 26 = pr_addr d mod 2 ^ 26 ∧
  0 <= num_subblocks d < 16.

Lemma encode_gc_slot_arith d :
  encode_gc_slot d =
  ((pr_addr d / 2 ^ 8) mod 2 ^ 18) * 2 ^ 46 + ((pr_addr d / 2 ^ 26) mod 2 ^ 21) * 2 ^ 25
  + ((bk_addr d / 2 ^ 26) mod 2 ^ 21) * 2 ^ 4 + num_subblocks d mod 2 ^ 4.
Proof.
  unfold encode_gc_slot, BLOCK_OFF_BMASK, BLOCK_ADDR_BMASK, SUBBLOCK_NUM_BMASK.
  change 0x3FFFF with (2 ^ 18 - 1). change 0x1FFFFF with (2 ^ 21 - 1).
  change 0xF with (2 ^ 4 - 1). rewrite !land_mask by lia. bits_to_arith.
  pose proof (Z.mod_pos_bound (pr_addr d / 2 ^ 8) (2 ^ 18) ltac:(lia)).
  pose proof (Z.mod_pos_bound (pr_addr d / 2 ^ 26) (2 ^ 21) ltac:(lia)).
  pose proof (Z.mod_pos_bound (bk_addr d / 2 ^ 26) (2 ^ 21) ltac:(lia)).
  pose proof (Z.mod_pos_bound (num_subblocks d) (2 ^ 4) ltac:(lia)).
  unfold u64. rewrite !(Z.mod_small (_ * _)) by lia.
  rewrite (lor_disjoint _ _ 46) by lia.
  replace (_ * 2 ^ 46 + _ * 2 ^ 25) with
    ((((pr_addr d / 2 ^ 8) mod 2 ^ 18) * 2 ^ 21 + (pr_addr d / 2 ^ 26) mod 2 ^ 21) * 2 ^ 25) by lia.
  rewrite (lor_disjoint _ _ 25) by lia.
  match goal with |- Z.lor (?a * 2 ^ 25 + ?b * 2 ^ 4) _ = _ =>
    replace (a * 2 ^ 25 + b * 2 ^ 4) with ((a * 2 ^ 21 + b) * 2 ^ 4) by lia end.
  rewrite (lor_disjoint _ _ 4) by lia. lia.
Qed.

Lemma decode_gc_slot_arith e :
  in_u64 e →
  decode_gc_slot e =
  mkGCSlot ((e / 2 ^ 25) mod 2 ^ 21 * 2 ^ 26 + e / 2 ^ 46 * 2 ^ 8)
           ((e / 2 ^ 4) mod 2 ^ 21 * 2 ^ 26 + e / 2 ^ 46 * 2 ^ 8) (e mod 2 ^ 4).
Proof.
  intros He. unfold decode_gc_slot, BLOCK_ADDR_BMASK, SUBBLOCK_NUM_BMASK, in_u64 in *.
  change 0x1FFFFF with (2 ^ 21 - 1). change 0xF with (2 ^ 4 - 1).
  rewrite !land_mask by lia. bits_to_arith. unfold u64, u8.
  pose proof (Z.mod_pos_bound (e / 2 ^ 25) (2 ^ 21) ltac:(lia)).
  pose proof (Z.mod_pos_bound (e / 2 ^ 4) (2 ^ 21) ltac:(lia)).
  pose proof (Z.mod_pos_bound e (2 ^ 4) ltac:(lia)).
  assert (0 <= e / 2 ^ 46 < 2 ^ 18)
    by (split; [apply Z.div_pos|apply Z.div_lt_upper_bound]; lia).
  rewrite !(Z.mod_small (_ * _)) by lia. rewrite (Z.mod_small _ (2 ^ 8)) by lia.
  rewrite !(lor_disjoint _ _ 26) by lia. done.
Qed.

(** The two halves of a decoded address. *)
Lemma split_block_off a o :
  0 <= o < 2 ^ 18 → ((a * 2 ^ 26 + o * 2 ^ 8) / 2 ^ 8) mod 2 ^ 18 = o.
Proof. intros. Z.to_euclidean_division_equations. lia. Qed.

Lemma split_block_addr a o :
  0 <= o < 2 ^ 18 → 0 <= a < 2 ^ 21 → ((a * 2 ^ 26 + o * 2 ^ 8) / 2 ^ 26) mod 2 ^ 21 = a.
Proof. intros. Z.to_euclidean_division_equations. lia. Qed.

(** Round trips of the garbage collection slot: a decoded slot whose two
    addresses share their offset is recovered from its 64-bit encoding, and
    every 64-bit value is the encoding of what it decodes to. *)
Lemma gc_slot_roundtrip :
  (∀ d, gc_slot_wf d → decode_gc_slot (encode_gc_slot d) = d) ∧
  (∀ e, in_u64 e → encode_gc_slot (decode_gc_slot e) = e).
Proof.
  split.
  - intros [p b n] (Hp & Hb & Hp8 & Hoff & Hn). cbn in *.
    assert (in_u64 (encode_gc_slot (mkGCSlot p b n))) as He.
    { rewrite encode_gc_slot_arith. cbn. unfold in_u64.
      Z.to_euclidean_division_equations. lia. }
    rewrite decode_gc_slot_arith by done. rewrite encode_gc_slot_arith. cbn.
    f_equal; Z.to_euclidean_division_equations; lia.
  - intros e He. rewrite decode_gc_slot_arith by done. rewrite encode_gc_slot_arith.
    cbn [pr_addr bk_addr num_subblocks]. unfold in_u64 in He.
    assert (0 <= e / 2 ^ 46 < 2 ^ 18) as Ho
      by (split; [apply Z.div_pos|apply Z.div_lt_upper_bound]; lia).
    pose proof (Z.mod_pos_bound (e / 2 ^ 25) (2 ^ 21) ltac:(lia)) as Hp.
    pose proof (Z.mod_pos_bound (e / 2 ^ 4) (2 ^ 21) ltac:(lia)) as Hb.
    rewrite !(split_block_off _ _) , !(split_block_addr _ _), Z.mod_mod by lia.
    Z.to_euclidean_division_equations. lia.
Qed.
