(* ===== verification/HashTable.v ===== *)
(** * The RACE hash index ([src/src/hashtable.h], [src/src/hashtable.cc])

    Constants and layouts of the index, the key hash, the fingerprint, the two
    bucket choices, the 40-bit pointer encoding, the scan for a free slot of a
    bucket and the comparison of keys. *)

From S2P Require Import Prelude Mem KvUtils.

(** ** Constants *)

Definition RACE_HASH_GLOBAL_DEPTH : Z := 5.
Definition RACE_HASH_INIT_LOCAL_DEPTH : Z := 5.
Definition RACE_HASH_SUBTABLE_NUM : Z := Z.shiftl 1 RACE_HASH_GLOBAL_DEPTH.
Definition RACE_HASH_INIT_SUBTABLE_NUM : Z := Z.shiftl 1 RACE_HASH_INIT_LOCAL_DEPTH.
Definition RACE_HASH_MAX_GLOBAL_DEPTH : Z := 5.
Definition RACE_HASH_MAX_SUBTABLE_NUM : Z := Z.shiftl 1 RACE_HASH_MAX_GLOBAL_DEPTH.
Definition RACE_HASH_ADDRESSABLE_BUCKET_NUM : Z := 34000.
Definition RACE_HASH_SUBTABLE_BUCKET_NUM : Z := RACE_HASH_ADDRESSABLE_BUCKET_NUM * 3 / 2.
Definition RACE_HASH_ASSOC_NUM : Z := 7.
Definition SUBTABLE_USED_HASH_BIT_NUM : Z := 32.
(** [(1 << n) - 1] on [int]. *)
Definition RACE_HASH_MASK (n : Z) : Z := i32 (Z.shiftl 1 n) - 1.
Definition MAX_REP_NUM : Z := 10.

Definition sizeof_RaceHashSlot : Z := 8.
Definition sizeof_RaceHashBucket : Z := 64.
Definition sizeof_RaceHashRoot : Z := 16 * 8 + RACE_HASH_MAX_SUBTABLE_NUM * MAX_REP_NUM * 8.

Definition ROOT_RES_LEN : Z := sizeof_RaceHashRoot.
Definition SUBTABLE_LEN : Z := RACE_HASH_ADDRESSABLE_BUCKET_NUM * sizeof_RaceHashBucket.
Definition SUBTABLE_RES_LEN : Z := RACE_HASH_MAX_SUBTABLE_NUM * SUBTABLE_LEN.
Definition META_AREA_LEN : Z := 256 * 1024 * 1024.
Definition GC_AREA_LEN : Z := 0.
Definition HASH_AREA_LEN : Z := 128 * 1024 * 1024.
Definition CLIENT_META_LEN : Z := 1 * 1024 * 1024.
Definition CLIENT_GC_LEN : Z := 1 * 1024 * 1024.

(** ** Slots and buckets *)

(** [struct RaceHashSlot], packed in 8 bytes; [pointer] has five of them. *)
Record RaceHashSlot := mkSlot {
  fp : Z; kv_len : Z; slot_server_id : Z; pointer : list Z }.

#[export] Instance RaceHashSlot_eq : EqDecision RaceHashSlot.
Proof. solve_decision. Defined.

Definition slot_wf (s : RaceHashSlot) : Prop :=
  in_u8 (fp s) ∧ in_u8 (kv_len s) ∧ in_u8 (slot_server_id s) ∧
  length (pointer s) = 5%nat ∧ Forall is_byte (pointer s).

(** A [RaceHashSlot *] dereferenced. *)
Definition slot_at (m : mem) (a : Z) : RaceHashSlot :=
  mkSlot (load8 m a) (load8 m (a + 1)) (load8 m (a + 2)) (load_bytes 5 m (a + 3)).

(** [&bucket->slots[i]] *)
Definition bucket_slot (bucket i : Z) : Z := bucket + 8 + i * sizeof_RaceHashSlot.

(** [*(uint64_t * )slot] *)
Definition ConvertSlotToInt (s : RaceHashSlot) : Z :=
  le_val (fp s :: kv_len s :: slot_server_id s :: pointer s).

Definition HashIndexConvert40To64Bits (addr : list Z) : Z :=
  let b i := addr !!! i in
  Z.lor (Z.lor (Z.lor (Z.lor (Z.lor 0 (u64 (Z.shiftl (b 0%nat) 40)))
                             (u64 (Z.shiftl (b 1%nat) 32)))
                      (u64 (Z.shiftl (b 2%nat) 24)))
               (u64 (Z.shiftl (b 3%nat) 16)))
        (u64 (Z.shiftl (b 4%nat) 8)).

Definition HashIndexConvert64To40Bits (addr : Z) : list Z :=
  (λ sh, u8 (Z.land (Z.shiftr addr sh) 0xFF)) <$> [40; 32; 24; 16; 8].

(** The fields [ConvertSlotToAddr] fills: [server_id] and [r_kv_addr]. *)
Definition ConvertSlotToAddr (s : RaceHashSlot) : Z * Z :=
  (slot_server_id s, HashIndexConvert40To64Bits (pointer s)).

Definition SubtableFirstIndex (hash_value capacity : Z) : Z :=
  hash_value mod (capacity / 2).

Definition SubtableSecondIndex (hash_value f_index capacity : Z) : Z :=
  let hash := u32 hash_value in
  let partial := u16 (Z.shiftr hash 16) in
  let non_sero_tag := u16 (Z.shiftl (Z.shiftr partial 1) 1 + 1) in
  let hash_of_tag := u64 (non_sero_tag * 0xc6a4a7935bd1e995) in
  u64 (Z.lxor f_index hash_of_tag mod (capacity / 2) + capacity / 2).

Definition IsEmptyPointer (pointer : list Z) (num : Z) : bool :=
  forallb (λ i, pointer !!! Z.to_nat i =? 0) (zrange 0 num).

Definition slot_is_free (s : RaceHashSlot) : bool :=
  (fp s =? 0) && (kv_len s =? 0) && IsEmptyPointer (pointer s) 5.

(** Returns [free_num] and writes the last free index through [free_idx]. *)
Definition GetFreeSlotNum (m : mem) (bucket : Z) : Z * Z :=
  fold_left
    (λ '(free_num, free_idx) i,
       if slot_is_free (slot_at m (bucket_slot bucket i))
       then (free_num + 1, i) else (free_num, free_idx))
    (zrange 0 RACE_HASH_ASSOC_NUM) (0, RACE_HASH_ASSOC_NUM).

(** ** The hash of a key *)

Definition NUMBER64_1 : Z := 11400714785074694791.
Definition NUMBER64_2 : Z := 14029467366897019727.
Definition NUMBER64_3 : Z := 1609587929392839161.
Definition NUMBER64_4 : Z := 9650029242287828579.
Definition NUMBER64_5 : Z := 2870177450012600261.

Definition shifting_hash (x r : Z) : Z :=
  Z.lor (u64 (Z.shiftl x r)) (Z.shiftr x (64 - r)).

(** Both branches read the word at [ptr]: the structs hold one field. *)
Definition hash_read64_align (m : mem) (ptr align : Z) : Z :=
  if align =? 0 then load64 m ptr else load64 m ptr.
Definition hash_read32_align (m : mem) (ptr align : Z) : Z :=
  if align =? 0 then load32 m ptr else load32 m ptr.

(** [v += x * NUMBER64_2; v = rotl(v, 31); v *= NUMBER64_1] *)
Definition lane_round (v x : Z) : Z :=
  u64 (shifting_hash (u64 (v + u64 (x * NUMBER64_2))) 31 * NUMBER64_1).

Definition lanes := (Z * Z * Z * Z)%type.

(** The [do ... while (p <= limitation)] loop over 32-byte stripes. *)
Fixpoint stripe_loop (fuel : nat) (m : mem) (align p limitation : Z) (v : lanes)
    : lanes * Z :=
  let '(v1, v2, v3, v4) := v in
  let v1 := lane_round v1 (hash_read64_align m p align) in
  let p := p + 8 in
  let v2 := lane_round v2 (hash_read64_align m p align) in
  let p := p + 8 in
  let v3 := lane_round v3 (hash_read64_align m p align) in
  let p := p + 8 in
  let v4 := lane_round v4 (hash_read64_align m p align) in
  let p := p + 8 in
  if p <=? limitation then
    match fuel with
    | O => ((v1, v2, v3, v4), p)
    | S fuel' => stripe_loop fuel' m align p limitation (v1, v2, v3, v4)
    end
  else ((v1, v2, v3, v4), p).

(** [v *= NUMBER64_2; v = rotl(v, 31); v *= NUMBER64_1; hash ^= v;
    hash = hash * NUMBER64_1 + NUMBER64_4] *)
Definition merge_lane (hash v : Z) : Z :=
  let v := u64 (v * NUMBER64_2) in
  let v := shifting_hash v 31 in
  let v := u64 (v * NUMBER64_1) in
  let hash := Z.lxor hash v in
  u64 (u64 (hash * NUMBER64_1) + NUMBER64_4).

Definition merge_lanes (v : lanes) : Z :=
  let '(v1, v2, v3, v4) := v in
  let hash := u64 (shifting_hash v1 1 + shifting_hash v2 7
                   + shifting_hash v3 12 + shifting_hash v4 18) in
  merge_lane (merge_lane (merge_lane (merge_lane hash v1) v2) v3) v4.

Definition mix8 (hash k1 : Z) : Z :=
  let k1 := u64 (k1 * NUMBER64_2) in
  let k1 := shifting_hash k1 31 in
  let k1 := u64 (k1 * NUMBER64_1) in
  let hash := Z.lxor hash k1 in
  u64 (u64 (shifting_hash hash 27 * NUMBER64_1) + NUMBER64_4).

Definition mix4 (hash k : Z) : Z :=
  let hash := Z.lxor hash (u64 (k * NUMBER64_1)) in
  u64 (u64 (shifting_hash hash 23 * NUMBER64_2) + NUMBER64_3).

Definition mix1 (hash b : Z) : Z :=
  let hash := Z.lxor hash (u64 (b * NUMBER64_5)) in
  u64 (shifting_hash hash 11 * NUMBER64_1).

(** [while (p + 8 <= end)] *)
Fixpoint word_loop (fuel : nat) (m : mem) (align p end_ hash : Z) : Z * Z :=
  match fuel with
  | O => (hash, p)
  | S fuel' =>
      if p + 8 <=? end_ then
        word_loop fuel' m align (p + 8) end_ (mix8 hash (hash_read64_align m p align))
      else (hash, p)
  end.

(** [while (p < end)] *)
Fixpoint byte_loop (fuel : nat) (m : mem) (p end_ hash : Z) : Z :=
  match fuel with
  | O => hash
  | S fuel' =>
      if p <? end_ then byte_loop fuel' m (p + 1) end_ (mix1 hash (load8 m p)) else hash
  end.

Definition avalanche (hash : Z) : Z :=
  let hash := Z.lxor hash (Z.shiftr hash 33) in
  let hash := u64 (hash * NUMBER64_2) in
  let hash := Z.lxor hash (Z.shiftr hash 29) in
  let hash := u64 (hash * NUMBER64_3) in
  Z.lxor hash (Z.shiftr hash 32).

Definition init_lanes (seed : Z) : lanes :=
  (u64 (u64 (seed + NUMBER64_1) + NUMBER64_2), u64 (seed + NUMBER64_2),
   u64 (seed + 0), u64 (seed - NUMBER64_1)).

(** Every loop visits at most [length] positions: [length] is enough fuel. *)
Definition string_key_hash_computation (m : mem) (data length seed align : Z) : Z :=
  let p := data in
  let end_ := p + length in
  let fuel := Z.to_nat length in
  let '(hash, p) :=
    if 32 <=? length then
      let '(v, p) := stripe_loop fuel m align p (end_ - 32) (init_lanes seed) in
      (merge_lanes v, p)
    else (u64 (seed + NUMBER64_5), p) in
  let hash := u64 (hash + length) in
  let '(hash, p) := word_loop fuel m align p end_ hash in
  let '(hash, p) :=
    if p + 4 <=? end_ then (mix4 hash (hash_read32_align m p align), p + 4)
    else (hash, p) in
  let hash := byte_loop fuel m p end_ hash in
  avalanche hash.

Definition VariableLengthHash (m : mem) (data length seed : Z) : Z :=
  if Z.land data 7 =? 0 then string_key_hash_computation m data length seed 1
  else string_key_hash_computation m data length seed 0.

Definition HashIndexComputeFp (hash : Z) : Z :=
  let fp := 0 in
  let hash := Z.shiftr hash 48 in
  let fp := u8 (Z.lxor fp hash) in
  let hash := Z.shiftr hash 8 in
  u8 (Z.lxor fp hash).

Definition CheckKey (m : mem) (r_key_addr r_key_len l_key_addr l_key_len : Z) : bool :=
  if negb (r_key_len =? l_key_len) then false
  else
    let r_hash_value := VariableLengthHash m r_key_addr r_key_len 0 in
    let l_hash_value := VariableLengthHash m l_key_addr l_key_len 0 in
    if negb (r_hash_value =? l_hash_value) then false
    else bool_decide (load_bytes r_key_len m r_key_addr = load_bytes r_key_len m l_key_addr).

(** ** Address and cache records *)

Record KVTableAddrInfo := mkKVTableAddrInfo {
  server_id_list : list Z;
  f_bucket_addr : list Z; s_bucket_addr : list Z;
  f_bucket_addr_rkey : list Z; s_bucket_addr_rkey : list Z;
  f_main_idx : Z; s_main_idx : Z; f_idx : Z; s_idx : Z }.

Record KVHashInfo := mkKVHashInfo {
  hash_value : Z; prefix : Z; hash_fp : Z; local_depth : Z }.

Record KVInfo := mkKVInfo {
  l_addr : Z; kv_info_lkey : Z; key_len : Z; value_len : Z }.

Record KVRWAddr := mkKVRWAddr {
  rw_server_id : Z; rw_r_kv_addr : Z; rw_l_kv_addr : Z;
  rw_rkey : Z; rw_lkey : Z; rw_length : Z }.

Record KVCASAddr := mkKVCASAddr {
  cas_server_id : Z; cas_r_kv_addr : Z; cas_l_kv_addr : Z;
  cas_rkey : Z; cas_lkey : Z; orig_value : Z; swap_value : Z }.

Record LocalCacheEntry := mkLocalCacheEntry {
  r_slot_addr : list Z; l_slot_ptr : RaceHashSlot; miss_cnt : Z; acc_cnt : Z }.

(** ** The hash function against a reference on byte strings *)

(** One stripe of 32 bytes: four words, one per lane. *)
Definition stripe_round (v : lanes) (bs : list Z) : lanes :=
  let '(v1, v2, v3, v4) := v in
  let w (i : nat) := le_val (take 8 (drop (8 * i) bs)) in
  (lane_round v1 (w 0%nat), lane_round v2 (w 1%nat),
   lane_round v3 (w 2%nat), lane_round v4 (w 3%nat)).

(** Cut into [k] pieces of [n] bytes. *)
Definition pieces (n k : nat) (bs : list Z) : list (list Z) :=
  reshape (replicate k n) bs.

(** The same hash computed on the string itself: no addresses, no alignment, no
    fuel. *)
Definition hash_reference (bs : list Z) (seed : Z) : Z :=
  let n := length bs in
  let h :=
    if decide (32 <= n)%nat then
      merge_lanes (fold_left stripe_round (pieces 32 (n / 32) bs) (init_lanes seed))
    else u64 (seed + NUMBER64_5) in
  let rest := drop (32 * (n / 32)) bs in
  let h := u64 (h + Z.of_nat n) in
  let nw := (length rest / 8)%nat in
  let h := fold_left mix8 (le_val <$> pieces 8 nw rest) h in
  let rest := drop (8 * nw) rest in
  let '(h, rest) :=
    if decide (4 <= length rest)%nat then (mix4 h (le_val (take 4 rest)), drop 4 rest)
    else (h, rest) in
  avalanche (fold_left mix1 rest h).

Lemma le_val_piece (n k : nat) len m p :
  Z.of_nat (k + n) <= len →
  le_val (take n (drop k (load_bytes len m p))) = load n m (p + Z.of_nat k).
Proof.
  intros H. rewrite drop_load_bytes, take_load_bytes by lia. by rewrite <- load_bytes_le.
Qed.

Lemma stripe_round_load m al p len v :
  32 <= len →
  stripe_round v (take 32 (load_bytes len m p)) =
  let '(v1, v2, v3, v4) := v in
  (lane_round v1 (hash_read64_align m p al),
   lane_round v2 (hash_read64_align m (p + 8) al),
   lane_round v3 (hash_read64_align m (p + 8 + 8) al),
   lane_round v4 (hash_read64_align m (p + 8 + 8 + 8) al)).
Proof.
  intros H. destruct v as [[[v1 v2] v3] v4]. unfold stripe_round.
  rewrite take_load_bytes by lia. rewrite !le_val_piece by lia.
  unfold hash_read64_align, load64. repeat case_match;
  by rewrite Z.add_0_r, <- !Z.add_assoc.
Qed.

(** The stripe loop leaves after [k + 1] rounds, whatever more fuel it has. *)
Lemma stripe_loop_spec m al (k fuel : nat) p len v :
  (k <= fuel)%nat → 32 * (Z.of_nat k + 1) <= len < 32 * (Z.of_nat k + 2) →
  stripe_loop fuel m al p (p + len - 32) v =
  (fold_left stripe_round (pieces 32 (S k) (load_bytes len m p)) v,
   p + 32 * (Z.of_nat k + 1)).
Proof.
  revert fuel p len v. induction k as [|k IH]; intros fuel p len v Hf Hlen.
  - destruct v as [[[v1 v2] v3] v4]. cbn [pieces replicate reshape fold_left].
    rewrite (stripe_round_load m al) by lia.
    destruct fuel; cbn [stripe_loop]; rewrite (proj2 (Z.leb_gt _ _)) by lia; f_equal; lia.
  - destruct fuel as [|fuel]; [lia|]. cbn [stripe_loop].
    unfold pieces. rewrite replicate_S. cbn [reshape fold_left].
    rewrite (stripe_round_load m al) by lia.
    destruct v as [[[v1 v2] v3] v4].
    rewrite (proj2 (Z.leb_le _ _)) by lia.
    rewrite drop_load_bytes by lia.
    replace (p + 8 + 8 + 8 + 8) with (p + Z.of_nat 32) by lia.
    replace (p + len - 32) with (p + Z.of_nat 32 + (len - Z.of_nat 32) - 32) by lia.
    rewrite IH by lia. f_equal. lia.
Qed.

Lemma word_loop_spec m al (k fuel : nat) p len h :
  (k <= fuel)%nat → 8 * Z.of_nat k <= len < 8 * (Z.of_nat k + 1) →
  word_loop fuel m al p (p + len) h =
  (fold_left mix8 (le_val <$> pieces 8 k (load_bytes len m p)) h, p + 8 * Z.of_nat k).
Proof.
  revert fuel p len h. induction k as [|k IH]; intros fuel p len h Hf Hlen.
  - rewrite Z.add_0_r. destruct fuel; cbn [word_loop]; [done|].
    by rewrite (proj2 (Z.leb_gt _ _)) by lia.
  - destruct fuel as [|fuel]; [lia|]. cbn [word_loop].
    rewrite (proj2 (Z.leb_le _ _)) by lia. unfold pieces. rewrite replicate_S.
    cbn [reshape fmap list_fmap fold_left].
    pose proof (le_val_piece 8 0 len m p ltac:(lia)) as Hw. rewrite drop_0 in Hw.
    rewrite Hw, drop_load_bytes by lia.
    replace (p + len) with (p + 8 + (len - Z.of_nat 8)) by lia.
    rewrite IH by lia. f_equal; [|lia]. do 2 f_equal.
    unfold hash_read64_align, load64. by rewrite Z.add_0_r; case_match.
Qed.

Lemma byte_loop_spec m (k fuel : nat) p h :
  (k <= fuel)%nat →
  byte_loop fuel m p (p + Z.of_nat k) h = fold_left mix1 (load_bytes (Z.of_nat k) m p) h.
Proof.
  revert fuel p h. induction k as [|k IH]; intros fuel p h Hf.
  - destruct fuel; cbn; [done|]. by rewrite (proj2 (Z.ltb_ge _ _)) by lia.
  - destruct fuel as [|fuel]; [lia|]. cbn [byte_loop].
    rewrite (proj2 (Z.ltb_lt _ _)), load_bytes_cons by lia. cbn [fold_left].
    replace (p + Z.of_nat (S k)) with (p + 1 + Z.of_nat k) by lia.
    rewrite IH by lia. replace (Z.of_nat (S k) - 1) with (Z.of_nat k) by lia.
    do 2 f_equal. unfold load8. cbn [load]. lia.
Qed.

(** The rounds before the tail of fewer than 32 bytes. *)
Lemma stripe_phase m al p len seed :
  0 <= len →
  (if 32 <=? len then
     let '(v, p') := stripe_loop (Z.to_nat len) m al p (p + len - 32) (init_lanes seed) in
     (merge_lanes v, p')
   else (u64 (seed + NUMBER64_5), p)) =
  (if decide (32 <= Z.to_nat len)%nat then
     merge_lanes (fold_left stripe_round (pieces 32 (Z.to_nat len / 32) (load_bytes len m p))
                            (init_lanes seed))
   else u64 (seed + NUMBER64_5),
   p + 32 * (len / 32)).
Proof.
  intros Hlen. destruct (32 <=? len) eqn:E; zify_bool.
  - rewrite decide_True by lia.
    assert (∃ k : nat, len / 32 = Z.of_nat k + 1 ∧ (Z.to_nat len / 32)%nat = S k)
      as (k & Hk & Hk').
    { exists (Z.to_nat (len / 32 - 1)).
      assert (1 <= len / 32) by (apply Z.div_le_lower_bound; lia).
      split; [lia|]. apply Nat2Z.inj. rewrite Nat2Z.inj_div, Z2Nat.id by lia.
      change (Z.of_nat 32) with 32. lia. }
    pose proof (Z.div_mod len 32). pose proof (Z.mod_pos_bound len 32).
    rewrite (stripe_loop_spec m al k) by lia. by rewrite Hk, Hk'.
  - rewrite decide_False by lia. rewrite Z.div_small by lia. f_equal. lia.
Qed.

Lemma hash_of_bytes (m : mem) (data length seed : Z) :
  0 <= length →
  VariableLengthHash m data length seed = hash_reference (load_bytes length m data) seed.
Proof.
  intros Hlen.
  assert (∀ al, string_key_hash_computation m data length seed al
                = hash_reference (load_bytes length m data) seed) as H.
  2:{ unfold VariableLengthHash. by case_match. }
  intros al. unfold string_key_hash_computation, hash_reference.
  rewrite stripe_phase by done. rewrite load_bytes_length.
  set (n := Z.to_nat length). set (h := if decide _ then _ else _).
  pose proof (Z.div_mod length 32). pose proof (Z.mod_pos_bound length 32).
  assert (Z.of_nat (32 * (n / 32)) = 32 * (length / 32)) as H32.
  { rewrite Nat2Z.inj_mul, Nat2Z.inj_div. subst n. rewrite Z2Nat.id by done. done. }
  rewrite drop_load_bytes by lia. rewrite H32, load_bytes_length.
  assert (Z.of_nat n = length) as -> by lia.
  set (len1 := length - _). set (p1 := data + _).
  replace (data + length) with (p1 + len1) by lia.
  set (nw := (Z.to_nat len1 / 8)%nat).
  assert (8 * Z.of_nat nw <= len1 < 8 * (Z.of_nat nw + 1)) as Hnw.
  { subst nw. rewrite Nat2Z.inj_div, Z2Nat.id by lia. change (Z.of_nat 8) with 8.
    pose proof (Z.div_mod len1 8). pose proof (Z.mod_pos_bound len1 8). lia. }
  rewrite (word_loop_spec m al nw) by lia.
  set (h2 := fold_left mix8 _ _).
  rewrite drop_load_bytes by lia. rewrite load_bytes_length.
  replace (Z.of_nat (8 * nw)) with (8 * Z.of_nat nw) by lia.
  set (len2 := len1 - _). set (p2 := p1 + _).
  replace (p1 + len1) with (p2 + len2) by lia.
  destruct (4 <=? len2) eqn:E4; zify_bool.
  - rewrite decide_True by lia. rewrite (proj2 (Z.leb_le _ _)) by lia.
    rewrite take_load_bytes, drop_load_bytes, <- load_bytes_le by lia.
    f_equal. replace (p2 + len2) with (p2 + 4 + Z.of_nat (Z.to_nat (len2 - 4))) by lia.
    rewrite byte_loop_spec by lia. rewrite Z2Nat.id by lia. do 2 f_equal.
    unfold hash_read32_align, load32. by case_match.
  - rewrite decide_False by lia. rewrite (proj2 (Z.leb_gt _ _)) by lia. f_equal.
    replace len2 with (Z.of_nat (Z.to_nat len2)) by lia.
    by rewrite byte_loop_spec by lia.
Qed.

(** C39. The hash the index uses is a function of the bytes of the key and the
    seed alone: [VariableLengthHash] on memory, with its alignment test, pointer
    loops and unrolled lanes, equals the reference hash of the byte string, for
    every address and every length. *)
Theorem VariableLengthHash_reference (m : mem) (data length seed : Z) :
  0 <= length →
  VariableLengthHash m data length seed = hash_reference (load_bytes length m data) seed.
Proof. apply hash_of_bytes. Qed.

(** The hash of the ASCII string ["abc"] at an unaligned address, seed 0: the
    published XXH64 test value. *)
Example VariableLengthHash_reference_witness :
  VariableLengthHash (store_bytes mem_zero 13 [97; 98; 99]) 13 3 0 = 0x44BC2CF5AD770999.
Proof.
  rewrite (VariableLengthHash_reference (store_bytes mem_zero 13 [97; 98; 99]) 13 3 0)
    by lia.
  vm_compute. reflexivity.
Defined.

(** ** Bucket choice *)

Lemma SubtableFirstIndex_bound h cap : 2 <= cap → 0 <= SubtableFirstIndex h cap < cap / 2.
Proof.
  intros H. apply Z.mod_pos_bound.
  assert (1 <= cap / 2) by (apply Z.div_le_lower_bound; lia). lia.
Qed.

Lemma SubtableSecondIndex_bound h f cap :
  2 <= cap < 2 ^ 63 → cap / 2 <= SubtableSecondIndex h f cap < 2 * (cap / 2).
Proof.
  intros H. unfold SubtableSecondIndex. cbv zeta. generalize (Z.lxor f (u64 (u16
    (Z.shiftl (Z.shiftr (u16 (Z.shiftr (u32 h) 16)) 1) 1 + 1) * 0xc6a4a7935bd1e995))).
  intros x. unfold u64.
  assert (1 <= cap / 2) by (apply Z.div_le_lower_bound; lia).
  assert (cap / 2 < 2 ^ 62) by (apply Z.div_lt_upper_bound; lia).
  pose proof (Z.mod_pos_bound x (cap / 2) ltac:(lia)).
  rewrite (Z.mod_small _ (2 ^ 64)) by lia. lia.
Qed.

(** ** Pointers and slots as integers *)

Lemma HashIndexConvert40To64Bits_arith b0 b1 b2 b3 b4 :
  is_byte b0 → is_byte b1 → is_byte b2 → is_byte b3 → is_byte b4 →
  HashIndexConvert40To64Bits [b0; b1; b2; b3; b4] =
  b0 * 2 ^ 40 + b1 * 2 ^ 32 + b2 * 2 ^ 24 + b3 * 2 ^ 16 + b4 * 2 ^ 8.
Proof.
  unfold is_byte. intros. unfold HashIndexConvert40To64Bits. cbn [lookup_total list_lookup_total].
  rewrite Z.lor_0_l. bits_to_arith. unfold u64.
  rewrite !(Z.mod_small (_ * _)) by lia.
  rewrite (lor_disjoint b0 _ 40) by lia.
  replace (b0 * 2 ^ 40 + b1 * 2 ^ 32) with ((b0 * 2 ^ 8 + b1) * 2 ^ 32) by lia.
  rewrite (lor_disjoint _ _ 32) by lia.
  replace (_ * 2 ^ 32 + b2 * 2 ^ 24) with ((b0 * 2 ^ 16 + b1 * 2 ^ 8 + b2) * 2 ^ 24) by lia.
  rewrite (lor_disjoint _ _ 24) by lia.
  replace (_ * 2 ^ 24 + b3 * 2 ^ 16)
    with ((b0 * 2 ^ 24 + b1 * 2 ^ 16 + b2 * 2 ^ 8 + b3) * 2 ^ 16) by lia.
  rewrite (lor_disjoint _ _ 16) by lia. lia.
Qed.

Lemma HashIndexConvert64To40Bits_arith a :
  HashIndexConvert64To40Bits a =
  [(a / 2 ^ 40) mod 256; (a / 2 ^ 32) mod 256; (a / 2 ^ 24) mod 256;
   (a / 2 ^ 16) mod 256; (a / 2 ^ 8) mod 256].
Proof.
  unfold HashIndexConvert64To40Bits, u8. cbn [fmap list_fmap].
  change 0xFF with (2 ^ 8 - 1). rewrite !land_mask by lia. bits_to_arith.
  by rewrite !Z.mod_mod by lia.
Qed.

Lemma HashIndexConvert64To40Bits_wf a :
  length (HashIndexConvert64To40Bits a) = 5%nat ∧
  Forall is_byte (HashIndexConvert64To40Bits a).
Proof.
  rewrite HashIndexConvert64To40Bits_arith. split; [done|].
  repeat constructor; apply Z.mod_pos_bound; lia.
Qed.

(** Any five bytes that stand for bytes: the shape of a [pointer] field. *)
Lemma five_bytes (l : list Z) :
  length l = 5%nat → Forall is_byte l →
  ∃ b0 b1 b2 b3 b4, l = [b0; b1; b2; b3; b4] ∧
    is_byte b0 ∧ is_byte b1 ∧ is_byte b2 ∧ is_byte b3 ∧ is_byte b4.
Proof.
  intros Hl Hb. do 5 (destruct l as [|? l]; [done|]). destruct l; [|done].
  rewrite !Forall_cons in Hb. naive_solver.
Qed.

(** What survives the 40-bit encoding: bits 8 to 47 of the address. *)
Lemma Convert40_64_Convert64_40 a :
  HashIndexConvert40To64Bits (HashIndexConvert64To40Bits a) = (a / 2 ^ 8) mod 2 ^ 40 * 2 ^ 8.
Proof.
  rewrite HashIndexConvert64To40Bits_arith, HashIndexConvert40To64Bits_arith
    by (apply Z.mod_pos_bound; lia).
  assert (∀ k j, 0 <= k → j = k + 8 → a / 2 ^ j = a / 2 ^ k / 2 ^ 8) as Hd.
  { intros k ? Hk ->. rewrite Z.div_div, <- Z.pow_add_r by lia. done. }
  rewrite (Hd 32 40), (Hd 24 32), (Hd 16 24), (Hd 8 16) by lia.
  generalize (a / 2 ^ 8). intros x. Z.to_euclidean_division_equations. lia.
Qed.

(** An address is recovered from its five-byte pointer exactly when it is
    256-byte aligned and below 2^48, which is what the allocators hand out. *)
Lemma Convert40_exact (a : Z) :
  HashIndexConvert40To64Bits (HashIndexConvert64To40Bits a) = a ↔
  0 <= a < 2 ^ 48 ∧ a mod 256 = 0.
Proof.
  rewrite Convert40_64_Convert64_40. split.
  - intros H. pose proof (Z.mod_pos_bound (a / 2 ^ 8) (2 ^ 40) ltac:(lia)).
    split; [lia|]. rewrite <- H. by apply Z.mod_mul.
  - intros [H1 H2]. rewrite Z.mod_small.
    + change 256 with (2 ^ 8) in H2. pose proof (Z.div_mod a (2 ^ 8)). lia.
    + split; [apply Z.div_pos|apply Z.div_lt_upper_bound]; lia.
Qed.

Lemma ConvertSlotToInt_at m a : ConvertSlotToInt (slot_at m a) = load64 m a.
Proof.
  unfold ConvertSlotToInt, slot_at, load64, load8. cbn [fp kv_len slot_server_id pointer].
  cbn [le_val]. change 5 with (Z.of_nat 5). rewrite <- load_bytes_le.
  replace (a + 3) with (a + 1 + 1 + 1) by lia. replace (a + 2) with (a + 1 + 1) by lia.
  cbn [load]. lia.
Qed.

Lemma slot_at_wf m a : slot_wf (slot_at m a).
Proof.
  unfold slot_wf, slot_at. cbn [fp kv_len slot_server_id pointer].
  rewrite load_bytes_length. split_and!; try apply (load_range 1); [done|].
  apply load_bytes_byte.
Qed.

(** Two slots are the same when their 64-bit words are: comparing the word, as
    the compare-and-swap does, compares every field. *)
Lemma ConvertSlotToInt_inj s1 s2 :
  slot_wf s1 → slot_wf s2 → ConvertSlotToInt s1 = ConvertSlotToInt s2 → s1 = s2.
Proof.
  destruct s1 as [f1 k1 i1 p1], s2 as [f2 k2 i2 p2].
  intros (? & ? & ? & L1 & B1) (? & ? & ? & L2 & B2) Heq. cbn in *.
  apply (le_val_inj (f1 :: k1 :: i1 :: p1) (f2 :: k2 :: i2 :: p2)) in Heq;
    [by simplify_eq| | |cbn; congruence];
    repeat (constructor; [done|]); done.
Qed.

Lemma slot_at_store64 m a s :
  slot_wf s → slot_at (store64 m a (ConvertSlotToInt s)) a = s.
Proof.
  intros Hs. apply ConvertSlotToInt_inj; [apply slot_at_wf|done|].
  rewrite ConvertSlotToInt_at, load64_store64_eq. unfold u64. apply Z.mod_small.
  destruct Hs as (? & ? & ? & Hl & Hb). unfold ConvertSlotToInt.
  pose proof (le_val_bound (fp s :: kv_len s :: slot_server_id s :: pointer s)) as H'.
  cbn [length] in H'. rewrite Hl in H'. apply H'. by repeat (constructor; [done|]).
Qed.

Lemma slot_at_store_bytes m a s :
  slot_wf s →
  slot_at (store_bytes m a (fp s :: kv_len s :: slot_server_id s :: pointer s)) a = s.
Proof.
  intros Hs. apply ConvertSlotToInt_inj; [apply slot_at_wf|done|].
  destruct Hs as (? & ? & ? & Hl & Hb). rewrite ConvertSlotToInt_at. unfold load64, ConvertSlotToInt.
  rewrite load_bytes_le. f_equal.
  replace 8%nat with (length (fp s :: kv_len s :: slot_server_id s :: pointer s)) by (cbn; lia).
  apply load_bytes_store_bytes. by repeat (constructor; [done|]).
Qed.

(** ** Free slots and keys *)

Definition free_indices (m : mem) (bucket : Z) : list Z :=
  filter (λ i, slot_is_free (slot_at m (bucket_slot bucket i)) = true)
         (zrange 0 RACE_HASH_ASSOC_NUM).

(** The scan counts the free slots of the bucket and returns the last of them. *)
Lemma GetFreeSlotNum_spec m bucket :
  GetFreeSlotNum m bucket =
  (Z.of_nat (length (free_indices m bucket)),
   default RACE_HASH_ASSOC_NUM (last (free_indices m bucket))).
Proof.
  unfold GetFreeSlotNum, free_indices.
  generalize (zrange 0 RACE_HASH_ASSOC_NUM). intros l.
  induction l as [|i l IH] using rev_ind; [done|].
  rewrite fold_left_app, filter_app, IH. cbn [fold_left].
  destruct (slot_is_free (slot_at m (bucket_slot bucket i))) eqn:E.
  - rewrite filter_cons_True, filter_nil by done.
    rewrite last_snoc, length_app. cbn [default]. f_equal. cbn. lia.
  - rewrite filter_cons_False, filter_nil, app_nil_r by congruence. done.
Qed.

Lemma GetFreeSlotNum_exact (m : mem) (bucket : Z) :
  let '(free_num, free_idx) := GetFreeSlotNum m bucket in
  let free i := slot_is_free (slot_at m (bucket_slot bucket i)) in
  0 <= free_num <= 7 ∧
  (free_num = 0 → free_idx = 7 ∧ ∀ i, 0 <= i < 7 → free i = false) ∧
  (0 < free_num →
   0 <= free_idx < 7 ∧ free free_idx = true ∧ ∀ i, free_idx < i < 7 → free i = false).
Proof.
  rewrite GetFreeSlotNum_spec. cbv zeta. unfold free_indices, RACE_HASH_ASSOC_NUM.
  pose proof (last_filter_zrange (λ i, slot_is_free (slot_at m (bucket_slot bucket i)) = true)
    0 7 ltac:(done)) as Hl.
  set (L := filter _ _) in *. split_and!.
  - lia.
  - assert (length L <= 7)%nat; [|lia].
    unfold L. etrans; [apply length_filter|]. by vm_compute.
  - intros Hz. destruct L as [|x L']; [|cbn in Hz; lia]. split; [done|].
    intros i Hi. by apply not_true_is_false, Hl.
  - intros Hpos. destruct (last L) as [x|] eqn:E.
    + destruct Hl as (Hx & Hf & Hl). cbn [default from_option id].
      split_and!; [lia|lia|done|].
      intros i Hi. by apply not_true_is_false, Hl.
    + apply last_None in E. rewrite E in Hpos. cbn in Hpos. lia.
Qed.

Lemma CheckKey_iff (m : mem) (r_addr r_len l_addr l_len : Z) :
  0 <= r_len → 0 <= l_len →
  CheckKey m r_addr r_len l_addr l_len = true ↔
  load_bytes r_len m r_addr = load_bytes l_len m l_addr.
Proof.
  intros Hr Hl. unfold CheckKey.
  assert (∀ a n, 0 <= n → VariableLengthHash m a n 0 = hash_reference (load_bytes n m a) 0)
    as Hh by (intros; by apply hash_of_bytes).
  destruct (r_len =? l_len) eqn:E; zify_bool; cbn [negb].
  - subst l_len. rewrite !Hh by done. split.
    + case_match; [done|]. by intros ?%bool_decide_eq_true.
    + intros ->. rewrite Z.eqb_refl. cbn. by apply bool_decide_eq_true.
  - split; [done|]. intros H%(f_equal length). rewrite !load_bytes_length in H. lia.
Qed.

(** The comparison of keys decides equality of the byte strings: the hash
    test never separates equal keys and never stands in for the comparison. *)
Theorem CheckKey_spec (m : mem) (r_addr r_len l_addr l_len : Z) :
  0 <= r_len → 0 <= l_len →
  CheckKey m r_addr r_len l_addr l_len = true ↔
  load_bytes r_len m r_addr = load_bytes l_len m l_addr.
Proof. apply (CheckKey_iff m r_addr r_len l_addr l_len). Qed.

Example CheckKey_spec_witness :
  let m := store_bytes (store_bytes mem_zero 100 [1; 2; 3]) 200 [1; 2; 3] in
  CheckKey m 100 3 200 3 = true ∧ load_bytes 3 m 100 = load_bytes 3 m 200.
Proof.
  intros m. split; [|reflexivity].
  apply (CheckKey_spec m 100 3 200 3); [lia|lia|reflexivity].
Defined.
