(* ===== verification/ServerMM.v ===== *)
(** * Memory manager of a memory node ([src/src/server_mm.h], [src/src/server_mm.cc])

    The layout of a memory node (client metadata area, hash area, key-value
    area), the initialisation of the index, the static placement of replicated
    blocks and the allocation of blocks and subtables. *)

From S2P Require Import Prelude Mem KvUtils HashTable.

Module Smm.

Record t := mk {
  my_sid_ : Z;
  base_addr_ : Z; base_len_ : Z;
  client_meta_area_off_ : Z; client_meta_area_len_ : Z;
  client_gc_area_off_ : Z; client_gc_area_len_ : Z;
  client_hash_area_off_ : Z; client_hash_area_len_ : Z;
  client_kv_area_off_ : Z; client_kv_area_len_ : Z; client_kv_area_limit_ : Z;
  num_memory_ : Z; num_replication_ : Z;
  block_size_ : Z; num_blocks_ : Z;
  mr_rkey : Z;
  subtable_alloc_map_ : list bool;
  allocable_blocks_ : list Z;
  allocated_blocks_ : gmap Z bool;
  data_ : mem }.

#[global] Instance eta_t : Eta t := λ s,
  mk (my_sid_ s) (base_addr_ s) (base_len_ s) (client_meta_area_off_ s)
    (client_meta_area_len_ s) (client_gc_area_off_ s) (client_gc_area_len_ s)
    (client_hash_area_off_ s) (client_hash_area_len_ s) (client_kv_area_off_ s)
    (client_kv_area_len_ s) (client_kv_area_limit_ s) (num_memory_ s)
    (num_replication_ s) (block_size_ s) (num_blocks_ s) (mr_rkey s)
    (subtable_alloc_map_ s) (allocable_blocks_ s) (allocated_blocks_ s) (data_ s).

(** ** The index in the hash area *)

(** Offsets of the fields of [RaceHashRoot], all [uint64_t]. *)
Definition root_field (i : Z) : Z := 8 * i.
Definition root_global_depth := root_field 0.
Definition root_init_local_depth := root_field 1.
Definition root_max_global_depth := root_field 2.
Definition root_prefix_num := root_field 3.
Definition root_subtable_res_num := root_field 4.
Definition root_subtable_init_num := root_field 5.
Definition root_subtable_hash_range := root_field 7.
Definition root_subtable_bucket_num := root_field 8.
Definition root_seed := root_field 9.
Definition root_root_offset := root_field 11.
Definition root_subtable_offset := root_field 12.
Definition root_kv_offset := root_field 13.
Definition root_kv_len := root_field 14.
Definition root_lock := root_field 15.
(** [&root->subtable_entry[i][j]] *)
Definition root_subtable_entry (i j : Z) : Z := 16 * 8 + (i * MAX_REP_NUM + j) * 8.

Definition put64 (a v : Z) : M t unit := modify (λ s, s <| data_ ::= λ m, store64 m a v |>).
Definition put32 (a v : Z) : M t unit := modify (λ s, s <| data_ ::= λ m, store32 m a v |>).

(** [rand_ret] is what [rand()] returns. *)
Definition init_root (rand_ret root : Z) : M t Z :=
  put64 (root + root_global_depth) RACE_HASH_GLOBAL_DEPTH ;;
  put64 (root + root_init_local_depth) RACE_HASH_INIT_LOCAL_DEPTH ;;
  put64 (root + root_max_global_depth) RACE_HASH_MAX_GLOBAL_DEPTH ;;
  put64 (root + root_prefix_num) (Z.shiftl 1 RACE_HASH_MAX_GLOBAL_DEPTH) ;;
  (s ← get; put64 (root + root_subtable_res_num) (load64 (data_ s) (root + root_prefix_num))) ;;
  put64 (root + root_subtable_init_num) RACE_HASH_INIT_SUBTABLE_NUM ;;
  put64 (root + root_subtable_hash_range) RACE_HASH_ADDRESSABLE_BUCKET_NUM ;;
  put64 (root + root_subtable_bucket_num) RACE_HASH_SUBTABLE_BUCKET_NUM ;;
  put64 (root + root_seed) rand_ret ;;
  s ← get;
  put64 (root + root_root_offset) (client_hash_area_off_ s) ;;
  s ← get;
  put64 (root + root_subtable_offset)
        (u64 (load64 (data_ s) (root + root_root_offset) + roundup_256 ROOT_RES_LEN)) ;;
  put64 (root + root_kv_offset) (client_kv_area_off_ s) ;;
  put64 (root + root_kv_len) (client_kv_area_len_ s) ;;
  put64 (root + root_lock) 0 ;;
  mret 0.

Definition init_subtable (subtable_addr : Z) : M t Z :=
  s ← get;
  let max_subtables :=
    u64 (base_addr_ s + client_hash_area_off_ s + client_hash_area_len_ s - subtable_addr)
    / roundup_256 SUBTABLE_LEN in
  (** [resize], then every entry set to 0 by the loop *)
  modify (λ s, s <| subtable_alloc_map_ := replicate (Z.to_nat max_subtables) false |>) ;;
  forM (zrange 0 max_subtables) (λ i,
    let cur_subtable_addr := u64 (subtable_addr + i * roundup_256 SUBTABLE_LEN) in
    forM (zrange 0 RACE_HASH_ADDRESSABLE_BUCKET_NUM) (λ j,
      let bucket := cur_subtable_addr + j * sizeof_RaceHashBucket in
      put32 bucket RACE_HASH_INIT_LOCAL_DEPTH ;;
      put32 (bucket + 4) i)) ;;
  mret 0.

Definition get_subtable_st_addr (s : t) : Z :=
  u64 (client_hash_area_off_ s + base_addr_ s + roundup_256 ROOT_RES_LEN).
Definition get_kv_area_addr (s : t) : Z := u64 (client_kv_area_off_ s + base_addr_ s).

Definition init_hashtable (rand_ret : Z) : M t Z :=
  s ← get;
  let root_addr := u64 (base_addr_ s + client_hash_area_off_ s) in
  let subtable_st_addr := get_subtable_st_addr s in
  _ ← init_root rand_ret root_addr;
  _ ← init_subtable subtable_st_addr;
  mret 0.

(** ** Static placement of replicated blocks *)

(** [while (mn_addr_ptr[st_sid] == limit) st_sid = (st_sid + 1) % num_memory_]:
    after [num_memory_] steps the loop is back where it started. *)
Fixpoint skip_full (fuel : nat) (limit n : Z) (ptr : list Z) (st_sid : Z) : option Z :=
  match fuel with
  | O => None
  | S fuel' =>
      if ptr !!! Z.to_nat st_sid =? limit
      then skip_full fuel' limit n ptr (u32 (st_sid + 1) mod n)
      else Some st_sid
  end.

(** The loop over the replicas of one block: the addresses it takes and the
    advanced pointers, or [None] for [exit(1)].  The test
    [mn_addr_ptr[sid] & 0xFF != 0] parses as [mn_addr_ptr[sid] & (0xFF != 0)]. *)
Fixpoint place_replicas (limit n bs st_sid : Z) (idxs : list Z) (ptr : list Z)
    : option (list Z * list Z) :=
  match idxs with
  | [] => Some ([], ptr)
  | i :: idxs' =>
      let sid := u8 (u32 (st_sid + i) mod n) in
      let a := ptr !!! Z.to_nat sid in
      if limit <=? a then None
      else if negb (Z.land a 1 =? 0) then None
      else
        '(addr_list, ptr') ←
          place_replicas limit n bs st_sid idxs' (<[Z.to_nat sid := u64 (a + bs)]> ptr);
        Some (a :: addr_list, ptr')
  end.

(** One iteration of the outer loop, on [mn_addr_ptr] and the manager. *)
Definition allocable_step (block_cnt : Z) : M (list Z * t) unit := λ '(ptr, s),
  let n := num_memory_ s in
  match skip_full (S (Z.to_nat n)) (client_kv_area_limit_ s) n ptr (block_cnt mod n) with
  | None => Stopped Diverges (ptr, s)
  | Some st_sid =>
      match place_replicas (client_kv_area_limit_ s) n (block_size_ s) st_sid
              (zrange 0 (num_replication_ s)) ptr with
      | None => Stopped Exited (ptr, s)
      | Some (addr_list, ptr') =>
          if st_sid =? my_sid_ s then
            match addr_list with
            | a :: _ => Done tt (ptr', s <| allocable_blocks_ ::= λ q, q ++ [a] |>)
            | [] => Stopped Undefined (ptr', s)
            end
          else Done tt (ptr', s)
      end
  end.

Definition get_allocable_blocks : M t unit := λ s,
  let kv_area_addr := u64 (base_addr_ s + client_kv_area_off_ s) in
  let mn_addr_ptr := replicate (Z.to_nat (num_memory_ s)) kv_area_addr in
  if (num_replication_ s =? 0) then Stopped Undefined s else
  let num_rep_blocks := u32 (num_blocks_ s * num_memory_ s) / num_replication_ s in
  match forM (zrange 0 num_rep_blocks) allocable_step (mn_addr_ptr, s) with
  | Done _ (_, s') => Done tt s'
  | Stopped e (_, s') => Stopped e s'
  end.

(** ** Construction and operations *)

Definition blank : t :=
  mk 0 0 0 0 0 0 0 0 0 0 0 0 0 0 0 0 0 [] [] ∅ mem_zero.

(** The mapping made by [mmap] is zero-filled; [rkey] is the key
    [ibv_reg_mr] gives. *)
Definition ServerMM (server_base_addr base_len block_size rand_ret rkey : Z)
    (conf : GlobalConfig) : M t unit :=
  modify (λ s, s <| block_size_ := u32 block_size |> <| base_addr_ := server_base_addr |>
                 <| base_len_ := base_len |> <| data_ := mem_zero |>) ;;
  modify (λ s, s <| client_meta_area_off_ := 0 |>
                 <| client_meta_area_len_ := META_AREA_LEN |>) ;;
  modify (λ s, s <| client_gc_area_off_ := client_meta_area_len_ s |>
                 <| client_gc_area_len_ := GC_AREA_LEN |>) ;;
  modify (λ s, s <| client_hash_area_off_ :=
                      u64 (client_gc_area_off_ s + client_gc_area_len_ s) |>
                 <| client_hash_area_len_ := HASH_AREA_LEN |>) ;;
  modify (λ s, s <| client_kv_area_off_ :=
                      u64 (client_hash_area_off_ s + client_hash_area_len_ s) |>) ;;
  (s ← get; whenm (block_size_ s =? 0) (stopm Undefined)) ;; (** [% 0] in [round_up] *)
  modify (λ s, s <| client_kv_area_off_ :=
                      round_up (client_kv_area_off_ s) (block_size_ s) |>) ;;
  modify (λ s, s <| client_kv_area_len_ := u64 (base_len_ s - client_kv_area_off_ s) |>
                 <| client_kv_area_limit_ := u64 (base_len_ s + base_addr_ s) |>) ;;
  _ ← init_hashtable rand_ret;
  modify (λ s, s <| mr_rkey := rkey |>) ;;
  modify (λ s, s <| num_memory_ := memory_num conf |>
                 <| num_replication_ := num_replication conf |>
                 <| my_sid_ := u16 (server_id conf) |>) ;;
  modify (λ s, s <| num_blocks_ := u32 (client_kv_area_len_ s / block_size_ s) |>) ;;
  get_allocable_blocks.

Definition mm_alloc : M t Z := λ s,
  match allocable_blocks_ s with
  | [] => Done 0 s
  | ret_addr :: rest =>
      Done ret_addr (s <| allocable_blocks_ := rest |>
                       <| allocated_blocks_ ::= <[ret_addr := true]> |>)
  end.

(** [allocated_blocks_[st_addr]] inserts [false] when the key is absent. *)
Definition mm_free (st_addr : Z) : M t Z :=
  modify (λ s, s <| allocated_blocks_ ::=
                      λ a, <[st_addr := default false (a !! st_addr)]> a |>) ;;
  s ← get;
  if negb (default false (allocated_blocks_ s !! st_addr)) then mret (-1)
  else
    modify (λ s, s <| allocated_blocks_ ::= <[st_addr := false]> |>
                   <| allocable_blocks_ ::= λ q, q ++ [st_addr] |>) ;;
    mret 0.

Definition mm_alloc_subtable : M t Z := λ s,
  let subtable_st_addr :=
    u64 (base_addr_ s + client_hash_area_off_ s + roundup_256 ROOT_RES_LEN) in
  match list_find (λ b, b = false) (subtable_alloc_map_ s) with
  | Some (i, _) =>
      Done (u64 (subtable_st_addr + Z.of_nat i * roundup_256 SUBTABLE_LEN))
           (s <| subtable_alloc_map_ ::= <[i := true]> |>)
  | None => Done 0 s
  end.

Definition get_rkey (s : t) : Z := mr_rkey s.

(** [None] is the return value [-1]. *)
Definition get_client_gc_info (client_id : Z) (s : t) : option MrInfo :=
  let single_gc_len := 1024 * 1024 in
  let client_gc_off := u64 (client_id * single_gc_len) in
  if client_gc_area_len_ s <=? u64 (client_gc_off + single_gc_len) then None
  else Some (mkMrInfo (u64 (client_gc_area_off_ s + client_gc_off + base_addr_ s)) (mr_rkey s)).

Definition get_mr_info (s : t) : MrInfo := mkMrInfo (base_addr_ s) (mr_rkey s).

(** ** Contract of the block allocator *)

Definition is_allocated (s : t) (b : Z) : Prop := allocated_blocks_ s !! b = Some true.

(** The blocks [B] given to the node at start are, at any time, either in the
    queue (once) or handed out, never both. *)
Record blocks_inv (B : list Z) (s : t) : Prop := {
  inv_nodup : NoDup (allocable_blocks_ s);
  inv_disjoint : ∀ b, b ∈ allocable_blocks_ s → ¬ is_allocated s b;
  inv_cover : ∀ b, b ∈ B ↔ b ∈ allocable_blocks_ s ∨ is_allocated s b;
  inv_nonzero : 0 ∉ B }.

Lemma is_allocated_insert s s' b x :
  allocated_blocks_ s' = <[b := true]> (allocated_blocks_ s) →
  is_allocated s' x ↔ x = b ∨ is_allocated s x.
Proof.
  intros Hs. unfold is_allocated. rewrite Hs. destruct (decide (x = b)) as [->|Hne].
  - rewrite lookup_insert_eq. naive_solver.
  - rewrite lookup_insert_ne by done. naive_solver.
Qed.

(** C34. The block allocator of a memory node: [mm_alloc] never hands out a block
    that is already handed out; it fails (returns 0, changing nothing) exactly
    when every block of the node is handed out; and the partition of the node's
    blocks into free and allocated is preserved. *)
Theorem mm_alloc_correct (B : list Z) (s : t) :
  blocks_inv B s →
  ∃ r s', mm_alloc s = Done r s' ∧ blocks_inv B s' ∧
    ((r = 0 ∧ s' = s ∧ ∀ b, b ∈ B → is_allocated s b) ∨
     (r ≠ 0 ∧ r ∈ B ∧ ¬ is_allocated s r ∧
      ∀ b, is_allocated s' b ↔ b = r ∨ is_allocated s b)).
Proof.
  intros HI. unfold mm_alloc. pose proof (inv_nodup _ _ HI) as Hnd.
  pose proof (inv_disjoint _ _ HI) as Hd. pose proof (inv_cover _ _ HI) as Hc.
  destruct (allocable_blocks_ s) as [|r rest] eqn:E.
  - exists 0, s. split_and!; [done|done|]. left. split_and!; [done|done|].
    intros b Hb. apply Hc in Hb. set_solver.
  - eexists r, _. split; [reflexivity|].
    set (s' := set_field _ _ _).
    assert (∀ b, is_allocated s' b ↔ b = r ∨ is_allocated s b) as Ha
      by (intros; by apply (is_allocated_insert s)).
    apply NoDup_cons in Hnd as [Hr Hnd]. split.
    + split; [done| | |apply HI].
      * intros b Hb. rewrite Ha. cbn in Hb. set_solver.
      * intros b. rewrite Ha, Hc. cbn. set_solver.
    + right. split_and!; [|set_solver|set_solver|done].
      intros ->. apply (inv_nonzero _ _ HI), Hc. set_solver.
Qed.

(** C35. [mm_free] accepts exactly the blocks that are handed out: a double free
    or a foreign address returns -1 and frees nothing; an accepted block becomes
    allocable again, and the partition of the blocks is preserved. *)
Theorem mm_free_correct (B : list Z) (s : t) (a : Z) :
  blocks_inv B s →
  ∃ r s', mm_free a s = Done r s' ∧ blocks_inv B s' ∧
    ((r = -1 ∧ ¬ is_allocated s a ∧ (∀ b, is_allocated s' b ↔ is_allocated s b) ∧
      allocable_blocks_ s' = allocable_blocks_ s) ∨
     (r = 0 ∧ is_allocated s a ∧ (∀ b, is_allocated s' b ↔ is_allocated s b ∧ b ≠ a) ∧
      allocable_blocks_ s' = allocable_blocks_ s ++ [a])).
Proof.
  intros [Hnd Hd Hc H0]. unfold mm_free. unM. cbn.
  rewrite lookup_insert_eq. cbn.
  set (s1 := set_field _ _ s).
  assert (∀ b, is_allocated s1 b ↔ is_allocated s b) as H1.
  { intros b. unfold is_allocated, s1. cbn. destruct (decide (b = a)) as [->|].
    - rewrite lookup_insert_eq. destruct (allocated_blocks_ s !! a) as [[]|]; naive_solver.
    - by rewrite lookup_insert_ne by done. }
  destruct (allocated_blocks_ s !! a) as [[]|] eqn:Ea; cbn.
  - eexists 0, _. split; [reflexivity|]. set (s2 := set_field _ _ _).
    assert (∀ b, is_allocated s2 b ↔ is_allocated s b ∧ b ≠ a) as H2.
    { intros b. rewrite <- H1. unfold is_allocated, s2. cbn.
      destruct (decide (b = a)) as [->|].
      - rewrite lookup_insert_eq. naive_solver.
      - rewrite lookup_insert_ne by done. naive_solver. }
    assert (a ∉ allocable_blocks_ s) by (intros Hin; by apply (Hd a)).
    split; [split; cbn; [|intros b; rewrite H2|intros b; rewrite H2|done]|right; done].
    + apply NoDup_app. split_and!; [done|set_solver|apply NoDup_singleton].
    + set_solver.
    + rewrite Hc. destruct (decide (b = a)) as [->|]; set_solver.
  - eexists (-1), s1. split; [done|]. split.
    + split; [done| | |done]; intros b; rewrite H1; cbn; auto.
    + left. split_and!; [done| |done|done]. unfold is_allocated. congruence.
  - eexists (-1), s1. split; [done|]. split.
    + split; [done| | |done]; intros b; rewrite H1; cbn; auto.
    + left. split_and!; [done| |done|done]. unfold is_allocated. congruence.
Qed.

(** ** The static placement succeeds and never overlaps

    How many of the first [k] blocks have a replica on node [x]: block [j] is
    placed on the [R] nodes that follow [j mod N]. *)
Fixpoint placed (N R : Z) (k : nat) (x : Z) : Z :=
  match k with
  | O => 0
  | S k' => placed N R k' x + (if (x - Z.of_nat k') mod N <? R then 1 else 0)
  end.

Lemma placed_mono N R (k j : nat) x : (k <= j)%nat → placed N R k x <= placed N R j x.
Proof.
  intros H. induction H as [|j H IH]; [lia|]. cbn [placed]. case_match; lia.
Qed.

Lemma placed_nonneg N R (k : nat) x : 0 <= placed N R k x.
Proof. change 0 with (placed N R 0 x). apply placed_mono. lia. Qed.

(** The first round, in closed form. *)
Lemma placed_first_round N R (k : nat) x :
  0 < N → 0 <= R <= N → 0 <= x < N → Z.of_nat k <= N →
  placed N R k x =
    Z.max 0 (Z.min (Z.of_nat k) (x + 1) - Z.max 0 (x - R + 1))
    + Z.max 0 (Z.of_nat k - Z.max (x + 1) (x + N - R + 1)).
Proof.
  intros HN HR Hx. induction k as [|k IH]; intros Hk; [cbn [placed]; lia|].
  cbn [placed]. rewrite IH by lia.
  assert ((x - Z.of_nat k) mod N =
          if Z.of_nat k <=? x then x - Z.of_nat k else x - Z.of_nat k + N) as ->.
  { case_match eqn:E; zify_bool.
    - apply Z.mod_small. lia.
    - rewrite <- (Z.mod_add _ 1) by lia. rewrite Z.mul_1_l. apply Z.mod_small. lia. }
  repeat case_match; zify_bool; lia.
Qed.

(** Every full round of [N] blocks puts [R] replicas on each node. *)
Lemma placed_round N R (k : nat) x :
  0 < N → 0 <= R <= N → 0 <= x < N →
  placed N R (k + Z.to_nat N) x = placed N R k x + R.
Proof.
  intros HN HR Hx. induction k as [|k IH].
  - rewrite Nat.add_0_l, placed_first_round by lia. cbn [placed]. lia.
  - cbn [Nat.add placed]. rewrite IH.
    replace ((x - Z.of_nat (k + Z.to_nat N)) mod N) with ((x - Z.of_nat k) mod N); [lia|].
    rewrite <- (Z.mod_add (x - Z.of_nat (k + Z.to_nat N)) 1) by lia. f_equal. lia.
Qed.

Lemma placed_rounds N R (q : nat) x :
  0 < N → 0 <= R <= N → 0 <= x < N →
  placed N R (q * Z.to_nat N) x = Z.of_nat q * R.
Proof.
  intros HN HR Hx. induction q as [|q IH]; [done|].
  replace (S q * Z.to_nat N)%nat with (q * Z.to_nat N + Z.to_nat N)%nat by lia.
  rewrite placed_round, IH by done. lia.
Qed.

Section placement.
Context (N R B kv bs limit : Z).
Hypotheses (HN : 1 <= N <= 256) (HR : 1 <= R <= N) (Hbs : 0 < bs)
  (Hkv : 0 <= kv) (Hfit : kv + bs * B <= limit) (Hlim : limit < 2 ^ 64)
  (Hev : bs mod 2 = 0) (Hkev : kv mod 2 = 0).

(** The pointers when node [x] has given out [c x] blocks. *)
Definition ptrs (c : Z → Z) : list Z := (λ x, kv + bs * c x) <$> zrange 0 N.

Lemma ptrs_lookup c x : 0 <= x < N → ptrs c !!! Z.to_nat x = kv + bs * c x.
Proof.
  intros Hx. unfold ptrs. apply list_lookup_total_correct.
  rewrite list_lookup_fmap, zrange_lookup by lia. cbn [fmap option_fmap option_map].
  by replace (0 + Z.of_nat (Z.to_nat x)) with x by lia.
Qed.

Lemma ptrs_insert c x :
  0 <= x < N →
  <[Z.to_nat x := kv + bs * c x + bs]> (ptrs c) =
  ptrs (λ y, c y + (if y =? x then 1 else 0)).
Proof.
  intros Hx. apply list_eq. intros i. unfold ptrs.
  destruct (decide (i = Z.to_nat x)) as [->|Hi].
  - rewrite list_lookup_insert_eq by (rewrite length_fmap, zrange_length; lia).
    rewrite list_lookup_fmap, zrange_lookup by lia.
    replace (0 + Z.of_nat (Z.to_nat x)) with x by lia.
    cbn [fmap option_fmap option_map]. rewrite Z.eqb_refl. f_equal. lia.
  - rewrite list_lookup_insert_ne, !list_lookup_fmap by done.
    destruct (decide (Z.of_nat i < N)) as [HiN|HiN].
    + rewrite zrange_lookup by lia. cbn [fmap option_fmap option_map]. f_equal.
      rewrite (proj2 (Z.eqb_neq _ _)) by lia. lia.
    + rewrite (proj2 (lookup_ge_None _ _)) by (rewrite zrange_length; lia). done.
Qed.

(** The replicas of a block starting at [st] go to [R] different nodes. *)
Lemma place_replicas_spec (c : Z → Z) (st : Z) (i : Z) (c' : Z → Z) :
  0 <= st < N → 0 <= i <= R →
  (∀ x, 0 <= x < N → c' x = c x + (if (x - st) mod N <? i then 1 else 0)) →
  (∀ x, 0 <= x < N → 0 <= c x) →
  (∀ x, 0 <= x < N → (x - st) mod N < R → c x < B) →
  ∃ c'', (∀ x, 0 <= x < N → c'' x = c x + (if (x - st) mod N <? R then 1 else 0)) ∧
    place_replicas limit N bs st (zrange i R) (ptrs c') =
      Some ((λ j, kv + bs * c ((st + j) mod N)) <$> zrange i R, ptrs c'').
Proof.
  intros Hst Hi Hc' Hpos Hroom.
  remember (Z.to_nat (R - i)) as n eqn:Hn. revert i c' Hi Hc' Hn.
  induction n as [|n IH]; intros i c' Hi Hc' Hn.
  - assert (i = R) as -> by lia. rewrite zrange_nil by lia. exists c'. done.
  - rewrite zrange_cons by lia. cbn [place_replicas fmap list_fmap].
    set (x := (st + i) mod N).
    assert (0 <= x < N) as Hx by (apply Z.mod_pos_bound; lia).
    assert (u8 (u32 (st + i) mod N) = x) as ->.
    { unfold u8, u32. rewrite (Z.mod_small (st + i)) by lia. apply Z.mod_small. lia. }
    assert ((x - st) mod N = i) as Hxi.
    { unfold x. rewrite Zminus_mod_idemp_l. replace (st + i - st) with i by lia.
      apply Z.mod_small. lia. }
    assert (c' x = c x) as Hcx.
    { rewrite Hc', Hxi by done. rewrite (proj2 (Z.ltb_ge _ _)) by lia. lia. }
    pose proof (Hroom x Hx ltac:(lia)). pose proof (Hpos x Hx).
    rewrite ptrs_lookup, Hcx by done.
    assert (kv + bs * c x + bs <= limit) by nia.
    rewrite (proj2 (Z.leb_gt _ _)) by nia.
    assert (Z.land (kv + bs * c x) 1 = 0) as ->.
    { change 1 with (2 ^ 1 - 1). rewrite land_mask by lia. change (2 ^ 1) with 2.
      rewrite Z.add_mod, Z.mul_mod, Hev, Hkev by lia. done. }
    cbn [Z.eqb negb]. unfold u64. rewrite Z.mod_small by nia.
    replace (kv + bs * c x + bs) with (kv + bs * c' x + bs) by lia.
    rewrite ptrs_insert by done.
    destruct (IH (i + 1) (λ y, c' y + (if y =? x then 1 else 0))) as (c'' & Hc'' & E);
      [lia| |lia|].
    + intros y Hy. rewrite Hc' by done.
      destruct (decide (y = x)) as [->|Hne].
      * rewrite Hxi, Z.eqb_refl. repeat case_match; zify_bool; lia.
      * rewrite (proj2 (Z.eqb_neq y x)) by done.
        assert ((y - st) mod N ≠ i).
        { intros Hyi. apply Hne. unfold x. rewrite <- Hyi, Zplus_mod_idemp_r.
          replace (st + (y - st)) with y by lia. symmetry. by apply Z.mod_small. }
        repeat case_match; zify_bool; lia.
    + exists c''. split; [done|]. rewrite E. done.
Qed.
End placement.

(** The blocks whose first replica is on node [sid], among the first [k]. *)
Definition primary_blocks (N R kv bs sid k : Z) : list Z :=
  (λ j, kv + bs * placed N R (Z.to_nat j) sid) <$> filter (λ j, j mod N = sid) (zrange 0 k).

(** A geometry on which the nodes' blocks divide evenly into replicas. *)
Record geometry (N R B kv bs limit : Z) : Prop := {
  geo_N : 1 <= N <= 256;
  geo_R : 1 <= R <= N;
  geo_bs : 0 < bs ∧ bs mod 256 = 0;
  geo_kv : 0 < kv ∧ kv mod 256 = 0;
  geo_fit : kv + bs * B <= limit ∧ limit < 2 ^ 64;
  geo_B : 0 <= B ∧ B * N < 2 ^ 32;
  geo_div : B mod R = 0 }.

Lemma mod_256_even a : a mod 256 = 0 → a mod 2 = 0.
Proof. intros H. Z.to_euclidean_division_equations. lia. Qed.

(** While a block remains to be placed, the nodes it goes to have room. *)
Lemma placed_room N R B (k : Z) x :
  1 <= R <= N → 0 <= B → B mod R = 0 → 0 <= x < N → 0 <= k < B / R * N →
  (x - k mod N) mod N < R → placed N R (Z.to_nat k) x < B.
Proof.
  intros HR HB Hdiv Hx Hk Hin.
  assert (placed N R (S (Z.to_nat k)) x <= B) as Hle.
  { etrans; [apply (placed_mono _ _ _ (Z.to_nat (B / R) * Z.to_nat N)); nia|].
    rewrite placed_rounds by lia. pose proof (Z.div_mod B R).
    rewrite Z2Nat.id by (apply Z.div_pos; lia). lia. }
  cbn [placed] in Hle. rewrite Z2Nat.id in Hle by lia.
  rewrite <- Zminus_mod_idemp_r in Hle.
  rewrite (proj2 (Z.ltb_lt _ _)) in Hle by done. lia.
Qed.

Lemma allocable_step_spec s N R B kv bs limit k L :
  geometry N R B kv bs limit → 0 <= k < B / R * N →
  num_memory_ s = N → num_replication_ s = R → block_size_ s = bs →
  client_kv_area_limit_ s = limit →
  ∃ c, (∀ x, 0 <= x < N → c x = placed N R (Z.to_nat (k + 1)) x) ∧
  allocable_step k (ptrs N kv bs (placed N R (Z.to_nat k)),
                    s <| allocable_blocks_ ::= λ q, q ++ L |>) =
  Done tt (ptrs N kv bs c,
    s <| allocable_blocks_ ::= λ q, q ++ L ++
           (if k mod N =? my_sid_ s then [kv + bs * placed N R (Z.to_nat k) (k mod N)] else []) |>).
Proof.
  intros [HN HR [Hb Hb8] [Hk0 Hk8] [Hf Hl] HB Hd] Hk HsN HsR Hsb Hsl.
  pose proof (Z.mod_pos_bound k N ltac:(lia)) as Hst.
  destruct (place_replicas_spec N R B kv bs limit HN HR Hb ltac:(lia) Hf Hl
    (mod_256_even _ Hb8) (mod_256_even _ Hk8)
    (placed N R (Z.to_nat k)) (k mod N) 0 (placed N R (Z.to_nat k)))
    as (c & Hc & E); [lia|lia| | | |].
  { intros x Hx. rewrite (proj2 (Z.ltb_ge _ _)); [lia|]. apply Z.mod_pos_bound. lia. }
  { intros. apply placed_nonneg. }
  { intros x Hx Hin. apply (placed_room N R B k); try lia; done. }
  exists c. split.
  { intros x Hx. rewrite Hc by done. replace (Z.to_nat (k + 1)) with (S (Z.to_nat k)) by lia.
    cbn [placed]. rewrite Z2Nat.id by lia. by rewrite Zminus_mod_idemp_r. }
  unfold allocable_step. cbn. rewrite HsN, HsR, Hsb, Hsl. cbn [skip_full].
  rewrite ptrs_lookup by lia.
  assert (placed N R (Z.to_nat k) (k mod N) < B).
  { apply (placed_room N R B k); try lia; try done.
    rewrite Z.sub_diag, Z.mod_0_l; lia. }
  rewrite (proj2 (Z.eqb_neq _ _)) by nia. rewrite E.
  rewrite zrange_cons by lia. cbn [fmap list_fmap].
  rewrite Z.add_0_r, (Z.mod_mod k N) by lia.
  case_match; [|by rewrite app_nil_r]. unfold set_field. cbn. by rewrite <- app_assoc.
Qed.

Lemma ptrs_ext N kv bs c c' :
  (∀ x, 0 <= x < N → c x = c' x) → ptrs N kv bs c = ptrs N kv bs c'.
Proof.
  intros H. apply list_fmap_ext. intros i x Hx. rewrite H; [done|].
  apply elem_of_zrange, list_elem_of_lookup. eauto.
Qed.

Lemma primary_blocks_S N R kv bs sid k :
  0 <= k →
  primary_blocks N R kv bs sid (k + 1) =
  primary_blocks N R kv bs sid k ++
  (if k mod N =? sid then [kv + bs * placed N R (Z.to_nat k) sid] else []).
Proof.
  intros Hk. unfold primary_blocks. rewrite zrange_snoc, filter_app, fmap_app by done.
  f_equal. case_match eqn:E; zify_bool.
  - by rewrite filter_cons_True.
  - by rewrite filter_cons_False.
Qed.

Lemma get_allocable_blocks_run s N R B kv bs limit :
  geometry N R B kv bs limit →
  num_memory_ s = N → num_replication_ s = R → block_size_ s = bs →
  client_kv_area_limit_ s = limit → num_blocks_ s = B →
  u64 (base_addr_ s + client_kv_area_off_ s) = kv →
  get_allocable_blocks s =
  Done tt (s <| allocable_blocks_ ::=
                  λ q, q ++ primary_blocks N R kv bs (my_sid_ s) (B / R * N) |>).
Proof.
  intros HG HsN HsR Hsb Hsl HsB Hskv. pose proof HG as [HN HR _ _ _ HB Hd].
  unfold get_allocable_blocks. rewrite HsN, HsR, HsB, Hskv.
  rewrite (proj2 (Z.eqb_neq _ _)) by lia.
  assert (u32 (B * N) / R = B / R * N) as ->.
  { unfold u32. rewrite Z.mod_small by nia. pose proof (Z.div_mod B R).
    symmetry. apply Z.div_unique_exact; nia. }
  assert (0 <= B / R * N) by (pose proof (Z.div_pos B R); nia).
  destruct (forM_zrange_inv
    (λ k '(p, s'), p = ptrs N kv bs (placed N R (Z.to_nat k)) ∧
       s' = s <| allocable_blocks_ ::= λ q, q ++ primary_blocks N R kv bs (my_sid_ s) k |>)
    0 (B / R * N) allocable_step
    (replicate (Z.to_nat N) kv, s)) as ([p s'] & -> & _ & ->); [done| | |done].
  - split.
    + apply list_eq. intros i. unfold ptrs. rewrite list_lookup_fmap.
      destruct (decide (i < Z.to_nat N)%nat).
      * rewrite lookup_replicate_2, zrange_lookup by lia.
        change (Z.to_nat 0) with 0%nat. cbn [fmap option_fmap option_map placed].
        f_equal. lia.
      * rewrite !(proj2 (lookup_ge_None _ _));
          [done|rewrite zrange_length; lia|rewrite length_replicate; lia].
    + destruct s. unfold set_field; cbn. unfold primary_blocks. by rewrite zrange_nil, app_nil_r.
  - intros k [p s'] Hk [-> ->].
    destruct (allocable_step_spec s N R B kv bs limit k
      (primary_blocks N R kv bs (my_sid_ s) k)) as (c & Hc & ->); try done.
    eexists (_, _). split; [reflexivity|]. split; [by apply ptrs_ext|].
    rewrite primary_blocks_S by lia. unfold set_field. cbn. do 3 f_equal.
    destruct (k mod N =? my_sid_ s) eqn:E; zify_bool; [by rewrite E|done].
Qed.

Lemma placed_lt N R (k j : nat) x :
  1 <= R → 0 < N → Z.of_nat k mod N = x → (k < j)%nat → placed N R k x < placed N R j x.
Proof.
  intros HR HN Hx Hkj. eapply Z.lt_le_trans; [|apply (placed_mono _ _ (S k)); lia].
  cbn [placed]. rewrite <- Hx, Zminus_mod_idemp_l, Z.sub_diag, Z.mod_0_l by lia.
  rewrite (proj2 (Z.ltb_lt _ _)) by lia. lia.
Qed.

Section primary.
Context (N R B kv bs limit sid : Z).
Hypotheses (HG : geometry N R B kv bs limit) (Hsid : 0 <= sid < N).

Lemma primary_blocks_eq :
  primary_blocks N R kv bs sid (B / R * N) =
  (λ i, kv + bs * placed N R (Z.to_nat (i * N + sid)) sid) <$> zrange 0 (B / R).
Proof.
  destruct HG as [HN HR _ _ _ HB Hd].
  assert (0 <= B / R) by (apply Z.div_pos; lia).
  unfold primary_blocks. replace (B / R) with (Z.of_nat (Z.to_nat (B / R))) by lia.
  rewrite filter_mod_zrange, <- list_fmap_compose by done. done.
Qed.

(** Consecutive blocks of the queue do not overlap. *)
Lemma primary_blocks_apart (i j : nat) a b :
  primary_blocks N R kv bs sid (B / R * N) !! i = Some a →
  primary_blocks N R kv bs sid (B / R * N) !! j = Some b →
  (i < j)%nat → a + bs <= b.
Proof.
  destruct HG as [HN HR [Hb _] _ _ HB Hd]. rewrite primary_blocks_eq, !list_lookup_fmap.
  intros Ha Hb' Hij.
  assert (j < length (zrange 0 (B / R)))%nat as Hj.
  { apply lookup_lt_is_Some. destruct (zrange 0 (B / R) !! j); naive_solver. }
  rewrite zrange_length in Hj. rewrite zrange_lookup in Ha, Hb' by lia.
  cbn [fmap option_fmap option_map] in Ha, Hb'. simplify_eq.
  assert (placed N R (Z.to_nat ((0 + Z.of_nat i) * N + sid)) sid
          < placed N R (Z.to_nat ((0 + Z.of_nat j) * N + sid)) sid); [|nia].
  apply placed_lt; [lia|lia| |nia].
  rewrite Z2Nat.id, Z.add_comm, Z.mod_add by nia. by apply Z.mod_small.
Qed.

Lemma primary_blocks_range a :
  a ∈ primary_blocks N R kv bs sid (B / R * N) →
  kv <= a ∧ a + bs <= limit ∧ a mod 256 = 0.
Proof.
  destruct HG as [HN HR [Hb Hb8] [Hk Hk8] [Hf Hl] HB Hd]. unfold primary_blocks.
  intros (k & -> & [Hm Hk'%elem_of_zrange]%list_elem_of_filter)%list_elem_of_fmap.
  pose proof (placed_nonneg N R (Z.to_nat k) sid).
  pose proof (placed_room N R B k sid HR ltac:(lia) Hd Hsid Hk') as Hr.
  rewrite Hm, Z.sub_diag, Z.mod_0_l in Hr by lia. specialize (Hr ltac:(lia)).
  split_and!; [nia|nia|].
  rewrite Z.add_mod, Z.mul_mod, Hb8, Hk8 by lia. done.
Qed.
End primary.

(** C33. Construction of a memory node's block queue: on every geometry whose
    blocks divide evenly into replicas, [get_allocable_blocks] ends (neither
    [exit(1)] nor the spinning inner loop is reached), queues exactly
    [num_blocks / num_replication] blocks, each 256-byte aligned and inside the
    key-value area, no two overlapping, and establishes the allocator's
    invariant. *)
Theorem get_allocable_blocks_correct (s : t) (N R B kv bs limit : Z) :
  geometry N R B kv bs limit →
  num_memory_ s = N → num_replication_ s = R → block_size_ s = bs →
  client_kv_area_limit_ s = limit → num_blocks_ s = B →
  u64 (base_addr_ s + client_kv_area_off_ s) = kv →
  0 <= my_sid_ s < N → allocable_blocks_ s = [] → allocated_blocks_ s = ∅ →
  ∃ s', get_allocable_blocks s = Done tt s' ∧
    length (allocable_blocks_ s') = Z.to_nat (B / R) ∧
    blocks_inv (allocable_blocks_ s') s' ∧
    (∀ a, a ∈ allocable_blocks_ s' → kv <= a ∧ a + bs <= limit ∧ a mod 256 = 0) ∧
    (∀ (i j : nat) a b, allocable_blocks_ s' !! i = Some a →
       allocable_blocks_ s' !! j = Some b → (i < j)%nat → a + bs <= b).
Proof.
  intros HG HN HR Hb Hl HB Hkv Hsid Hq Ha.
  rewrite (get_allocable_blocks_run s N R B kv bs limit) by done.
  eexists. split; [reflexivity|]. cbn. rewrite Hq. cbn.
  pose proof (primary_blocks_apart N R B kv bs limit _ HG Hsid) as Hap.
  pose proof (primary_blocks_range N R B kv bs limit _ HG Hsid) as Hra.
  pose proof HG as [_ _ [? _] [? _] _ _ _].
  split_and!; [|split| |]; cbn; rewrite ?Hq; cbn.
  - rewrite (primary_blocks_eq N R B kv bs limit) by done.
    rewrite length_fmap, zrange_length. f_equal. lia.
  - apply NoDup_alt. intros i j a Hi Hj.
    destruct (Nat.lt_trichotomy i j) as [Hlt|[?|Hlt]]; [|done|].
    + specialize (Hap _ _ _ _ Hi Hj Hlt). lia.
    + specialize (Hap _ _ _ _ Hj Hi Hlt). lia.
  - intros b _. unfold is_allocated. cbn. rewrite Ha. by rewrite lookup_empty.
  - intros b. unfold is_allocated. cbn. rewrite Ha, lookup_empty. naive_solver.
  - intros Hz. apply Hra in Hz. lia.
  - done.
  - done.
Qed.

(** A node of three, two replicas, four blocks of 4 KB per node. *)
Definition example_node : t :=
  blank <| num_memory_ := 3 |> <| num_replication_ := 2 |> <| block_size_ := 4096 |>
        <| base_addr_ := 0x10000000 |> <| client_kv_area_off_ := 0x1000 |>
        <| client_kv_area_limit_ := 0x10005000 |> <| num_blocks_ := 4 |> <| my_sid_ := 1 |>.

Lemma example_geometry : geometry 3 2 4 0x10001000 4096 0x10005000.
Proof. split; vm_compute; intuition congruence. Qed.

Example get_allocable_blocks_correct_witness :
  ∃ s', get_allocable_blocks example_node = Done tt s' ∧
        length (allocable_blocks_ s') = 2%nat.
Proof.
  destruct (get_allocable_blocks_correct example_node 3 2 4 0x10001000 4096 0x10005000
    example_geometry) as (s' & H1 & H2 & _); try reflexivity;
    [vm_compute; intuition congruence|].
  exists s'. split; [exact H1|exact H2].
Defined.

Lemma example_inv :
  blocks_inv [100; 200] (blank <| allocable_blocks_ := [200] |>
                               <| allocated_blocks_ := {[100 := true]} |>).
Proof.
  split; cbn; unfold is_allocated; cbn.
  - apply NoDup_singleton.
  - intros b ->%list_elem_of_singleton. by rewrite lookup_singleton_ne.
  - intros b. rewrite lookup_singleton_Some. set_solver.
  - set_solver.
Qed.

Example mm_alloc_correct_witness :
  let s := blank <| allocable_blocks_ := [200] |> <| allocated_blocks_ := {[100 := true]} |> in
  ∃ r s', mm_alloc s = Done r s' ∧ blocks_inv [100; 200] s'.
Proof.
  intros s. destruct (mm_alloc_correct [100; 200] s example_inv) as (r & s' & H1 & H2 & _).
  exists r, s'. split; assumption.
Defined.

Example mm_free_correct_witness :
  let s := blank <| allocable_blocks_ := [200] |> <| allocated_blocks_ := {[100 := true]} |> in
  ∃ r s', mm_free 200 s = Done r s' ∧ r = -1.
Proof.
  intros s.
  destruct (mm_free_correct [100; 200] s 200 example_inv) as (r & s' & H1 & _ & H2).
  exists r, s'. split; [exact H1|].
  destruct H2 as [[H2 _]|(_ & H2 & _)]; [exact H2|]. vm_compute in H2. discriminate.
Defined.
End Smm.
