(* ===== verification/Server.v ===== *)
(** * The memory node's request loop ([src/src/server.h], [src/src/server.cc])

    A memory node answers connection requests, block allocations and subtable
    allocations that arrive as UDP messages.  The creation of queue pairs by the
    verbs library is an argument ([new_qp_info]); what the node sends is kept in
    the order it is sent. *)

From S2P Require Import Prelude Mem KvUtils HashTable ServerMM.

Module Srv.

Record t := mk {
  server_id_ : Z;
  need_stop_ : bool;
  nm_server_id : Z;                         (** [nm_->get_server_id()] *)
  rc_qp_list_ : gmap Z (QpInfo * option QpInfo);
                                            (** client id to local and peer end *)
  mm_ : Smm.t;
  sent : list (KVMsg * Z) }.                (** messages with their destination *)

#[global] Instance eta_t : Eta t := λ s,
  mk (server_id_ s) (need_stop_ s) (nm_server_id s) (rc_qp_list_ s) (mm_ s) (sent s).

(** Run an operation of the memory manager on the [mm_] field. *)
Definition on_mm {A} (c : M Smm.t A) : M t A := λ s,
  match c (mm_ s) with
  | Done a m => Done a (s <| mm_ := m |>)
  | Stopped e m => Stopped e (s <| mm_ := m |>)
  end.

Definition nm_send_udp_msg (k : KVMsg) (dst : Z) : M t unit :=
  modify (λ s, s <| sent ::= λ l, l ++ [(k, dst)] |>).

(** The server's constructor. *)
Definition Server (conf : GlobalConfig) (rand_ret rkey : Z) : outcome t unit :=
  let s := mk (server_id conf) false (server_id conf) ∅ Smm.blank [] in
  on_mm (Smm.ServerMM (server_base_addr conf) (server_data_len conf) (block_size conf)
           rand_ret rkey conf) s.

Section handlers.
(** The [QpInfo] of the queue pair created for a request. *)
Context (new_qp_info : KVMsg → QpInfo).

Definition nm_on_connect_new_qp (request : KVMsg) : M t QpInfo :=
  let q := new_qp_info request in
  modify (λ s, s <| rc_qp_list_ ::= <[msg_id request := (q, None)]> |>) ;; mret q.

Definition nm_on_connect_connect_qp (client_id : Z) (local remote : QpInfo) : M t unit :=
  modify (λ s, s <| rc_qp_list_ ::= <[client_id := (local, Some remote)]> |>).

Definition server_on_connect (request : KVMsg) (src_addr : Z) : M t Z :=
  s ← get;
  q ← nm_on_connect_new_qp request;
  let reply := mkKVMsg REP_CONNECT (u16 (server_id_ s))
                 (conn_info (mkConnInfo q (Smm.get_mr_info (mm_ s)))) in
  reply ← of_option (serialize_kvmsg reply);
  nm_send_udp_msg reply src_addr ;;
  reply ← of_option (deserialize_kvmsg reply);
  match msg_body reply, msg_body request with
  | conn_info c, conn_info r =>
      nm_on_connect_connect_qp (msg_id request) (qp_info c) (qp_info r) ;; mret 0
  | _, _ => stopm Undefined
  end.

Definition server_on_alloc (request : KVMsg) (src_addr : Z) : M t Z :=
  alloc_addr ← on_mm Smm.mm_alloc;
  s ← get;
  let reply := mkKVMsg REP_ALLOC (u16 (nm_server_id s))
                 (mr_info (mkMrInfo (if negb (alloc_addr =? 0) then alloc_addr else 0)
                                    (Smm.get_rkey (mm_ s)))) in
  reply ← of_option (serialize_kvmsg reply);
  nm_send_udp_msg reply src_addr ;;
  mret 0.

Definition server_on_alloc_subtable (request : KVMsg) (src_addr : Z) : M t Z :=
  subtable_addr ← on_mm Smm.mm_alloc_subtable;
  s ← get;
  let reply := mkKVMsg REP_ALLOC_SUBTABLE (u16 (nm_server_id s))
                 (mr_info (mkMrInfo subtable_addr (Smm.get_rkey (mm_ s)))) in
  reply ← of_option (serialize_kvmsg reply);
  nm_send_udp_msg reply src_addr ;;
  mret 0.

Definition stop : M t unit := modify (λ s, s <| need_stop_ := true |>).

(** What happens at the socket while the loop waits: a datagram, a failed or
    timed out [recvfrom], or a call of [stop] from another thread. *)
Inductive event := Datagram (k : KVMsg) (src : Z) | RecvError | StopCalled.

(** One iteration of the loop, once the event is there. *)
Definition serve (e : event) : M t unit :=
  match e with
  | StopCalled => stop
  | RecvError => skip     (** [break] and [continue] both go to the loop test *)
  | Datagram k src =>
      request ← of_option (deserialize_kvmsg k);
      _ ← (if msg_type request =? REQ_CONNECT then server_on_connect request src
           else if msg_type request =? REQ_ALLOC_SUBTABLE then
             server_on_alloc_subtable request src
           else server_on_alloc request src);
      skip
  end.

(** [while (!need_stop_)] over the events; with no further event the loop is
    blocked in [recvfrom]. *)
Fixpoint thread_main (events : list event) : M t unit :=
  match events with
  | [] => skip
  | e :: events' =>
      s ← get;
      if need_stop_ s then skip else serve e ;; thread_main events'
  end.

(** ** The allocation call, end to end *)

(** A manager whose addresses and key fit the message fields. *)
Definition mm_fits (m : Smm.t) : Prop :=
  Forall in_u64 (Smm.allocable_blocks_ m) ∧ in_u32 (Smm.get_rkey m).

Lemma mm_alloc_addr m :
  mm_fits m → ∃ a m', Smm.mm_alloc m = Done a m' ∧ in_u64 a ∧ Smm.get_rkey m' = Smm.get_rkey m.
Proof.
  intros [Hb Hr]. unfold Smm.mm_alloc. destruct (Smm.allocable_blocks_ m) as [|a rest] eqn:E.
  - exists 0, m. done.
  - eexists a, _. split; [done|]. apply Forall_cons in Hb as [Ha _]. done.
Qed.

(** C26. The block allocation call: when a client's serialised [REQ_ALLOC] message
    reaches the request loop, the node performs exactly one [mm_alloc], sends
    exactly one reply, to the sender, and that reply decodes to a [REP_ALLOC]
    with the node's identifier, the address [mm_alloc] returned (0 when the node
    is full) and the key of its memory region. *)
Theorem serve_alloc (s : t) (req wire : KVMsg) (src : Z) :
  kvmsg_wf req → msg_type req = REQ_ALLOC → serialize_kvmsg req = Some wire →
  mm_fits (mm_ s) →
  ∃ a m' reply,
    Smm.mm_alloc (mm_ s) = Done a m' ∧
    serve (Datagram wire src) s =
      Done tt (s <| mm_ := m' |> <| sent ::= λ l, l ++ [(reply, src)] |>) ∧
    deserialize_kvmsg reply =
      Some (mkKVMsg REP_ALLOC (u16 (nm_server_id s))
                    (mr_info (mkMrInfo a (Smm.get_rkey (mm_ s))))).
Proof.
  intros Hwf Hty Hser Hfit.
  destruct (serialize_deserialize req Hwf) as (w & Hw & Hd). simplify_eq.
  destruct (mm_alloc_addr _ Hfit) as (a & m' & Ha & Hau & Hrk).
  set (rep := mkKVMsg REP_ALLOC (u16 (nm_server_id s)) (mr_info (mkMrInfo a (Smm.get_rkey m')))).
  assert (kvmsg_wf rep) as Hrep.
  { split; [done|split; [apply Z.mod_pos_bound; lia|]]. split; [|done].
    split; [done|]. cbn. rewrite Hrk. apply Hfit. }
  destruct (serialize_deserialize rep Hrep) as (reply & Hr & Hdr).
  exists a, m', reply. split; [done|]. split; [|rewrite Hdr; unfold rep; by rewrite Hrk].
  unfold serve. unM. rewrite Hd, Hty.
  change (REQ_ALLOC =? REQ_CONNECT) with false.
  change (REQ_ALLOC =? REQ_ALLOC_SUBTABLE) with false. cbv match.
  unfold server_on_alloc, on_mm. unM. rewrite Ha. cbn [mm_ nm_server_id set_field].
  assert ((if negb (a =? 0) then a else 0) = a) as -> by (case_match eqn:E; zify_bool; done).
  change (nm_server_id (set_field mm_ (λ _, m') s)) with (nm_server_id s).
  change (mm_ (set_field mm_ (λ _, m') s)) with m'.
  fold rep. rewrite Hr. reflexivity.
Qed.

(** The connection call: exactly one reply, to the sender, which decodes to the
    node's region and the local end of the new queue pair; both ends are
    recorded under the client's number. *)
Lemma serve_connect (s : t) (req wire : KVMsg) (c : ConnInfo) (src : Z) :
  kvmsg_wf req → msg_type req = REQ_CONNECT → msg_body req = conn_info c →
  serialize_kvmsg req = Some wire →
  conn_wf (mkConnInfo (new_qp_info req) (Smm.get_mr_info (mm_ s))) →
  ∃ reply s',
    serve (Datagram wire src) s = Done tt s' ∧ mm_ s' = mm_ s ∧
    sent s' = sent s ++ [(reply, src)] ∧
    rc_qp_list_ s' !! msg_id req = Some (new_qp_info req, Some (qp_info c)) ∧
    deserialize_kvmsg reply =
      Some (mkKVMsg REP_CONNECT (u16 (server_id_ s))
                    (conn_info (mkConnInfo (new_qp_info req) (Smm.get_mr_info (mm_ s))))).
Proof.
  intros Hwf Hty Hbody Hser Hfit.
  destruct (serialize_deserialize req Hwf) as (w & Hw & Hd). simplify_eq.
  set (rep := mkKVMsg REP_CONNECT (u16 (server_id_ s))
                (conn_info (mkConnInfo (new_qp_info req) (Smm.get_mr_info (mm_ s))))).
  assert (kvmsg_wf rep) as Hrep.
  { split; [done|split; [apply Z.mod_pos_bound; lia|]]. by split. }
  destruct (serialize_deserialize rep Hrep) as (reply & Hr & Hdr).
  exists reply. unfold serve. unM. rewrite Hd, Hty. change (REQ_CONNECT =? REQ_CONNECT) with true.
  cbv match. unfold server_on_connect, nm_on_connect_new_qp, nm_send_udp_msg,
    nm_on_connect_connect_qp. unM. fold rep.
  rewrite Hr, Hdr, Hbody.
  cbn [msg_body rep]. eexists. split; [reflexivity|]. split; [reflexivity|]. split; [reflexivity|].
  split; [|done]. cbn. by rewrite lookup_insert_eq.
Qed.
End handlers.

Definition example_server : t :=
  mk 1 false 1 ∅ (Smm.blank <| Smm.allocable_blocks_ := [0x10001000] |>
                            <| Smm.mr_rkey := 77 |>) [].

Example serve_alloc_witness :
  ∃ reply s', serve (λ _, mkQpInfo 0 0 0 [] 0)
      (Datagram (mkKVMsg 0x100 0x300 (mr_info (mkMrInfo 0 0))) 9) example_server = Done tt s' ∧
    sent s' = [(reply, 9)] ∧
    deserialize_kvmsg reply =
      Some (mkKVMsg REP_ALLOC 1 (mr_info (mkMrInfo 0x10001000 77))).
Proof.
  destruct (serve_alloc (λ _, mkQpInfo 0 0 0 [] 0) example_server
              (mkKVMsg REQ_ALLOC 3 (mr_info (mkMrInfo 0 0)))
              (mkKVMsg 0x100 0x300 (mr_info (mkMrInfo 0 0))) 9)
    as (a & m' & reply & H1 & H2 & H3).
  - repeat split; vm_compute; congruence.
  - reflexivity.
  - reflexivity.
  - split; [repeat constructor; vm_compute; congruence|vm_compute; intuition congruence].
  - exists reply. eexists. split; [exact H2|]. split; [reflexivity|].
    vm_compute in H1. injection H1 as <- _. exact H3.
Defined.
End Srv.
