(* ===== verification/Rdma.v ===== *)
(** * Work requests and the RDMA fabric ([src/src/ib.h], [src/src/ib.cc])

    The work requests the client builds, their grouping and chaining per memory
    node, and the interface of the verbs library.  The library is not part of
    the repository: [Fabric] names the two calls the program makes of it and
    [ReliableFabric] what its documentation promises of them. *)

From stdpp Require Import sorting.
From S2P Require Import Prelude Mem.

(** ** Work requests *)

Inductive ibv_wr_opcode :=
  | IBV_WR_RDMA_READ | IBV_WR_RDMA_WRITE
  | IBV_WR_ATOMIC_CMP_AND_SWP | IBV_WR_ATOMIC_FETCH_AND_ADD.

(** The local side of a request: a range of registered memory, or the bytes of
    a C++ object that is sent inline. *)
Inductive sge := Sge (addr length lkey : Z) | SgeInline (bytes : list Z).

Record ibv_send_wr := mkWr {
  wr_id : Z; sg : sge; opcode : ibv_wr_opcode; signaled : bool;
  remote_addr : Z; wr_rkey : Z; compare_add : Z; swap : Z }.

#[global] Instance eta_wr : Eta ibv_send_wr := λ w,
  mkWr (wr_id w) (sg w) (opcode w) (signaled w) (remote_addr w) (wr_rkey w)
       (compare_add w) (swap w).

Record ibv_wc := mkWc { wc_wr_id : Z }.

(** [IbvSrList]: the array [sr_list] with its [num_sr] entries, in the order of
    their [next] links, and the node they go to. *)
Record IbvSrList := mkSrList { sr_list : list ibv_send_wr; sr_server_id : Z }.

Definition num_sr (l : IbvSrList) : Z := Z.of_nat (length (sr_list l)).

(** ** Request identifiers *)

Definition ib_gen_wr_id (coro_id dst_server_id req_type_st req_seq : Z) : Z :=
  u64 (u64 (u64 (u64 (Z.shiftl coro_id 8) + dst_server_id) * 1000) + req_type_st + req_seq).
Definition wrid_to_fiber_id (wr_id : Z) : Z := u32 (Z.shiftr (wr_id / 1000) 8).
Definition wrid_to_dst_sid (wr_id : Z) : Z := u8 (Z.land (wr_id / 1000) 0xFF).
Definition wrid_to_req_seq (wr_id : Z) : Z := u32 (wr_id mod 1000).

(** ** Chaining *)

(** The requests of [sr_lists] chained by their [next] links. *)
Definition ib_merge_sr_lists_unsignaled (sr_lists : list IbvSrList) : list ibv_send_wr :=
  concat (sr_list <$> sr_lists).

Definition set_last_signaled (wrs : list ibv_send_wr) : list ibv_send_wr :=
  match last wrs with
  | Some w => take (length wrs - 1) wrs ++ [w <| signaled := true |>]
  | None => []
  end.

(** Also marks the last request signaled, and returns its identifier; [None]
    where the code indexes an empty array. *)
Definition ib_merge_sr_lists (sr_lists : list IbvSrList) : option (list ibv_send_wr * Z) :=
  let merged := concat (sr_list <$> sr_lists) in
  w ← last merged;
  Some (set_last_signaled merged, wr_id w).

(** [std::map<uint8_t, std::vector<IbvSrList *>>]: the lists of each node, in
    the order they were given; nodes in increasing order. *)
Fixpoint insert_group (sid : Z) (x : IbvSrList) (gs : list (Z * list IbvSrList))
    : list (Z * list IbvSrList) :=
  match gs with
  | [] => [(sid, [x])]
  | (s, xs) :: gs' =>
      if sid =? s then (s, xs ++ [x]) :: gs'
      else if sid <? s then (sid, [x]) :: gs
      else (s, xs) :: insert_group sid x gs'
  end.

Definition group_by_server (ls : list IbvSrList) : list (Z * list IbvSrList) :=
  fold_left (λ gs l, insert_group (u8 (sr_server_id l)) l gs) ls [].

(** [ib_is_all_wrid_finished] *)
Definition ib_is_all_wrid_finished (wait : gmap Z (option ibv_wc)) : bool :=
  forallb (λ '(_, v), match v with Some _ => true | None => false end) (map_to_list wait).

(** ** The fabric *)

(** The memory of the client process, the memory region of each node, and the
    completion queue of the client. *)
Record world := mkWorld { lmem : mem; rmem : Z → mem; cq : list ibv_wc }.

#[global] Instance eta_world : Eta world := λ w, mkWorld (lmem w) (rmem w) (cq w).

Definition upd_rmem (f : Z → mem) (sid : Z) (m : mem) : Z → mem :=
  λ s, if s =? sid then m else f s.

(** What one request does, as the verbs documentation states it: a read copies
    remote bytes to local memory, a write local bytes to remote memory; an
    atomic acts on the remote 64-bit word at once and puts its previous value in
    local memory. *)
Definition apply_op (sid : Z) (wr : ibv_send_wr) (w : world) : world :=
  let rm := rmem w sid in
  match opcode wr, sg wr with
  | IBV_WR_RDMA_READ, Sge a n _ => w <| lmem ::= λ lm, copy n rm (remote_addr wr) lm a |>
  | IBV_WR_RDMA_WRITE, Sge a n _ =>
      w <| rmem ::= λ f, upd_rmem f sid (copy n (lmem w) a rm (remote_addr wr)) |>
  | IBV_WR_RDMA_WRITE, SgeInline bs =>
      w <| rmem ::= λ f, upd_rmem f sid (store_bytes rm (remote_addr wr) bs) |>
  | IBV_WR_ATOMIC_CMP_AND_SWP, Sge a _ _ =>
      let old := load64 rm (remote_addr wr) in
      w <| lmem ::= λ lm, store64 lm a old |>
        <| rmem ::= λ f, if old =? compare_add wr
                         then upd_rmem f sid (store64 rm (remote_addr wr) (swap wr)) else f |>
  | IBV_WR_ATOMIC_FETCH_AND_ADD, Sge a _ _ =>
      let old := load64 rm (remote_addr wr) in
      w <| lmem ::= λ lm, store64 lm a old |>
        <| rmem ::= λ f, upd_rmem f sid
                           (store64 rm (remote_addr wr) (u64 (old + compare_add wr))) |>
  | _, SgeInline _ => w
  end.

Definition apply_wr (sid : Z) (wr : ibv_send_wr) (w : world) : world :=
  let w' := apply_op sid wr w in
  if signaled wr then w' <| cq ::= λ q, q ++ [mkWc (wr_id wr)] |> else w'.

(** [ibv_post_send sid wrs] posts a chain on the queue pair of node [sid] and
    [ibv_poll_cq n] takes up to [n] completions. *)
Class Fabric := {
  ibv_post_send : Z → list ibv_send_wr → world → world;
  ibv_poll_cq : Z → world → list ibv_wc * world }.

(** The requests of a chain take effect one after the other, each at once on a
    state of the remote memories that other clients may have changed since the
    previous request; completions come in order. *)
Class ReliableFabric (F : Fabric) : Prop := {
  post_nil : ∀ sid w, ibv_post_send sid [] w = w;
  post_cons : ∀ sid wr wrs w,
    ibv_post_send sid (wr :: wrs) w = ibv_post_send sid wrs (ibv_post_send sid [wr] w);
  post_one : ∀ sid wr w, ∃ r, ibv_post_send sid [wr] w = apply_wr sid wr (w <| rmem := r |>);
  poll_take : ∀ n w, ibv_poll_cq n w =
    (take (Z.to_nat n) (cq w), w <| cq ::= drop (Z.to_nat n) |>) }.

(** A fabric on which no other client interferes. *)
Class QuietFabric (F : Fabric) : Prop := {
  quiet_reliable :: ReliableFabric F;
  quiet_one : ∀ sid wr w, ibv_post_send sid [wr] w = apply_wr sid wr w }.

(** The interface has a model: requests applied in order, alone. *)
Definition quiet_fabric : Fabric := {|
  ibv_post_send := λ sid wrs w, fold_left (λ w wr, apply_wr sid wr w) wrs w;
  ibv_poll_cq := λ n w, (take (Z.to_nat n) (cq w), w <| cq ::= drop (Z.to_nat n) |>) |}.

#[export] Instance quiet_fabric_ok : QuietFabric quiet_fabric.
Proof.
  split; [split|]; try done.
  intros sid wr w. exists (rmem w). by destruct w.
Qed.

(** ** Lemmas *)

Lemma post_quiet (F : Fabric) `{!QuietFabric F} sid wrs w :
  ibv_post_send sid wrs w = fold_left (λ w wr, apply_wr sid wr w) wrs w.
Proof.
  revert w. induction wrs as [|wr wrs IH]; intros w; [apply post_nil|].
  rewrite post_cons, quiet_one, IH. done.
Qed.

(** The request identifiers are decodable: fiber, destination and sequence
    number are recovered from the identifier [ib_gen_wr_id] builds, for every
    32-bit fiber, every node and every sequence number below 1000. *)
Lemma wr_id_roundtrip (coro sid st seq : Z) :
  in_u32 coro → in_u8 sid → 0 <= st → 0 <= seq → st + seq < 1000 →
  let w := ib_gen_wr_id coro sid st seq in
  wrid_to_fiber_id w = coro ∧ wrid_to_dst_sid w = sid ∧ wrid_to_req_seq w = st + seq.
Proof.
  unfold in_u32, in_u8. intros Hc Hs Hst Hq Hlt.
  assert (ib_gen_wr_id coro sid st seq = (coro * 256 + sid) * 1000 + (st + seq)) as ->.
  { unfold ib_gen_wr_id, u64. bits_to_arith. change (2 ^ 8) with 256.
    rewrite (Z.mod_small (coro * 256)) by lia.
    rewrite (Z.mod_small (coro * 256 + sid)) by lia.
    rewrite (Z.mod_small ((coro * 256 + sid) * 1000)) by lia.
    rewrite Z.mod_small by lia. lia. }
  unfold wrid_to_fiber_id, wrid_to_dst_sid, wrid_to_req_seq, u32, u8.
  rewrite Z.div_add_l, (Z.div_small (st + seq)), Z.add_0_r by lia.
  change 0xFF with (2 ^ 8 - 1). rewrite land_mask by lia. bits_to_arith.
  change (2 ^ 8) with 256. split_and!.
  - rewrite Z.div_add_l, (Z.div_small sid), Z.add_0_r by lia. apply Z.mod_small. lia.
  - rewrite Z.mod_mod, Z.add_comm, Z.mod_add by lia. apply Z.mod_small. lia.
  - rewrite (Z.add_comm _ (st + seq)), Z.mod_add by lia.
    rewrite (Z.mod_small _ 1000) by lia. apply Z.mod_small. lia.
Qed.

(** The group of a node after one more list. *)
Definition group_of (sid : Z) (gs : list (Z * list IbvSrList)) : list IbvSrList :=
  concat (snd <$> filter (λ g, g.1 = sid) gs).

Definition ordered (gs : list (Z * list IbvSrList)) : Prop := StronglySorted Z.lt (fst <$> gs).

Lemma group_of_cons sid s xs gs :
  group_of sid ((s, xs) :: gs) = (if decide (s = sid) then xs else []) ++ group_of sid gs.
Proof.
  unfold group_of. destruct (decide (s = sid)).
  - by rewrite filter_cons_True.
  - by rewrite filter_cons_False.
Qed.

Lemma group_of_notin sid gs : Forall (λ g, sid < g.1) gs → group_of sid gs = [].
Proof.
  induction 1 as [|[s xs] gs Hs _ IH]; [done|]. rewrite group_of_cons, IH.
  cbn in Hs. by rewrite decide_False by lia.
Qed.

Lemma insert_group_keys sid x gs :
  ∀ s, s ∈ fst <$> insert_group sid x gs ↔ s = sid ∨ s ∈ fst <$> gs.
Proof.
  induction gs as [|[s0 xs] gs IH]; intros s; cbn; [set_solver|].
  destruct (sid =? s0) eqn:E; zify_bool; [set_solver|].
  destruct (sid <? s0) eqn:E'; zify_bool; cbn; set_solver.
Qed.

Lemma insert_group_spec sid x gs :
  ordered gs →
  ordered (insert_group sid x gs) ∧
  ∀ s, group_of s (insert_group sid x gs) =
       group_of s gs ++ (if decide (sid = s) then [x] else []).
Proof.
  induction gs as [|[s0 xs] gs IH]; intros Ho.
  - split; [repeat constructor|]. intros s. cbn [insert_group]. rewrite group_of_cons. cbn.
    by rewrite app_nil_r.
  - apply StronglySorted_inv in Ho as [Ho Hall].
    change (Forall (Z.lt s0) (fst <$> gs)) in Hall.
    assert (Forall (λ g, s0 < g.1) gs) as Hgt by exact (proj1 (Forall_fmap _ _ _) Hall).
    cbn [insert_group]. destruct (sid =? s0) eqn:E; zify_bool.
    + subst sid. split; [by constructor|]. intros s. rewrite !group_of_cons.
      destruct (decide (s0 = s)) as [->|].
      * by rewrite (group_of_notin s gs), !app_nil_r.
      * by rewrite app_nil_r.
    + destruct (sid <? s0) eqn:E'; zify_bool.
      * split.
        { constructor; [by constructor|]. constructor; [cbn; lia|].
          eapply Forall_impl; [exact Hall|]. cbn. lia. }
        intros s. rewrite (group_of_cons s sid). destruct (decide (sid = s)) as [->|].
        -- rewrite group_of_notin; [done|]. constructor; [done|].
           eapply Forall_impl; [exact Hgt|]. cbn. lia.
        -- by rewrite app_nil_r.
      * destruct (IH Ho) as [IH1 IH2]. split.
        { constructor; [done|]. apply Forall_forall. intros s Hs.
          apply insert_group_keys in Hs as [->|Hs]; [cbn; lia|].
          rewrite Forall_forall in Hall. by apply Hall. }
        intros s. rewrite !group_of_cons, IH2, app_assoc. done.
Qed.

(** Posting groups the request lists by memory node without losing,
    duplicating or reordering any: the groups are in strictly increasing order of
    node, and the group of a node is exactly the sub-sequence of the given lists
    that go to it. *)
Lemma group_by_server_spec (ls : list IbvSrList) :
  ordered (group_by_server ls) ∧
  ∀ s, group_of s (group_by_server ls) = filter (λ l, u8 (sr_server_id l) = s) ls.
Proof.
  unfold group_by_server.
  induction ls as [|l ls IH] using rev_ind; [split; [constructor|done]|].
  rewrite fold_left_app. cbn [fold_left]. destruct IH as [Ho Hg].
  destruct (insert_group_spec (u8 (sr_server_id l)) l _ Ho) as [H1 H2].
  split; [done|]. intros s. by rewrite H2, Hg, filter_app.
Qed.

Lemma ordered_NoDup gs : ordered gs → NoDup (fst <$> gs).
Proof.
  unfold ordered. generalize (fst <$> gs). induction 1 as [|x l Hs IH Hx]; constructor; [|done].
  intros Hin. rewrite Forall_forall in Hx. specialize (Hx _ Hin). lia.
Qed.

Lemma group_by_server_ordered ls :
  ordered (group_by_server ls) ∧ Forall (λ g, 0 <= g.1 < 256) (group_by_server ls).
Proof.
  unfold group_by_server. induction ls as [|l ls IH] using rev_ind; [by repeat constructor|].
  rewrite fold_left_app. cbn [fold_left]. destruct IH as [Ho Hb]. split.
  - by apply insert_group_spec.
  - rewrite Forall_forall in *. intros [k xs] Hin.
    assert (k ∈ fst <$> insert_group (u8 (sr_server_id l)) l
             (fold_left (λ gs l, insert_group (u8 (sr_server_id l)) l gs) ls [])) as Hk
      by (apply list_elem_of_fmap; by exists (k, xs)).
    apply insert_group_keys in Hk as [->|Hk]; [apply Z.mod_pos_bound; lia|].
    apply list_elem_of_fmap in Hk as ([k' xs'] & -> & Hk'). by apply Hb in Hk'.
Qed.

(** There are at most 256 groups: a node is named by one byte. *)
Lemma group_by_server_length ls : (length (group_by_server ls) <= 256)%nat.
Proof.
  destruct (group_by_server_ordered ls) as [Ho Hb].
  rewrite <- (length_fmap fst). change 256%nat with (length (zrange 0 256)).
  apply submseteq_length, NoDup_submseteq; [by apply ordered_NoDup|].
  intros k (g & -> & Hg)%list_elem_of_fmap. rewrite Forall_forall in Hb.
  apply elem_of_zrange. by apply Hb.
Qed.
