(* ===== verification/ClientState.v ===== *)
(** * State of a client process
    ([src/src/nm.h], [src/src/client_mm.h], [src/src/client.h])

    The records of the network manager, the client's memory manager, the request
    context and the client, gathered in [Sys] with the fabric's [world] and the
    memory nodes reachable over UDP.  Pointers into the client's memory are
    addresses of [lmem], so that buffers that alias in the code alias here. *)

From Stdlib Require Import SpecFloat.
From S2P Require Import Prelude Mem KvUtils HashTable ServerMM Server Rdma.

(** [a[i]] of an array of [MAX_REP_NUM] entries. *)
Definition aget (l : list Z) (i : Z) : Z := l !!! Z.to_nat i.
(** The loop [for (i = 0; i < n; i++) a[i] = f(i)]. *)
Definition afill (n : Z) (f : Z → Z) (l : list Z) : list Z :=
  (f <$> zrange 0 n) ++ drop (Z.to_nat n) l.
Definition azero : list Z := replicate (Z.to_nat MAX_REP_NUM) 0.

(** ** Network manager *)

Module Nm.
Record t := mk {
  num_server_ : Z; server_id_ : Z;
  mr_info_list_ : list MrInfo;
  wrid_wc_map_ : gmap Z ibv_wc;
  rtt_ : Z }.
#[global] Instance eta_t : Eta t := λ s,
  mk (num_server_ s) (server_id_ s) (mr_info_list_ s) (wrid_wc_map_ s) (rtt_ s).
End Nm.

(** ** Memory manager of the client *)

Record SubblockInfo := mkSubblockInfo {
  sb_addr_list : list Z; sb_rkey_list : list Z; sb_server_id_list : list Z }.

Definition SubblockInfo_zero : SubblockInfo := mkSubblockInfo azero azero azero.

(** The fields of [ClientMMBlock] in use; [bmap] and the free-run indices are
    only touched by [update_mm_block_next]. *)
Record ClientMMBlock := mkClientMMBlock {
  mr_addr_list : list Z; mr_rkey_list : list Z; blk_server_id_list : list Z;
  bmap : list bool; num_allocated : Z;
  prev_free_subblock_idx : Z; next_free_subblock_idx : Z; next_free_subblock_cnt : Z }.

#[global] Instance eta_ClientMMBlock : Eta ClientMMBlock := λ b,
  mkClientMMBlock (mr_addr_list b) (mr_rkey_list b) (blk_server_id_list b) (bmap b)
    (num_allocated b) (prev_free_subblock_idx b) (next_free_subblock_idx b)
    (next_free_subblock_cnt b).

Definition ClientMMBlock_zero : ClientMMBlock :=
  mkClientMMBlock azero azero azero [] 0 0 0 0.

Definition TYPE_SUBTABLE : Z := 1.
Definition TYPE_KVBLOCK : Z := 2.

Record ClientMMAllocCtx := mkAllocCtx {
  ac_server_id_list : list Z; addr_list : list Z;
  prev_addr_list : list Z; next_addr_list : list Z;
  rkey_list : list Z; prev_rkey_list : list Z; next_rkey_list : list Z;
  ac_num_subblocks : Z; need_change_prev : bool }.

#[global] Instance eta_AllocCtx : Eta ClientMMAllocCtx := λ c,
  mkAllocCtx (ac_server_id_list c) (addr_list c) (prev_addr_list c) (next_addr_list c)
    (rkey_list c) (prev_rkey_list c) (next_rkey_list c) (ac_num_subblocks c)
    (need_change_prev c).

Definition AllocCtx_zero : ClientMMAllocCtx :=
  mkAllocCtx azero azero azero azero azero azero azero 0 false.

Record RecoverLogInfo := mkRecoverLogInfo {
  local_tail_addr : Z; rl_key_len : Z; rl_val_len : Z;
  rl_remote_addr : Z; rl_server_id : Z }.

Module Cmm.
Record t := mk {
  num_replication_ : Z; num_idx_rep_ : Z; num_memory_ : Z;
  mm_blocks_ : list ClientMMBlock; cur_mm_block_idx_ : Z;
  subblock_num_ : Z; last_allocated_ : Z; bmap_block_num_ : Z;
  pr_log_server_id_ : Z; pr_log_head_ : Z;
  client_meta_addr_ : Z; client_gc_addr_ : Z;
  server_limit_addr_ : Z; server_kv_area_off_ : Z; server_kv_area_addr_ : Z;
  server_num_blocks_ : Z;
  recover_buf_ : Z; tmp_buf_ : Z; log_tail_st_ptr_ : Z;
  recover_log_info_list_ : list RecoverLogInfo;
  recover_addr_is_allocated_map_ : gmap Z bool;
  subblock_free_queue_ : list SubblockInfo;
  last_allocated_info_ : SubblockInfo;
  mm_block_sz_ : Z; subblock_sz_ : Z;
  alloc_block_map_ : gmap Z (list Z); total_block_map_ : gmap Z (list Z);
  free_faa_map_ : gmap string Z }.
#[global] Instance eta_t : Eta t := λ s,
  mk (num_replication_ s) (num_idx_rep_ s) (num_memory_ s) (mm_blocks_ s)
    (cur_mm_block_idx_ s) (subblock_num_ s) (last_allocated_ s) (bmap_block_num_ s)
    (pr_log_server_id_ s) (pr_log_head_ s) (client_meta_addr_ s) (client_gc_addr_ s)
    (server_limit_addr_ s) (server_kv_area_off_ s) (server_kv_area_addr_ s)
    (server_num_blocks_ s) (recover_buf_ s) (tmp_buf_ s) (log_tail_st_ptr_ s)
    (recover_log_info_list_ s) (recover_addr_is_allocated_map_ s)
    (subblock_free_queue_ s) (last_allocated_info_ s) (mm_block_sz_ s) (subblock_sz_ s)
    (alloc_block_map_ s) (total_block_map_ s) (free_faa_map_ s).
Definition blank : t :=
  mk 0 0 0 [] 0 0 0 0 0 0 0 0 0 0 0 0 0 0 0 [] ∅ [] SubblockInfo_zero 0 0 ∅ ∅ ∅.
End Cmm.

(** ** Requests *)

Inductive KVRequestType :=
  | KV_REQ_SEARCH | KV_REQ_INSERT | KV_REQ_UPDATE | KV_REQ_DELETE
  | KV_REQ_RECOVER_COMMITTED | KV_REQ_RECOVER_UNCOMMITTED.
#[export] Instance KVRequestType_eq : EqDecision KVRequestType.
Proof. solve_decision. Defined.

Inductive KVConsensusState :=
  | KV_CONSENSUS_WIN_ALL | KV_CONSENSUS_WIN_MAJOR | KV_CONSENSUS_WIN_LITTLE
  | KV_CONSENSUS_FAIL | KV_CONSENSUS_FINISH | KV_CONSENSUS_NON.
#[export] Instance KVConsensusState_eq : EqDecision KVConsensusState.
Proof. solve_decision. Defined.

Inductive KVOpsCrashPoint :=
  | KV_CRASH_UNCOMMITTED_BK_CONSENSUS_0 | KV_CRASH_UNCOMMITTED_BK_CONSENSUS_1
  | KV_CRASH_COMMITTED_PR_CAS | KV_CRASH_COMMITTED_ALL_FINISH.
#[export] Instance KVOpsCrashPoint_eq : EqDecision KVOpsCrashPoint.
Proof. solve_decision. Defined.

(** [enum KVOpsRetCode] *)
Definition KV_OPS_SUCCESS : Z := 0.
Definition KV_OPS_FAIL_RETURN : Z := 1.
Definition KV_OPS_FAIL_REDO : Z := 2.

Definition KVTableAddrInfo_zero : KVTableAddrInfo :=
  mkKVTableAddrInfo azero azero azero azero azero 0 0 0 0.

Record KVReqCtx := mkCtx {
  coro_id : Z; req_type : KVRequestType; kv_info : KVInfo;
  local_bucket_addr : Z; local_cache_addr : Z; local_kv_addr : Z;
  local_cas_target_value_addr : Z; local_cas_return_value_addr : Z;
  op_laddr : Z; ctx_lkey : Z; use_cache : bool;
  bucket_arr : list Z; f_com_bucket : Z; s_com_bucket : Z; slot_arr : list Z;
  hash_info : KVHashInfo; tbl_addr_info : KVTableAddrInfo;
  kv_read_addr_list : list KVRWAddr; kv_idx_list : list (Z * Z);
  mm_alloc_ctx : ClientMMAllocCtx; consensus_state : KVConsensusState;
  kv_modify_pr_cas_list : list KVCASAddr;
  kv_modify_bk_0_cas_list : list KVCASAddr; kv_modify_bk_1_cas_list : list KVCASAddr;
  bucket_idx : Z; slot_idx : Z;
  kv_invalid_addr : KVRWAddr;
  log_commit_addr_list : list KVRWAddr; write_unused_addr_list : list KVRWAddr;
  recover_match_idx_list : list (Z * Z);
  healthy_idx_server_id_list : list Z;
  is_finished : bool; is_cache_hit : bool; is_local_cache_hit : bool;
  committed_need_cas_pr : bool; has_modified_bk_idx : bool;
  failed_pr_index : bool; failed_pr_addr : bool;
  ret_val : Z;                 (** the [union] of [value_addr] and [ret_code] *)
  should_stop : option bool;   (** the flag pointed to; [None] for a null pointer *)
  key_str : string;
  cache_entry : option string  (** the entry pointed to, by its key *) }.

#[global] Instance eta_KVReqCtx : Eta KVReqCtx := λ c,
  mkCtx (coro_id c) (req_type c) (kv_info c) (local_bucket_addr c) (local_cache_addr c)
    (local_kv_addr c) (local_cas_target_value_addr c) (local_cas_return_value_addr c)
    (op_laddr c) (ctx_lkey c) (use_cache c) (bucket_arr c) (f_com_bucket c)
    (s_com_bucket c) (slot_arr c) (hash_info c) (tbl_addr_info c) (kv_read_addr_list c)
    (kv_idx_list c) (mm_alloc_ctx c) (consensus_state c) (kv_modify_pr_cas_list c)
    (kv_modify_bk_0_cas_list c) (kv_modify_bk_1_cas_list c) (bucket_idx c) (slot_idx c)
    (kv_invalid_addr c) (log_commit_addr_list c) (write_unused_addr_list c)
    (recover_match_idx_list c) (healthy_idx_server_id_list c) (is_finished c)
    (is_cache_hit c) (is_local_cache_hit c) (committed_need_cas_pr c)
    (has_modified_bk_idx c) (failed_pr_index c) (failed_pr_addr c) (ret_val c)
    (should_stop c) (key_str c) (cache_entry c).

Definition KVRWAddr_zero : KVRWAddr := mkKVRWAddr 0 0 0 0 0 0.
Definition KVCASAddr_zero : KVCASAddr := mkKVCASAddr 0 0 0 0 0 0 0.

(** [memset(&ctx, 0, sizeof(KVReqCtx))] *)
Definition KVReqCtx_zero : KVReqCtx :=
  mkCtx 0 KV_REQ_SEARCH (mkKVInfo 0 0 0 0) 0 0 0 0 0 0 0 false [] 0 0 []
    (mkKVHashInfo 0 0 0 0) KVTableAddrInfo_zero [] [] AllocCtx_zero KV_CONSENSUS_WIN_ALL
    [] [] [] 0 0 KVRWAddr_zero [] [] [] [] false false false false false false false
    0 None "" None.

(** ** Client *)

Record ClientMetaAddrInfo := mkMetaAddrInfo {
  meta_info_type : Z; ma_server_id_list : list Z; ma_addr_list : list Z }.

Module Cl.
Record t := mk {
  my_server_id_ : Z; num_replication_ : Z; num_memory_ : Z; num_idx_rep_ : Z;
  pr_log_server_id_ : Z; pr_log_head_ : Z; pr_log_tail_ : Z;
  remote_global_meta_addr_ : Z; remote_meta_addr_ : Z; remote_gc_addr_ : Z;
  remote_root_addr_ : Z;
  server_st_addr_ : Z; server_data_len_ : Z;
  miss_rate_threash_ : spec_float;
  race_root_ : Z; race_root_lkey : Z;
  local_buf_ : Z; local_buf_lkey : Z; input_buf_ : Z; input_buf_lkey : Z;
  addr_cache_ : gmap string LocalCacheEntry;
  server_mr_info_map_ : gmap Z MrInfo;
  server_crash_map_ : gmap Z bool;
  meta_addr_info_ : list ClientMetaAddrInfo }.
#[global] Instance eta_t : Eta t := λ s,
  mk (my_server_id_ s) (num_replication_ s) (num_memory_ s) (num_idx_rep_ s)
    (pr_log_server_id_ s) (pr_log_head_ s) (pr_log_tail_ s) (remote_global_meta_addr_ s)
    (remote_meta_addr_ s) (remote_gc_addr_ s) (remote_root_addr_ s) (server_st_addr_ s)
    (server_data_len_ s) (miss_rate_threash_ s) (race_root_ s) (race_root_lkey s)
    (local_buf_ s) (local_buf_lkey s) (input_buf_ s) (input_buf_lkey s) (addr_cache_ s)
    (server_mr_info_map_ s) (server_crash_map_ s) (meta_addr_info_ s).
End Cl.

(** ** The whole process *)

Record Sys := mkSys {
  wld : world;
  nm : Nm.t;
  mm : Cmm.t;
  cl : Cl.t;
  ctx : KVReqCtx;
  servers : gmap Z Srv.t;
  udp_inbox : list KVMsg       (** datagrams received and not yet read *) }.

#[global] Instance eta_Sys : Eta Sys := λ s,
  mkSys (wld s) (nm s) (mm s) (cl s) (ctx s) (servers s) (udp_inbox s).

Definition set_ctx (f : KVReqCtx → KVReqCtx) : M Sys unit := modify (λ s, s <| ctx ::= f |>).
Definition get_ctx : M Sys KVReqCtx := gets ctx.
Definition set_mm (f : Cmm.t → Cmm.t) : M Sys unit := modify (λ s, s <| mm ::= f |>).
Definition set_nm (f : Nm.t → Nm.t) : M Sys unit := modify (λ s, s <| nm ::= f |>).
Definition set_cl (f : Cl.t → Cl.t) : M Sys unit := modify (λ s, s <| cl ::= f |>).
Definition set_lmem (f : mem → mem) : M Sys unit :=
  modify (λ s, s <| wld ::= λ w, w <| lmem ::= f |> |>).
Definition get_lmem : M Sys mem := gets (λ s, lmem (wld s)).

(** Reads and writes of the client's own memory. *)
Definition rd8 (a : Z) : M Sys Z := m ← get_lmem; mret (load8 m a).
Definition rd16 (a : Z) : M Sys Z := m ← get_lmem; mret (load16 m a).
Definition rd32 (a : Z) : M Sys Z := m ← get_lmem; mret (load32 m a).
Definition rd64 (a : Z) : M Sys Z := m ← get_lmem; mret (load64 m a).
Definition wr8 (a v : Z) : M Sys unit := set_lmem (λ m, store8 m a v).
Definition wr64 (a v : Z) : M Sys unit := set_lmem (λ m, store64 m a v).
Definition wr_bytes (a : Z) (bs : list Z) : M Sys unit := set_lmem (λ m, store_bytes m a bs).

(** A client of a two-node system, idle, with empty memories. *)
Definition blank_client : Cl.t :=
  Cl.mk 2 1 2 1 0 0 0 0 0 0 0 0 0 (S754_zero false) 0 0 0 0 0 0 ∅ ∅ ∅ [].
Definition blank_sys : Sys :=
  mkSys (mkWorld mem_zero (λ _, mem_zero) []) (Nm.mk 2 2 [] ∅ 0) Cmm.blank blank_client
        KVReqCtx_zero ∅ [].

(** ** Frames

    [keeps f c]: the computation [c] does not change the part [f] of the state.
    The lemmas are hints of the database [frame], with which [auto] proves the
    frame of an operation from its text. *)
Definition keeps {A B} (f : Sys → B) (c : M Sys A) : Prop :=
  ∀ s, match c s with Done _ s' => f s' = f s | Stopped _ _ => True end.

Create HintDb frame discriminated.

Lemma keeps_done {A B} (f : Sys → B) (c : M Sys A) s a s' :
  keeps f c → c s = Done a s' → f s' = f s.
Proof. intros H E. specialize (H s). by rewrite E in H. Qed.

Lemma keeps_bind {A B C} (f : Sys → C) (c : M Sys A) (k : A → M Sys B) :
  keeps f c → (∀ a, keeps f (k a)) → keeps f (c ≫= k).
Proof.
  intros Hc Hk s. unM. specialize (Hc s). destruct (c s) as [a s'|]; [|done].
  specialize (Hk a s'). destruct (k a s'); congruence.
Qed.

Lemma keeps_const {A B} (f : Sys → B) (c : M Sys A) :
  (∀ s, match c s with Done _ s' => s' = s | Stopped _ _ => True end) → keeps f c.
Proof. intros H s. specialize (H s). destruct (c s); congruence. Qed.

Lemma keeps_ret {A B} (f : Sys → B) (a : A) : keeps f (mret a : M Sys A).
Proof. by apply keeps_const. Qed.
Lemma keeps_skip {B} (f : Sys → B) : keeps f skip.
Proof. by apply keeps_const. Qed.
Lemma keeps_get {B} (f : Sys → B) : keeps f get.
Proof. by apply keeps_const. Qed.
Lemma keeps_gets {A B} (f : Sys → B) (g : Sys → A) : keeps f (gets g).
Proof. by apply keeps_const. Qed.
Lemma keeps_stopm {A B} (f : Sys → B) e : keeps f (stopm e : M Sys A).
Proof. by apply keeps_const. Qed.
Lemma keeps_assertm {B} (f : Sys → B) b : keeps f (assertm b).
Proof. apply keeps_const. intros s. unM. by destruct b. Qed.
Lemma keeps_of_option {A B} (f : Sys → B) (o : option A) : keeps f (of_option o).
Proof. apply keeps_const. intros s. unM. by destruct o. Qed.
Lemma keeps_modify {B} (f : Sys → B) g : (∀ s, f (g s) = f s) → keeps f (modify g).
Proof. intros H s. apply H. Qed.
Lemma keeps_if {A B} (f : Sys → B) (b : bool) (c1 c2 : M Sys A) :
  keeps f c1 → keeps f c2 → keeps f (if b then c1 else c2).
Proof. by destruct b. Qed.
Lemma keeps_whenm {B} (f : Sys → B) (b : bool) c : keeps f c → keeps f (whenm b c).
Proof. intros. apply keeps_if; [done|apply keeps_skip]. Qed.
Lemma keeps_forM {A B} (f : Sys → B) (l : list A) body :
  (∀ x, keeps f (body x)) → keeps f (forM l body).
Proof.
  intros H. induction l; cbn [forM]; [apply keeps_skip|]. by apply keeps_bind.
Qed.

#[export] Hint Resolve keeps_bind keeps_ret keeps_skip keeps_get keeps_gets keeps_stopm
  keeps_assertm keeps_of_option keeps_if keeps_whenm keeps_forM : frame.
#[export] Hint Extern 4 (keeps _ (modify _)) => apply keeps_modify; intros []; reflexivity : frame.
#[export] Hint Extern 4 (keeps _ (set_mm _)) => apply keeps_modify; intros []; reflexivity : frame.
#[export] Hint Extern 4 (keeps _ (set_nm _)) => apply keeps_modify; intros []; reflexivity : frame.
#[export] Hint Extern 4 (keeps _ (set_cl _)) => apply keeps_modify; intros []; reflexivity : frame.
#[export] Hint Extern 4 (keeps _ (set_ctx _)) => apply keeps_modify; intros []; reflexivity : frame.
#[export] Hint Extern 4 (keeps _ (set_lmem _)) => apply keeps_modify; intros []; reflexivity : frame.
#[export] Hint Extern 3 (keeps _ (match ?x with _ => _ end)) => destruct x : frame.

(** Solves a frame goal by following the text of the operation. *)
Ltac solve_keeps := repeat first
  [ solve [auto 2 with frame nocore]
  | apply keeps_bind; [|intros ?]
  | apply keeps_if | apply keeps_whenm | apply keeps_forM; intros ?
  | match goal with |- keeps _ (match ?x with _ => _ end) => destruct x end ].
