(* ===== verification/Network.v ===== *)
(** * The network manager ([src/src/nm.h], [src/src/nm.cc])

    Posting of request lists, synchronously and asynchronously, the polling of
    completions, single reads and writes, and the UDP calls to the memory nodes.

    Requests take effect when they are posted, so every completion a wait can
    still see is already in the queue: a wait needs at most one round per queued
    completion, which is the fuel its loop is given. *)

From S2P Require Import Prelude Mem KvUtils HashTable ServerMM Server Rdma ClientState.

Section network.
Context {F : Fabric}.

(** ** Accessors ([nm.h]) *)

Definition get_one_server_id (hint : Z) : M Sys Z :=
  s ← get;
  if Nm.num_server_ (nm s) =? 0 then stopm Undefined
  else mret (hint mod Nm.num_server_ (nm s)).
Definition get_server_rkey (server_id : Z) : M Sys Z :=
  s ← get;
  i ← of_option (Nm.mr_info_list_ (nm s) !! Z.to_nat (u8 server_id));
  mret (rkey i).
Definition get_server_id : M Sys Z := gets (λ s, Nm.server_id_ (nm s)).
Definition get_num_servers : M Sys Z := gets (λ s, Nm.num_server_ (nm s)).

(** ** UDP *)

(** The verbs side of a connection, which allocation calls do not use. *)
Definition no_qp : KVMsg → QpInfo := λ _, mkQpInfo 0 0 0 [] 0.

(** A datagram sent to a node is received and served by the node's loop, and
    what the node sends back is put in the inbox. *)
Definition nm_send_udp_msg_to_server (k : KVMsg) (server_id : Z) : M Sys Z := λ s,
  match servers s !! server_id with
  | None => Done (-1) s
  | Some srv =>
      match Srv.serve no_qp (Srv.Datagram k (Nm.server_id_ (nm s)))
                      (srv <| Srv.sent := [] |>) with
      | Done _ srv' =>
          Done 0 (s <| servers ::= <[server_id := srv']> |>
                    <| udp_inbox ::= λ q, q ++ (fst <$> Srv.sent srv') |>)
      | Stopped _ _ => Done 0 s        (** the node stopped: no answer *)
      end
  end.

(** [recvfrom] blocks while there is nothing to read. *)
Definition nm_recv_udp_msg : M Sys KVMsg := λ s,
  match udp_inbox s with
  | [] => Stopped Diverges s
  | k :: q => Done k (s <| udp_inbox := q |>)
  end.

(** ** Posting *)

Definition post_send (sid : Z) (wrs : list ibv_send_wr) : M Sys unit :=
  modify (λ s, s <| wld ::= ibv_post_send sid wrs |>).
Definition poll_cq (n : Z) : M Sys (list ibv_wc) := λ s,
  let '(wcs, w) := ibv_poll_cq n (wld s) in Done wcs (s <| wld := w |>).

Definition count_rtt (ls : list IbvSrList) : M Sys unit :=
  forM ls (λ l, set_nm (λ n, n <| Nm.rtt_ ::= λ r, u64 (r + num_sr l) |>)).

(** Requests of each node merged, with the identifier to wait for. *)
Definition merge_groups (ls : list IbvSrList) : M Sys (list (Z * (list ibv_send_wr * Z))) :=
  of_option (mapM (λ '(sid, g), m ← ib_merge_sr_lists g; Some (sid, m)) (group_by_server ls)).

Definition is_all_complete (m : gmap Z bool) : bool :=
  forallb (λ '(_, b), b) (map_to_list m).

(** [do { ibv_poll_cq(...) ... } while (!is_all_complete(...))] *)
Fixpoint poll_until (fuel : nat) (num_wc : Z) (comp : gmap Z bool) : M Sys unit :=
  match fuel with
  | O => stopm Diverges
  | S fuel' =>
      wcs ← poll_cq num_wc;
      let comp := fold_left (λ c wc, <[wc_wr_id wc := true]> c) wcs comp in
      if is_all_complete comp then skip else poll_until fuel' num_wc comp
  end.

Definition pending : M Sys nat := gets (λ s, length (cq (wld s))).

Definition rdma_post_sr_lists_sync (sr_lists : list IbvSrList) : M Sys Z :=
  count_rtt sr_lists ;;
  groups ← merge_groups sr_lists;
  let comp_wrid_map :=
    list_to_map ((λ '(_, (_, last_wr_id)), (last_wr_id, false)) <$> groups) in
  forM groups (λ '(sid, (wrs, _)), post_send sid wrs) ;;
  n ← pending;
  poll_until (S n) (Z.of_nat (length groups)) comp_wrid_map ;;
  mret 0.

Definition rdma_post_sr_lists_sync_unsignaled (sr_lists : list IbvSrList) : M Sys Z :=
  count_rtt sr_lists ;;
  forM (group_by_server sr_lists)
       (λ '(sid, g), post_send sid (ib_merge_sr_lists_unsignaled g)) ;;
  mret 0.

Definition rdma_post_sr_lists_async_unsignaled (sr_lists : list IbvSrList) : M Sys Z :=
  count_rtt sr_lists ;;
  forM (group_by_server sr_lists)
       (λ '(sid, g), post_send sid (ib_merge_sr_lists_unsignaled g)) ;;
  mret 0.

(** Returns the map of identifiers to wait for, added to [wait]. *)
Definition rdma_post_sr_lists_async (sr_lists : list IbvSrList)
    (wait : gmap Z (option ibv_wc)) : M Sys (gmap Z (option ibv_wc)) :=
  count_rtt sr_lists ;;
  groups ← merge_groups sr_lists;
  let wait := fold_left (λ w '(_, (_, last_wr_id)), <[last_wr_id := None]> w) groups wait in
  forM groups (λ '(sid, (wrs, _)), post_send sid wrs) ;;
  mret wait.

(** The batch variants flatten the batch and then do the same. *)
Definition rdma_post_sr_list_batch_sync (batch : list (list IbvSrList)) : M Sys Z :=
  count_rtt (concat batch) ;;
  groups ← merge_groups (concat batch);
  let comp_wrid_map :=
    list_to_map ((λ '(_, (_, last_wr_id)), (last_wr_id, false)) <$> groups) in
  forM groups (λ '(sid, (wrs, _)), post_send sid wrs) ;;
  n ← pending;
  poll_until (S n) (Z.of_nat (length groups)) comp_wrid_map ;;
  mret 0.

Definition rdma_post_sr_list_batch_async (batch : list (list IbvSrList))
    (wait : gmap Z (option ibv_wc)) : M Sys (gmap Z (option ibv_wc)) :=
  count_rtt (concat batch) ;;
  groups ← merge_groups (concat batch);
  let wait := fold_left (λ w '(_, (_, last_wr_id)), <[last_wr_id := None]> w) groups wait in
  forM groups (λ '(sid, (wrs, _)), post_send sid wrs) ;;
  mret wait.

(** ** Completions *)

(** [wrid_wc_map_.insert] keeps an entry that is already there. *)
Definition record_wc (m : gmap Z ibv_wc) (wc : ibv_wc) : gmap Z ibv_wc :=
  match m !! wc_wr_id wc with Some _ => m | None => <[wc_wr_id wc := wc]> m end.

(** One round of the loop of the polling thread, and of the polling fiber. *)
Definition nm_thread_polling : M Sys unit :=
  wcs ← poll_cq 1024;
  set_nm (λ n, n <| Nm.wrid_wc_map_ ::= λ m, fold_left record_wc wcs m |>).
Definition nm_fiber_polling : M Sys unit :=
  wcs ← poll_cq 5;
  set_nm (λ n, n <| Nm.wrid_wc_map_ ::= λ m, fold_left record_wc wcs m |>).

(** Completions that arrived are moved from the shared map to [wait]. *)
Definition nm_check_completion (wait : gmap Z (option ibv_wc))
    : M Sys (gmap Z (option ibv_wc)) := λ s,
  let m := Nm.wrid_wc_map_ (nm s) in
  let wait' := map_imap (λ wrid v, match m !! wrid with
                                   | Some wc => Some (Some wc)
                                   | None => Some v
                                   end) wait in
  Done wait' (s <| nm ::= λ n, n <| Nm.wrid_wc_map_ := filter (λ p, wait !! p.1 = None) m |> |>).

(** The waiting loop; between two tests the polling thread makes a round. *)
Fixpoint wait_loop (fuel : nat) (wait : gmap Z (option ibv_wc)) : M Sys unit :=
  if ib_is_all_wrid_finished wait then skip
  else
    match fuel with
    | O => stopm Diverges
    | S fuel' =>
        nm_thread_polling ;;
        wait' ← nm_check_completion wait;
        wait_loop fuel' wait'
    end.

Definition nm_poll_completion_sync (wait : gmap Z (option ibv_wc)) : M Sys Z :=
  n ← pending; wait_loop (S n) wait ;; mret 0.

(** ** Single requests *)

(** [while (num_polled == 0)]: with nothing queued it spins for ever. *)
Definition rdma_poll_one_completion : M Sys ibv_wc :=
  wcs ← poll_cq 1;
  match wcs with wc :: _ => mret wc | [] => stopm Diverges end.

Definition rdma_post_send_batch_async (server_id : Z) (wrs : list ibv_send_wr) : M Sys Z :=
  post_send server_id wrs ;; mret 0.
Definition rdma_post_send_batch_sync (server_id : Z) (wrs : list ibv_send_wr) : M Sys Z :=
  post_send server_id wrs ;; _ ← rdma_poll_one_completion; mret 0.

Definition nm_rdma_read_from_sid (local_addr local_lkey size remote_addr remote_rkey server_id : Z)
    : M Sys Z :=
  _ ← rdma_post_send_batch_async server_id
        [mkWr 101 (Sge local_addr size local_lkey) IBV_WR_RDMA_READ true
              remote_addr remote_rkey 0 0];
  _ ← rdma_poll_one_completion; mret 0.

Definition nm_rdma_write_to_sid (local_addr local_lkey size remote_addr remote_rkey server_id : Z)
    : M Sys Z :=
  _ ← rdma_post_send_batch_async server_id
        [mkWr 101 (Sge local_addr size local_lkey) IBV_WR_RDMA_WRITE true
              remote_addr remote_rkey 0 0];
  _ ← rdma_poll_one_completion; mret 0.

(** [data] is the bytes of the object sent inline. *)
Definition nm_rdma_write_inl_to_sid (data : list Z) (remote_addr remote_rkey server_id : Z)
    : M Sys Z :=
  _ ← rdma_post_send_batch_async server_id
        [mkWr 100 (SgeInline data) IBV_WR_RDMA_WRITE true remote_addr remote_rkey 0 0];
  _ ← rdma_poll_one_completion; mret 0.

Definition nm_rdma_read_from_sid_sync
    (local_addr local_lkey size remote_addr remote_rkey server_id : Z) : M Sys Z :=
  _ ← rdma_post_send_batch_async server_id
        [mkWr 1 (Sge local_addr size local_lkey) IBV_WR_RDMA_READ true
              remote_addr remote_rkey 0 0];
  _ ← nm_poll_completion_sync {[1 := None]}; mret 0.

Definition nm_rdma_write_inl_to_sid_sync (data : list Z)
    (remote_addr remote_rkey server_id : Z) : M Sys Z :=
  _ ← rdma_post_send_batch_async server_id
        [mkWr 0 (SgeInline data) IBV_WR_RDMA_WRITE true remote_addr remote_rkey 0 0];
  _ ← nm_poll_completion_sync {[0 := None]}; mret 0.

(** ** Client-side waits ([client.h], [client.cc]) *)

Definition poll_completion (wait : gmap Z (option ibv_wc)) : M Sys Z :=
  n ← pending; wait_loop (S n) wait ;; mret 0.

Definition post_sr_lists_unsignaled (sr_lists : list IbvSrList) : M Sys Z :=
  rdma_post_sr_lists_async_unsignaled sr_lists.

Definition post_sr_lists_and_yield_wait (sr_lists : list IbvSrList) : M Sys Z :=
  wait ← rdma_post_sr_lists_async sr_lists ∅; poll_completion wait.

Definition post_sr_list_batch_and_yield_wait (batch : list (list IbvSrList)) : M Sys Z :=
  wait ← rdma_post_sr_list_batch_async batch ∅; poll_completion wait.

(** ** Frames: the network manager touches the fabric, its own records, the
    nodes and the inbox only. *)

Definition client_side (s : Sys) : Cmm.t * Cl.t * KVReqCtx := (mm s, cl s, ctx s).

Lemma poll_cq_keeps n : keeps client_side (poll_cq n).
Proof. intros s. unfold poll_cq. by destruct (ibv_poll_cq n (wld s)). Qed.
Lemma send_udp_keeps k sid : keeps client_side (nm_send_udp_msg_to_server k sid).
Proof. intros s. unfold nm_send_udp_msg_to_server. destruct (servers s !! sid); [|done]. by destruct (Srv.serve _ _ _). Qed.
Lemma recv_udp_keeps : keeps client_side nm_recv_udp_msg.
Proof. intros s. unfold nm_recv_udp_msg. by destruct (udp_inbox s). Qed.
Lemma post_send_keeps sid wrs : keeps client_side (post_send sid wrs).
Proof. unfold post_send. auto with frame. Qed.
Lemma check_completion_keeps w : keeps client_side (nm_check_completion w).
Proof. done. Qed.
Lemma wait_loop_keeps fuel w : keeps client_side (wait_loop fuel w).
Proof.
  revert w. induction fuel as [|fuel IH]; intros w; cbn [wait_loop];
    unfold nm_thread_polling; solve_keeps; auto using poll_cq_keeps, check_completion_keeps.
Qed.
Lemma poll_one_keeps : keeps client_side rdma_poll_one_completion.
Proof. unfold rdma_poll_one_completion. solve_keeps; apply poll_cq_keeps. Qed.
Hint Resolve poll_cq_keeps send_udp_keeps recv_udp_keeps post_send_keeps
  check_completion_keeps wait_loop_keeps poll_one_keeps : frame.
Lemma write_inl_keeps d a rk sid : keeps client_side (nm_rdma_write_inl_to_sid d a rk sid).
Proof. unfold nm_rdma_write_inl_to_sid, rdma_post_send_batch_async. solve_keeps. Qed.
Lemma write_inl_sync_keeps d a rk sid :
  keeps client_side (nm_rdma_write_inl_to_sid_sync d a rk sid).
Proof.
  unfold nm_rdma_write_inl_to_sid_sync, rdma_post_send_batch_async,
    nm_poll_completion_sync, pending. solve_keeps.
Qed.
End network.

#[export] Hint Resolve poll_cq_keeps send_udp_keeps recv_udp_keeps post_send_keeps
  check_completion_keeps wait_loop_keeps poll_one_keeps write_inl_keeps
  write_inl_sync_keeps : frame.

(** ** Posting ends, and both ways of posting have the same effect *)

(** Lists as the request generators build them: non-empty, nothing signaled. *)
Definition plain_list (l : IbvSrList) : Prop :=
  sr_list l ≠ [] ∧ Forall (λ w, signaled w = false) (sr_list l).

Definition after_rtt (ls : list IbvSrList) (s : Sys) : Sys :=
  s <| nm ::= λ n, n <| Nm.rtt_ ::= λ r, fold_left (λ r l, u64 (r + num_sr l)) ls r |> |>.

Lemma count_rtt_run `{F : Fabric} ls s : count_rtt ls s = Done tt (after_rtt ls s).
Proof.
  revert s. induction ls as [|l ls IH]; intros s; [by destruct s as [? []]|].
  cbn [count_rtt forM]. unfold count_rtt in IH. unM. unfold set_nm, modify at 1.
  rewrite IH. done.
Qed.

(** The chains posted for [ls], node by node. *)
Definition chains (ls : list IbvSrList) : list (Z * (list ibv_send_wr * Z)) :=
  (λ '(sid, g), let m := concat (sr_list <$> g) in
     (sid, (set_last_signaled m, default 0 (wr_id <$> last m)))) <$> group_by_server ls.

Definition post_chains `{F : Fabric} (cs : list (Z * (list ibv_send_wr * Z))) (w : world) : world :=
  fold_left (λ w '(sid, (wrs, _)), ibv_post_send sid wrs w) cs w.

Lemma insert_group_all (P : IbvSrList → Prop) sid x gs :
  P x → Forall (λ g, g.2 ≠ [] ∧ Forall P g.2) gs →
  Forall (λ g, g.2 ≠ [] ∧ Forall P g.2) (insert_group sid x gs).
Proof.
  intros Hx. induction 1 as [|[s xs] gs [Hne Hp] Hgs IH]; cbn [insert_group].
  - repeat constructor; done.
  - repeat case_match; repeat constructor; try done.
    + cbn. by destruct xs.
    + apply Forall_app. split; [done|by constructor].
Qed.

Lemma group_by_server_all (P : IbvSrList → Prop) ls :
  Forall P ls → Forall (λ g, g.2 ≠ [] ∧ Forall P g.2) (group_by_server ls).
Proof.
  unfold group_by_server. induction ls as [|l ls IH] using rev_ind; [constructor|].
  rewrite Forall_app, Forall_singleton, fold_left_app. intros [Hls Hl].
  apply insert_group_all; auto.
Qed.

Lemma group_nonempty (g : list IbvSrList) :
  g ≠ [] → Forall plain_list g → concat (sr_list <$> g) ≠ [] ∧
  Forall (λ w, signaled w = false) (concat (sr_list <$> g)).
Proof.
  intros Hne Hg. split.
  - destruct g as [|l g]; [done|]. apply Forall_cons in Hg as [[Hl _] _]. cbn.
    by destruct (sr_list l).
  - induction Hg as [|l g [_ Hl] _ IH]; [constructor|]. cbn. apply Forall_app.
    split; [done|]. destruct g; [constructor|]. by apply IH.
Qed.

Lemma merge_groups_run `{F : Fabric} ls s :
  Forall plain_list ls → merge_groups ls s = Done (chains ls) s.
Proof.
  intros Hls. apply group_by_server_all in Hls. unfold merge_groups, chains.
  assert (mapM (λ '(sid, g), m ← ib_merge_sr_lists g; Some (sid, m)) (group_by_server ls) =
          Some ((λ '(sid, g), let m := concat (sr_list <$> g) in
             (sid, (set_last_signaled m, default 0 (wr_id <$> last m)))) <$> group_by_server ls))
    as ->; [|done].
  apply mapM_Some_2, Forall2_fmap_r, Forall_Forall2_diag.
  eapply Forall_impl; [exact Hls|]. intros [sid g] [Hne Hg].
  destruct (group_nonempty g Hne Hg) as [Hm _].
  unfold ib_merge_sr_lists. destruct (last (concat (sr_list <$> g))) as [w|] eqn:E;
    [cbn; by rewrite E|].
  by apply last_None in E.
Qed.

(** ** Completions produced by a post *)

Definition wcs_of (wrs : list ibv_send_wr) : list ibv_wc :=
  (λ w, mkWc (wr_id w)) <$> filter (λ w, signaled w = true) wrs.

Lemma apply_op_cq sid wr w : cq (apply_op sid wr w) = cq w.
Proof. unfold apply_op. repeat case_match; done. Qed.

Lemma apply_wr_cq sid wr w : cq (apply_wr sid wr w) = cq w ++ wcs_of [wr].
Proof.
  unfold apply_wr, wcs_of. destruct (signaled wr) eqn:E.
  - rewrite filter_cons_True by done. cbn. by rewrite apply_op_cq.
  - rewrite filter_cons_False by congruence. cbn. by rewrite apply_op_cq, app_nil_r.
Qed.

Lemma post_cq `{F : Fabric} `{!ReliableFabric F} sid wrs w :
  cq (ibv_post_send sid wrs w) = cq w ++ wcs_of wrs.
Proof.
  revert w. induction wrs as [|wr wrs IH]; intros w.
  - by rewrite post_nil, app_nil_r.
  - rewrite post_cons, IH. destruct (post_one sid wr w) as [r ->].
    rewrite apply_wr_cq. cbn [cq set_field eta_world]. unfold wcs_of.
    rewrite <- app_assoc, (filter_app _ [wr] wrs), fmap_app. done.
Qed.

Lemma wcs_last_signaled wrs w :
  Forall (λ w, signaled w = false) wrs → last wrs = Some w →
  wcs_of (set_last_signaled wrs) = [mkWc (wr_id w)].
Proof.
  intros Hf Hl. unfold set_last_signaled, wcs_of. rewrite Hl.
  rewrite filter_app, (filter_cons_True _ _ []) by done.
  destruct (filter _ (take _ _)) as [|x l] eqn:E; [done|].
  assert (x ∈ x :: l) as Hx by apply list_elem_of_here. rewrite <- E in Hx.
  apply list_elem_of_filter in Hx as [Hs Hx]. rewrite Forall_forall in Hf.
  rewrite (Hf x) in Hs; [done|]. eapply subseteq_take. exact Hx.
Qed.

Definition chain_ids (ls : list IbvSrList) : list Z := (λ c, c.2.2) <$> chains ls.

Section posting.
Context {F : Fabric} {HF : ReliableFabric F}.

Lemma post_chains_cq ls w :
  Forall plain_list ls →
  cq (post_chains (chains ls) w) = cq w ++ (mkWc <$> chain_ids ls).
Proof.
  intros Hls. apply group_by_server_all in Hls. unfold chains, chain_ids, chains.
  revert w. induction Hls as [|[sid g] gs [Hne Hg] _ IH]; intros w; [by rewrite app_nil_r|].
  cbn [fmap list_fmap post_chains fold_left]. unfold post_chains in IH. rewrite IH.
  destruct (group_nonempty g Hne Hg) as [Hm Hs].
  destruct (last (concat (sr_list <$> g))) as [x|] eqn:E; [|by apply last_None in E].
  rewrite post_cq, (wcs_last_signaled _ x) by done.
  by rewrite <- app_assoc.
Qed.

Lemma post_all_run cs s :
  forM cs (λ '(sid, (wrs, _)), post_send sid wrs) s =
  Done tt (s <| wld ::= post_chains cs |>).
Proof.
  revert s. induction cs as [|[sid [wrs i]] cs IH]; intros s; [by destruct s|].
  cbn [forM]. unM. unfold post_send, modify at 1. rewrite IH. done.
Qed.

Lemma is_all_complete_spec m : is_all_complete m = true ↔ ∀ k b, m !! k = Some b → b = true.
Proof.
  unfold is_all_complete. rewrite forallb_forall. split.
  - intros H k b Hk. apply (H (k, b)), list_elem_of_In, elem_of_map_to_list. done.
  - intros H [k b] Hin%list_elem_of_In%elem_of_map_to_list. eauto.
Qed.

Lemma mark_all_complete (ids : list Z) (m : gmap Z bool) :
  (∀ k, k ∈ ids ∨ m !! k ≠ Some false) →
  is_all_complete (fold_left (λ c wc, <[wc_wr_id wc := true]> c) (mkWc <$> ids) m) = true.
Proof.
  revert m. induction ids as [|i ids IH]; intros m H; cbn.
  - apply is_all_complete_spec. intros k []; [done|]. intros Hk. by destruct (H k); [set_solver|].
  - apply IH. intros k. destruct (decide (k = i)) as [->|Hk].
    + right. by rewrite lookup_insert_eq.
    + rewrite lookup_insert_ne by done. destruct (H k); set_solver.
Qed.

(** The keys the waits start from. *)
Lemma comp_map_false (ids : list Z) k b :
  (list_to_map ((λ i, (i, false)) <$> ids) : gmap Z bool) !! k = Some b → k ∈ ids ∧ b = false.
Proof.
  intros Hk%elem_of_list_to_map_2. apply list_elem_of_fmap in Hk as (i & [= -> ->] & Hi). done.
Qed.

Lemma chains_comp ls :
  ((λ '(_, (_, last_wr_id)), (last_wr_id, false)) <$> chains ls) =
  ((λ i, (i, false)) <$> chain_ids ls) :> list (Z * bool).
Proof.
  unfold chain_ids. rewrite <- list_fmap_compose. apply list_fmap_ext. by intros ? [? []].
Qed.

Definition posted (ls : list IbvSrList) (s : Sys) : Sys :=
  (after_rtt ls s) <| wld ::= λ w, (post_chains (chains ls) w) <| cq := [] |> |>.

Lemma sync_run ls s :
  Forall plain_list ls → cq (wld s) = [] →
  rdma_post_sr_lists_sync ls s = Done 0 (posted ls s).
Proof.
  intros Hls Hcq. unfold rdma_post_sr_lists_sync. unM. rewrite count_rtt_run.
  rewrite merge_groups_run by done. rewrite post_all_run.
  set (s1 := set_field wld _ _).
  assert (cq (wld s1) = mkWc <$> chain_ids ls) as Hq.
  { unfold s1. cbn. rewrite post_chains_cq by done. by rewrite Hcq. }
  unfold pending, gets. cbn [poll_until]. unM. unfold poll_cq. rewrite poll_take, Hq.
  assert (take (Z.to_nat (Z.of_nat (length (chains ls)))) (mkWc <$> chain_ids ls) =
          mkWc <$> chain_ids ls) as ->.
  { apply take_ge. unfold chain_ids. rewrite !length_fmap. lia. }
  rewrite chains_comp, mark_all_complete.
  - unfold posted, s1. f_equal. unfold set_field; cbn. f_equal. f_equal.
    rewrite post_chains_cq, Hcq by done. apply drop_ge. unfold chain_ids.
    rewrite app_nil_l, !length_fmap. lia.
  - intros k. destruct (decide (k ∈ chain_ids ls)); [by left|right].
    intros Hk. apply comp_map_false in Hk. tauto.
Qed.

Lemma ib_is_all_wrid_finished_spec m :
  ib_is_all_wrid_finished m = true ↔ ∀ k, m !! k ≠ Some None.
Proof.
  unfold ib_is_all_wrid_finished. rewrite forallb_forall. split.
  - intros H k Hk%elem_of_map_to_list%list_elem_of_In. by specialize (H _ Hk).
  - intros H [k v] Hin%list_elem_of_In%elem_of_map_to_list. destruct v; [done|].
    by destruct (H k).
Qed.

Lemma wait_map_lookup (ids : list Z) (m : gmap Z (option ibv_wc)) k :
  fold_left (λ w i, <[i := None]> w) ids m !! k =
  if decide (k ∈ ids) then Some None else m !! k.
Proof.
  revert m. induction ids as [|i ids IH]; intros m; cbn; [done|].
  rewrite IH. destruct (decide (k = i)) as [->|Hk].
  - rewrite lookup_insert_eq. repeat case_decide; set_solver.
  - rewrite lookup_insert_ne by done. repeat case_decide; set_solver.
Qed.

Lemma record_wcs_lookup (ids : list Z) (m : gmap Z ibv_wc) k :
  fold_left record_wc (mkWc <$> ids) m !! k =
  match m !! k with
  | Some x => Some x
  | None => if decide (k ∈ ids) then Some (mkWc k) else None
  end.
Proof.
  revert m. induction ids as [|i ids IH]; intros m; cbn; [by case_match|].
  rewrite IH. unfold record_wc. cbn. destruct (decide (k = i)) as [->|Hk].
  - destruct (m !! i) eqn:E; [by rewrite E|]. rewrite lookup_insert_eq.
    by rewrite decide_True by set_solver.
  - assert ((match m !! i with Some _ => m | None => <[i := mkWc i]> m end) !! k = m !! k) as ->
      by (destruct (m !! i); [done|by rewrite lookup_insert_ne]).
    destruct (m !! k); [done|]. repeat case_decide; set_solver.
Qed.

Lemma chains_wait ls (w : gmap Z (option ibv_wc)) :
  fold_left (λ w '(_, (_, i)), <[i := None]> w) (chains ls) w =
  fold_left (λ w i, <[i := None]> w) (chain_ids ls) w.
Proof.
  unfold chain_ids. revert w. induction (chains ls) as [|[? []] l IH]; intros w; cbn; auto.
Qed.

(** One round of the polling thread finishes the wait. *)
Lemma wait_run ids s (n : nat) :
  cq (wld s) = mkWc <$> ids → Nm.wrid_wc_map_ (nm s) = ∅ → (length ids <= 1024)%nat →
  wait_loop (S n) (fold_left (λ w i, <[i := None]> w) ids ∅) s =
  Done tt (s <| wld ::= λ w, w <| cq := [] |> |>).
Proof.
  intros Hq Hm Hlen.
  destruct (ib_is_all_wrid_finished (fold_left (λ w i, <[i := None]> w) ids ∅)) eqn:E.
  - cbn [wait_loop]. rewrite E. destruct ids as [|i ids].
    + destruct s as [[l r q] ? ? ? ? ? ?]. cbn in Hq. by subst q.
    + rewrite ib_is_all_wrid_finished_spec in E. destruct (E i).
      rewrite wait_map_lookup. by rewrite decide_True by set_solver.
  - cbn [wait_loop]. rewrite E. unfold nm_thread_polling, poll_cq. unM.
    rewrite poll_take, Hq, take_ge by (rewrite length_fmap; lia).
    unfold set_nm, modify, nm_check_completion. cbn. rewrite Hm.
    set (wait' := map_imap _ _).
    assert (ib_is_all_wrid_finished wait' = true) as Hfin.
    { apply ib_is_all_wrid_finished_spec. intros k. unfold wait'.
      rewrite map_lookup_imap, wait_map_lookup, lookup_empty.
      destruct (decide (k ∈ ids)) as [Hk|Hk]; cbn; [|done].
      rewrite record_wcs_lookup, lookup_empty. by rewrite decide_True. }
    destruct n; cbn [wait_loop]; rewrite Hfin; unfold skip, mret, M_ret; f_equal;
      unfold set_field; cbn; destruct s as [[l r q] [? ? ? wm ?] ? ? ? ? ?]; cbn in *;
      subst wm; rewrite Hq, drop_ge by (rewrite length_fmap; lia);
      do 2 f_equal; apply map_empty; intros k; apply map_lookup_filter_None; right;
      intros x; rewrite record_wcs_lookup, wait_map_lookup, !lookup_empty;
      cbn [fst]; destruct (decide (k ∈ ids)); done.
Qed.

Lemma async_run ls s :
  Forall plain_list ls → cq (wld s) = [] → Nm.wrid_wc_map_ (nm s) = ∅ →
  post_sr_lists_and_yield_wait ls s = Done 0 (posted ls s).
Proof.
  intros Hls Hcq Hm. unfold post_sr_lists_and_yield_wait, rdma_post_sr_lists_async. unM.
  rewrite count_rtt_run, merge_groups_run, post_all_run by done.
  set (s1 := set_field wld _ _).
  assert (cq (wld s1) = mkWc <$> chain_ids ls) as Hq.
  { unfold s1. cbn. rewrite post_chains_cq by done. by rewrite Hcq. }
  unfold poll_completion, pending. unM. unfold gets. rewrite chains_wait, wait_run; [|done|done|].
  - unfold posted, s1. done.
  - unfold chain_ids, chains. rewrite !length_fmap. pose proof (group_by_server_length ls). lia.
Qed.

(** C19. Waiting for a set of requests by polling the completion queue directly
    and waiting for the polling thread to report them end in the same state: for
    every list of plain request lists, from an idle network manager, both return
    0 with all requests of all nodes performed in order and the completion queue
    and completion map empty again.  In particular neither wait spins. *)
Theorem sync_async_equivalent (ls : list IbvSrList) (s : Sys) :
  Forall plain_list ls → cq (wld s) = [] → Nm.wrid_wc_map_ (nm s) = ∅ →
  rdma_post_sr_lists_sync ls s = Done 0 (posted ls s) ∧
  post_sr_lists_and_yield_wait ls s = Done 0 (posted ls s).
Proof.
  intros Hls Hcq Hm. split; [by apply sync_run|by apply async_run].
Qed.
End posting.

Example sync_async_equivalent_witness :
  let ls := [mkSrList [mkWr 7 (Sge 0 8 0) IBV_WR_RDMA_READ false 100 0 0 0] 1] in
  rdma_post_sr_lists_sync (F := quiet_fabric) ls blank_sys
  = post_sr_lists_and_yield_wait (F := quiet_fabric) ls blank_sys.
Proof.
  intros ls.
  destruct (sync_async_equivalent (F := quiet_fabric) ls blank_sys) as [H1 H2].
  - repeat constructor; discriminate.
  - reflexivity.
  - reflexivity.
  - rewrite H1, H2. reflexivity.
Defined.

(** Posting a batch is posting its lists one after the other. *)
Lemma batch_sync_concat `{F : Fabric} batch :
  rdma_post_sr_list_batch_sync batch = rdma_post_sr_lists_sync (concat batch).
Proof. reflexivity. Qed.
Lemma batch_async_concat `{F : Fabric} batch :
  post_sr_list_batch_and_yield_wait batch = post_sr_lists_and_yield_wait (concat batch).
Proof. reflexivity. Qed.
