(* ===== verification/PostEffects.v ===== *)
(** * What posted requests do to the memories

    On a fabric without interference the requests of a batch are the operations
    [ops_of] of its lists, node by node.  The lemmas give their effect on local and
    remote memory: bytes no request writes are kept, and the bytes of a read or
    write that no other request of the batch touches arrive.  They do not depend
    on the order in which the nodes are served. *)

From S2P Require Import Prelude Mem KvUtils Rdma ServerMM Server ClientState Network.

(** ** Batches as lists of operations *)

Definition run_ops (ops : list (Z * ibv_send_wr)) (w : world) : world :=
  foldl (λ w p, apply_op p.1 p.2 w) w ops.

Definition ops_of (ls : list IbvSrList) : list (Z * ibv_send_wr) :=
  concat ((λ g : Z * list IbvSrList, (λ wr, (g.1, wr)) <$> concat (sr_list <$> g.2))
            <$> group_by_server ls).

(** The same memories. *)
Definition weq (w1 w2 : world) : Prop := lmem w1 = lmem w2 ∧ rmem w1 = rmem w2.

(** Requests that differ in the demand for a completion. *)
Definition same_req (wr1 wr2 : ibv_send_wr) : Prop :=
  wr1 <| signaled := false |> = wr2 <| signaled := false |>.

#[export] Instance weq_equiv : Equivalence weq.
Proof.
  split; [done|by intros ? ? []|]. intros ? ? ? [] []. split; congruence.
Qed.

Lemma apply_op_weq sid wr1 wr2 w1 w2 :
  same_req wr1 wr2 → weq w1 w2 → weq (apply_op sid wr1 w1) (apply_op sid wr2 w2).
Proof.
  intros Hr [Hl Hm]. destruct wr1 as [i1 g1 o1 b1 a1 k1 c1 s1], wr2 as [i2 g2 o2 b2 a2 k2 c2 s2].
  injection Hr as -> -> -> -> -> -> ->. unfold weq, apply_op. cbn. rewrite <- Hm.
  destruct o2, g2; cbn; rewrite <- ?Hl, <- ?Hm; done.
Qed.

Lemma apply_wr_weq sid wr1 wr2 w1 w2 :
  same_req wr1 wr2 → weq w1 w2 → weq (apply_wr sid wr1 w1) (apply_op sid wr2 w2).
Proof.
  intros Hr Hw. destruct (apply_op_weq sid _ _ _ _ Hr Hw) as [Hl Hm].
  unfold apply_wr. destruct (signaled wr1); by split.
Qed.

Lemma fold_wrs_weq sid wrs1 wrs2 w1 w2 :
  Forall2 same_req wrs1 wrs2 → weq w1 w2 →
  weq (fold_left (λ w wr, apply_wr sid wr w) wrs1 w1) (run_ops ((λ wr, (sid, wr)) <$> wrs2) w2).
Proof.
  intros Hr. revert w1 w2. induction Hr as [|x y l k Hxy _ IH]; intros w1 w2 Hw; [done|].
  cbn. apply IH. by apply apply_wr_weq.
Qed.

Lemma set_last_signaled_same wrs : Forall2 same_req (set_last_signaled wrs) wrs.
Proof.
  unfold set_last_signaled. destruct (last wrs) as [x|] eqn:E.
  - apply last_Some in E as [l ->]. rewrite length_app. cbn [length].
    replace (length l + 1 - 1)%nat with (length l) by lia. rewrite take_app_length.
    apply Forall2_app; [|by repeat constructor]. apply Forall_Forall2_diag. by apply Forall_true.
  - by apply last_None in E as ->.
Qed.

Lemma run_ops_app l1 l2 w : run_ops (l1 ++ l2) w = run_ops l2 (run_ops l1 w).
Proof. unfold run_ops. by rewrite foldl_app. Qed.

Lemma run_ops_weq ops w1 w2 : weq w1 w2 → weq (run_ops ops w1) (run_ops ops w2).
Proof.
  revert w1 w2. induction ops as [|p ops IH]; intros w1 w2 Hw; [done|]. cbn.
  apply IH. by apply apply_op_weq.
Qed.

Lemma posted_effect `{F : Fabric} `{HF : !QuietFabric F} ls s :
  weq (wld (posted ls s)) (run_ops (ops_of ls) (wld s)).
Proof.
  transitivity (post_chains (chains ls) (wld s)); [done|].
  unfold post_chains, chains, ops_of. generalize (wld s). induction (group_by_server ls) as [|[sid g] gs IH];
    intros w; [done|].
  cbn [fmap list_fmap fold_left concat]. rewrite run_ops_app. etransitivity; [apply IH|].
  apply run_ops_weq. rewrite post_quiet by done. apply fold_wrs_weq; [|done].
  apply set_last_signaled_same.
Qed.

Lemma elem_of_concat {A} (x : A) (ls : list (list A)) : x ∈ concat ls ↔ ∃ l, x ∈ l ∧ l ∈ ls.
Proof.
  induction ls as [|l ls IH]; [set_solver|]. cbn [concat]. rewrite elem_of_app, IH.
  setoid_rewrite elem_of_cons. naive_solver.
Qed.

(** The operations of a batch are exactly the requests of its lists. *)
Lemma elem_of_insert_group sid k x l gs :
  (∃ g, (sid, g) ∈ insert_group k x gs ∧ l ∈ g) ↔ (sid = k ∧ l = x) ∨ ∃ g, (sid, g) ∈ gs ∧ l ∈ g.
Proof.
  assert (∀ s0 (xs : list IbvSrList) rest, (∃ g, (sid, g) ∈ (s0, xs) :: rest ∧ l ∈ g) ↔
    (sid = s0 ∧ l ∈ xs) ∨ ∃ g, (sid, g) ∈ rest ∧ l ∈ g) as Hcons.
  { intros s0 xs rest. setoid_rewrite elem_of_cons. naive_solver. }
  induction gs as [|[s0 xs] gs IH]; cbn [insert_group].
  - rewrite Hcons, list_elem_of_singleton. done.
  - destruct (k =? s0) eqn:E; [apply Z.eqb_eq in E as ->|destruct (k <? s0)]; rewrite !Hcons.
    + rewrite elem_of_app, list_elem_of_singleton. naive_solver.
    + rewrite list_elem_of_singleton. done.
    + rewrite IH. naive_solver.
Qed.

Lemma elem_of_groups sid l ls :
  (∃ g, (sid, g) ∈ group_by_server ls ∧ l ∈ g) ↔ l ∈ ls ∧ sid = u8 (sr_server_id l).
Proof.
  unfold group_by_server. induction ls as [|x ls IH] using rev_ind; [set_solver|].
  rewrite fold_left_app. cbn [fold_left]. rewrite elem_of_insert_group, IH. set_solver.
Qed.

Lemma elem_of_ops_of p ls :
  p ∈ ops_of ls ↔ ∃ l wr, l ∈ ls ∧ wr ∈ sr_list l ∧ p = (u8 (sr_server_id l), wr).
Proof.
  unfold ops_of. rewrite elem_of_concat. split.
  - intros (xs & Hp & Hxs). apply list_elem_of_fmap in Hxs as ([sid g] & -> & Hg).
    apply list_elem_of_fmap in Hp as (wr & -> & Hwr).
    apply elem_of_concat in Hwr as (ws & Hwr & Hws).
    apply list_elem_of_fmap in Hws as (l & -> & Hl).
    destruct (proj1 (elem_of_groups sid l ls)) as [Hin ->]; [eauto|]. eauto.
  - intros (l & wr & Hl & Hwr & ->).
    destruct (proj2 (elem_of_groups (u8 (sr_server_id l)) l ls)) as (g & Hg & Hlg); [done|].
    eexists. split; [|apply list_elem_of_fmap; eexists; split; [reflexivity|exact Hg]].
    apply list_elem_of_fmap. exists wr. split; [done|]. apply elem_of_concat.
    exists (sr_list l). split; [done|]. apply list_elem_of_fmap. eauto.
Qed.

(** ** Frames *)

(** The bytes of local memory a request writes, and those of its node. *)
Definition lwrites (wr : ibv_send_wr) (x : Z) : Prop :=
  match opcode wr, sg wr with
  | IBV_WR_RDMA_READ, Sge a n _ => a <= x < a + n
  | IBV_WR_ATOMIC_CMP_AND_SWP, Sge a _ _ => a <= x < a + 8
  | IBV_WR_ATOMIC_FETCH_AND_ADD, Sge a _ _ => a <= x < a + 8
  | _, _ => False
  end.
Definition rwrites (wr : ibv_send_wr) (x : Z) : Prop :=
  match opcode wr, sg wr with
  | IBV_WR_RDMA_WRITE, Sge _ n _ => remote_addr wr <= x < remote_addr wr + n
  | IBV_WR_RDMA_WRITE, SgeInline bs => remote_addr wr <= x < remote_addr wr + Z.of_nat (length bs)
  | IBV_WR_ATOMIC_CMP_AND_SWP, Sge _ _ _ => remote_addr wr <= x < remote_addr wr + 8
  | IBV_WR_ATOMIC_FETCH_AND_ADD, Sge _ _ _ => remote_addr wr <= x < remote_addr wr + 8
  | _, _ => False
  end.

Lemma range_false (b x y : Z) :
  ¬ (b <= x < y) → (b <=? x) && (x <? y) = false.
Proof. intros H. apply andb_false_iff. destruct (b <=? x) eqn:E; zify_bool; [right|by left]. lia. Qed.

Lemma apply_op_lframe sid wr w x : ¬ lwrites wr x → lmem (apply_op sid wr w) x = lmem w x.
Proof.
  unfold lwrites, apply_op. intros H. destruct (opcode wr), (sg wr); cbn; try done;
    unfold copy, store64, store; by rewrite range_false.
Qed.

Lemma apply_op_rframe sid wr w n x :
  (n = sid → ¬ rwrites wr x) → rmem (apply_op sid wr w) n x = rmem w n x.
Proof.
  unfold rwrites, apply_op. intros H.
  assert (∀ m, (n = sid → m x = rmem w n x) → upd_rmem (rmem w) sid m n x = rmem w n x) as Hu.
  { intros m Hm. unfold upd_rmem. destruct (n =? sid) eqn:E; [|done]. zify_bool. auto. }
  destruct (opcode wr), (sg wr); cbn; try done; try (destruct (_ =? _); [|done]);
    apply Hu; intros ->; specialize (H eq_refl); unfold copy, store_bytes, store64, store;
    by rewrite range_false.
Qed.

Lemma run_ops_lframe ops w x :
  (∀ p, p ∈ ops → ¬ lwrites p.2 x) → lmem (run_ops ops w) x = lmem w x.
Proof.
  revert w. induction ops as [|p ops IH]; intros w H; [done|]. cbn. unfold run_ops in IH.
  rewrite IH by set_solver. apply apply_op_lframe. set_solver.
Qed.

Lemma run_ops_rframe ops w n x :
  (∀ p, p ∈ ops → p.1 = n → ¬ rwrites p.2 x) → rmem (run_ops ops w) n x = rmem w n x.
Proof.
  revert w. induction ops as [|p ops IH]; intros w H; [done|]. cbn. unfold run_ops in IH.
  rewrite IH by set_solver. apply apply_op_rframe. intros ->. apply H; set_solver.
Qed.

(** ** Arrival *)

(** A read that brings byte [y] of node [sid] to local byte [x], and a write that
    carries [x] there. *)
Definition brings (sid y x : Z) (q : Z * ibv_send_wr) : Prop :=
  q.1 = sid ∧ opcode q.2 = IBV_WR_RDMA_READ ∧
  ∃ a n k, sg q.2 = Sge a n k ∧ a <= x < a + n ∧ y = remote_addr q.2 + (x - a).
Definition carries (x sid y : Z) (q : Z * ibv_send_wr) : Prop :=
  q.1 = sid ∧ opcode q.2 = IBV_WR_RDMA_WRITE ∧
  ∃ a n k, sg q.2 = Sge a n k ∧ remote_addr q.2 <= y < remote_addr q.2 + n ∧
    x = a + (y - remote_addr q.2).

(** A byte that some request brings, no other one writes and whose source none
    writes. *)
Lemma run_ops_read ops w sid y x :
  (∃ q, q ∈ ops ∧ brings sid y x q) →
  (∀ q, q ∈ ops → brings sid y x q ∨ ¬ lwrites q.2 x) →
  (∀ q, q ∈ ops → q.1 = sid → ¬ rwrites q.2 y) →
  lmem (run_ops ops w) x = rmem w sid y.
Proof.
  induction ops as [|q ops IH] using rev_ind; [set_solver|]. intros (q0 & Hin & Hq0) Hd Hs.
  rewrite run_ops_app. cbn [run_ops foldl]. destruct (Hd q) as [Hq|Hq]; [set_solver| |].
  - destruct Hq as (<- & Ho & a & n & k & Hg & Hx & ->). unfold apply_op. rewrite Ho, Hg. cbn. unfold copy.
    rewrite (proj2 (andb_true_iff _ _)) by (split; [apply Z.leb_le|apply Z.ltb_lt]; lia).
    apply run_ops_rframe. intros p Hp. apply Hs. set_solver.
  - rewrite apply_op_lframe by done. apply elem_of_app in Hin as [Hin|Heq%list_elem_of_singleton].
    + apply IH; [by exists q0|..]; intros p Hp; [apply Hd|apply Hs]; set_solver.
    + subst q. destruct Hq0 as (_ & Ho & a & n & k & Hg & Hx & _). destruct Hq. unfold lwrites.
      by rewrite Ho, Hg.
Qed.

(** The same for writes. *)
Lemma run_ops_write ops w sid y x :
  (∃ q, q ∈ ops ∧ carries x sid y q) →
  (∀ q, q ∈ ops → q.1 = sid → carries x sid y q ∨ ¬ rwrites q.2 y) →
  (∀ q, q ∈ ops → ¬ lwrites q.2 x) →
  rmem (run_ops ops w) sid y = lmem w x.
Proof.
  induction ops as [|q ops IH] using rev_ind; [set_solver|]. intros (q0 & Hin & Hq0) Hd Hs.
  rewrite run_ops_app. cbn [run_ops foldl].
  destruct (decide (q.1 = sid)) as [Esid|Esid]; [destruct (Hd q) as [Hq|Hq]; [set_solver|done| |]|].
  - destruct Hq as (_ & Ho & a & n & k & Hg & Hy & ->). unfold apply_op. rewrite Ho, Hg, Esid. cbn.
    unfold upd_rmem, copy. rewrite Z.eqb_refl.
    rewrite (proj2 (andb_true_iff _ _)) by (split; [apply Z.leb_le|apply Z.ltb_lt]; lia).
    apply run_ops_lframe. intros p Hp. apply Hs. set_solver.
  - rewrite apply_op_rframe by done. apply elem_of_app in Hin as [Hin|Heq%list_elem_of_singleton].
    + apply IH; [by exists q0|..]; intros p Hp; [apply Hd|apply Hs]; set_solver.
    + subst q. destruct Hq0 as (_ & Ho & a & n & k & Hg & Hy & _). destruct Hq. unfold rwrites.
      by rewrite Ho, Hg.
  - rewrite apply_op_rframe by done. apply elem_of_app in Hin as [Hin|Heq%list_elem_of_singleton].
    + apply IH; [by exists q0|..]; intros p Hp; [apply Hd|apply Hs]; set_solver.
    + subst q. by destruct Hq0.
Qed.

(** ** Two requests *)

(** Two single requests are performed in their order, or in the other one on
    different nodes. *)
Lemma ops_of_two a b x y :
  ops_of [mkSrList [a] x; mkSrList [b] y] = [(u8 x, a); (u8 y, b)] ∨
  (u8 x ≠ u8 y ∧ ops_of [mkSrList [a] x; mkSrList [b] y] = [(u8 y, b); (u8 x, a)]).
Proof.
  unfold ops_of, group_by_server. cbn [fold_left sr_server_id insert_group].
  destruct (u8 y =? u8 x) eqn:E; [apply Z.eqb_eq in E; rewrite E; by left|].
  apply Z.eqb_neq in E. destruct (u8 y <? u8 x); [right|left]; by cbn.
Qed.
