(* ===== verification/ClientMM.v ===== *)
(** * Memory manager of the client ([src/src/client_mm.h], [src/src/client_mm.cc])

    The static block map, the allocation of blocks from the memory nodes, the
    free queue of subblocks with the links of the operation log, and the recovery
    of this state from the log of a crashed client. *)

From stdpp Require Import pretty.
From S2P Require Import Prelude Mem KvUtils HashTable ServerMM Server Rdma ClientState Network.
Import Cmm.

Section client_mm.
Context {F : Fabric}.
(** Bytes of stack memory that the code leaves uninitialised. *)
Context (junk : mem).
(** The recovery buffer: what [malloc] returns for it and its local key. *)
Context (recover_base recover_lkey : Z).

(** ** The static block map *)

Definition push_map (k v : Z) (m : gmap Z (list Z)) : gmap Z (list Z) :=
  <[k := default [] (m !! k) ++ [v]]> m.

(** The replicas of one block, each as [address | node]; [None] is [exit(1)].
    The alignment test [addr & 0xFF != 0] parses as [addr & (0xFF != 0)]. *)
Fixpoint map_replicas (limit n bs st_sid : Z) (idxs : list Z) (ptr : list Z)
    : option (list Z * list Z) :=
  match idxs with
  | [] => Some ([], ptr)
  | i :: idxs' =>
      let sid := u8 (u32 (st_sid + i) mod n) in
      let a := ptr !!! Z.to_nat sid in
      if limit <=? a then None
      else if negb (Z.land a 1 =? 0) then None
      else
        '(addr_list, ptr') ←
          map_replicas limit n bs st_sid idxs' (<[Z.to_nat sid := u64 (a + bs)]> ptr);
        Some (Z.lor a sid :: addr_list, ptr')
  end.

(** The two nested loops that record a block: every replica maps to the others,
    the first one also in the allocation map; [None] is [exit(1)]. *)
Definition block_maps := (gmap Z (list Z) * gmap Z (list Z))%type.

Definition record_pair (al : list Z) (i : Z) (acc : option block_maps) (j : Z)
    : option block_maps :=
  '(am, tm) ← acc;
  if j =? i then Some (am, tm)
  else
    let tm := push_map (aget al i) (aget al j) tm in
    if i =? 0 then
      let am := push_map (aget al i) (aget al j) am in
      if aget al j =? 0 then None else Some (am, tm)
    else Some (am, tm).

Definition record_replica (R : Z) (al : list Z) (acc : option block_maps) (i : Z)
    : option block_maps :=
  '(am, tm) ← foldl (record_pair al i) acc (zrange 0 R);
  if R =? 1 then Some (push_map (aget al 0) 0 am, tm) else Some (am, tm).

Definition record_block (R : Z) (al : list Z) (maps : block_maps) : option block_maps :=
  foldl (record_replica R al) (Some maps) (zrange 0 R).

Definition block_map_step (block_cnt : Z) : M (list Z * Cmm.t) unit := λ '(ptr, s),
  let n := num_memory_ s in
  match Smm.skip_full (S (Z.to_nat n)) (server_limit_addr_ s) n ptr (block_cnt mod n) with
  | None => Stopped Diverges (ptr, s)
  | Some st_sid =>
      match map_replicas (server_limit_addr_ s) n (mm_block_sz_ s) st_sid
              (zrange 0 (num_replication_ s)) ptr with
      | None => Stopped Exited (ptr, s)
      | Some (addr_list, ptr') =>
          match record_block (num_replication_ s) addr_list
                  (alloc_block_map_ s, total_block_map_ s) with
          | None => Stopped Exited (ptr', s)
          | Some (am, tm) =>
              Done tt (ptr', s <| alloc_block_map_ := am |> <| total_block_map_ := tm |>)
          end
      end
  end.

Definition get_block_map : M Sys unit := λ s,
  let m := mm s in
  let mn_addr_ptr := replicate (Z.to_nat (num_memory_ m)) (server_kv_area_addr_ m) in
  if num_replication_ m =? 0 then Stopped Undefined s else
  let num_rep_blocks :=
    u32 (u64 (server_num_blocks_ m * num_memory_ m) / num_replication_ m) in
  match forM (zrange 0 num_rep_blocks) block_map_step (mn_addr_ptr, m) with
  | Done _ (_, m') => Done tt (s <| mm := m' |>)
  | Stopped e (_, m') => Stopped e (s <| mm := m' |>)
  end.

(** ** Small operations *)

Definition get_alloc_hint_rr : M Sys Z :=
  s ← get;
  set_mm (λ m, m <| last_allocated_ ::= λ x, u32 (x + 1) |>) ;;
  mret (last_allocated_ (mm s)).

Definition get_aligned_size (m : Cmm.t) (size : Z) : Z :=
  if size mod subblock_sz_ m =? 0 then size
  else u64 ((size / subblock_sz_ m + 1) * subblock_sz_ m).

Definition gen_subblock_info (m : Cmm.t) (b : ClientMMBlock) (subblock_idx : Z) : SubblockInfo :=
  let n := num_replication_ m in
  mkSubblockInfo
    (afill n (λ i, u64 (aget (mr_addr_list b) i + u64 (subblock_idx * subblock_sz_ m))) azero)
    (afill n (λ i, aget (mr_rkey_list b) i) azero)
    (afill n (λ i, aget (blk_server_id_list b) i) azero).

Definition get_subblock_idx (m : Cmm.t) (addr : Z) (b : ClientMMBlock) : Z :=
  u32 (u64 (addr - aget (mr_addr_list b) 0) / subblock_sz_ m).

(** The longest run of free entries of [bmap], from index 1 on. *)
Fixpoint free_run (fuel : nat) (bm : list bool) (n i j : Z) : Z :=
  match fuel with
  | O => j
  | S fuel' =>
      if i + j <? n then
        if default false (bm !! Z.to_nat (i + j)) then j else free_run fuel' bm n i (j + 1)
      else j
  end.

Fixpoint longest_run (fuel : nat) (bm : list bool) (n i max_idx max_cnt : Z) : Z * Z :=
  match fuel with
  | O => (max_idx, max_cnt)
  | S fuel' =>
      if i <? n then
        if default false (bm !! Z.to_nat i) then longest_run fuel' bm n (i + 1) max_idx max_cnt
        else
          let j := free_run (Z.to_nat n) bm n i 0 in
          if max_cnt <? j then longest_run fuel' bm n (i + j) i j
          else longest_run fuel' bm n (i + j) max_idx max_cnt
      else (max_idx, max_cnt)
  end.

Definition update_mm_block_next (m : Cmm.t) (b : ClientMMBlock) : ClientMMBlock :=
  let '(max_idx, max_cnt) :=
    longest_run (Z.to_nat (subblock_num_ m)) (bmap b) (subblock_num_ m) 1 (-1) (-1) in
  b <| prev_free_subblock_idx := next_free_subblock_idx b |>
    <| next_free_subblock_idx := max_idx |> <| next_free_subblock_cnt := max_cnt |>.

(** ** Blocks from the memory nodes *)

Definition alloc_from_sid (server_id alloc_type : Z) : M Sys MrInfo :=
  my_id ← get_server_id;
  let request := mkKVMsg (if alloc_type =? TYPE_KVBLOCK then REQ_ALLOC else REQ_ALLOC_SUBTABLE)
                         (u16 my_id) (mr_info (mkMrInfo 0 0)) in
  request ← of_option (serialize_kvmsg request);
  _ ← nm_send_udp_msg_to_server request server_id;
  reply ← nm_recv_udp_msg;
  reply ← of_option (deserialize_kvmsg reply);
  match msg_body reply with
  | mr_info m => mret m
  | conn_info _ => stopm Undefined
  end.

(** The subblocks of a block, without the leading bitmap ones. *)
Definition block_subblocks (m : Cmm.t) (b : ClientMMBlock) : list SubblockInfo :=
  gen_subblock_info m b <$> zrange (bmap_block_num_ m) (subblock_num_ m).

Definition new_block (n : Z) (mrs : list MrInfo) (sids : list Z) : ClientMMBlock :=
  ClientMMBlock_zero
    <| mr_addr_list := afill n (λ i, nth (Z.to_nat i) (mr_addr <$> mrs) 0) azero |>
    <| mr_rkey_list := afill n (λ i, nth (Z.to_nat i) (rkey <$> mrs) 0) azero |>
    <| blk_server_id_list := afill n (λ i, nth (Z.to_nat i) sids 0) azero |>.

Definition local_reg_blocks (mrs : list MrInfo) (sids : list Z) : M Sys Z :=
  s ← get;
  let b := new_block (num_replication_ (mm s)) mrs sids in
  set_mm (λ m, m <| subblock_free_queue_ ::= λ q, q ++ block_subblocks m b |>) ;;
  set_mm (λ m, m <| mm_blocks_ ::= λ l, l ++ [b] |>) ;;
  mret 0.

(** The 96 bytes of a [ClientMetaAddrInfo] whose first [n] entries are set. *)
Definition sizeof_ClientMetaAddrInfo : Z := 96.
Definition sizeof_ClientLogMetaInfo : Z := 24.
Definition meta_info_bytes (ty n : Z) (mrs : list MrInfo) (sids : list Z) : list Z :=
  let m := store8 junk 0 ty in
  let m := foldl (λ m i,
    store64 (store8 m (1 + i) (nth (Z.to_nat i) sids 0)) (16 + 8 * i)
            (nth (Z.to_nat i) (mr_addr <$> mrs) 0)) m (zrange 0 n) in
  load_bytes sizeof_ClientMetaAddrInfo m 0.

Definition reg_new_space (mrs : list MrInfo) (sids : list Z) (alloc_type : Z) : M Sys Z :=
  s ← get;
  let n := num_replication_ (mm s) in
  whenm (Z.of_nat (length mrs) <? n) (stopm Undefined) ;;
  let meta_info := meta_info_bytes
    (if alloc_type =? TYPE_KVBLOCK then TYPE_KVBLOCK else TYPE_SUBTABLE) n mrs sids in
  forM (zrange 0 n) (λ i,
    rk ← get_server_rkey i;
    _ ← nm_rdma_write_inl_to_sid meta_info (client_meta_addr_ (mm s)) rk i; skip) ;;
  set_mm (λ m, m <| client_meta_addr_ ::= λ a, u64 (a + sizeof_ClientMetaAddrInfo) |>) ;;
  _ ← (if alloc_type =? TYPE_KVBLOCK then local_reg_blocks mrs sids else mret 0);
  mret 0.

Definition dyn_reg_new_space (mrs : list MrInfo) (sids : list Z) (alloc_type : Z) : M Sys Z :=
  s ← get;
  let n := num_replication_ (mm s) in
  let meta_info := meta_info_bytes
    (if alloc_type =? TYPE_KVBLOCK then TYPE_KVBLOCK else TYPE_SUBTABLE) n mrs sids in
  forM (zrange 0 n) (λ i,
    rk ← get_server_rkey i;
    _ ← nm_rdma_write_inl_to_sid_sync meta_info (client_meta_addr_ (mm s)) rk i; skip) ;;
  set_mm (λ m, m <| client_meta_addr_ ::= λ a, u64 (a + sizeof_ClientMetaAddrInfo) |>) ;;
  _ ← (if alloc_type =? TYPE_KVBLOCK then local_reg_blocks mrs sids else mret 0);
  mret 0.

(** The replicas of an allocated block, from the allocation map: [exit(1)] when
    the block is not in the map. *)
Definition find_replicas (addr pr_server_id : Z) : M Sys (list (MrInfo * Z)) :=
  s ← get;
  whenm (negb (Z.land addr 0xFF =? 0)) (stopm Exited) ;;
  match alloc_block_map_ (mm s) !! Z.lor addr pr_server_id with
  | None => stopm Exited
  | Some l =>
      of_option (mapM (λ i,
        e ← l !! Z.to_nat i;
        let sid := u8 (Z.land e 0xFF) in
        let a := u64 (Z.shiftl (Z.shiftr e 8) 8) in
        mi ← Nm.mr_info_list_ (nm s) !! Z.to_nat sid;
        Some (mkMrInfo a (rkey mi), sid)) (zrange 0 (num_replication_ (mm s) - 1)))
  end.

Definition dyn_get_new_block_from_server : M Sys Z :=
  alloc_hint ← get_alloc_hint_rr;
  pr_server_id ← get_one_server_id alloc_hint;
  mr0 ← alloc_from_sid pr_server_id TYPE_KVBLOCK;
  if mr_addr mr0 =? 0 then mret (-1)
  else
    reps ← find_replicas (mr_addr mr0) pr_server_id;
    _ ← dyn_reg_new_space (mr0 :: reps.*1) (u8 pr_server_id :: reps.*2) TYPE_KVBLOCK;
    mret 0.

Definition get_new_block_from_server : M Sys Z :=
  alloc_hint ← get_alloc_hint_rr;
  pr_server_id ← get_one_server_id alloc_hint;
  mr0 ← alloc_from_sid pr_server_id TYPE_KVBLOCK;
  reps ← find_replicas (mr_addr mr0) pr_server_id;
  _ ← reg_new_space (mr0 :: reps.*1) (u8 pr_server_id :: reps.*2) TYPE_KVBLOCK;
  mret 0.

(** One round per memory node: the block allocated there with its replicas. *)
Definition init_get_block : M Sys (list MrInfo * list Z) :=
  alloc_hint ← get_alloc_hint_rr;
  pr_server_id ← get_one_server_id alloc_hint;
  mr0 ← alloc_from_sid pr_server_id TYPE_KVBLOCK;
  reps ← find_replicas (mr_addr mr0) pr_server_id;
  mret (mr0 :: reps.*1, u8 pr_server_id :: reps.*2).

Fixpoint init_get_blocks (n : nat) : M Sys (list (list MrInfo * list Z)) :=
  match n with
  | O => mret []
  | S n' => b ← init_get_block; bs ← init_get_blocks n'; mret (b :: bs)
  end.

(** [front] and [pop] of queue [i]; [front] of an empty queue is undefined. *)
Definition pop_queue (qs : list (list SubblockInfo)) (i : nat)
    : option (SubblockInfo * list (list SubblockInfo)) :=
  q ← qs !! i; match q with x :: q' => Some (x, <[i := q']> qs) | [] => None end.

(** The merge loop: one subblock of each node in turn. *)
Fixpoint merge_queues (fuel : nat) (n i : Z) (qs : list (list SubblockInfo))
    (out : list SubblockInfo) : option (list SubblockInfo * list (list SubblockInfo)) :=
  match fuel with
  | O => Some (out, qs)
  | S fuel' =>
      '(x, qs') ← pop_queue qs (Z.to_nat (i mod n));
      merge_queues fuel' n (i + 1) qs' (out ++ [x])
  end.

Definition init_reg_block (b : list MrInfo * list Z) : M Sys (list SubblockInfo) :=
  s ← get;
  let n := num_replication_ (mm s) in
  let meta_info := meta_info_bytes TYPE_KVBLOCK n b.1 b.2 in
  forM (zrange 0 n) (λ i,
    rk ← get_server_rkey i;
    _ ← nm_rdma_write_inl_to_sid meta_info (client_meta_addr_ (mm s)) rk i; skip) ;;
  set_mm (λ m, m <| client_meta_addr_ ::= λ a, u64 (a + sizeof_ClientMetaAddrInfo) |>) ;;
  let blk := new_block n b.1 b.2 in
  set_mm (λ m, m <| mm_blocks_ ::= λ l, l ++ [blk] |>) ;;
  mret (block_subblocks (mm s) blk).

Fixpoint init_reg_blocks (bs : list (list MrInfo * list Z)) : M Sys (list (list SubblockInfo)) :=
  match bs with
  | [] => mret []
  | b :: bs' => q ← init_reg_block b; qs ← init_reg_blocks bs'; mret (q :: qs)
  end.

Definition init_reg_space (bs : list (list MrInfo * list Z)) (alloc_type : Z) : M Sys Z :=
  assertm (alloc_type =? TYPE_KVBLOCK) ;;
  tmp_queue ← init_reg_blocks bs;
  s ← get;
  let m := mm s in
  let data_block_num := u32 (subblock_num_ m - bmap_block_num_ m) in
  '(q, rest) ← of_option (merge_queues (Z.to_nat (u32 (num_memory_ m * data_block_num)))
                           (num_memory_ m) 0 tmp_queue []);
  set_mm (λ m, m <| subblock_free_queue_ ::= λ q0, q0 ++ q |>) ;;
  whenm (existsb (λ q : list SubblockInfo, negb (Nat.eqb (length q) 0)) rest) (stopm Exited) ;;
  mret 0.

Definition init_get_new_block_from_server : M Sys Z :=
  s ← get;
  bs ← init_get_blocks (Z.to_nat (num_memory_ (mm s)));
  _ ← init_reg_space bs TYPE_KVBLOCK;
  mret 0.

(** ** Allocation and release of subblocks *)

(** [1 << k] is computed in [int] and then converted to [uint64_t]. *)
Definition int_bit (k : Z) : option Z :=
  if k <? 31 then Some (2 ^ k) else if k =? 31 then Some (u64 (- 2 ^ 31)) else None.

(** The text of [sprintf("%ld@%d", addr, sid)]. *)
Definition faa_key (addr sid : Z) : string :=
  pretty (if addr <? 2 ^ 63 then addr else addr - 2 ^ 64) +:+ "@" +:+ pretty sid.

Definition mm_free (orig_slot_val : Z) : M Sys unit :=
  s ← get;
  let m := mm s in
  let slot := slot_at (store64 mem_zero 0 orig_slot_val) 0 in
  let kv_raddr := HashIndexConvert40To64Bits (pointer slot) in
  let subblock_id := u32 ((kv_raddr mod mm_block_sz_ m) / subblock_sz_ m) in
  let block_raddr := u64 (kv_raddr - kv_raddr mod mm_block_sz_ m) in
  let subblock_8byte_offset := subblock_id / 64 in
  let bmap_addr := u64 (block_raddr + u64 (subblock_8byte_offset * 8)) in
  add_value ← of_option (int_bit (subblock_id mod 64));
  if u64 (block_raddr + u64 (subblock_sz_ m * bmap_block_num_ m)) <? bmap_addr
  then stopm Exited
  else
    let addr_str := faa_key bmap_addr (slot_server_id slot) in
    set_mm (λ m, m <| free_faa_map_ ::= λ fm,
      <[addr_str := u64 (default 0 (fm !! addr_str) + add_value)]> fm |>).

Definition mm_free_cur (c : ClientMMAllocCtx) : M Sys unit :=
  s ← get;
  let n := num_replication_ (mm s) in
  let last_allocated := mkSubblockInfo
    (afill n (aget (addr_list c)) azero) (afill n (aget (rkey_list c)) azero)
    (afill n (aget (ac_server_id_list c)) azero) in
  set_mm (λ m, m <| subblock_free_queue_ ::= cons last_allocated |>) ;;
  let last_last_allocated := mkSubblockInfo
    (afill n (λ i, u64 (Z.shiftl (Z.shiftr (aget (prev_addr_list c) i) 8) 8)) azero)
    (afill n (aget (prev_rkey_list c)) azero)
    (afill n (λ i, u8 (Z.land (aget (prev_addr_list c) i) 0xFF)) azero) in
  set_mm (λ m, m <| last_allocated_info_ := last_last_allocated |>).

(** The context filled by [mm_alloc]: the subblock, the next one of the queue
    and the one allocated before it. *)
Definition fill_alloc_ctx (n k : Z) (cur next last : SubblockInfo) (c : ClientMMAllocCtx)
    : ClientMMAllocCtx :=
  c <| need_change_prev := false |> <| ac_num_subblocks := k |>
    <| addr_list ::= afill n (aget (sb_addr_list cur)) |>
    <| rkey_list ::= afill n (aget (sb_rkey_list cur)) |>
    <| ac_server_id_list ::= afill n (aget (sb_server_id_list cur)) |>
    <| next_addr_list ::= afill n (λ i, Z.lor (aget (sb_addr_list next) i)
                                              (aget (sb_server_id_list next) i)) |>
    <| next_rkey_list ::= afill n (aget (sb_rkey_list next)) |>
    <| prev_addr_list ::= afill n (λ i, Z.lor (aget (sb_addr_list last) i)
                                              (aget (sb_server_id_list last) i)) |>
    <| prev_rkey_list ::= afill n (aget (sb_rkey_list last)) |>.

Definition mm_alloc (size : Z) (c : ClientMMAllocCtx) : M Sys ClientMMAllocCtx :=
  s ← get;
  let num_subblocks_required := i32 (get_aligned_size (mm s) size / subblock_sz_ (mm s)) in
  assertm (num_subblocks_required =? 1) ;;
  match subblock_free_queue_ (mm s) with
  | [] => stopm Exited
  | alloc_subblock :: rest =>
      set_mm (λ m, m <| subblock_free_queue_ := rest |>) ;;
      ret ← (if Nat.eqb (length rest) 0 then dyn_get_new_block_from_server else mret 0);
      if ret =? -1 then mret (c <| addr_list ::= λ l, <[0%nat := 0]> l |>)
      else
        s ← get;
        match subblock_free_queue_ (mm s) with
        | [] => stopm Undefined
        | next_subblock :: _ =>
            let c := fill_alloc_ctx (num_replication_ (mm s)) num_subblocks_required
                       alloc_subblock next_subblock (last_allocated_info_ (mm s)) c in
            set_mm (λ m, m <| last_allocated_info_ := alloc_subblock |>) ;;
            mret c
        end
  end.

Definition mm_alloc_log_info (r : RecoverLogInfo) (c : ClientMMAllocCtx) : M Sys ClientMMAllocCtx :=
  s ← get;
  let m := mm s in
  let n := num_replication_ m in
  let size := u32 (rl_key_len r + rl_val_len r + sizeof_KVLogHeader + sizeof_KVLogTail) in
  let num_subblock_required := get_aligned_size m size / subblock_sz_ m in
  let tail := local_tail_addr r in
  let prev := load_bytes 6 (lmem (wld s)) (tail + off_prev_addr) in
  mret (c <| addr_list ::= afill n (aget (sb_addr_list (last_allocated_info_ m))) |>
          <| rkey_list ::= afill n (aget (sb_rkey_list (last_allocated_info_ m))) |>
          <| ac_server_id_list ::= afill n (aget (sb_server_id_list (last_allocated_info_ m))) |>
          <| ac_num_subblocks := u32 (i32 num_subblock_required) |>
          <| prev_addr_list ::= λ l,
               <[0%nat := Z.lor (HashIndexConvert40To64Bits (take 5 prev)) (nth 5 prev 0)]> l |>).

(** Returns the filled [ClientMMAllocSubtableCtx] entries as (node, address). *)
Fixpoint alloc_subtables (pr n : Z) (idxs : list Z) : M Sys (list (MrInfo * Z)) :=
  match idxs with
  | [] => mret []
  | i :: idxs' =>
      let server_id := u32 (pr + i) mod n in
      mr ← alloc_from_sid server_id TYPE_SUBTABLE;
      l ← alloc_subtables pr n idxs';
      mret ((mr, u8 server_id) :: l)
  end.

Definition mm_alloc_subtable : M Sys (list (Z * Z)) :=
  alloc_hint ← get_alloc_hint_rr;
  pr_server_id ← get_one_server_id alloc_hint;
  num_servers ← get_num_servers;
  s ← get;
  l ← alloc_subtables pr_server_id num_servers (zrange 0 (num_idx_rep_ (mm s)));
  _ ← reg_new_space l.*1 l.*2 TYPE_SUBTABLE;
  mret ((λ p : MrInfo * Z, (p.2, mr_addr p.1)) <$> l).

(** ** Recovery *)

Definition REC_SPACE_SIZE : Z := 64 * 1024 * 1024.

Definition RecoverLogInfo_zero : RecoverLogInfo := mkRecoverLogInfo 0 0 0 0 0.

Definition get_last_log_recover_info (m : Cmm.t) : RecoverLogInfo :=
  let l := recover_log_info_list_ m in
  let last_idx := length l in
  if (1 <? last_idx)%nat then nth (last_idx - 2) l RecoverLogInfo_zero
  else RecoverLogInfo_zero.

Definition free_recover_buf : M Sys unit :=
  set_mm (λ m, m <| recover_log_info_list_ := [] |>).

Definition mm_recover_prepare_space : M Sys Z :=
  set_mm (λ m, m <| recover_buf_ := recover_base |>
                 <| tmp_buf_ := u64 (recover_base + CLIENT_META_LEN) |>
                 <| log_tail_st_ptr_ := u64 (u64 (recover_base + CLIENT_META_LEN)
                                             + CLIENT_META_LEN) |>) ;;
  mret 0.

Definition mm_get_addr_meta : M Sys Z :=
  s ← get;
  let r_meta_addr := u64 (client_meta_addr_ (mm s) - sizeof_ClientLogMetaInfo) in
  rk ← get_server_rkey 0;
  _ ← nm_rdma_read_from_sid (recover_buf_ (mm s)) recover_lkey CLIENT_META_LEN r_meta_addr rk 0;
  mret 0.

(** One log entry: the subblock is read, its tail is kept in the recovery
    buffer, and the entry it links to is returned. *)
Definition traverse_step (ptr_addr ptr_sid cnt : Z) : M Sys (Z * Z) :=
  s ← get;
  rk ← get_server_rkey ptr_sid;
  let tmp := tmp_buf_ (mm s) in
  _ ← nm_rdma_read_from_sid tmp recover_lkey (subblock_sz_ (mm s)) ptr_addr rk ptr_sid;
  key_length ← rd16 (tmp + off_key_length);
  value_length ← rd32 (tmp + off_value_length);
  let tail := tmp + sizeof_KVLogHeader + key_length + value_length in
  let slot := log_tail_st_ptr_ (mm s) + cnt * sizeof_KVLogTail in
  set_lmem (λ m, copy sizeof_KVLogTail m tail m slot) ;;
  set_mm (λ m, m <| recover_log_info_list_ ::= λ l,
    l ++ [mkRecoverLogInfo slot key_length value_length ptr_addr (u8 ptr_sid)] |>) ;;
  assertm (Z.land ptr_addr 0xFF =? 0) ;;
  set_mm (λ m, m <| recover_addr_is_allocated_map_ ::= <[Z.lor ptr_addr ptr_sid := true]> |>) ;;
  next ← gets (λ s, load_bytes 6 (lmem (wld s)) (tail + off_next_addr));
  mret (HashIndexConvert40To64Bits (take 5 next), nth 5 next 0).

(** The loop over the chained log.  The fuel is the number of tails that fit in
    the recovery buffer: a longer log is written past its end. *)
Fixpoint traverse_loop (fuel : nat) (ptr_addr ptr_sid cnt : Z) : M Sys unit :=
  if ptr_addr =? 0 then skip
  else
    match fuel with
    | O => stopm Undefined
    | S fuel' =>
        '(next_addr, next_sid) ← traverse_step ptr_addr ptr_sid cnt;
        traverse_loop fuel' next_addr next_sid (cnt + 1)
    end.

Definition max_log_tails : Z := (REC_SPACE_SIZE - 2 * CLIENT_META_LEN) / sizeof_KVLogTail.

Definition mm_traverse_log : M Sys Z :=
  s ← get;
  let m := mm s in
  pr_server_id ← rd8 (recover_buf_ m);
  pr_log_head ← rd64 (recover_buf_ m + 8);
  let ptr_addr := u64 (pr_log_head + u64 (bmap_block_num_ m * subblock_sz_ m)) in
  traverse_loop (Z.to_nat max_log_tails) ptr_addr pr_server_id 0 ;;
  mret 0.

(** What the reconstruction of the queues keeps: the head of the free queue if
    it was met, and one queue per node. *)
Definition rebuild := (option SubblockInfo * list (list SubblockInfo))%type.

Definition recover_subblock (head last_pr : Z) (b : ClientMMBlock) (st : rebuild) (i : Z)
    : M Sys rebuild :=
  s ← get;
  let m := mm s in
  let info := gen_subblock_info m b i in
  let sid := aget (blk_server_id_list b) 0 in
  let cur_pr_addr := Z.lor (u64 (aget (mr_addr_list b) 0 + u64 (subblock_sz_ m * i))) sid in
  if cur_pr_addr =? head then mret (Some info, st.2)
  else if cur_pr_addr =? last_pr then
    set_mm (λ m, m <| last_allocated_info_ := info |>) ;; mret st
  else if default false (recover_addr_is_allocated_map_ m !! cur_pr_addr) then mret st
  else
    q ← of_option (st.2 !! Z.to_nat sid);
    mret (st.1, <[Z.to_nat sid := q ++ [info]]> st.2).

Fixpoint recover_subblocks (head last_pr : Z) (b : ClientMMBlock) (idxs : list Z)
    (st : rebuild) : M Sys rebuild :=
  match idxs with
  | [] => mret st
  | i :: idxs' =>
      st' ← recover_subblock head last_pr b st i;
      recover_subblocks head last_pr b idxs' st'
  end.

(** The block an entry of the meta area describes. *)
Definition recover_block (ptr : Z) : M Sys ClientMMBlock :=
  s ← get;
  let l := lmem (wld s) in
  let n := num_replication_ (mm s) in
  let sid i := load8 l (ptr + 1 + i) in
  rks ← of_option (mapM (λ i, rkey <$> Nm.mr_info_list_ (nm s) !! Z.to_nat (sid i)) (zrange 0 n));
  mret (ClientMMBlock_zero
    <| mr_addr_list := afill n (λ i, load64 l (ptr + 16 + 8 * i)) azero |>
    <| mr_rkey_list := afill n (λ i, nth (Z.to_nat i) rks 0) azero |>
    <| blk_server_id_list := afill n sid azero |>).

(** The walk over the meta area; the recovery buffer bounds it. *)
Fixpoint recover_loop (fuel : nat) (head last_pr ptr : Z) (st : rebuild) : M Sys rebuild :=
  match fuel with
  | O => stopm Undefined
  | S fuel' =>
      ty ← rd8 ptr;
      if ty =? 0 then mret st
      else if ty =? TYPE_SUBTABLE then
        recover_loop fuel' head last_pr (ptr + sizeof_ClientMetaAddrInfo) st
      else
        b ← recover_block ptr;
        s ← get;
        st' ← recover_subblocks head last_pr b
                (zrange (bmap_block_num_ (mm s)) (subblock_num_ (mm s))) st;
        set_mm (λ m, m <| mm_blocks_ ::= λ l, l ++ [b] |>) ;;
        recover_loop fuel' head last_pr (ptr + sizeof_ClientMetaAddrInfo) st'
  end.

(** One subblock of every non-empty queue in turn, until all are empty. *)
Fixpoint round_robin (fuel : nat) (qs : list (list SubblockInfo)) : list SubblockInfo :=
  match fuel with
  | O => []
  | S fuel' =>
      match omap head qs with
      | [] => []
      | heads => heads ++ round_robin fuel' (@tail _ <$> qs)
      end
  end.

Definition max_queue (qs : list (list SubblockInfo)) : nat := max_list (length <$> qs).

Definition mm_recover_mm_blocks : M Sys Z :=
  s ← get;
  let infos := recover_log_info_list_ (mm s) in
  let n := length infos in
  set_mm (λ m, m <| cur_mm_block_idx_ := u32 (-1) |>) ;;
  queue_head ← of_option (infos !! (n - 1)%nat);
  let pr_addr_of r := Z.lor (rl_remote_addr r) (rl_server_id r) in
  let last_allocated_pr_addr :=
    if (1 <? n)%nat then default 0 (pr_addr_of <$> infos !! (n - 2)%nat)
    else load64 junk 0 in
  st ← recover_loop (Z.to_nat (REC_SPACE_SIZE / sizeof_ClientMetaAddrInfo))
         (pr_addr_of queue_head) last_allocated_pr_addr
         (recover_buf_ (mm s) + sizeof_ClientLogMetaInfo)
         (None, replicate (Z.to_nat (num_memory_ (mm s))) []);
  head_info ← of_option st.1;
  set_mm (λ m, m <| subblock_free_queue_ ::= λ q,
    q ++ head_info :: round_robin (S (max_queue st.2)) st.2 |>) ;;
  mret 0.

Definition mm_recovery : M Sys Z :=
  _ ← mm_recover_prepare_space;
  _ ← mm_get_addr_meta;
  _ ← mm_traverse_log;
  _ ← mm_recover_mm_blocks;
  mret 0.

(** ** Construction *)

(** The fields computed from the configuration; [server_id] and [memory_num]
    are [uint32_t], so the client's index wraps at 32 bits. *)
Definition init_fields (conf : GlobalConfig) (m : Cmm.t) : option Cmm.t :=
  let base := server_base_addr conf in
  let idx := u32 (server_id conf - memory_num conf + 1) in
  let bs := block_size conf in
  let ss := subblock_size conf in
  if (u32 bs =? 0) || (bs =? 0) || (ss =? 0) then None
  else
    let off := round_up (META_AREA_LEN + GC_AREA_LEN + HASH_AREA_LEN) (u32 bs) in
    let sn := u32 (bs / ss) in
    let bb := u32 (sn / 8 / ss) in
    let bb := if u64 (u32 (bb * 8) * ss) <? sn then u32 (bb + 1) else bb in
    Some (m <| client_meta_addr_ :=
               u64 (base + u32 (CLIENT_META_LEN * idx) + sizeof_ClientLogMetaInfo) |>
            <| client_gc_addr_ := u64 (base + META_AREA_LEN + u32 (CLIENT_GC_LEN * idx)) |>
            <| server_limit_addr_ := u64 (base + server_data_len conf) |>
            <| server_kv_area_off_ := off |>
            <| server_kv_area_addr_ := u64 (base + off) |>
            <| server_num_blocks_ := u64 (server_data_len conf - off) / bs |>
            <| Cmm.num_replication_ := num_replication conf |>
            <| Cmm.num_idx_rep_ := num_idx_rep conf |>
            <| Cmm.num_memory_ := memory_num conf |>
            <| last_allocated_ := server_id conf |>
            <| mm_block_sz_ := bs |> <| subblock_sz_ := ss |> <| subblock_num_ := sn |>
            <| bmap_block_num_ := bb |> <| cur_mm_block_idx_ := 0 |>).

Definition ClientMM (conf : GlobalConfig) : M Sys unit :=
  s ← get;
  m ← of_option (init_fields conf (mm s));
  set_mm (λ _, m) ;;
  get_block_map ;;
  if is_recovery conf =? 0 then
    _ ← (if u32 (server_id conf - memory_num conf) =? 0 then init_get_new_block_from_server
         else get_new_block_from_server);
    set_mm (λ m, m <| cur_mm_block_idx_ := 0 |>) ;;
    s ← get;
    b ← of_option (mm_blocks_ (mm s) !! 0%nat);
    set_mm (λ m, m <| pr_log_server_id_ := aget (blk_server_id_list b) 0 |>
                   <| pr_log_head_ := aget (mr_addr_list b) 0 |>)
  else _ ← mm_recovery; skip.

Definition get_log_head (m : Cmm.t) : Z * Z := (pr_log_server_id_ m, pr_log_head_ m).
Definition get_remote_meta_ptr (m : Cmm.t) : Z := client_meta_addr_ m.
Definition get_num_mm_blocks (m : Cmm.t) : Z := u32 (Z.of_nat (length (mm_blocks_ m))).
Definition MAX_NUM_SUBBLOCKS : Z := 4.
Definition should_start_gc (m : Cmm.t) : option bool :=
  b ← mm_blocks_ m !! Z.to_nat (cur_mm_block_idx_ m);
  Some (next_free_subblock_cnt b <? MAX_NUM_SUBBLOCKS).
End client_mm.

(** ** Arrays *)

Lemma afill_length n f l :
  0 <= n → length (afill n f l) = (Z.to_nat n + (length l - Z.to_nat n))%nat.
Proof. intros. unfold afill. rewrite length_app, length_fmap, zrange_length, length_drop. lia. Qed.

Lemma aget_afill n f l i : 0 <= i < n → aget (afill n f l) i = f i.
Proof.
  intros Hi. unfold aget, afill. apply list_lookup_total_correct.
  rewrite lookup_app_l by (rewrite length_fmap, zrange_length; lia).
  rewrite list_lookup_fmap, zrange_lookup by lia. cbn. do 2 f_equal. lia.
Qed.

Lemma afill_ext n f g l : (∀ i, 0 <= i < n → f i = g i) → afill n f l = afill n g l.
Proof.
  intros H. unfold afill. f_equal. apply list_fmap_ext.
  intros ? i Hi%list_elem_of_lookup_2%elem_of_zrange. auto.
Qed.

Section alloc_theorems.
Context {F : Fabric} (junk : mem).

(** What the allocation of a new block leaves alone. *)
Definition alloc_frame (s : Sys) : SubblockInfo * Z * Z * Z :=
  (last_allocated_info_ (mm s), num_replication_ (mm s), subblock_sz_ (mm s), mm_block_sz_ (mm s)).

Lemma keeps_weaken {A B} (c : M Sys A) (g : Cmm.t * Cl.t * KVReqCtx → B) :
  keeps client_side c → keeps (λ s, g (client_side s)) c.
Proof. intros H s. specialize (H s). destruct (c s); [congruence|done]. Qed.

Lemma dyn_get_new_block_frame : keeps alloc_frame (dyn_get_new_block_from_server junk).
Proof.
  assert (∀ A (c : M Sys A), keeps client_side c → keeps alloc_frame c) as Hw.
  { intros A c. apply (keeps_weaken c (λ '(m, _, _), (last_allocated_info_ m,
      num_replication_ m, subblock_sz_ m, mm_block_sz_ m))). }
  unfold dyn_get_new_block_from_server, get_alloc_hint_rr, get_one_server_id, alloc_from_sid,
    find_replicas, dyn_reg_new_space, local_reg_blocks, get_server_id, get_server_rkey.
  solve_keeps; auto with frame.
Qed.

(** The outcome of an allocation, branch by branch. *)
Definition alloc_outcome (size : Z) (c : ClientMMAllocCtx) (s : Sys)
    (r : outcome Sys ClientMMAllocCtx) : Prop :=
  match subblock_free_queue_ (mm s) with
  | [] => r = Stopped Exited s
  | cur :: rest =>
      let s0 := s <| mm ::= λ m, m <| subblock_free_queue_ := rest |> |> in
      match (if Nat.eqb (length rest) 0 then dyn_get_new_block_from_server junk s0
             else Done 0 s0) with
      | Stopped e s1 => r = Stopped e s1
      | Done ret s1 =>
          if ret =? -1 then r = Done (c <| addr_list ::= λ l, <[0%nat := 0]> l |>) s1
          else match subblock_free_queue_ (mm s1) with
               | [] => r = Stopped Undefined s1
               | next :: _ =>
                   r = Done (fill_alloc_ctx (num_replication_ (mm s)) 1 cur next
                               (last_allocated_info_ (mm s)) c)
                            (s1 <| mm ::= λ m, m <| last_allocated_info_ := cur |> |>)
               end
      end
  end.

Lemma aligned_one m size :
  0 < subblock_sz_ m < 2 ^ 31 → 0 < size <= subblock_sz_ m →
  i32 (get_aligned_size m size / subblock_sz_ m) = 1.
Proof.
  intros Hss Hsz. unfold get_aligned_size.
  assert (get_aligned_size m size = subblock_sz_ m) as E.
  { unfold get_aligned_size. destruct (decide (size = subblock_sz_ m)) as [->|].
    - by rewrite Z.mod_same by lia.
    - rewrite Z.mod_small, Z.div_small by lia.
      rewrite (proj2 (Z.eqb_neq _ _)) by lia. unfold u64. rewrite Z.mod_small; lia. }
  unfold get_aligned_size in E. rewrite E, Z.div_same by lia. done.
Qed.

Lemma mm_alloc_run size c s :
  0 < subblock_sz_ (mm s) < 2 ^ 31 → 0 < size <= subblock_sz_ (mm s) →
  alloc_outcome size c s (mm_alloc junk size c s).
Proof.
  intros Hss Hsz. unfold alloc_outcome, mm_alloc. unM. unfold get.
  rewrite aligned_one by done. cbn [Z.eqb Pos.eqb].
  destruct (subblock_free_queue_ (mm s)) as [|cur rest]; [done|].
  unfold set_mm, modify. set (s0 := s <| mm ::= _ |>).
  assert (alloc_frame s0 = alloc_frame s) as Hf0 by done.
  destruct (Nat.eqb (length rest) 0).
  - pose proof (dyn_get_new_block_frame s0) as Hk.
    destruct (dyn_get_new_block_from_server junk s0) as [ret s1|]; [|done].
    rewrite Hf0 in Hk. injection Hk as Hl Hr _ _.
    destruct (ret =? -1); [done|]. destruct (subblock_free_queue_ (mm s1)); [done|].
    by rewrite Hl, Hr.
  - cbn [Z.eqb]. unfold s0. cbn. by destruct rest.
Qed.

(** Allocation of a key-value block, every branch: for a size that fits one
    subblock, [mm_alloc] exits on an empty queue; otherwise it takes the head of
    the queue, asks the memory nodes for a new block exactly when the queue
    became empty, reports exhaustion with a null address when the node has none,
    and on success fills the context with the subblock, the one that will be
    allocated next and the one allocated before, and remembers the subblock as
    the last one allocated. *)
Theorem mm_alloc_branches (size : Z) (c : ClientMMAllocCtx) (s : Sys) :
  0 < subblock_sz_ (mm s) < 2 ^ 31 → 0 < size <= subblock_sz_ (mm s) →
  alloc_outcome size c s (mm_alloc junk size c s).
Proof. apply mm_alloc_run. Qed.

(** A successful allocation. *)
Definition allocates (size : Z) (c : ClientMMAllocCtx) (s : Sys) (c1 : ClientMMAllocCtx)
    (s1 : Sys) : Prop :=
  mm_alloc junk size c s = Done c1 s1 ∧ aget (addr_list c1) 0 ≠ 0.

Lemma allocates_inv size c s c1 s1 :
  0 < subblock_sz_ (mm s) < 2 ^ 31 → 0 < size <= subblock_sz_ (mm s) →
  length (addr_list c) = Z.to_nat MAX_REP_NUM →
  allocates size c s c1 s1 →
  ∃ cur rest next rest', subblock_free_queue_ (mm s) = cur :: rest ∧
    subblock_free_queue_ (mm s1) = next :: rest' ∧
    last_allocated_info_ (mm s1) = cur ∧ subblock_sz_ (mm s1) = subblock_sz_ (mm s) ∧
    num_replication_ (mm s1) = num_replication_ (mm s) ∧
    c1 = fill_alloc_ctx (num_replication_ (mm s)) 1 cur next (last_allocated_info_ (mm s)) c.
Proof.
  intros Hss Hsz Hlen [E Hnz]. pose proof (mm_alloc_run size c s Hss Hsz) as H.
  rewrite E in H. unfold alloc_outcome in H.
  destruct (subblock_free_queue_ (mm s)) as [|cur rest] eqn:Eq; [done|].
  set (s0 := s <| mm ::= _ |>) in H. exists cur, rest.
  assert (∃ ret s2, (if Nat.eqb (length rest) 0 then dyn_get_new_block_from_server junk s0
             else Done 0 s0) = Done ret s2 ∧ alloc_frame s2 = alloc_frame s) as (ret & s2 & E2 & Hf).
  { destruct (Nat.eqb _ _); [|by eexists _, _].
    pose proof (dyn_get_new_block_frame s0) as Hk.
    destruct (dyn_get_new_block_from_server junk s0); [eauto|done]. }
  rewrite E2 in H. injection Hf as _ Hr Hs _. destruct (ret =? -1).
  - exfalso. apply Hnz. injection H as -> _. cbn. unfold aget.
    destruct (addr_list c); [done|]. done.
  - destruct (subblock_free_queue_ (mm s2)) as [|next rest'] eqn:Eq2; [done|].
    injection H as -> ->. exists next, rest'. cbn. by rewrite Eq2, Hr, Hs.
Qed.

(** C36. Consecutive allocations are linked in both directions, replica by
    replica, whether or not a new block had to be fetched in between: the next
    pointer of the first context is the block of the second, and the previous
    pointer of the second is the block of the first (an address with its node in
    the low byte). *)
Theorem mm_alloc_chain (size1 size2 : Z) (c1 c1' c2 c2' : ClientMMAllocCtx) (s s1 s2 : Sys) (i : Z) :
  0 < subblock_sz_ (mm s) < 2 ^ 31 →
  0 < size1 <= subblock_sz_ (mm s) → 0 < size2 <= subblock_sz_ (mm s) →
  length (addr_list c1) = Z.to_nat MAX_REP_NUM → length (addr_list c2) = Z.to_nat MAX_REP_NUM →
  allocates size1 c1 s c1' s1 → allocates size2 c2 s1 c2' s2 →
  0 <= i < num_replication_ (mm s) →
  aget (next_addr_list c1') i = Z.lor (aget (addr_list c2') i) (aget (ac_server_id_list c2') i) ∧
  aget (next_rkey_list c1') i = aget (rkey_list c2') i ∧
  aget (prev_addr_list c2') i = Z.lor (aget (addr_list c1') i) (aget (ac_server_id_list c1') i) ∧
  aget (prev_rkey_list c2') i = aget (rkey_list c1') i.
Proof.
  intros Hss Hz1 Hz2 Hl1 Hl2 H1 H2 Hi.
  apply allocates_inv in H1 as (cur & rest & next & rest' & Eq & Eq1 & Hla & Hs1 & Hr1 & ->);
    [|done..].
  apply allocates_inv in H2 as (cur2 & rest2 & next2 & rest2' & Eq2 & _ & _ & _ & _ & ->);
    [|by rewrite ?Hs1..|done].
  rewrite Eq1 in Eq2. injection Eq2 as <- <-.
  unfold fill_alloc_ctx. cbn. rewrite Hr1, Hla, !aget_afill by done. done.
Qed.

(** A subblock as the memory manager builds it: nothing past the replicas, and
    256-byte aligned addresses. *)
Definition sb_wf (n : Z) (b : SubblockInfo) : Prop :=
  b = mkSubblockInfo (afill n (aget (sb_addr_list b)) azero)
        (afill n (aget (sb_rkey_list b)) azero) (afill n (aget (sb_server_id_list b)) azero) ∧
  ∀ i, 0 <= i < n → in_u64 (aget (sb_addr_list b) i) ∧ aget (sb_addr_list b) i mod 256 = 0 ∧
                    in_u8 (aget (sb_server_id_list b) i).

(** An aligned address and a node are recovered from their union. *)
Lemma packed_addr a x :
  in_u64 a → a mod 256 = 0 → in_u8 x →
  u64 (Z.shiftl (Z.shiftr (Z.lor a x) 8) 8) = a ∧ u8 (Z.land (Z.lor a x) 0xFF) = x.
Proof.
  unfold in_u64, in_u8. intros Ha Hal Hx.
  pose proof (Z.div_mod a 256 ltac:(lia)) as E. rewrite Hal, Z.add_0_r in E.
  assert (Z.lor a x = x + a / 256 * 256) as ->.
  { rewrite E at 1. rewrite (Z.mul_comm 256). pose proof (lor_disjoint (a / 256) x 8) as H.
    change (2 ^ 8) with 256 in H. rewrite H; lia. }
  change 0xFF with (2 ^ 8 - 1). rewrite land_mask by lia. bits_to_arith.
  change (2 ^ 8) with 256.
  rewrite Z.div_add, Z.mod_add, (Z.div_small x), (Z.mod_small x) by lia.
  unfold u64, u8. rewrite !Z.mod_small; lia.
Qed.

Lemma mm_free_cur_run n k cur next l c s :
  num_replication_ (mm s) = n → sb_wf n cur → sb_wf n l →
  mm_free_cur (fill_alloc_ctx n k cur next l c) s =
  Done tt (s <| mm ::= λ m, m <| subblock_free_queue_ ::= cons cur |> |>
             <| mm ::= λ m, m <| last_allocated_info_ := l |> |>).
Proof.
  intros Hn [Hc Hcw] [Hl Hlw]. unfold mm_free_cur. unM. unfold get, set_mm, modify. rewrite Hn.
  assert (∀ x y, x = cur → y = l →
    Done tt (s <| mm ::= λ m, m <| subblock_free_queue_ ::= cons x |> |>
               <| mm ::= λ m, m <| last_allocated_info_ := y |> |>) =
    Done tt (s <| mm ::= λ m, m <| subblock_free_queue_ ::= cons cur |> |>
               <| mm ::= λ m, m <| last_allocated_info_ := l |> |>)) as -> by (by intros ?? -> ->);
    [done| |]; symmetry; [etrans; [exact Hc|]|etrans; [exact Hl|]];
    f_equal; apply afill_ext; intros i Hi; cbn [fill_alloc_ctx addr_list];
    unfold fill_alloc_ctx; cbn; rewrite aget_afill by done; try done;
    destruct (Hlw i Hi) as (? & ? & ?); symmetry; by apply packed_addr.
Qed.

Lemma undo_queue s cur rest l :
  subblock_free_queue_ (mm s) = cur :: rest → last_allocated_info_ (mm s) = l →
  s <| mm ::= λ m, m <| subblock_free_queue_ := rest |> |>
    <| mm ::= λ m, m <| last_allocated_info_ := cur |> |>
    <| mm ::= λ m, m <| subblock_free_queue_ ::= cons cur |> |>
    <| mm ::= λ m, m <| last_allocated_info_ := l |> |> = s.
Proof. destruct s as [w n [] k ct sv ib]. cbn. by intros -> ->. Qed.

(** Giving back a block that was just allocated undoes the allocation: from
    a queue with at least two subblocks, [mm_alloc] followed by [mm_free_cur] on
    the filled context restores the whole state, queue and log tail included. *)
Theorem mm_free_cur_undoes_mm_alloc (size : Z) (c : ClientMMAllocCtx) (s : Sys)
    (cur next : SubblockInfo) (rest : list SubblockInfo) :
  0 < subblock_sz_ (mm s) < 2 ^ 31 → 0 < size <= subblock_sz_ (mm s) →
  subblock_free_queue_ (mm s) = cur :: next :: rest →
  sb_wf (num_replication_ (mm s)) cur →
  sb_wf (num_replication_ (mm s)) (last_allocated_info_ (mm s)) →
  ∃ c' s', mm_alloc junk size c s = Done c' s' ∧
    subblock_free_queue_ (mm s') = next :: rest ∧ mm_free_cur c' s' = Done tt s.
Proof.
  intros Hss Hsz Hq Hc Hl. pose proof (mm_alloc_run size c s Hss Hsz) as H.
  unfold alloc_outcome in H. rewrite Hq in H. cbn [length Nat.eqb Z.eqb] in H.
  eexists _, _. split; [exact H|]. split; [done|].
  rewrite mm_free_cur_run by done. f_equal. by apply undo_queue.
Qed.
End alloc_theorems.

(** ** Witnesses *)

Definition example_sb (a : Z) : SubblockInfo :=
  mkSubblockInfo (afill 2 (λ i, a + 65536 * i) azero) (afill 2 (λ i, 7 + i) azero)
                 (afill 2 (λ i, i) azero).

(** Two replicas, subblocks of 256 bytes, three of them free. *)
Definition example_queue : Sys :=
  blank_sys <| mm ::= λ m, m <| num_replication_ := 2 |> <| subblock_sz_ := 256 |>
    <| subblock_free_queue_ := [example_sb 4096; example_sb 4352; example_sb 4608] |>
    <| last_allocated_info_ := example_sb 8192 |> |>.

Definition example_alloc (s : Sys) : ClientMMAllocCtx * Sys :=
  match mm_alloc (F := quiet_fabric) mem_zero 100 AllocCtx_zero s with
  | Done c s' => (c, s') | Stopped _ s' => (AllocCtx_zero, s') end.

Lemma example_sb_wf a : 0 <= a < 65536 → a mod 256 = 0 → sb_wf 2 (example_sb a).
Proof.
  intros Ha Hm. split; [done|]. intros i Hi.
  unfold example_sb. cbn [sb_addr_list sb_server_id_list]. rewrite !aget_afill by lia.
  unfold in_u64, in_u8. change 65536 with (256 * 256).
  rewrite <- Z.mul_assoc, (Z.mul_comm 256), Z.mod_add by lia. lia.
Qed.

Example mm_alloc_branches_witness :
  0 < subblock_sz_ (mm example_queue) < 2 ^ 31 ∧
  alloc_outcome (F := quiet_fabric) mem_zero 100 AllocCtx_zero example_queue
    (mm_alloc (F := quiet_fabric) mem_zero 100 AllocCtx_zero example_queue).
Proof.
  split; [vm_compute; intuition congruence|].
  apply mm_alloc_branches; vm_compute; intuition congruence.
Defined.

Example mm_alloc_chain_witness :
  let c1 := (example_alloc example_queue).1 in
  let s1 := (example_alloc example_queue).2 in
  let c2 := (example_alloc s1).1 in
  aget (next_addr_list c1) 1 = Z.lor (aget (addr_list c2) 1) (aget (ac_server_id_list c2) 1).
Proof.
  intros c1 s1 c2.
  apply (mm_alloc_chain (F := quiet_fabric) mem_zero 100 100 AllocCtx_zero c1 AllocCtx_zero c2
           example_queue s1 (example_alloc s1).2 1);
    try (vm_compute; intuition congruence);
    (split; [vm_compute; reflexivity|vm_compute; congruence]).
Defined.

Example mm_free_cur_undoes_mm_alloc_witness :
  ∃ c' s', mm_alloc (F := quiet_fabric) mem_zero 100 AllocCtx_zero example_queue = Done c' s' ∧
           mm_free_cur c' s' = Done tt example_queue.
Proof.
  destruct (mm_free_cur_undoes_mm_alloc (F := quiet_fabric) mem_zero 100 AllocCtx_zero
    example_queue (example_sb 4096) (example_sb 4352) [example_sb 4608])
    as (c' & s' & H1 & _ & H2).
  - vm_compute. intuition congruence.
  - vm_compute. intuition congruence.
  - reflexivity.
  - apply example_sb_wf; vm_compute; intuition congruence.
  - apply example_sb_wf; vm_compute; intuition congruence.
  - exists c', s'. split; assumption.
Defined.
