(* ===== verification/BlockMap.v ===== *)
(** * The static block map agrees with the memory nodes

    [ClientMM::get_block_map] and [ServerMM::get_allocable_blocks] compute the
    same placement independently.  This file gives the placement in closed form,
    shows that the client's maps are exactly that placement, and that every block
    a node can hand out is one the client knows with all its replicas. *)

From S2P Require Import Prelude Mem KvUtils HashTable ServerMM Server Rdma ClientState Network ClientMM.
Import Cmm.

(** ** The loops over the replicas *)

Lemma map_replicas_place limit n bs st idxs ptr :
  map_replicas limit n bs st idxs ptr =
  (λ '(al, p), (zip_with (λ a i, Z.lor a (u8 (u32 (st + i) mod n))) al idxs, p)) <$>
    Smm.place_replicas limit n bs st idxs ptr.
Proof.
  revert ptr. induction idxs as [|i idxs IH]; intros ptr; [done|].
  cbn [map_replicas Smm.place_replicas]. repeat case_match; try done.
  rewrite IH. destruct (Smm.place_replicas _ _ _ _ _ _) as [[al p]|]; done.
Qed.

Definition push_all (k : Z) (vs : list Z) (m : gmap Z (list Z)) : gmap Z (list Z) :=
  foldl (λ m v, push_map k v m) m vs.

Lemma push_all_lookup k vs m k' :
  push_all k vs m !! k' =
  if decide (k' = k ∧ vs ≠ []) then Some (default [] (m !! k) ++ vs) else m !! k'.
Proof.
  revert m. induction vs as [|v vs IH]; intros m.
  { rewrite decide_False by naive_solver. done. }
  change (push_all k (v :: vs) m) with (push_all k vs (push_map k v m)).
  rewrite IH. unfold push_map. rewrite lookup_insert_eq. cbn.
  destruct (decide (k' = k)) as [->|Hk].
  - destruct (decide (k = k ∧ v :: vs ≠ [])); [|naive_solver].
    destruct vs; [rewrite decide_False by naive_solver; by rewrite lookup_insert_eq|].
    rewrite decide_True by done. by rewrite <- app_assoc.
  - rewrite !decide_False by naive_solver. by rewrite lookup_insert_ne by done.
Qed.

Section record_block.
Context (al : list Z).

(** The replicas other than the [i]-th, in order. *)
Definition others (l : list Z) (i : Z) : list Z := aget al <$> filter (λ j, j ≠ i) l.

Lemma record_inner i l am tm :
  (i = 0 → Forall (λ x, x ≠ 0) (others l i)) →
  foldl (record_pair al i) (Some (am, tm)) l =
  Some (if i =? 0 then push_all (aget al i) (others l i) am else am,
        push_all (aget al i) (others l i) tm).
Proof.
  revert am tm. induction l as [|j l IH]; intros am tm Hnz; [cbn; by case_match|].
  unfold others in Hnz. cbn [foldl record_pair mbind option_bind]. destruct (decide (j = i)) as [->|Hji].
  - unfold others. rewrite filter_cons_False in Hnz |- * by naive_solver.
    rewrite Z.eqb_refl. by apply IH.
  - rewrite filter_cons_True in Hnz by done. rewrite (proj2 (Z.eqb_neq j i)) by done.
    destruct (i =? 0) eqn:Ei; zify_bool.
    + destruct (Forall_cons_1 _ _ _ (Hnz Ei)) as [H1 H2].
      rewrite (proj2 (Z.eqb_neq _ 0)) by done. rewrite IH by done.
      unfold others. by rewrite filter_cons_True by done.
    + rewrite IH by done. unfold others. by rewrite filter_cons_True by done.
Qed.

(** What [record_block] adds: every replica maps to the others in the total map,
    the first one in the allocation map too. *)
Definition alloc_entry (R : Z) : list Z := others (zrange 0 R) 0 ++ (if R =? 1 then [0] else []).
Definition total_entries (R : Z) (l : list Z) (tm : gmap Z (list Z)) : gmap Z (list Z) :=
  foldl (λ tm i, push_all (aget al i) (others (zrange 0 R) i) tm) tm l.

Lemma record_block_spec R am tm :
  1 <= R → Forall (λ x, x ≠ 0) (others (zrange 0 R) 0) →
  record_block R al (am, tm) =
  Some (push_all (aget al 0) (alloc_entry R) am, total_entries R (zrange 0 R) tm).
Proof.
  intros HR Hnz. unfold record_block, alloc_entry, total_entries. destruct (decide (R = 1)) as [->|HR1].
  - change (zrange 0 1) with [0]. cbn [foldl mbind option_bind].
    rewrite Z.eqb_refl. cbn. done.
  - assert (R =? 1 = false) as E1 by lia. rewrite E1, app_nil_r.
    assert (∀ i am tm, (i = 0 → Forall (λ x, x ≠ 0) (others (zrange 0 R) i)) →
      record_replica R al (Some (am, tm)) i =
      Some (if i =? 0 then push_all (aget al i) (others (zrange 0 R) i) am else am,
            push_all (aget al i) (others (zrange 0 R) i) tm)) as Hrep.
    { intros i am' tm' Hi. unfold record_replica. rewrite record_inner, E1 by done. done. }
    assert (Forall (λ i, i ≠ 0) (zrange (0 + 1) R)) as Hl.
    { apply Forall_forall. intros i Hi%elem_of_zrange. lia. }
    set (oth := others (zrange 0 R)) in *. clearbody oth.
    rewrite (zrange_cons 0 R) by lia. cbn [foldl]. rewrite Hrep by done.
    rewrite Z.eqb_refl. set (am1 := push_all _ _ am). set (tm1 := push_all _ _ tm).
    clearbody am1 tm1. clear Hnz. revert tm1.
    induction (zrange (0 + 1) R) as [|i l IH]; intros tm1; [done|].
    apply Forall_cons in Hl as [Hi Hl].
    cbn [foldl]. rewrite Hrep by done.
    rewrite (proj2 (Z.eqb_neq i 0)) by done. by apply IH.
Qed.

Lemma total_entries_lookup R l tm k :
  (∀ i j, i ∈ l → j ∈ l → aget al i = aget al j → i = j) → NoDup l →
  (∀ i, i ∈ l → tm !! aget al i = None) → 2 <= R →
  (∀ i, i ∈ l → 0 <= i < R) →
  total_entries R l tm !! k =
  match list_find (λ i, k = aget al i) l with
  | Some (_, i) => Some (others (zrange 0 R) i)
  | None => tm !! k
  end.
Proof.
  intros Hinj Hnd Hfr HR Hin. revert tm Hinj Hnd Hfr Hin.
  induction l as [|i l IH]; intros tm Hinj Hnd Hfr Hin; [done|].
  cbn [total_entries foldl]. apply NoDup_cons in Hnd as [Hi Hnd].
  change (total_entries R l (push_all (aget al i) (others (zrange 0 R) i) tm) !! k = 
          match list_find (λ i, k = aget al i) (i :: l) with
          | Some (_, i) => Some (others (zrange 0 R) i) | None => tm !! k end).
  assert (others (zrange 0 R) i ≠ []) as Hne.
  { assert (aget al (if i =? 0 then 1 else 0) ∈ others (zrange 0 R) i) as He; [|intros E; rewrite E in He; set_solver].
    apply list_elem_of_fmap_2, list_elem_of_filter. split; [case_bool; zify_bool; lia|].
    apply elem_of_zrange. case_bool; zify_bool; lia. }
  rewrite IH; [|set_solver|done| |set_solver].
  - cbn [list_find]. destruct (decide (k = aget al i)) as [->|Hk].
    + assert (list_find (λ i0, aget al i = aget al i0) l = None) as ->.
      { apply list_find_None, Forall_forall. intros j Hj E.
        apply Hi. rewrite (Hinj i j); set_solver. }
      rewrite push_all_lookup, decide_True by done. rewrite Hfr by set_solver. done.
    + destruct (list_find _ l) as [[]|]; cbn; [done|].
      rewrite push_all_lookup, decide_False by naive_solver. done.
  - intros j Hj. rewrite push_all_lookup, decide_False; [by apply Hfr; set_solver|].
    intros [E _]. apply Hi. rewrite (Hinj i j); set_solver.
Qed.
End record_block.

(** ** The placement in closed form *)

(** Replica [i] of block [k]: its address and, in the low byte, its node. *)
Definition rep (N R kv bs k i : Z) : Z :=
  Z.lor (kv + bs * Smm.placed N R (Z.to_nat k) ((k + i) mod N)) ((k + i) mod N).

Section placement.
Context (N R B kv bs limit : Z).
Hypothesis (HG : Smm.geometry N R B kv bs limit).

Lemma replica_addr_aligned c : (kv + bs * c) mod 256 = 0.
Proof.
  destruct HG as [_ _ [_ Hb] [_ Hk] _ _ _].
  rewrite Z.add_mod, Z.mul_mod, Hb, Hk by lia. done.
Qed.

Lemma lor_node c x : 0 <= x < N → Z.lor (kv + bs * c) x = kv + bs * c + x.
Proof.
  intros Hx. destruct HG as [HN _ _ _ _ _ _].
  pose proof (Z.div_mod (kv + bs * c) 256 ltac:(lia)) as E.
  rewrite replica_addr_aligned, Z.add_0_r in E. rewrite E, Z.mul_comm.
  change 256 with (2 ^ 8). apply lor_disjoint; lia.
Qed.

Lemma rep_eq k i :
  rep N R kv bs k i = kv + bs * Smm.placed N R (Z.to_nat k) ((k + i) mod N) + (k + i) mod N.
Proof.
  destruct HG as [HN _ _ _ _ _ _]. apply lor_node. apply Z.mod_pos_bound. lia.
Qed.

Lemma rep_node k i : rep N R kv bs k i mod 256 = (k + i) mod N.
Proof.
  destruct HG as [HN _ _ _ _ _ _]. pose proof (Z.mod_pos_bound (k + i) N ltac:(lia)).
  rewrite rep_eq, Z.add_mod, replica_addr_aligned by lia.
  rewrite Z.add_0_l, Z.mod_mod by lia. apply Z.mod_small. lia.
Qed.

Lemma rep_pos k i : 0 < rep N R kv bs k i.
Proof.
  destruct HG as [HN _ [Hb _] [Hk _] _ _ _]. rewrite rep_eq.
  pose proof (Z.mod_pos_bound (k + i) N ltac:(lia)).
  pose proof (Smm.placed_nonneg N R (Z.to_nat k) ((k + i) mod N)). nia.
Qed.

Lemma placed_lt_replica k k' i :
  0 <= k < k' → 0 <= i < R →
  Smm.placed N R (Z.to_nat k) ((k + i) mod N) < Smm.placed N R (Z.to_nat k') ((k + i) mod N).
Proof.
  intros Hk Hi. destruct HG as [HN HR _ _ _ _ _].
  eapply Z.lt_le_trans; [|apply (Smm.placed_mono _ _ (S (Z.to_nat k))); lia].
  cbn [Smm.placed]. rewrite Z2Nat.id, Zminus_mod_idemp_l by lia.
  replace (k + i - k) with i by lia. rewrite (Z.mod_small i) by lia.
  rewrite (proj2 (Z.ltb_lt _ _)) by lia. lia.
Qed.

(** Different replicas of the same or of different blocks are different. *)
Lemma rep_inj k k' i j :
  0 <= k → 0 <= k' → 0 <= i < R → 0 <= j < R →
  rep N R kv bs k i = rep N R kv bs k' j → k = k' ∧ i = j.
Proof.
  intros Hk Hk' Hi Hj E. destruct HG as [HN HR [Hb _] _ _ _ _].
  assert ((k + i) mod N = (k' + j) mod N) as Ex by (rewrite <- !rep_node; congruence).
  rewrite !rep_eq, Ex in E.
  assert (bs * Smm.placed N R (Z.to_nat k) ((k' + j) mod N) =
          bs * Smm.placed N R (Z.to_nat k') ((k' + j) mod N)) as E'%Z.mul_reg_l by lia; [|lia].
  assert (k = k') as <-.
  { destruct (Z.lt_trichotomy k k') as [Hlt|[?|Hlt]]; [|done|].
    - pose proof (placed_lt_replica k k' i (conj Hk Hlt) Hi) as H. rewrite Ex in H. lia.
    - pose proof (placed_lt_replica k' k j (conj Hk' Hlt) Hj). lia. }
  split; [done|].
  assert ((i - j) mod N = 0) as H0.
  { replace (i - j) with ((k + i) - (k + j)) by lia.
    rewrite Zminus_mod, Ex, Z.sub_diag. apply Z.mod_0_l. lia. }
  apply Z.mod_divide in H0 as [q Hq]; [|lia]. assert (q = 0) as -> by nia. lia.
Qed.
End placement.

(** The entry of block [k] in the allocation map, and of its replica [i] in the
    total map. *)
Definition peers (N R kv bs k i : Z) : list Z :=
  rep N R kv bs k <$> filter (λ j, j ≠ i) (zrange 0 R).

Record is_block_map (N R kv bs K : Z) (am tm : gmap Z (list Z)) : Prop := {
  bm_alloc k : 0 <= k < K →
    am !! rep N R kv bs k 0 = Some (peers N R kv bs k 0 ++ if R =? 1 then [0] else []);
  bm_alloc_dom a : is_Some (am !! a) → ∃ k, 0 <= k < K ∧ a = rep N R kv bs k 0;
  bm_total k i : 2 <= R → 0 <= k < K → 0 <= i < R →
    tm !! rep N R kv bs k i = Some (peers N R kv bs k i);
  bm_total_dom a : is_Some (tm !! a) →
    ∃ k i, 0 <= k < K ∧ 0 <= i < R ∧ a = rep N R kv bs k i }.

Section step.
Context (N R B kv bs limit : Z).
Hypothesis (HG : Smm.geometry N R B kv bs limit).

Let al k := rep N R kv bs k <$> zrange 0 R.

Lemma aget_al k i : 0 <= i < R → aget (al k) i = rep N R kv bs k i.
Proof.
  intros Hi. unfold aget, al. apply list_lookup_total_correct.
  rewrite list_lookup_fmap, zrange_lookup by lia. cbn [fmap option_fmap option_map].
  do 2 f_equal. lia.
Qed.

Lemma others_al k i : others (al k) (zrange 0 R) i = peers N R kv bs k i.
Proof.
  apply list_fmap_ext. intros ? j Hj%list_elem_of_lookup_2.
  apply list_elem_of_filter in Hj as [_ Hj%elem_of_zrange]. by apply aget_al.
Qed.

Lemma peers_nz k : Forall (λ x, x ≠ 0) (peers N R kv bs k 0).
Proof.
  apply Forall_fmap, Forall_forall. intros j _. cbn.
  pose proof (rep_pos N R B kv bs limit HG k j). lia.
Qed.

Lemma record_block_maps k am tm :
  0 <= k → is_block_map N R kv bs k am tm →
  ∃ am' tm', record_block R (al k) (am, tm) = Some (am', tm') ∧
             is_block_map N R kv bs (k + 1) am' tm'.
Proof.
  intros Hk [Ha Had Ht Htd]. pose proof HG as [HN HR _ _ _ _ _].
  pose proof (rep_inj N R B kv bs limit HG) as Hinj.
  rewrite record_block_spec; [|lia|rewrite others_al; apply peers_nz].
  assert (am !! rep N R kv bs k 0 = None) as Hfra.
  { apply eq_None_not_Some. intros (k' & Hk' & E)%Had.
    apply Hinj in E; lia. }
  assert (∀ i, i ∈ zrange 0 R → tm !! aget (al k) i = None) as Hfrt.
  { intros i Hi%elem_of_zrange. rewrite aget_al by done.
    apply eq_None_not_Some. intros (k' & i' & Hk' & Hi' & E)%Htd. apply Hinj in E; lia. }
  assert (∀ a, total_entries (al k) R (zrange 0 R) tm !! a =
    match list_find (λ i, a = aget (al k) i) (zrange 0 R) with
    | Some (_, i) => if R =? 1 then tm !! a else Some (peers N R kv bs k i)
    | None => tm !! a end) as Htot.
  { intros a. destruct (decide (R = 1)) as [->|].
    - change (zrange 0 1) with [0]. change (total_entries (al k) 1 [0] tm) with tm.
      by destruct (list_find _ _) as [[]|].
    - rewrite total_entries_lookup; [|..|lia|]; [| |apply NoDup_zrange|done|].
      + rewrite (proj2 (Z.eqb_neq R 1)) by done.
        destruct (list_find _ _) as [[]|]; [by rewrite others_al|done].
      + intros i j Hi%elem_of_zrange Hj%elem_of_zrange. rewrite !aget_al by done.
        intros E. apply Hinj in E; lia.
      + intros i Hi%elem_of_zrange. lia. }
  eexists _, _. split; [reflexivity|].
  unfold alloc_entry. rewrite others_al, aget_al by lia. split.
  - intros k' Hk'. rewrite push_all_lookup. destruct (decide (k' = k)) as [->|Hne].
    + rewrite Hfra, decide_True; [done|]. split; [done|].
      destruct (decide (R = 1)) as [->|]; [done|].
      unfold peers. rewrite zrange_cons, filter_cons_False by (naive_solver lia).
      rewrite zrange_cons, filter_cons_True by (naive_solver lia). done.
    + rewrite decide_False; [apply Ha; lia|]. intros [E _]. apply Hinj in E; lia.
  - intros a. rewrite push_all_lookup. case_decide as Hd.
    + destruct Hd as [-> _]. intros _. exists k. split; [lia|done].
    + intros (k' & Hk' & ->)%Had. exists k'. split; [lia|done].
  - intros k' i HR2 Hk' Hi. rewrite Htot. rewrite (proj2 (Z.eqb_neq R 1)) by lia.
    destruct (list_find _ _) as [[n j]|] eqn:E.
    + apply list_find_Some in E as (Hj%list_elem_of_lookup_2%elem_of_zrange & E & _).
      rewrite aget_al in E by done. apply Hinj in E as [-> ->]; [done|lia..].
    + apply Ht; [done| |done]. apply list_find_None in E. rewrite Forall_forall in E.
      destruct (decide (k' = k)) as [->|]; [|lia].
      destruct (E i); [by apply elem_of_zrange|by rewrite aget_al].
  - intros a. rewrite Htot. destruct (list_find _ _) as [[n j]|] eqn:E.
    + apply list_find_Some in E as (Hj%list_elem_of_lookup_2%elem_of_zrange & -> & _).
      intros _. rewrite aget_al by done. exists k, j. split_and!; try lia; done.
    + intros (k' & i & Hk' & Hi & ->)%Htd. exists k', i. split_and!; try lia; done.
Qed.
End step.

(** ** The whole map *)

(** The client's view of a geometry. *)
Record client_geometry (m : Cmm.t) (N R B kv bs limit : Z) : Prop := {
  cg_geo : Smm.geometry N R B kv bs limit;
  cg_N : num_memory_ m = N;
  cg_R : num_replication_ m = R;
  cg_B : server_num_blocks_ m = B;
  cg_kv : server_kv_area_addr_ m = kv;
  cg_bs : mm_block_sz_ m = bs;
  cg_limit : server_limit_addr_ m = limit }.

Definition with_maps (m : Cmm.t) (am tm : gmap Z (list Z)) : Cmm.t :=
  m <| alloc_block_map_ := am |> <| total_block_map_ := tm |>.

Section run.
Context (m : Cmm.t) (N R B kv bs limit : Z).
Hypothesis (HC : client_geometry m N R B kv bs limit).

Lemma block_map_step_spec k am tm :
  0 <= k < B / R * N → is_block_map N R kv bs k am tm →
  ∃ c am' tm', (∀ x, 0 <= x < N → c x = Smm.placed N R (Z.to_nat (k + 1)) x) ∧
    is_block_map N R kv bs (k + 1) am' tm' ∧
    block_map_step k (Smm.ptrs N kv bs (Smm.placed N R (Z.to_nat k)), with_maps m am tm) =
    Done tt (Smm.ptrs N kv bs c, with_maps m am' tm').
Proof.
  intros Hk Hmap. destruct HC as [HG HmN HmR HmB Hmkv Hmbs Hml].
  pose proof HG as [HN HR [Hb Hb8] [Hk0 Hk8] [Hf Hl] HB Hd].
  pose proof (Z.mod_pos_bound k N ltac:(lia)) as Hst.
  destruct (Smm.place_replicas_spec N R B kv bs limit HN HR Hb ltac:(lia) Hf Hl
    (Smm.mod_256_even _ Hb8) (Smm.mod_256_even _ Hk8)
    (Smm.placed N R (Z.to_nat k)) (k mod N) 0 (Smm.placed N R (Z.to_nat k)))
    as (c & Hc & E); [lia|lia| | | |].
  { intros x Hx. rewrite (proj2 (Z.ltb_ge _ _)); [lia|]. apply Z.mod_pos_bound. lia. }
  { intros. apply Smm.placed_nonneg. }
  { intros x Hx Hin. apply (Smm.placed_room N R B k); try lia; done. }
  destruct (record_block_maps N R B kv bs limit HG k am tm ltac:(lia) Hmap)
    as (am' & tm' & Er & Hmap').
  exists c, am', tm'. split; [|split; [done|]].
  { intros x Hx. rewrite Hc by done. replace (Z.to_nat (k + 1)) with (S (Z.to_nat k)) by lia.
    cbn [Smm.placed]. rewrite Z2Nat.id by lia. by rewrite Zminus_mod_idemp_r. }
  unfold block_map_step. cbn. rewrite HmN, HmR, Hmbs, Hml. cbn [Smm.skip_full].
  rewrite Smm.ptrs_lookup by lia.
  assert (Smm.placed N R (Z.to_nat k) (k mod N) < B).
  { apply (Smm.placed_room N R B k); try lia; try done. rewrite Z.sub_diag, Z.mod_0_l; lia. }
  rewrite (proj2 (Z.eqb_neq _ _)) by nia.
  rewrite map_replicas_place, E. cbn [fmap option_fmap option_map].
  assert (zip_with (λ a i, Z.lor a (u8 (u32 (k mod N + i) mod N)))
    ((λ j, kv + bs * Smm.placed N R (Z.to_nat k) ((k mod N + j) mod N)) <$> zrange 0 R)
    (zrange 0 R) = rep N R kv bs k <$> zrange 0 R) as ->.
  { rewrite zip_with_fmap_l, zip_with_diag. apply list_fmap_ext.
    intros ? i Hi%list_elem_of_lookup_2%elem_of_zrange. cbn. unfold rep, u8, u32.
    rewrite (Z.mod_small (k mod N + i) (2 ^ 32)) by lia.
    rewrite !Zplus_mod_idemp_l. f_equal. apply Z.mod_small.
    pose proof (Z.mod_pos_bound (k + i) N ltac:(lia)). lia. }
  by rewrite Er.
Qed.

Lemma get_block_map_run s :
  mm s = m → alloc_block_map_ m = ∅ → total_block_map_ m = ∅ →
  ∃ am tm, get_block_map s = Done tt (s <| mm := with_maps m am tm |>) ∧
           is_block_map N R kv bs (B / R * N) am tm.
Proof.
  intros Hs Ha Ht. pose proof HC as [HG HmN HmR HmB Hmkv Hmbs Hml].
  pose proof HG as [HN HR _ _ _ HB Hd].
  unfold get_block_map. rewrite Hs, HmN, HmR, HmB, Hmkv.
  rewrite (proj2 (Z.eqb_neq _ _)) by lia.
  assert (0 <= B / R * N) by (pose proof (Z.div_pos B R); nia).
  assert (u32 (u64 (B * N) / R) = B / R * N) as ->.
  { unfold u32, u64. rewrite (Z.mod_small (B * N)) by nia. pose proof (Z.div_mod B R).
    replace (B * N / R) with (B / R * N); [apply Z.mod_small; nia|].
    apply Z.div_unique_exact; nia. }
  destruct (forM_zrange_inv
    (λ k '(p, m'), p = Smm.ptrs N kv bs (Smm.placed N R (Z.to_nat k)) ∧
       ∃ am tm, m' = with_maps m am tm ∧ is_block_map N R kv bs k am tm)
    0 (B / R * N) block_map_step
    (replicate (Z.to_nat N) kv, m)) as ([p m'] & -> & _ & am & tm & -> & Hmap); [done| | |eauto].
  - split.
    + apply list_eq. intros i. unfold Smm.ptrs. rewrite list_lookup_fmap.
      destruct (decide (i < Z.to_nat N)%nat).
      * rewrite lookup_replicate_2, zrange_lookup by lia.
        change (Z.to_nat 0) with 0%nat. cbn [fmap option_fmap option_map Smm.placed].
        f_equal. lia.
      * rewrite !(proj2 (lookup_ge_None _ _));
          [done|rewrite zrange_length; lia|rewrite length_replicate; lia].
    + exists ∅, ∅. split; [rewrite <- Ha at 1; rewrite <- Ht; by destruct m|].
      split; try (intros; lia); intros a [? Hl]; by rewrite lookup_empty in Hl.
  - intros k [p m'] Hk [-> (am & tm & -> & Hmap)].
    destruct (block_map_step_spec k am tm Hk Hmap) as (c & am' & tm' & Hc & Hmap' & ->).
    eexists (_, _). split; [reflexivity|]. split; [by apply Smm.ptrs_ext|]. eauto.
Qed.
End run.

(** ** What the client does with an entry *)

(** Where replica [i] of block [k] is. *)
Definition rep_addr (N R kv bs k i : Z) : Z :=
  kv + bs * Smm.placed N R (Z.to_nat k) ((k + i) mod N).

Section decode.
Context (N R B kv bs limit : Z).
Hypothesis (HG : Smm.geometry N R B kv bs limit).

Lemma rep_addr_range k i :
  0 <= k < B / R * N → 0 <= i < R →
  kv <= rep_addr N R kv bs k i ∧ rep_addr N R kv bs k i + bs <= limit.
Proof.
  intros Hk Hi. destruct HG as [HN HR [Hb _] [Hk0 _] [Hf _] HB Hd].
  pose proof (Z.mod_pos_bound (k + i) N ltac:(lia)).
  pose proof (Smm.placed_nonneg N R (Z.to_nat k) ((k + i) mod N)).
  assert (Smm.placed N R (Z.to_nat k) ((k + i) mod N) < B).
  { apply Smm.placed_room; try lia; try done.
    rewrite <- Zminus_mod. replace (k + i - k) with i by lia. rewrite Z.mod_small; lia. }
  unfold rep_addr. nia.
Qed.

Lemma rep_decode k i :
  0 <= k < B / R * N → 0 <= i < R →
  u8 (Z.land (rep N R kv bs k i) 0xFF) = (k + i) mod N ∧
  u64 (Z.shiftl (Z.shiftr (rep N R kv bs k i) 8) 8) = rep_addr N R kv bs k i.
Proof.
  intros Hk Hi. pose proof (rep_addr_range k i Hk Hi) as [H1 H2].
  pose proof HG as [HN HR [Hb _] [Hk0 _] [Hf Hl] HB Hd].
  pose proof (Z.mod_pos_bound (k + i) N ltac:(lia)).
  change 0xFF with (2 ^ 8 - 1). rewrite land_mask by lia. change (2 ^ 8) with 256.
  rewrite (rep_node N R B kv bs limit HG). split.
  { unfold u8. apply Z.mod_small. lia. }
  bits_to_arith. rewrite (rep_eq N R B kv bs limit HG). change (2 ^ 8) with 256.
  change (kv + bs * Smm.placed N R (Z.to_nat k) ((k + i) mod N)) with (rep_addr N R kv bs k i).
  assert (rep_addr N R kv bs k i mod 256 = 0) as Ha by apply (replica_addr_aligned N R B kv bs limit HG).
  set (a := rep_addr N R kv bs k i) in *. set (x := (k + i) mod N) in *.
  pose proof (Z.div_mod a 256 ltac:(lia)) as Ea. rewrite Ha, Z.add_0_r in Ea.
  replace (a + x) with (x + a / 256 * 256) by lia.
  rewrite Z.div_add, Z.div_small by lia. unfold u64. rewrite Z.mod_small; lia.
Qed.

Lemma peers_lookup k (i : nat) :
  Z.of_nat i < R - 1 → peers N R kv bs k 0 !! i = Some (rep N R kv bs k (1 + Z.of_nat i)).
Proof.
  intros Hi. destruct HG as [_ HR _ _ _ _ _]. unfold peers.
  rewrite zrange_cons, filter_cons_False by (naive_solver lia).
  rewrite filter_all; [|apply Forall_forall; intros j Hj%elem_of_zrange; lia].
  rewrite list_lookup_fmap, zrange_lookup by lia. done.
Qed.

(** The answer of [find_replicas] for block [k], against the keys [mrs]. *)
Definition replica_infos (mrs : list MrInfo) (k : Z) : list (MrInfo * Z) :=
  (λ i, (mkMrInfo (rep_addr N R kv bs k i) (rkey (nth (Z.to_nat ((k + i) mod N)) mrs (mkMrInfo 0 0))),
         (k + i) mod N)) <$> zrange 1 R.

Lemma find_replicas_run s am tm k :
  is_block_map N R kv bs (B / R * N) am tm → 0 <= k < B / R * N →
  num_replication_ (mm s) = R → alloc_block_map_ (mm s) = am →
  length (Nm.mr_info_list_ (nm s)) = Z.to_nat N →
  find_replicas (rep_addr N R kv bs k 0) (k mod N) s =
  Done (replica_infos (Nm.mr_info_list_ (nm s)) k) s.
Proof.
  intros Hmap Hk HR' Ham Hmr. pose proof HG as [HN HR [Hb _] [Hk0 _] [Hf Hl] HB Hd].
  unfold find_replicas. unM. unfold get.
  assert (Z.land (rep_addr N R kv bs k 0) 0xFF = 0) as ->.
  { change 0xFF with (2 ^ 8 - 1). rewrite land_mask by lia.
    apply (replica_addr_aligned N R B kv bs limit HG). }
  cbn [Z.eqb negb]. rewrite Ham, HR'.
  assert (Z.lor (rep_addr N R kv bs k 0) (k mod N) = rep N R kv bs k 0) as ->.
  { unfold rep, rep_addr. by rewrite Z.add_0_r. }
  rewrite (bm_alloc _ _ _ _ _ _ _ Hmap) by done.
  match goal with |- context [mapM ?g ?l] =>
    assert (mapM g l = Some (replica_infos (Nm.mr_info_list_ (nm s)) k)) as ->; [|done] end.
  apply mapM_Some. unfold replica_infos.
  replace (zrange 1 R) with ((λ i, i + 1) <$> zrange 0 (R - 1)).
  2:{ unfold zrange. rewrite <- list_fmap_compose. rewrite Z.sub_0_r.
      apply list_fmap_ext. intros. unfold compose. lia. }
  rewrite <- list_fmap_compose. apply Forall2_fmap_r, Forall2_same_length_lookup.
  split; [done|]. intros j i i' Hi Hi'. rewrite Hi in Hi'. injection Hi' as <-.
  apply list_elem_of_lookup_2, elem_of_zrange in Hi.
  rewrite lookup_app_l; [|apply lookup_lt_is_Some; rewrite peers_lookup by lia; eauto].
  rewrite peers_lookup by lia. cbn [mbind option_bind].
  replace (1 + Z.of_nat (Z.to_nat i)) with (i + 1) by lia.
  destruct (rep_decode k (i + 1)) as [-> ->]; [lia..|].
  pose proof (Z.mod_pos_bound (k + (i + 1)) N ltac:(lia)).
  destruct (nth_lookup_or_length (Nm.mr_info_list_ (nm s)) (Z.to_nat ((k + (i + 1)) mod N))
    (mkMrInfo 0 0)) as [->|Hlen]; [done|lia].
Qed.
End decode.

(** ** Properties *)

(** C21. The client's static block map: on every geometry whose blocks divide
    evenly into replicas, [get_block_map] ends (no [exit(1)], no spinning inner
    loop) and fills the two maps with exactly the round-robin placement: the
    allocation map sends the first replica of each block to the others, in
    order, the total map sends every replica to the others, and neither map has
    another key. *)
Theorem get_block_map_correct (s : Sys) (N R B kv bs limit : Z) :
  client_geometry (mm s) N R B kv bs limit →
  alloc_block_map_ (mm s) = ∅ → total_block_map_ (mm s) = ∅ →
  ∃ am tm, get_block_map s = Done tt (s <| mm := with_maps (mm s) am tm |>) ∧
           is_block_map N R kv bs (B / R * N) am tm.
Proof. intros HC. by apply (get_block_map_run (mm s) N R B kv bs limit). Qed.

Lemma peers_elem N R kv bs k i b :
  b ∈ peers N R kv bs k i ↔ ∃ j, 0 <= j < R ∧ j ≠ i ∧ b = rep N R kv bs k j.
Proof.
  unfold peers. rewrite list_elem_of_fmap. setoid_rewrite list_elem_of_filter.
  setoid_rewrite elem_of_zrange. naive_solver.
Qed.

Lemma length_filter_ne R i :
  0 <= i < R → length (filter (λ j, j ≠ i) (zrange 0 R)) = Z.to_nat (R - 1).
Proof.
  intros Hi. rewrite (zrange_app 0 i R), (zrange_cons i), filter_app by lia.
  rewrite filter_cons_False by naive_solver.
  rewrite !filter_all, length_app, !zrange_length; [lia|..];
    apply Forall_forall; intros j Hj%elem_of_zrange; lia.
Qed.

(** The nodes of a block's replicas are all different. *)
Lemma nodes_NoDup N R B kv bs limit k l :
  Smm.geometry N R B kv bs limit → 0 <= k → NoDup l → (∀ j, j ∈ l → 0 <= j < R) →
  NoDup ((λ e, e mod 256) <$> (rep N R kv bs k <$> l)).
Proof.
  intros HG Hk Hnd Hin. rewrite <- list_fmap_compose.
  apply NoDup_fmap_2_strong; [|done]. intros i j Hi%Hin Hj%Hin. unfold compose.
  rewrite !(rep_node N R B kv bs limit HG). destruct HG as [HN HR _ _ _ _ _]. intros E.
  assert ((i - j) mod N = 0) as H0.
  { replace (i - j) with ((k + i) - (k + j)) by lia.
    rewrite Zminus_mod, E, Z.sub_diag. apply Z.mod_0_l. lia. }
  apply Z.mod_divide in H0 as [q Hq]; [|lia]. assert (q = 0) as -> by nia. lia.
Qed.

(** The total block map is a symmetric replica relation: after
    [get_block_map], [b] is listed as a replica of [a] exactly when [a] is
    listed as a replica of [b], and an entry with its key names
    [num_replication] replicas on pairwise different nodes. *)
Theorem total_block_map_symmetric (s s' : Sys) (N R B kv bs limit : Z) :
  client_geometry (mm s) N R B kv bs limit → 2 <= R →
  alloc_block_map_ (mm s) = ∅ → total_block_map_ (mm s) = ∅ →
  get_block_map s = Done tt s' →
  (∀ a b, (∃ l, total_block_map_ (mm s') !! a = Some l ∧ b ∈ l) ↔
          (∃ l, total_block_map_ (mm s') !! b = Some l ∧ a ∈ l)) ∧
  (∀ a l, total_block_map_ (mm s') !! a = Some l →
          length (a :: l) = Z.to_nat R ∧ NoDup ((λ e, e mod 256) <$> (a :: l))).
Proof.
  intros HC HR2 Ha Ht E. pose proof (cg_geo _ _ _ _ _ _ _ HC) as HG.
  destruct (get_block_map_run (mm s) N R B kv bs limit HC s) as (am & tm & E' & Hmap); [done..|].
  rewrite E in E'. injection E' as ->. cbn. destruct Hmap as [_ _ Htot Hdom].
  assert (∀ a b, (∃ l, tm !! a = Some l ∧ b ∈ l) → ∃ l, tm !! b = Some l ∧ a ∈ l) as Hsym.
  { intros a b (l & Hl & Hb).
    destruct (Hdom a) as (k & i & Hk & Hi & ->); [eauto|].
    rewrite Htot in Hl by done. injection Hl as <-.
    apply peers_elem in Hb as (j & Hj & Hne & ->).
    rewrite Htot by done. eexists. split; [done|]. apply peers_elem. eauto. }
  split; [intros a b; split; apply Hsym|]. intros a l Hl.
  destruct (Hdom a) as (k & i & Hk & Hi & ->); [eauto|].
  rewrite Htot in Hl by done. injection Hl as <-.
  pose proof (length_filter_ne R i Hi) as Hlen. split.
  - cbn [length]. unfold peers. rewrite length_fmap, Hlen. lia.
  - apply (nodes_NoDup N R B kv bs limit k (i :: filter (λ j, j ≠ i) (zrange 0 R)) HG);
      [lia| |].
    + apply NoDup_cons. split; [rewrite list_elem_of_filter; naive_solver|].
      apply NoDup_filter, NoDup_zrange.
    + intros j [->|[_ ?%elem_of_zrange]%list_elem_of_filter]%elem_of_cons; lia.
Qed.

(** C20. Client and memory nodes agree on the placement: whatever block a node
    [my_sid] puts in its queue at start-up, a client built on the same geometry
    finds it in its map, so that the exit with [cannot have allocated] is not
    reached; it gets [num_replication - 1] replicas, each 256-byte aligned
    inside the key-value area, with the key of its node, and the block and its
    replicas are on pairwise different nodes. *)
Theorem nodes_agree (s s' : Sys) (sv sv' : Smm.t) (N R B kv bs limit a : Z) :
  client_geometry (mm s) N R B kv bs limit →
  alloc_block_map_ (mm s) = ∅ → total_block_map_ (mm s) = ∅ →
  length (Nm.mr_info_list_ (nm s)) = Z.to_nat N →
  Smm.num_memory_ sv = N → Smm.num_replication_ sv = R → Smm.block_size_ sv = bs →
  Smm.client_kv_area_limit_ sv = limit → Smm.num_blocks_ sv = B →
  u64 (Smm.base_addr_ sv + Smm.client_kv_area_off_ sv) = kv →
  0 <= Smm.my_sid_ sv < N → Smm.allocable_blocks_ sv = [] →
  get_block_map s = Done tt s' → Smm.get_allocable_blocks sv = Done tt sv' →
  a ∈ Smm.allocable_blocks_ sv' →
  ∃ reps, find_replicas a (Smm.my_sid_ sv) s' = Done reps s' ∧
    length reps = Z.to_nat (R - 1) ∧ NoDup (Smm.my_sid_ sv :: reps.*2) ∧
    ∀ mr sid, (mr, sid) ∈ reps → 0 <= sid < N ∧
      kv <= mr_addr mr ∧ mr_addr mr + bs <= limit ∧ mr_addr mr mod 256 = 0 ∧
      Nm.mr_info_list_ (nm s) !! Z.to_nat sid ≫= (λ i, Some (rkey i)) = Some (rkey mr).
Proof.
  intros HC Ha Ht Hmr HN HR Hb Hl HB Hkv Hsid Hq E Ev Hin.
  pose proof (cg_geo _ _ _ _ _ _ _ HC) as HG. pose proof HG as [HN' HR' _ _ _ _ _].
  rewrite (Smm.get_allocable_blocks_run sv N R B kv bs limit) in Ev by done.
  injection Ev as <-. cbn in Hin. rewrite Hq in Hin. cbn in Hin.
  apply list_elem_of_fmap in Hin as (k & -> & [Hk Hkr%elem_of_zrange]%list_elem_of_filter).
  destruct (get_block_map_run (mm s) N R B kv bs limit HC s) as (am & tm & E' & Hmap); [done..|].
  rewrite E in E'. injection E' as ->.
  set (s' := s <| mm := with_maps (mm s) am tm |>).
  assert (rep_addr N R kv bs k 0 = kv + bs * Smm.placed N R (Z.to_nat k) (Smm.my_sid_ sv)) as <-.
  { unfold rep_addr. by rewrite Z.add_0_r, Hk. }
  rewrite <- Hk. exists (replica_infos N R kv bs (Nm.mr_info_list_ (nm s)) k).
  split; [apply (find_replicas_run N R B kv bs limit HG s' am tm); try done; apply HC|].
  unfold replica_infos. split_and!.
  - rewrite length_fmap, zrange_length. done.
  - rewrite <- list_fmap_compose. eapply (eq_ind _ NoDup).
    2:{ transitivity ((λ e, e mod 256) <$> (rep N R kv bs k <$> (0 :: zrange 1 R))).
        - reflexivity.
        - rewrite <- list_fmap_compose. cbn [fmap list_fmap]. unfold compose.
          rewrite (rep_node N R B kv bs limit HG), Z.add_0_r. f_equal.
          apply list_fmap_ext. intros. apply (rep_node N R B kv bs limit HG). }
    change (0 :: zrange 1 R) with (0 :: zrange (0 + 1) R). rewrite <- zrange_cons by lia.
    apply (nodes_NoDup N R B kv bs limit); [done|lia|apply NoDup_zrange|].
    intros j Hj%elem_of_zrange. lia.
  - intros mr sid (i & [= -> ->] & Hi%elem_of_zrange)%list_elem_of_fmap.
    pose proof (Z.mod_pos_bound (k + i) N ltac:(lia)).
    pose proof (rep_addr_range N R B kv bs limit HG k i ltac:(lia) ltac:(lia)).
    split_and!; cbn [mr_addr rkey]; try lia.
    + apply (replica_addr_aligned N R B kv bs limit HG).
    + destruct (nth_lookup_or_length (Nm.mr_info_list_ (nm s)) (Z.to_nat ((k + i) mod N))
        (mkMrInfo 0 0)) as [->|]; [done|lia].
Qed.

(** ** Witnesses *)

Definition example_mm : Cmm.t :=
  Cmm.blank <| num_memory_ := 3 |> <| num_replication_ := 2 |> <| server_num_blocks_ := 4 |>
    <| server_kv_area_addr_ := 0x10001000 |> <| mm_block_sz_ := 4096 |>
    <| server_limit_addr_ := 0x10005000 |>.
Definition example_sys : Sys :=
  blank_sys <| mm := example_mm |>
    <| nm ::= λ n, n <| Nm.mr_info_list_ := [mkMrInfo 1 11; mkMrInfo 2 22; mkMrInfo 3 33] |> |>.

Lemma example_client_geometry :
  client_geometry (mm example_sys) 3 2 4 0x10001000 4096 0x10005000.
Proof. split; [apply Smm.example_geometry|reflexivity..]. Qed.

Example get_block_map_correct_witness :
  ∃ am tm, get_block_map example_sys = Done tt (example_sys <| mm := with_maps example_mm am tm |>) ∧
           is_block_map 3 2 0x10001000 4096 6 am tm.
Proof.
  apply (get_block_map_correct example_sys 3 2 4 0x10001000 4096 0x10005000
           example_client_geometry); reflexivity.
Defined.

Definition example_mapped : Sys :=
  match get_block_map example_sys with Done _ s => s | Stopped _ s => s end.

Lemma example_mapped_eq : get_block_map example_sys = Done tt example_mapped.
Proof. vm_compute. reflexivity. Qed.

Lemma example_is_block_map :
  is_block_map 3 2 0x10001000 4096 6 (alloc_block_map_ (mm example_mapped))
    (total_block_map_ (mm example_mapped)).
Proof.
  destruct (get_block_map_run _ 3 2 4 0x10001000 4096 0x10005000 example_client_geometry
    example_sys eq_refl eq_refl eq_refl) as (am & tm & E & Hmap).
  pose proof example_mapped_eq as E'. rewrite E in E'.
  assert (example_sys <| mm := with_maps (mm example_sys) am tm |> = example_mapped) as <-
    by congruence.
  exact Hmap.
Qed.

Example total_block_map_symmetric_witness :
  ∃ l, total_block_map_ (mm example_mapped) !! 268439553 = Some l ∧ 268439552 ∈ l.
Proof.
  destruct (total_block_map_symmetric example_sys example_mapped 3 2 4 0x10001000 4096 0x10005000
    example_client_geometry ltac:(lia) eq_refl eq_refl example_mapped_eq)
    as [H1 _].
  apply (H1 268439552 268439553). exists [268439553]. split; [by vm_compute|left].
Defined.

Definition example_node_ready : Smm.t :=
  match Smm.get_allocable_blocks Smm.example_node with Done _ s => s | Stopped _ s => s end.

Example nodes_agree_witness :
  ∃ reps, find_replicas 0x10002000 1 example_mapped = Done reps example_mapped ∧
          length reps = 1%nat.
Proof.
  destruct (nodes_agree example_sys example_mapped Smm.example_node example_node_ready
    3 2 4 0x10001000 4096 0x10005000 0x10002000 example_client_geometry
    eq_refl eq_refl eq_refl eq_refl eq_refl eq_refl eq_refl eq_refl)
    as (reps & H1 & H2 & _).
  - reflexivity.
  - vm_compute. intuition congruence.
  - reflexivity.
  - exact example_mapped_eq.
  - vm_compute. reflexivity.
  - apply list_elem_of_lookup. exists 0%nat. reflexivity.
  - exists reps. split; [exact H1|exact H2].
Defined.
