(* ===== verification/ClientIndex.v ===== *)
(** * The hash index seen from a client ([src/src/client.h], [src/src/client.cc])

    From a key to its candidate buckets, the request lists of every phase, the
    search of buckets that were read, and the local address cache. *)

From Stdlib Require Import SpecFloat.
From S2P Require Import Prelude Mem KvUtils HashTable ServerMM Server Rdma ClientState Network ClientMM BlockMap.

(** ** Request identifiers *)
Definition READ_BUCKET_ST_WRID : Z := 100.
Definition WRITE_KV_ST_WRID : Z := 200.
Definition READ_KV_ST_WRID : Z := 300.
Definition CAS_ST_WRID : Z := 400.
Definition INVALID_ST_WRID : Z := 500.
Definition READ_CACHE_ST_WRID : Z := 600.
Definition WRITE_HB_ST_WRID : Z := 700.
Definition LOG_COMMIT_ST_WRID : Z := 800.
Definition UPDATE_PREV_ST_WRID : Z := 900.
Definition READ_ALL_BUCKET_ST_WRID : Z := 150.
Definition READ_PR_ST_WRID : Z := 250.

(** [server_mr_info_map_[sid]->rkey]: a node that is not in the map gives a null
    pointer. *)
Definition server_rkey (sid : Z) : M Sys Z :=
  s ← get; i ← of_option (Cl.server_mr_info_map_ (cl s) !! sid); mret (rkey i).

(** A list comprehension over effects. *)
Fixpoint mapMS {A B} (f : A → M Sys B) (l : list A) : M Sys (list B) :=
  match l with
  | [] => mret []
  | x :: l' => y ← f x; ys ← mapMS f l'; mret (y :: ys)
  end.

(** ** The root of the index *)

Section client_index.
Context {F : Fabric}.

Definition get_race_root : M Sys Z :=
  s ← get;
  rk ← server_rkey 0;
  ret ← nm_rdma_read_from_sid (Cl.race_root_ (cl s)) (Cl.race_root_lkey (cl s))
          sizeof_RaceHashRoot (Cl.remote_root_addr_ (cl s)) rk 0;
  assertm (ret =? 0) ;;
  mret 0.

Definition write_race_root : M Sys Z :=
  s ← get;
  forM (zrange 0 (Cl.num_replication_ (cl s))) (λ i,
    rk ← server_rkey i;
    _ ← nm_rdma_write_to_sid (Cl.race_root_ (cl s)) (Cl.race_root_lkey (cl s))
          sizeof_RaceHashRoot (Cl.remote_root_addr_ (cl s)) rk i; skip) ;;
  mret 0.

(** Fields of the local copy of the root. *)
Definition root_u64 (off : Z) : M Sys Z := s ← get; rd64 (Cl.race_root_ (cl s) + off).
(** Entry [j] of subtable [i]: local depth, node and address. *)
Definition subtable_entry (i j : Z) : M Sys (Z * Z * Z) :=
  s ← get;
  let e := Cl.race_root_ (cl s) + Smm.root_subtable_entry i j in
  let m := lmem (wld s) in
  mret (load8 m (e + 1), load8 m (e + 2), HashIndexConvert40To64Bits (load_bytes 5 m (e + 3))).

Definition init_hash_table (junk : mem) : M Sys Z :=
  forM (zrange 0 RACE_HASH_INIT_SUBTABLE_NUM) (λ i,
    forM (zrange 0 (RACE_HASH_SUBTABLE_NUM / RACE_HASH_INIT_SUBTABLE_NUM)) (λ j,
      let subtable_idx := j * RACE_HASH_INIT_SUBTABLE_NUM + i in
      subtable_info ← mm_alloc_subtable junk;
      s ← get;
      forM (zrange 0 (Cl.num_idx_rep_ (cl s))) (λ r,
        '(sid, addr) ← of_option (subtable_info !! Z.to_nat r);
        wr_bytes (Cl.race_root_ (cl s) + Smm.root_subtable_entry subtable_idx r)
          (0 :: RACE_HASH_INIT_LOCAL_DEPTH :: sid :: HashIndexConvert64To40Bits addr)))) ;;
  _ ← write_race_root;
  mret 0.

Definition sync_init_finish : M Sys Z :=
  s ← get;
  forM (reverse (zrange 0 (Cl.num_replication_ (cl s)))) (λ i,
    rk ← server_rkey i;
    _ ← nm_rdma_write_inl_to_sid (le_bytes 8 1) (Cl.remote_global_meta_addr_ (cl s)) rk i; skip) ;;
  mret 0.

Definition init_is_finished : M Sys bool :=
  s ← get;
  rk ← server_rkey 0;
  _ ← nm_rdma_read_from_sid (Cl.local_buf_ (cl s)) (Cl.local_buf_lkey (cl s)) 8
        (Cl.remote_global_meta_addr_ (cl s)) rk 0;
  read_value ← rd64 (Cl.local_buf_ (cl s));
  mret (read_value =? 1).

Definition write_client_meta_info (junk : mem) : M Sys Z :=
  s ← get;
  let meta_info := load_bytes sizeof_ClientLogMetaInfo
    (store64 (store64 (store8 junk 0 (Cl.pr_log_server_id_ (cl s)))
       8 (Cl.pr_log_head_ (cl s))) 16 (Cl.pr_log_tail_ (cl s))) 0 in
  forM (zrange 0 (Cl.num_replication_ (cl s))) (λ i,
    rk ← server_rkey i;
    _ ← nm_rdma_write_inl_to_sid meta_info (Cl.remote_meta_addr_ (cl s)) rk i; skip) ;;
  mret 0.

(** ** From a key to its buckets *)

Definition get_key (k : KVInfo) : Z := l_addr k + sizeof_KVLogHeader.
Definition get_value (k : KVInfo) : Z := l_addr k + sizeof_KVLogHeader + key_len k.
Definition get_header (k : KVInfo) : Z := l_addr k.

Definition get_kv_hash_info (k : KVInfo) : M Sys KVHashInfo :=
  s ← get;
  let hash_value := VariableLengthHash (lmem (wld s)) (get_key k) (key_len k) 0 in
  global_depth ← root_u64 Smm.root_global_depth;
  let prefix := Z.land (Z.shiftr hash_value SUBTABLE_USED_HASH_BIT_NUM)
                       (u64 (RACE_HASH_MASK global_depth)) in
  '(depth, _, _) ← subtable_entry prefix 0;
  mret (mkKVHashInfo hash_value prefix (HashIndexComputeFp hash_value) depth).

(** The first bucket of the pair that holds bucket group [index_value]: three
    buckets per two groups, the middle one shared. *)
Definition group_bucket (index_value : Z) : Z :=
  if index_value mod 2 =? 0 then index_value / 2 * 3 else index_value / 2 * 3 + 1.

Definition get_kv_addr_info (h : KVHashInfo) (old : KVTableAddrInfo) : M Sys KVTableAddrInfo :=
  s ← get;
  range ← root_u64 Smm.root_subtable_hash_range;
  whenm (range / 2 =? 0) (stopm Undefined) ;;
  let f_index_value := SubtableFirstIndex (hash_value h) range in
  let s_index_value := SubtableSecondIndex (hash_value h) f_index_value range in
  let f_idx := group_bucket f_index_value in
  let s_idx := group_bucket s_index_value in
  let n := Cl.num_idx_rep_ (cl s) in
  entries ← mapMS (λ i,
    '(_, sid, off) ← subtable_entry (prefix h) i;
    rk ← server_rkey sid;
    mret (sid, off, rk)) (zrange 0 n);
  let e i := nth (Z.to_nat i) entries (0, 0, 0) in
  mret (mkKVTableAddrInfo
    (afill n (λ i, (e i).1.1) (server_id_list old))
    (afill n (λ i, u64 ((e i).1.2 + f_idx * sizeof_RaceHashBucket)) (f_bucket_addr old))
    (afill n (λ i, u64 ((e i).1.2 + s_idx * sizeof_RaceHashBucket)) (s_bucket_addr old))
    (afill n (λ i, (e i).2) (f_bucket_addr_rkey old))
    (afill n (λ i, (e i).2) (s_bucket_addr_rkey old))
    (f_index_value mod 2) (s_index_value mod 2) (u32 f_idx) (u32 s_idx)).

Definition prepare_request : M Sys unit :=
  c ← get_ctx;
  h ← get_kv_hash_info (kv_info c);
  set_ctx (λ c, c <| hash_info := h |>) ;;
  a ← get_kv_addr_info h (tbl_addr_info c);
  set_ctx (λ c, c <| tbl_addr_info := a |>).

(** ** Request lists *)

Definition bucket_pair_reads (c : KVReqCtx) (local orig_idx st seq0 seq1 : Z) : IbvSrList :=
  let t := tbl_addr_info c in
  let sid := aget (server_id_list t) orig_idx in
  mkSrList
    [mkWr (ib_gen_wr_id (coro_id c) sid st seq0)
          (Sge local (2 * sizeof_RaceHashBucket) (ctx_lkey c)) IBV_WR_RDMA_READ false
          (aget (f_bucket_addr t) orig_idx) (aget (f_bucket_addr_rkey t) orig_idx) 0 0;
     mkWr (ib_gen_wr_id (coro_id c) sid st seq1)
          (Sge (local + 2 * sizeof_RaceHashBucket) (2 * sizeof_RaceHashBucket) (ctx_lkey c))
          IBV_WR_RDMA_READ false
          (aget (s_bucket_addr t) orig_idx) (aget (s_bucket_addr_rkey t) orig_idx) 0 0]
    sid.

Definition gen_read_bucket_sr_lists_on_crash (c : KVReqCtx) : list IbvSrList :=
  imap (λ (i : nat) orig_idx,
    let i := Z.of_nat i in
    bucket_pair_reads c (local_bucket_addr c + 4 * sizeof_RaceHashBucket * i) orig_idx
      READ_ALL_BUCKET_ST_WRID (2 * (i + 1)) (2 * (i + 1) - 1))
    (healthy_idx_server_id_list c).

Definition gen_read_bucket_sr_lists (c : KVReqCtx) : list IbvSrList :=
  [bucket_pair_reads c (local_bucket_addr c) 0 READ_BUCKET_ST_WRID 1 2].

(** The code fills [num_idx_rep_] entries of an array of [num_replication_] and
    announces [num_replication_] of them. *)
Definition gen_read_all_bucket_sr_lists (c : KVReqCtx) : M Sys (list IbvSrList) :=
  s ← get;
  let n := Cl.num_idx_rep_ (cl s) in
  if n =? Cl.num_replication_ (cl s) then
    mret ((λ i, bucket_pair_reads c (local_bucket_addr c + 4 * sizeof_RaceHashBucket * i) i
                  READ_ALL_BUCKET_ST_WRID (i + 1) (i + 1)) <$> zrange 0 n)
  else stopm Undefined.

(** One write of the local block to each replica. *)
Definition replica_writes (R : Z) (c : KVReqCtx) (k : KVInfo) (len : Z) (a : ClientMMAllocCtx)
    : list IbvSrList :=
  (λ i,
    mkSrList
      [mkWr (ib_gen_wr_id (coro_id c) (aget (ac_server_id_list a) i) WRITE_KV_ST_WRID (i + 1))
            (Sge (l_addr k) len (kv_info_lkey k)) IBV_WR_RDMA_WRITE false
            (aget (addr_list a) i) (aget (rkey_list a) i) 0 0]
      (aget (ac_server_id_list a) i)) <$> zrange 0 R.

Definition gen_write_kv_sr_lists (c : KVReqCtx) (k : KVInfo) (a : ClientMMAllocCtx)
    : M Sys (list IbvSrList) :=
  s ← get;
  mret (replica_writes (Cl.num_replication_ (cl s)) c k
          (u32 (ac_num_subblocks a * Cmm.subblock_sz_ (mm s))) a).

Definition gen_write_del_log_sr_lists (c : KVReqCtx) (k : KVInfo) (a : ClientMMAllocCtx)
    : M Sys (list IbvSrList) :=
  s ← get;
  mret (replica_writes (Cl.num_replication_ (cl s)) c k
          (u32 (sizeof_KVLogHeader + sizeof_KVLogTail + key_len k)) a).

(** [std::map<K, std::vector<V>>]: push [v] under [k], keys in order. *)
Fixpoint push_sorted {A} (k : Z) (v : A) (l : list (Z * list A)) : list (Z * list A) :=
  match l with
  | [] => [(k, [v])]
  | (k', vs) :: l' =>
      if k =? k' then (k', vs ++ [v]) :: l'
      else if k <? k' then (k, [v]) :: l
      else (k', vs) :: push_sorted k v l'
  end.

Definition gen_read_kv_sr_lists (coro_id : Z) (r_addr_list : list KVRWAddr) : list IbvSrList :=
  (λ '(sid, l),
    mkSrList
      (imap (λ (i : nat) (r : KVRWAddr),
        mkWr (ib_gen_wr_id coro_id sid READ_KV_ST_WRID (Z.of_nat i + 1))
             (Sge (rw_l_kv_addr r) (rw_length r) (rw_lkey r)) IBV_WR_RDMA_READ false
             (rw_r_kv_addr r) (rw_rkey r) 0 0) l) sid)
  <$> foldl (λ m r, push_sorted (rw_server_id r) r m) [] r_addr_list.

Definition gen_cas_sr_lists (coro_id : Z) (cas_addr_list : list KVCASAddr) : list IbvSrList :=
  imap (λ (i : nat) (a : KVCASAddr),
    mkSrList
      [mkWr (ib_gen_wr_id coro_id (cas_server_id a) CAS_ST_WRID (Z.of_nat i + 1))
            (Sge (cas_l_kv_addr a) 8 (cas_lkey a)) IBV_WR_ATOMIC_CMP_AND_SWP false
            (cas_r_kv_addr a) (cas_rkey a) (orig_value a) (swap_value a)]
      (cas_server_id a)) cas_addr_list.

Definition gen_read_cache_kv_sr_lists (coro_id : Z) (slot : RaceHashSlot) (local_addr : Z)
    : M Sys (list IbvSrList) :=
  s ← get;
  rk ← server_rkey (slot_server_id slot);
  mret [mkSrList
    [mkWr (ib_gen_wr_id coro_id (slot_server_id slot) READ_CACHE_ST_WRID 1)
          (Sge local_addr (u32 (kv_len slot * Cmm.subblock_sz_ (mm s))) (Cl.local_buf_lkey (cl s)))
          IBV_WR_RDMA_READ false (HashIndexConvert40To64Bits (pointer slot)) rk 0 0]
    (slot_server_id slot)].

(** Inline writes; [data] is the object at the given address, which is on the
    stack of the caller. *)
Definition gen_invalid_sr_lists (coro_id : Z) (r : KVRWAddr) (data : Z) : list IbvSrList :=
  [mkSrList
    [mkWr (ib_gen_wr_id coro_id (rw_server_id r) INVALID_ST_WRID 1)
          (SgeInline [data]) IBV_WR_RDMA_WRITE false (rw_r_kv_addr r) (rw_rkey r) 0 0]
    (rw_server_id r)].

Definition gen_log_commit_sr_lists (coro_id : Z) (data : list Z) (rw_addr_list : list KVRWAddr)
    : M Sys (list IbvSrList) :=
  s ← get;
  mapMS (λ i,
    r ← of_option (rw_addr_list !! Z.to_nat i);
    mret (mkSrList
      [mkWr (ib_gen_wr_id coro_id (rw_server_id r) LOG_COMMIT_ST_WRID (i + 1))
            (SgeInline data) IBV_WR_RDMA_WRITE false (rw_r_kv_addr r) (rw_rkey r) 0 0]
      (rw_server_id r))) (zrange 0 (Cl.num_replication_ (cl s))).

Definition gen_read_primary_sr_list (c : KVReqCtx) : M Sys (list IbvSrList) :=
  a ← of_option (kv_modify_pr_cas_list c !! 0%nat);
  mret [mkSrList
    [mkWr (ib_gen_wr_id (coro_id c) (cas_server_id a) READ_PR_ST_WRID 1)
          (Sge (cas_l_kv_addr a) 8 (cas_lkey a)) IBV_WR_RDMA_READ false
          (cas_r_kv_addr a) (cas_rkey a) 0 0]
    (cas_server_id a)].

(** ** Posting with a stop flag *)

(** [poll_completion(wait, should_stop)]: the flag is read while something is
    unfinished, and a set flag ends the wait. *)
Definition poll_completion_stop (wait : gmap Z (option ibv_wc)) : M Sys Z :=
  if ib_is_all_wrid_finished wait then mret 0
  else
    c ← get_ctx;
    stop ← of_option (should_stop c);
    if stop : bool then mret 0 else poll_completion wait.

Definition post_sr_lists_and_yield_wait_stop (sr_lists : list IbvSrList) : M Sys Z :=
  wait ← rdma_post_sr_lists_async sr_lists ∅; poll_completion_stop wait.

Definition post_sr_list_batch_and_yield_wait_stop (batch : list (list IbvSrList)) : M Sys Z :=
  wait ← rdma_post_sr_list_batch_async batch ∅; poll_completion_stop wait.

(** ** Slots and addresses *)

Definition fill_slot (a : ClientMMAllocCtx) (h : KVHashInfo) (local_slot : Z) : M Sys unit :=
  wr_bytes local_slot
    (hash_fp h :: u8 (ac_num_subblocks a) :: aget (ac_server_id_list a) 0
     :: HashIndexConvert64To40Bits (aget (addr_list a) 0)).

(** [v[i] = x] on a vector: undefined past its end. *)
Definition vset {A} (i : nat) (x : A) (l : list A) : option (list A) :=
  if (i <? length l)%nat then Some (<[i := x]> l) else None.

(** The compare-and-swap of the slot on every index replica: the primary first,
    then the backups. *)
Definition fill_cas_addr (remote_slot_addr : list Z) (old new : RaceHashSlot) : M Sys unit :=
  s ← get;
  forM (zrange 0 (Cl.num_idx_rep_ (cl s))) (λ i,
    c ← get_ctx;
    let sid := aget (server_id_list (tbl_addr_info c)) i in
    rk ← server_rkey sid;
    let a := mkKVCASAddr sid (aget remote_slot_addr i)
               (local_cas_return_value_addr c + i * 8) rk (ctx_lkey c)
               (ConvertSlotToInt old) (ConvertSlotToInt new) in
    if i =? 0 then
      l ← of_option (vset 0 a (kv_modify_pr_cas_list c));
      set_ctx (λ c, c <| kv_modify_pr_cas_list := l |>)
    else
      l ← of_option (vset (Z.to_nat (i - 1)) a (kv_modify_bk_0_cas_list c));
      set_ctx (λ c, c <| kv_modify_bk_0_cas_list := l |>)).

Definition fill_invalid_addr (slot : RaceHashSlot) : M Sys unit :=
  rk ← server_rkey (slot_server_id slot);
  set_ctx (λ c, c <| kv_invalid_addr ::= λ r,
    mkKVRWAddr (slot_server_id slot) (HashIndexConvert40To64Bits (pointer slot))
               (rw_l_kv_addr r) rk (rw_lkey r) (rw_length r) |>).

(** The byte addresses of the commit word and of the operation byte of the log
    entry, on every replica. *)
Definition prepare_log_commit_addrs : M Sys unit :=
  s ← get;
  let c := ctx s in
  let a := mm_alloc_ctx c in
  let header := l_addr (kv_info c) in
  key_length ← rd16 (header + off_key_length);
  value_length ← rd32 (header + off_value_length);
  let tail_offset := u32 (sizeof_KVLogHeader + key_length + value_length) in
  let entry off (old : list KVRWAddr) i :=
    o ← old !! Z.to_nat i;
    Some (mkKVRWAddr (aget (ac_server_id_list a) i) (u64 (aget (addr_list a) i + off))
            (rw_l_kv_addr o) (aget (rkey_list a) i) (rw_lkey o) (rw_length o)) in
  let n := Cl.num_replication_ (cl s) in
  commit ← of_option (mapM (entry (u32 (tail_offset + off_old_value)) (log_commit_addr_list c))
                           (zrange 0 n));
  unused ← of_option (mapM (entry (u32 (tail_offset + off_op)) (write_unused_addr_list c))
                           (zrange 0 n));
  set_ctx (λ c, c <| log_commit_addr_list ::= λ l, commit ++ drop (Z.to_nat n) l |>
                  <| write_unused_addr_list ::= λ l, unused ++ drop (Z.to_nat n) l |>).

Definition update_log_tail (tail : Z) (a : ClientMMAllocCtx) : M Sys unit :=
  let link v := HashIndexConvert64To40Bits v ++ [Z.land v 0xFF] in
  wr_bytes (tail + off_next_addr) (link (aget (next_addr_list a) 0)) ;;
  wr_bytes (tail + off_prev_addr) (link (aget (prev_addr_list a) 0)).

(** ** Searching the buckets that were read *)

Definition get_local_bucket_info : M Sys unit :=
  set_ctx (λ c,
    let b := local_bucket_addr c in
    let s := b + 2 * sizeof_RaceHashBucket in
    let arr := [b; b + sizeof_RaceHashBucket; s; s + sizeof_RaceHashBucket] in
    c <| f_com_bucket := b |> <| s_com_bucket := s |> <| bucket_arr := arr |>
      <| slot_arr := (λ a, bucket_slot a 0) <$> arr |>).

(** [slot_arr[i][j]] *)
Definition slot_of (m : mem) (arr : list Z) (i j : Z) : RaceHashSlot :=
  slot_at m (arr !!! Z.to_nat i + j * sizeof_RaceHashSlot).

Definition slot_indices : list (Z * Z) :=
  i ← zrange 0 4; (λ j, (i, j)) <$> zrange 0 RACE_HASH_ASSOC_NUM.

Definition slot_matches (h : KVHashInfo) (sl : RaceHashSlot) : bool :=
  (fp sl =? hash_fp h) && negb (kv_len sl =? 0).

Fixpoint find_kv_loop (idxs : list (Z * Z)) (buf : Z) : M Sys unit :=
  match idxs with
  | [] => skip
  | (i, j) :: idxs' =>
      s ← get;
      let sl := slot_of (lmem (wld s)) (slot_arr (ctx s)) i j in
      if slot_matches (hash_info (ctx s)) sl then
        rk ← server_rkey (slot_server_id sl);
        let len := u32 (kv_len sl * Cmm.subblock_sz_ (mm s)) in
        let a := mkKVRWAddr (slot_server_id sl) (HashIndexConvert40To64Bits (pointer sl))
                   buf rk (Cl.local_buf_lkey (cl s)) len in
        set_ctx (λ c, c <| kv_read_addr_list ::= λ l, l ++ [a] |>
                        <| kv_idx_list ::= λ l, l ++ [(i, j)] |>) ;;
        find_kv_loop idxs' (u64 (buf + len))
      else find_kv_loop idxs' buf
  end.

Definition find_kv_in_buckets : M Sys unit :=
  get_local_bucket_info ;;
  c ← get_ctx;
  set_ctx (λ c, c <| kv_read_addr_list := [] |> <| kv_idx_list := [] |>) ;;
  find_kv_loop slot_indices (local_kv_addr c).

(** One round over a pair of buckets: the later round overrides the choice. *)
Definition empty_slot_round (m : mem) (c : KVReqCtx) (f_main_idx s_main_idx : Z)
    (best : Z * Z) : Z * Z :=
  let '(f_free_num, f_free_slot_idx) :=
    GetFreeSlotNum m (f_com_bucket c + f_main_idx * sizeof_RaceHashBucket) in
  let '(s_free_num, s_free_slot_idx) :=
    GetFreeSlotNum m (s_com_bucket c + s_main_idx * sizeof_RaceHashBucket) in
  if (0 <? f_free_num) || (0 <? s_free_num) then
    if s_free_num <=? f_free_num then (f_main_idx, f_free_slot_idx)
    else (2 + s_main_idx, s_free_slot_idx)
  else best.

Definition find_empty_slot : M Sys unit :=
  get_local_bucket_info ;;
  s ← get;
  let c := ctx s in
  let m := lmem (wld s) in
  let f := f_main_idx (tbl_addr_info c) in
  let sm := s_main_idx (tbl_addr_info c) in
  let best := empty_slot_round m c f sm (-1, -1) in
  let '(b, i) := empty_slot_round m c ((f + 1) mod 2) ((sm + 1) mod 2) best in
  set_ctx (λ c, c <| bucket_idx := b |> <| slot_idx := i |>).

Definition recover_modified_slots : M Sys unit :=
  c ← get_ctx;
  p ← of_option (recover_match_idx_list c !! 0%nat);
  set_ctx (λ c, c <| bucket_idx := p.1 |> <| slot_idx := p.2 |>).

Definition find_match (m : mem) (k : KVInfo) (l : list KVRWAddr) : Z :=
  match list_find (λ r, CheckKey m (rw_l_kv_addr r + sizeof_KVLogHeader)
                          (load16 m (rw_l_kv_addr r + off_key_length))
                          (get_key k) (key_len k)) l with
  | Some (i, _) => Z.of_nat i
  | None => -1
  end.

Definition find_match_kv_idx : M Sys Z :=
  s ← get;
  mret (find_match (lmem (wld s)) (kv_info (ctx s)) (kv_read_addr_list (ctx s))).

(** ** The local address cache *)

Definition float_of_u32 (n : Z) : spec_float := binary_normalize 24 128 n 0 false.

(** The updates of an entry are through its pointer, so they are updates of the
    map at the entry's key. *)
Definition update_cache (key : string) (slot : RaceHashSlot) (r_slot_addr_list : list Z)
    : M Sys unit :=
  set_cl (λ k,
    let n := Cl.num_idx_rep_ k in
    match Cl.addr_cache_ k !! key with
    | Some e =>
        let e := if ConvertSlotToInt (l_slot_ptr e) =? ConvertSlotToInt slot then e
                 else mkLocalCacheEntry (afill n (aget r_slot_addr_list) (r_slot_addr e)) slot
                        (u32 (miss_cnt e + 1)) (acc_cnt e) in
        k <| Cl.addr_cache_ ::= <[key := mkLocalCacheEntry (r_slot_addr e) (l_slot_ptr e)
                                          (miss_cnt e) (u32 (acc_cnt e + 1))]> |>
    | None =>
        k <| Cl.addr_cache_ ::=
          <[key := mkLocalCacheEntry (afill n (aget r_slot_addr_list) azero) slot 0 1]> |>
    end).

(** The result is the entry found, by its key. *)
Definition check_cache (key : string) : M Sys (option string) :=
  s ← get;
  match Cl.addr_cache_ (cl s) !! key with
  | None => mret None
  | Some e =>
      if HashIndexConvert40To64Bits (pointer (l_slot_ptr e)) =? 0 then
        set_cl (λ k, k <| Cl.addr_cache_ ::= delete key |>) ;; mret None
      else
        let miss_rate := SFdiv 24 128 (float_of_u32 (miss_cnt e)) (float_of_u32 (acc_cnt e)) in
        if SFltb (Cl.miss_rate_threash_ (cl s)) miss_rate then mret None
        else mret (Some key)
  end.

Definition remove_cache (key : string) : M Sys unit :=
  set_cl (λ k, k <| Cl.addr_cache_ ::= delete key |>).

(** [*entry] for an entry held by the request. *)
Definition cache_entry_of (o : option string) : M Sys LocalCacheEntry :=
  key ← of_option o;
  s ← get;
  of_option (Cl.addr_cache_ (cl s) !! key).

(** ** Crashed memory nodes *)

(** [server_crash_map_[sid]]: a missing key reads as [false]. *)
Definition is_crashed (s : Sys) (sid : Z) : bool :=
  default false (Cl.server_crash_map_ (cl s) !! sid).

Definition crash_server (sids : list Z) : M Sys unit :=
  forM sids (λ sid, set_cl (λ k, k <| Cl.server_crash_map_ ::= <[sid := true]> |>)).

Definition check_failed_index : M Sys unit :=
  s ← get;
  let ids := server_id_list (tbl_addr_info (ctx s)) in
  let n := Cl.num_idx_rep_ (cl s) in
  set_ctx (λ c, c
    <| healthy_idx_server_id_list :=
         u8 <$> filter (λ i, is_crashed s (aget ids i) = false) (zrange 0 n) |>
    <| failed_pr_index := (0 <? n) && is_crashed s (aget ids 0) |>).

Definition find_corresponding_addr_info (s : Sys) (target_server target_addr : Z)
    : option ClientMetaAddrInfo :=
  snd <$> list_find (λ m,
    meta_info_type m = TYPE_KVBLOCK ∧ aget (ma_server_id_list m) 0 = target_server ∧
    aget (ma_addr_list m) 0 <= target_addr ∧
    target_addr < u64 (aget (ma_addr_list m) 0 + Cmm.mm_block_sz_ (mm s)))
    (Cl.meta_addr_info_ (cl s)).

(** An unfound block leaves [addr_info] uninitialised. *)
Definition find_healthy_idx (s : Sys) (target_server target_addr : Z) : option Z :=
  info ← find_corresponding_addr_info s target_server target_addr;
  let n := Cl.num_idx_rep_ (cl s) in
  Some (match list_find (λ i, is_crashed s (aget (ma_server_id_list info) i) = false)
                        (zrange 1 n) with
        | Some (_, i) => i
        | None => Z.max 1 n
        end).

Definition check_failed_data : M Sys unit :=
  c ← get_ctx;
  l ← mapMS (λ r,
    s ← get;
    if is_crashed s (rw_server_id r) then
      info ← of_option (find_corresponding_addr_info s (rw_server_id r) (rw_r_kv_addr r));
      h ← of_option (find_healthy_idx s (rw_server_id r) (rw_r_kv_addr r));
      let sid := aget (ma_server_id_list info) h in
      let a := u64 (aget (ma_addr_list info) h
                    + (rw_r_kv_addr r - aget (ma_addr_list info) 0)) in
      rk ← server_rkey sid;
      mret (mkKVRWAddr sid a (rw_l_kv_addr r) rk (rw_lkey r) (rw_length r))
    else mret r) (kv_read_addr_list c);
  set_ctx (λ c, c <| kv_read_addr_list := l |>).

(** The slot to read instead of the cached one; [None] is a null pointer. *)
Definition check_failed_cache (e : LocalCacheEntry) : M Sys (option RaceHashSlot) :=
  s ← get;
  let cached := l_slot_ptr e in
  if is_crashed s (slot_server_id cached) then
    let target_addr := HashIndexConvert40To64Bits (pointer cached) in
    if Cmm.mm_block_sz_ (mm s) =? 0 then stopm Undefined
    else
      let target_offset := u32 (target_addr mod Cmm.mm_block_sz_ (mm s)) in
      let block := Z.lor (u64 (target_addr - target_offset)) (slot_server_id cached) in
      match Cmm.total_block_map_ (mm s) !! block with
      | None => stopm Exited
      | Some l =>
          let n := Z.to_nat (Cl.num_replication_ (cl s) - 1) in
          if (length l <? n)%nat then stopm Undefined
          else
            mret ((λ p : nat * Z,
              mkSlot (fp cached) (kv_len cached) (u8 (Z.land p.2 0xFF))
                (HashIndexConvert64To40Bits
                  (u64 (u64 (Z.shiftl (Z.shiftr p.2 8) 8) + target_offset))))
              <$> list_find (λ r, is_crashed s (u8 (Z.land r 0xFF)) = false) (take n l))
      end
  else mret (Some cached).

(** [find_kv_in_buckets_on_crash]: the replicas of slot [(i, j)] that were read,
    by original index, with the order in which they matched. *)
Definition crash_matches (s : Sys) (i j buf : Z)
    : M Sys (list KVRWAddr * list bool * list Z) :=
  let c := ctx s in
  let R := Z.to_nat (Cl.num_replication_ (cl s)) in
  let step (acc : list KVRWAddr * list bool * list Z) (r orig : Z)
      : M Sys (list KVRWAddr * list bool * list Z) :=
    let '(found, bmap, idxs) := acc in
    let b := local_bucket_addr c + r * 4 * sizeof_RaceHashBucket in
    let sl := slot_at (lmem (wld s)) (bucket_slot (b + i * sizeof_RaceHashBucket) j) in
    let own := slot_of (lmem (wld s)) (slot_arr c) i j in
    if (fp sl =? hash_fp (hash_info c)) && negb (kv_len own =? 0) then
      rk ← server_rkey (slot_server_id sl);
      let a := mkKVRWAddr (slot_server_id sl) (HashIndexConvert40To64Bits (pointer sl))
                 buf rk 0 (u32 (Z.shiftl (kv_len sl) 8)) in
      found' ← of_option (vset (Z.to_nat orig) a found);
      bmap' ← of_option (vset (Z.to_nat orig) true bmap);
      mret (found', bmap', idxs ++ [r])
    else mret (found, bmap, idxs) in
  foldl (λ acc (p : nat * Z), a ← acc; step a (Z.of_nat p.1) p.2)
    (mret (replicate R KVRWAddr_zero, replicate R false, []))
    (imap pair (healthy_idx_server_id_list c)).

(** The replica on which the read settles: the first address with a majority,
    otherwise the smallest one. *)
Definition crash_consensus (R : Z) (found : list KVRWAddr) (bmap : list bool) (first : Z)
    : option KVRWAddr :=
  let filled := imap (λ (r : nat) a,
    if default false (bmap !! r) then a else nth (Z.to_nat first) found KVRWAddr_zero) found in
  let groups := foldl (λ m (p : nat * KVRWAddr),
    push_sorted (Z.lor (rw_r_kv_addr p.2) (rw_server_id p.2)) p.1 m) [] (imap pair filled) in
  win ← match list_find (λ g : Z * list nat, R / 2 < Z.of_nat (length g.2)) groups with
        | Some (_, g) => Some g
        | None => head groups
        end;
  w ← head win.2;
  filled !! w.

Fixpoint find_kv_on_crash_loop (idxs : list (Z * Z)) (buf : Z) : M Sys unit :=
  match idxs with
  | [] => skip
  | (i, j) :: idxs' =>
      s ← get;
      '(found, bmap, matched) ← crash_matches s i j buf;
      match matched with
      | [] => find_kv_on_crash_loop idxs' buf
      | first :: _ =>
          a ← of_option (crash_consensus (Cl.num_replication_ (cl s)) found bmap first);
          set_ctx (λ c, c <| kv_read_addr_list ::= λ l, l ++ [a] |>
                          <| kv_idx_list ::= λ l, l ++ [(i, j)] |>) ;;
          find_kv_on_crash_loop idxs' (u64 (buf + rw_length a))
      end
  end.

Definition find_kv_in_buckets_on_crash : M Sys unit :=
  c ← get_ctx; find_kv_on_crash_loop slot_indices (local_kv_addr c).
End client_index.

(** ** Where a key can be *)

(** The bucket of a group that is not shared, and the one shared with its
    neighbour. *)
Definition main_bucket (idx : Z) : Z := group_bucket idx + idx mod 2.
Definition overflow_bucket (idx : Z) : Z := group_bucket idx + (idx + 1) mod 2.

Lemma group_bucket_eq idx : 0 <= idx → group_bucket idx = idx / 2 * 3 + idx mod 2.
Proof.
  intros H. unfold group_bucket. pose proof (Z.mod_pos_bound idx 2).
  case_bool; zify_bool; lia.
Qed.

Lemma bucket_layout idx :
  0 <= idx → main_bucket idx = idx / 2 * 3 + 2 * (idx mod 2) ∧
             overflow_bucket idx = idx / 2 * 3 + 1.
Proof.
  intros H. unfold main_bucket, overflow_bucket. rewrite group_bucket_eq by done.
  split; [lia|]. Z.to_euclidean_division_equations. lia.
Qed.

(** Bucket [b] of the subtable that starts at [st] is inside the memory that a node
    sets aside for a subtable. *)
Definition inside (st b : Z) : Prop :=
  st <= st + b * sizeof_RaceHashBucket ∧
  st + (b + 1) * sizeof_RaceHashBucket <= st + roundup_256 SUBTABLE_LEN.
Definition next_subtable (st : Z) : Z := st + roundup_256 SUBTABLE_LEN.

Lemma inside_iff st b : inside st b ↔ 0 <= b < 34000.
Proof.
  unfold inside. change (roundup_256 SUBTABLE_LEN) with 2176000. unfold sizeof_RaceHashBucket. lia.
Qed.

(** C37. The candidate buckets of a key in a subtable at [st].  Nodes set aside
    34000 buckets for a subtable, one after the other, and its 34000 groups are
    laid over 51000.  The first group of any hash value is inside; the second is
    inside if its number is below 22666, and otherwise its last bucket is one of the
    next subtable (both happen, for the same first group).  The two groups are
    different, groups of one subtable have different main buckets, no main bucket is
    an overflow bucket, and an overflow bucket is shared by the groups 2k and 2k+1
    only. *)
Theorem candidate_buckets (h st : Z) :
  let first h := SubtableFirstIndex h RACE_HASH_ADDRESSABLE_BUCKET_NUM in
  let second h := SubtableSecondIndex h (first h) RACE_HASH_ADDRESSABLE_BUCKET_NUM in
  let f := first h in
  let g := second h in
  f ≠ g ∧
  (inside st (group_bucket f) ∧ inside st (group_bucket f + 1)) ∧
  (g < 22666 → inside st (group_bucket g) ∧ inside st (group_bucket g + 1)) ∧
  (22666 <= g → ¬ inside st (group_bucket g + 1) ∧ inside (next_subtable st) (group_bucket g + 1 - 34000)) ∧
  (∃ h1 h2, first h1 = first h2 ∧ second h1 < 22666 <= second h2) ∧
  (∀ i j, 0 <= i → 0 <= j → i ≠ j →
     main_bucket i ≠ main_bucket j ∧ main_bucket i ≠ overflow_bucket j ∧
     (overflow_bucket i = overflow_bucket j ↔ i / 2 = j / 2)).
Proof.
  intros first second f g.
  assert (∃ h1 h2, first h1 = first h2 ∧ second h1 < 22666 <= second h2) as Hboth
    by (exists 136000, 0; vm_compute; intuition congruence).
  pose proof (SubtableFirstIndex_bound h RACE_HASH_ADDRESSABLE_BUCKET_NUM ltac:(done)) as Hf.
  pose proof (SubtableSecondIndex_bound h f RACE_HASH_ADDRESSABLE_BUCKET_NUM) as Hg.
  change (RACE_HASH_ADDRESSABLE_BUCKET_NUM / 2) with 17000 in *.
  change (SubtableFirstIndex h _) with f in Hf. change (SubtableSecondIndex h f _) with g in Hg.
  specialize (Hg ltac:(split; done)). clearbody f g.
  rewrite !inside_iff, !group_bucket_eq by lia.
  split; [lia|]. split; [Z.to_euclidean_division_equations; lia|].
  split; [Z.to_euclidean_division_equations; lia|]. split; [Z.to_euclidean_division_equations; lia|].
  split; [exact Hboth|].
  intros i j Hi Hj Hne. destruct (bucket_layout i Hi) as [-> ->].
  destruct (bucket_layout j Hj) as [-> ->]. Z.to_euclidean_division_equations. lia.
Qed.

(** ** Empty slots *)

Definition slot_is_empty (s : Sys) (b j : Z) : bool :=
  slot_is_free (slot_at (lmem (wld s)) (bucket_slot (local_bucket_addr (ctx s)
                                                     + b * sizeof_RaceHashBucket) j)).

Lemma empty_slot_round_spec s c f sm best :
  local_bucket_addr c = local_bucket_addr (ctx s) →
  f_com_bucket c = local_bucket_addr c →
  s_com_bucket c = local_bucket_addr c + 2 * sizeof_RaceHashBucket →
  let r := empty_slot_round (lmem (wld s)) c f sm best in
  (r = best ∧ (∀ j, 0 <= j < 7 → slot_is_empty s f j = false) ∧
              (∀ j, 0 <= j < 7 → slot_is_empty s (2 + sm) j = false)) ∨
  ((r.1 = f ∨ r.1 = 2 + sm) ∧ 0 <= r.2 < 7 ∧ slot_is_empty s r.1 r.2 = true).
Proof.
  intros Hb Hf Hs. unfold empty_slot_round, slot_is_empty. rewrite Hf, Hs, Hb.
  set (b0 := local_bucket_addr (ctx s)).
  pose proof (GetFreeSlotNum_exact (lmem (wld s)) (b0 + f * sizeof_RaceHashBucket)) as H1.
  replace (b0 + 2 * sizeof_RaceHashBucket + sm * sizeof_RaceHashBucket)
    with (b0 + (2 + sm) * sizeof_RaceHashBucket) by lia.
  pose proof (GetFreeSlotNum_exact (lmem (wld s)) (b0 + (2 + sm) * sizeof_RaceHashBucket)) as H2.
  destruct (GetFreeSlotNum _ (b0 + f * _)) as [fn fi].
  destruct (GetFreeSlotNum _ (b0 + (2 + sm) * _)) as [sn si].
  destruct H1 as (Hfn & Hf0 & Hf1). destruct H2 as (Hsn & Hs0 & Hs1). cbv zeta.
  destruct ((0 <? fn) || (0 <? sn)) eqn:E.
  - right. apply orb_true_iff in E.
    destruct (sn <=? fn) eqn:E'; zify_bool; cbn [fst snd].
    + destruct Hf1 as (? & ? & _); [destruct E; lia|]. auto.
    + destruct Hs1 as (? & ? & _); [lia|]. auto.
  - left. zify_bool. split; [done|]. split; [apply Hf0; lia|apply Hs0; lia].
Qed.

Lemma find_empty_slot_run (s : Sys) :
  0 <= f_main_idx (tbl_addr_info (ctx s)) < 2 → 0 <= s_main_idx (tbl_addr_info (ctx s)) < 2 →
  ∃ s', find_empty_slot s = Done tt s' ∧
    client_side s' = (mm s, cl s, ctx s') ∧ wld s' = wld s ∧ nm s' = nm s ∧
    ctx s' = (ctx s) <| f_com_bucket := local_bucket_addr (ctx s) |>
      <| s_com_bucket := local_bucket_addr (ctx s) + 2 * sizeof_RaceHashBucket |>
      <| bucket_arr := bucket_arr (ctx s') |> <| slot_arr := slot_arr (ctx s') |>
      <| bucket_idx := bucket_idx (ctx s') |> <| slot_idx := slot_idx (ctx s') |> ∧
    let b := bucket_idx (ctx s') in
    let i := slot_idx (ctx s') in
    (b = -1 ∧ i = -1 ∧
       ∀ b' i', 0 <= b' < 4 → 0 <= i' < 7 → slot_is_empty s b' i' = false) ∨
    (0 <= b < 4 ∧ 0 <= i < 7 ∧ slot_is_empty s b i = true).
Proof.
  intros Hf Hsm. unfold find_empty_slot, get_local_bucket_info, set_ctx. unM. unfold get.
  set (s1 := s <| ctx ::= _ |>). cbn [ctx wld].
  set (f := f_main_idx _) in *. set (sm := s_main_idx _) in *.
  change (wld s1) with (wld s).
  pose proof (empty_slot_round_spec s (ctx s1) f sm (-1, -1)
    eq_refl eq_refl eq_refl) as H1.
  set (best := empty_slot_round (lmem (wld s)) (ctx s1) f sm (-1, -1)) in *.
  pose proof (empty_slot_round_spec s (ctx s1) ((f + 1) mod 2) ((sm + 1) mod 2) best
    eq_refl eq_refl eq_refl) as H2.
  destruct (empty_slot_round (lmem (wld s)) (ctx s1) ((f + 1) mod 2) ((sm + 1) mod 2) best)
    as [b i] eqn:E.
  eexists. split; [reflexivity|]. split_and!; [done..|]. cbn.
  pose proof (Z.mod_pos_bound (f + 1) 2). pose proof (Z.mod_pos_bound (sm + 1) 2).
  cbn [fst snd] in H2. cbv zeta in H1, H2.
  destruct H2 as [(Hb & He1 & He2)|(Hb & Hi & He)]; [|right; split_and!; try lia; done].
  destruct H1 as [(Hb' & He3 & He4)|(Hb' & Hi & He)].
  - left. rewrite Hb' in Hb. injection Hb as -> ->. split_and!; [done..|].
    intros b' i' Hb'' Hi'.
    assert (b' = f ∨ b' = (f + 1) mod 2 ∨ b' = 2 + sm ∨ b' = 2 + (sm + 1) mod 2) as Hc.
    { Z.to_euclidean_division_equations. lia. }
    destruct Hc as [->|[->|[->| ->]]]; auto.
  - right. rewrite <- Hb in Hb', Hi, He. cbn in Hb', Hi, He. split_and!; try lia; done.
Qed.

(** The slot chosen for an insertion: [find_empty_slot] reports -1 exactly
    when all the slots of the four buckets that were read are taken; otherwise
    the slot it chooses is one of theirs and is free.  Nothing else of the state
    changes. *)
Theorem find_empty_slot_correct (s : Sys) :
  0 <= f_main_idx (tbl_addr_info (ctx s)) < 2 → 0 <= s_main_idx (tbl_addr_info (ctx s)) < 2 →
  ∃ s', find_empty_slot s = Done tt s' ∧
    client_side s' = (mm s, cl s, ctx s') ∧ wld s' = wld s ∧
    let b := bucket_idx (ctx s') in
    let i := slot_idx (ctx s') in
    (b = -1 ∧ i = -1 ∧
       ∀ b' i', 0 <= b' < 4 → 0 <= i' < 7 → slot_is_empty s b' i' = false) ∨
    (0 <= b < 4 ∧ 0 <= i < 7 ∧ slot_is_empty s b i = true).
Proof.
  intros Hf Hs. destruct (find_empty_slot_run s Hf Hs) as (s' & E & Hc & Hw & _ & _ & H).
  exists s'. split_and!; done.
Qed.

(** ** Candidate slots *)

(** What the request reads for the slot at [(i, j)]. *)
Definition reads_slot (s : Sys) (arr : list Z) (p : Z * Z) (a : KVRWAddr) : Prop :=
  let sl := slot_of (lmem (wld s)) arr p.1 p.2 in
  rw_server_id a = slot_server_id sl ∧
  rw_r_kv_addr a = HashIndexConvert40To64Bits (pointer sl) ∧
  rw_length a = kv_len sl * Cmm.subblock_sz_ (mm s) ∧
  (rkey <$> Cl.server_mr_info_map_ (cl s) !! slot_server_id sl) = Some (rw_rkey a).

(** The local buffers follow one another from [buf] on. *)
Fixpoint laid_out (buf : Z) (l : list KVRWAddr) : Prop :=
  match l with
  | [] => True
  | a :: l' => rw_l_kv_addr a = buf ∧ laid_out (buf + rw_length a) l'
  end.

Lemma slot_kv_len m a : 0 <= kv_len (slot_at m a) < 256.
Proof. apply (load_range 1). Qed.

Definition matches_at (s : Sys) (arr : list Z) (p : Z * Z) : Prop :=
  slot_matches (hash_info (ctx s)) (slot_of (lmem (wld s)) arr p.1 p.2) = true.
#[global] Instance matches_at_dec s arr p : Decision (matches_at s arr p).
Proof. unfold matches_at. apply _. Defined.

Lemma find_kv_loop_run idxs : ∀ s arr buf,
  slot_arr (ctx s) = arr → 0 <= buf → 0 < Cmm.subblock_sz_ (mm s) < 2 ^ 24 →
  buf + Z.of_nat (length idxs) * (255 * Cmm.subblock_sz_ (mm s)) < 2 ^ 64 →
  (∀ p, p ∈ idxs → matches_at s arr p →
     is_Some (Cl.server_mr_info_map_ (cl s) !! slot_server_id (slot_of (lmem (wld s)) arr p.1 p.2))) →
  ∃ new, find_kv_loop idxs buf s =
    Done tt (s <| ctx ::= λ c, c <| kv_read_addr_list ::= λ l, l ++ new |>
                    <| kv_idx_list ::= λ l, l ++ filter (matches_at s arr) idxs |> |>) ∧
    Forall2 (reads_slot s arr) (filter (matches_at s arr) idxs) new ∧ laid_out buf new.
Proof.
  induction idxs as [|[i j] idxs IH]; intros s arr buf Harr Hbuf Hss Hsz Hknown.
  { exists []. cbn [find_kv_loop]. rewrite filter_nil. split; [|by split; [constructor|]].
    destruct s as [? ? ? ? []]. unM. unfold set_field. cbn. by rewrite !app_nil_r. }
  cbn [find_kv_loop]. unM. unfold get. rewrite Harr.
  set (sl := slot_of (lmem (wld s)) arr i j).
  cbn [length] in Hsz.
  destruct (slot_matches (hash_info (ctx s)) sl) eqn:Em.
  - assert (matches_at s arr (i, j)) as Hm by done.
    rewrite (filter_cons_True _ _ _ Hm).
    destruct (Hknown (i, j)) as [mr Hmr]; [apply list_elem_of_here|done|]. cbn [fst snd] in Hmr.
    fold sl in Hmr. unfold server_rkey. unM. unfold get, set_ctx, modify. rewrite Hmr.
    pose proof (slot_kv_len (lmem (wld s)) (arr !!! Z.to_nat i + j * sizeof_RaceHashSlot)) as Hkl.
    change (slot_at _ _) with sl in Hkl.
    assert (u32 (kv_len sl * Cmm.subblock_sz_ (mm s)) = kv_len sl * Cmm.subblock_sz_ (mm s)) as ->.
    { unfold u32. apply Z.mod_small. nia. }
    set (len := kv_len sl * Cmm.subblock_sz_ (mm s)) in *.
    assert (0 <= len <= 255 * Cmm.subblock_sz_ (mm s)) by (unfold len; nia).
    assert (u64 (buf + len) = buf + len) as -> by (unfold u64; apply Z.mod_small; nia).
    set (a := mkKVRWAddr _ _ _ _ _ _). set (s1 := s <| ctx ::= _ |>).
    destruct (IH s1 arr (buf + len)) as (new & -> & Hall & Hlay);
      [done|lia|done|change (mm s1) with (mm s); nia| |].
    { intros p Hp. apply Hknown. set_solver. }
    exists (a :: new). split_and!.
    + f_equal. unfold s1. destruct s as [? ? ? ? []]. unfold set_field. cbn.
      by rewrite <- !app_assoc.
    + constructor; [|done]. unfold reads_slot. cbn [fst snd]. fold sl. by rewrite Hmr.
    + done.
  - rewrite filter_cons_False by (unfold matches_at; cbn [fst snd]; fold sl; congruence).
    apply IH; try done; [nia|]. intros p Hp. apply Hknown. set_solver.
Qed.

Definition local_slot_arr (b : Z) : list Z :=
  (λ a, bucket_slot a 0) <$>
    [b; b + sizeof_RaceHashBucket; b + 2 * sizeof_RaceHashBucket;
     b + 2 * sizeof_RaceHashBucket + sizeof_RaceHashBucket].

(** The state left by the search, up to the candidates [new]. *)
Definition with_candidates (new : list KVRWAddr) (idxs : list (Z * Z)) (c : KVReqCtx) : KVReqCtx :=
  let b := local_bucket_addr c in
  let s := b + 2 * sizeof_RaceHashBucket in
  let arr := [b; b + sizeof_RaceHashBucket; s; s + sizeof_RaceHashBucket] in
  c <| f_com_bucket := b |> <| s_com_bucket := s |> <| bucket_arr := arr |>
    <| slot_arr := local_slot_arr b |> <| kv_read_addr_list := new |> <| kv_idx_list := idxs |>.

Lemma find_kv_in_buckets_run (s : Sys) :
  let arr := local_slot_arr (local_bucket_addr (ctx s)) in
  0 <= local_kv_addr (ctx s) → 0 < Cmm.subblock_sz_ (mm s) < 2 ^ 24 →
  local_kv_addr (ctx s) + 28 * (255 * Cmm.subblock_sz_ (mm s)) < 2 ^ 64 →
  (∀ p, p ∈ slot_indices → matches_at s arr p →
     is_Some (Cl.server_mr_info_map_ (cl s) !! slot_server_id (slot_of (lmem (wld s)) arr p.1 p.2))) →
  ∃ new, find_kv_in_buckets s =
      Done tt (s <| ctx ::= with_candidates new (filter (matches_at s arr) slot_indices) |>) ∧
    Forall2 (reads_slot s arr) (filter (matches_at s arr) slot_indices) new ∧
    laid_out (local_kv_addr (ctx s)) new.
Proof.
  intros arr Hb Hss Hsz Hk. unfold find_kv_in_buckets, get_local_bucket_info, get_ctx, set_ctx.
  unM. set (s1 := s <| ctx ::= _ |>). set (s2 := s1 <| ctx ::= _ |>).
  destruct (find_kv_loop_run slot_indices s2 arr (local_kv_addr (ctx s1)))
    as (new & -> & Hall & Hlay); try done.
  exists new. split; [|done]. done.
Qed.

(** A matching slot that names a node without a region makes the client follow a
    null pointer. *)
Lemma find_kv_loop_stops idxs s arr buf p :
  slot_arr (ctx s) = arr → p ∈ idxs → matches_at s arr p →
  Cl.server_mr_info_map_ (cl s) !! slot_server_id (slot_of (lmem (wld s)) arr p.1 p.2) = None →
  ∃ s', find_kv_loop idxs buf s = Stopped Undefined s'.
Proof.
  revert s buf. induction idxs as [|[i j] idxs IH]; intros s buf Harr Hp Hm Hu; [set_solver|].
  cbn [find_kv_loop]. unM. unfold get. rewrite Harr. set (sl := slot_of (lmem (wld s)) arr i j).
  apply elem_of_cons in Hp as [->|Hp].
  - cbn [fst snd] in Hu. fold sl in Hu. unfold matches_at in Hm. cbn [fst snd] in Hm. fold sl in Hm.
    rewrite Hm. unfold server_rkey. unM. unfold get. rewrite Hu. by eexists.
  - destruct (slot_matches _ sl); [|by apply IH].
    unfold server_rkey. unM. unfold get.
    destruct (Cl.server_mr_info_map_ (cl s) !! slot_server_id sl); [|by eexists].
    unfold set_ctx, modify. by apply IH.
Qed.

Lemma find_kv_in_buckets_stops s p :
  let arr := local_slot_arr (local_bucket_addr (ctx s)) in
  p ∈ slot_indices → matches_at s arr p →
  Cl.server_mr_info_map_ (cl s) !! slot_server_id (slot_of (lmem (wld s)) arr p.1 p.2) = None →
  ∃ s', find_kv_in_buckets s = Stopped Undefined s'.
Proof.
  intros arr Hp Hm Hu. unfold find_kv_in_buckets, get_local_bucket_info, get_ctx, set_ctx. unM.
  by eapply find_kv_loop_stops.
Qed.

(** The candidates of a key: when every node named by a matching slot is
    known, [find_kv_in_buckets] ends and lists exactly the slots of the four
    buckets whose fingerprint matches and that are in use, in bucket and slot
    order; for each it prepares a read of that block, on its node and with its
    key, and the local buffers of the reads follow one another without overlap. *)
Theorem find_kv_in_buckets_correct (s : Sys) :
  let arr := local_slot_arr (local_bucket_addr (ctx s)) in
  0 <= local_kv_addr (ctx s) → 0 < Cmm.subblock_sz_ (mm s) < 2 ^ 24 →
  local_kv_addr (ctx s) + 28 * (255 * Cmm.subblock_sz_ (mm s)) < 2 ^ 64 →
  (∀ p, p ∈ slot_indices → matches_at s arr p →
     is_Some (Cl.server_mr_info_map_ (cl s) !! slot_server_id (slot_of (lmem (wld s)) arr p.1 p.2))) →
  ∃ s', find_kv_in_buckets s = Done tt s' ∧ wld s' = wld s ∧
    kv_idx_list (ctx s') = filter (matches_at s arr) slot_indices ∧
    Forall2 (reads_slot s arr) (kv_idx_list (ctx s')) (kv_read_addr_list (ctx s')) ∧
    laid_out (local_kv_addr (ctx s)) (kv_read_addr_list (ctx s')).
Proof.
  intros arr Hb Hss Hsz Hk.
  destruct (find_kv_in_buckets_run s Hb Hss Hsz Hk) as (new & E & Hall & Hlay).
  eexists. split; [exact E|]. done.
Qed.

Lemma find_match_run (s : Sys) :
  let m := lmem (wld s) in
  let same r := load_bytes (load16 m (rw_l_kv_addr r + off_key_length)) m
                           (rw_l_kv_addr r + sizeof_KVLogHeader) =
                load_bytes (key_len (kv_info (ctx s))) m (get_key (kv_info (ctx s))) in
  0 <= key_len (kv_info (ctx s)) →
  ∃ r, find_match_kv_idx s = Done r s ∧
    ((r = -1 ∧ ∀ a, a ∈ kv_read_addr_list (ctx s) → ¬ same a) ∨
     (0 <= r ∧ ∃ a, kv_read_addr_list (ctx s) !! Z.to_nat r = Some a ∧ same a ∧
        ∀ (j : nat) b, (j < Z.to_nat r)%nat → kv_read_addr_list (ctx s) !! j = Some b → ¬ same b)).
Proof.
  intros m same Hl. unfold find_match_kv_idx. unM. unfold get, find_match. eexists. split; [done|].
  fold m.
  assert (∀ r : KVRWAddr, Is_true (CheckKey m (rw_l_kv_addr r + sizeof_KVLogHeader)
    (load16 m (rw_l_kv_addr r + off_key_length)) (get_key (kv_info (ctx s)))
    (key_len (kv_info (ctx s)))) ↔ same r) as HP.
  { intros r. rewrite Is_true_true, CheckKey_iff; [done| |done]. apply (load_range 2). }
  destruct (list_find _ _) as [[i a]|] eqn:E.
  - right. apply list_find_Some in E as (Hi & Ha & Hmin).
    split; [lia|]. exists a. rewrite Nat2Z.id. split_and!; [done|by apply HP|].
    intros j b Hj Hb. rewrite <- HP. by apply (Hmin j).
  - left. split; [done|]. apply list_find_None in E. rewrite Forall_forall in E.
    intros a Ha. rewrite <- HP. by apply E.
Qed.

(** The match among the candidates: [find_match_kv_idx] returns -1 exactly
    when no block that was read carries the key, and otherwise the first one
    that does; the comparison is on the bytes of the keys. *)
Theorem find_match_kv_idx_correct (s : Sys) :
  let m := lmem (wld s) in
  let same r := load_bytes (load16 m (rw_l_kv_addr r + off_key_length)) m
                           (rw_l_kv_addr r + sizeof_KVLogHeader) =
                load_bytes (key_len (kv_info (ctx s))) m (get_key (kv_info (ctx s))) in
  0 <= key_len (kv_info (ctx s)) →
  ∃ r, find_match_kv_idx s = Done r s ∧
    ((r = -1 ∧ ∀ a, a ∈ kv_read_addr_list (ctx s) → ¬ same a) ∨
     (0 <= r ∧ ∃ a, kv_read_addr_list (ctx s) !! Z.to_nat r = Some a ∧ same a ∧
        ∀ (j : nat) b, (j < Z.to_nat r)%nat → kv_read_addr_list (ctx s) !! j = Some b → ¬ same b)).
Proof. apply find_match_run. Qed.

(** ** The links of the log *)

(** A link as [mm_traverse_log] reads it: five bytes of address, one of node. *)
Definition read_link (m : mem) (a : Z) : Z * Z :=
  (HashIndexConvert40To64Bits (take 5 (load_bytes 6 m a)), nth 5 (load_bytes 6 m a) 0).

Lemma link_bytes_wf v :
  length (HashIndexConvert64To40Bits v ++ [Z.land v 0xFF]) = 6%nat ∧
  Forall is_byte (HashIndexConvert64To40Bits v ++ [Z.land v 0xFF]).
Proof.
  destruct (HashIndexConvert64To40Bits_wf v) as [Hl Hb]. rewrite length_app, Hl. split; [done|].
  apply Forall_app. split; [done|]. constructor; [|constructor].
  change 0xFF with (2 ^ 8 - 1). rewrite land_mask by lia. apply Z.mod_pos_bound. lia.
Qed.

Lemma read_link_stored m a x sid :
  0 <= x < 2 ^ 48 → x mod 256 = 0 → 0 <= sid < 256 →
  read_link (store_bytes m a
    (HashIndexConvert64To40Bits (Z.lor x sid) ++ [Z.land (Z.lor x sid) 0xFF])) a = (x, sid).
Proof.
  intros Hx Hm Hs. destruct (link_bytes_wf (Z.lor x sid)) as [Hl Hb]. unfold read_link.
  replace 6 with (Z.of_nat (length (HashIndexConvert64To40Bits (Z.lor x sid)
    ++ [Z.land (Z.lor x sid) 0xFF]))) by (rewrite Hl; done).
  rewrite load_bytes_store_bytes by done.
  destruct (HashIndexConvert64To40Bits_wf (Z.lor x sid)) as [Hl5 _].
  rewrite take_app_length' by done.
  rewrite app_nth2 by lia. rewrite Hl5. cbn [nth Nat.sub].
  rewrite Convert40_64_Convert64_40.
  assert (Z.lor x sid = x / 256 * 256 + sid) as ->.
  { pose proof (lor_disjoint (x / 256) sid 8) as H. change (2 ^ 8) with 256 in H.
    rewrite <- H by lia. f_equal. pose proof (Z.div_mod x 256). lia. }
  change 0xFF with (2 ^ 8 - 1). rewrite land_mask by lia. change (2 ^ 8) with 256.
  f_equal; Z.to_euclidean_division_equations; lia.
Qed.

(** Log links survive the trip through memory: for subblock addresses that
    are 256-byte aligned and below 2^48, what [update_log_tail] stores in the
    tail of an entry reads back, the way the recovery walks the log, as the
    address and the node of the next and of the previous entry. *)
Theorem log_links_roundtrip (s : Sys) (tail : Z) (a : ClientMMAllocCtx)
    (next nsid prev psid : Z) :
  aget (next_addr_list a) 0 = Z.lor next nsid → aget (prev_addr_list a) 0 = Z.lor prev psid →
  0 <= next < 2 ^ 48 → next mod 256 = 0 → 0 <= nsid < 256 →
  0 <= prev < 2 ^ 48 → prev mod 256 = 0 → 0 <= psid < 256 →
  ∃ s', update_log_tail tail a s = Done tt s' ∧
    read_link (lmem (wld s')) (tail + off_next_addr) = (next, nsid) ∧
    read_link (lmem (wld s')) (tail + off_prev_addr) = (prev, psid).
Proof.
  intros Hn Hp Hn1 Hn2 Hn3 Hp1 Hp2 Hp3. unfold update_log_tail, wr_bytes, set_lmem. unM.
  rewrite Hn, Hp.
  eexists. split; [reflexivity|]. cbn. split; [|by apply read_link_stored].
  unfold read_link. rewrite load_bytes_store_bytes_ne by (unfold off_next_addr, off_prev_addr; lia).
  by apply read_link_stored.
Qed.

Example log_links_roundtrip_witness :
  let a := AllocCtx_zero <| next_addr_list := [Z.lor 0x123456789A00 3] |>
                         <| prev_addr_list := [Z.lor 0x10000100 1] |> in
  ∃ s', update_log_tail 64 a blank_sys = Done tt s' ∧
    read_link (lmem (wld s')) 64 = (0x123456789A00, 3).
Proof.
  intros a.
  destruct (log_links_roundtrip blank_sys 64 a 0x123456789A00 3 0x10000100 1)
    as (s' & H1 & H2 & _); try reflexivity; try lia.
  exists s'. split; [exact H1|exact H2].
Defined.

(** ** Reading around a crashed node *)

(** C38. A cached address on a crashed node is redirected to a healthy replica:
    when the cached block is at offset [off] of replica [i] of block [k] of the
    static placement and some replica of it is on a node that has not crashed,
    [check_failed_cache] returns a slot with the same fingerprint and length, on
    a healthy node, at the same offset of another replica of the same block. *)
Theorem redirect_to_replica (s : Sys) (N R B kv bs limit k i off : Z)
    (am tm : gmap Z (list Z)) (e : LocalCacheEntry) :
  Smm.geometry N R B kv bs limit → 2 <= R → kv mod bs = 0 → bs < 2 ^ 32 → limit < 2 ^ 48 →
  is_block_map N R kv bs (B / R * N) am tm →
  Cmm.total_block_map_ (mm s) = tm → Cmm.mm_block_sz_ (mm s) = bs →
  Cl.num_replication_ (cl s) = R →
  0 <= k < B / R * N → 0 <= i < R → 0 <= off < bs → off mod 256 = 0 →
  slot_server_id (l_slot_ptr e) = (k + i) mod N →
  HashIndexConvert40To64Bits (pointer (l_slot_ptr e)) = rep_addr N R kv bs k i + off →
  is_crashed s ((k + i) mod N) = true →
  (∃ j, 0 <= j < R ∧ is_crashed s ((k + j) mod N) = false) →
  ∃ sl j, check_failed_cache e s = Done (Some sl) s ∧
    0 <= j < R ∧ j ≠ i ∧ slot_server_id sl = (k + j) mod N ∧
    is_crashed s (slot_server_id sl) = false ∧
    fp sl = fp (l_slot_ptr e) ∧ kv_len sl = kv_len (l_slot_ptr e) ∧
    HashIndexConvert40To64Bits (pointer sl) = rep_addr N R kv bs k j + off.
Proof.
  intros HG HR2 Hkv Hbs Hlim Hmap Htm Hmbs HR Hk Hi Hoff Ho8 Hsid Hptr Hcr (j0 & Hj0 & Hh).
  pose proof HG as [HN HRN [Hb _] [Hk0 _] _ _ _].
  assert (∀ j, 0 <= j < R → kv <= rep_addr N R kv bs k j ∧
    rep_addr N R kv bs k j + bs <= limit ∧ rep_addr N R kv bs k j mod 256 = 0) as Hra.
  { intros j Hj. destruct (rep_addr_range N R B kv bs limit HG k j Hk Hj).
    split_and!; [done..|]. apply (replica_addr_aligned N R B kv bs limit HG). }
  pose proof (Hra i Hi) as (Hr1 & Hr2 & _).
  unfold check_failed_cache. unM. unfold get.
  rewrite Hsid, Hcr, Hmbs, Hptr, Htm, HR. rewrite (proj2 (Z.eqb_neq bs 0)) by lia.
  assert ((rep_addr N R kv bs k i + off) mod bs = off) as ->.
  { unfold rep_addr. rewrite <- Z.add_assoc, Z.add_mod, Hkv, Z.add_0_l, Z.mod_mod by lia.
    rewrite Z.add_comm, Z.mul_comm, Z.mod_add by lia. apply Z.mod_small. lia. }
  assert (u32 off = off) as -> by (unfold u32; apply Z.mod_small; lia).
  assert (Z.lor (u64 (rep_addr N R kv bs k i + off - off)) ((k + i) mod N) = rep N R kv bs k i) as ->.
  { unfold u64. rewrite Z.add_simpl_r, Z.mod_small by lia. done. }
  rewrite (bm_total _ _ _ _ _ _ _ Hmap) by done.
  assert (length (peers N R kv bs k i) = Z.to_nat (R - 1)) as Hlen.
  { unfold peers. rewrite length_fmap. by apply length_filter_ne. }
  rewrite Hlen, Nat.ltb_irrefl, take_ge by lia.
  assert (∀ j, 0 <= j < R → u8 (Z.land (rep N R kv bs k j) 0xFF) = (k + j) mod N ∧
     u64 (Z.shiftl (Z.shiftr (rep N R kv bs k j) 8) 8) = rep_addr N R kv bs k j) as Hdec.
  { intros j Hj. by apply (rep_decode N R B kv bs limit HG). }
  destruct (list_find _ (peers N R kv bs k i)) as [[n x]|] eqn:Ef.
  - apply list_find_Some in Ef as (Hx%list_elem_of_lookup_2 & Hhx & _).
    apply peers_elem in Hx as (j & Hj & Hji & ->). destruct (Hdec j Hj) as [Ed1 Ed2].
    pose proof (Hra j Hj) as (Hj1 & Hj2 & Hj3).
    eexists _, j. split; [reflexivity|]. cbn [fmap option_fmap option_map].
    cbn [slot_server_id fp kv_len pointer snd]. rewrite Ed1, Ed2. rewrite Ed1 in Hhx.
    split_and!; try done; try lia.
    assert (u64 (rep_addr N R kv bs k j + off) = rep_addr N R kv bs k j + off) as ->.
    { unfold u64. apply Z.mod_small. lia. }
    apply Convert40_exact. split; [lia|]. rewrite Z.add_mod, Hj3, Ho8 by lia. done.
  - exfalso. apply list_find_None in Ef. rewrite Forall_forall in Ef.
    apply (Ef (rep N R kv bs k j0)).
    + apply peers_elem. exists j0. split_and!; try done; try lia. intros ->. congruence.
    + destruct (Hdec j0 Hj0) as [-> _]. done.
Qed.

(** ** Witnesses *)

Example find_empty_slot_correct_witness :
  ∃ s', find_empty_slot blank_sys = Done tt s' ∧ bucket_idx (ctx s') ≠ -1.
Proof.
  destruct (find_empty_slot_correct blank_sys) as (s' & H1 & _ & _ & H2);
    [vm_compute; intuition congruence..|].
  exists s'. split; [exact H1|].
  destruct H2 as [(_ & _ & H2)|[H2 _]]; [|intros E; rewrite E in H2; destruct H2; lia].
  specialize (H2 0 0 ltac:(lia) ltac:(lia)). discriminate.
Defined.

(** One slot in use, on node 1, whose fingerprint is that of the request. *)
Definition example_bucket : Sys :=
  blank_sys <| wld ::= λ w, w <| lmem := store_bytes mem_zero 1008 [7; 1; 1; 0; 0; 0; 9; 0] |> |>
    <| cl ::= λ k, k <| Cl.server_mr_info_map_ := {[1 := mkMrInfo 0 55]} |> |>
    <| mm ::= λ m, m <| Cmm.subblock_sz_ := 256 |> |>
    <| ctx ::= λ c, c <| local_bucket_addr := 1000 |> <| local_kv_addr := 5000 |>
                      <| hash_info := mkKVHashInfo 0 0 7 0 |> |>.

Lemma example_bucket_known p :
  p ∈ slot_indices → matches_at example_bucket (local_slot_arr 1000) p →
  is_Some (Cl.server_mr_info_map_ (cl example_bucket) !!
             slot_server_id (slot_of (lmem (wld example_bucket)) (local_slot_arr 1000) p.1 p.2)).
Proof.
  intros Hp. revert p Hp.
  apply (Forall_forall (λ p, matches_at example_bucket (local_slot_arr 1000) p → _)).
  unfold matches_at. vm_compute.
  repeat first [apply Forall_nil_2 | apply Forall_cons_2; [intros E; try discriminate E; by eauto|]].
Qed.

Example find_kv_in_buckets_correct_witness :
  ∃ s', find_kv_in_buckets example_bucket = Done tt s' ∧ kv_idx_list (ctx s') = [(0, 0)].
Proof.
  destruct (find_kv_in_buckets_correct example_bucket) as (s' & H1 & _ & H2 & _);
    [vm_compute; intuition congruence..|apply example_bucket_known|].
  exists s'. split; [exact H1|]. rewrite H2. vm_compute. reflexivity.
Defined.

Example find_match_kv_idx_correct_witness :
  ∃ r, find_match_kv_idx blank_sys = Done r blank_sys ∧ r = -1.
Proof.
  destruct (find_match_kv_idx_correct blank_sys) as (r & H1 & H2); [vm_compute; congruence|].
  exists r. split; [exact H1|].
  destruct H2 as [[H2 _]|(_ & a & H2 & _)]; [exact H2|discriminate].
Defined.

(** Node 1 of the three is down; the cached block is 256 bytes into block 1. *)
Definition example_crash : Sys :=
  example_mapped <| cl ::= λ k, k <| Cl.num_replication_ := 2 |>
                                  <| Cl.server_crash_map_ := {[1 := true]} |> |>.
Definition example_cached : LocalCacheEntry :=
  mkLocalCacheEntry [] (mkSlot 7 1 1 (HashIndexConvert64To40Bits 0x10002100)) 0 1.

Example redirect_to_replica_witness :
  ∃ sl, check_failed_cache example_cached example_crash = Done (Some sl) example_crash ∧
        is_crashed example_crash (slot_server_id sl) = false.
Proof.
  destruct (redirect_to_replica example_crash 3 2 4 0x10001000 4096 0x10005000 1 0 256
    (Cmm.alloc_block_map_ (mm example_mapped)) (Cmm.total_block_map_ (mm example_mapped))
    example_cached Smm.example_geometry) as (sl & j & H1 & _ & _ & _ & H2 & _).
  all: try exact example_is_block_map.
  all: try (vm_compute; intuition congruence).
  - exists 1. vm_compute. intuition congruence.
  - exists sl. split; assumption.
Defined.
