(* ===== verification/LogWalk.v ===== *)
(** * The walk over the log of a crashed client ([src/src/client_mm.cc],
    [mm_traverse_log])

    The log of a client is the list of the blocks it allocated, chained through
    the tails of their entries in the memory of the nodes.  [is_log] says that
    the remote memories hold such a chain; the theorem shows that the recovery
    finds all of it, in order, and nothing else. *)

From S2P Require Import Prelude Mem KvUtils HashTable ServerMM Server Rdma ClientState Network ClientMM.
From S2P Require Import BlockMap ClientIndex.
Import Cmm.

Record log_entry := mkLogEntry { le_addr : Z; le_sid : Z; le_klen : Z; le_vlen : Z }.

(** The address of the tail of an entry. *)
Definition le_tail (e : log_entry) : Z := le_addr e + sizeof_KVLogHeader + le_klen e + le_vlen e.

(** The chain that starts at [(a, sid)] in the remote memories [r], for subblocks
    of [sz] bytes. *)
Fixpoint is_log (r : Z → mem) (sz a sid : Z) (l : list log_entry) : Prop :=
  match l with
  | [] => a = 0
  | e :: l' =>
      a ≠ 0 ∧ le_addr e = a ∧ le_sid e = sid ∧ in_u8 sid ∧ a mod 256 = 0 ∧
      load16 (r sid) (a + off_key_length) = le_klen e ∧
      load32 (r sid) (a + off_value_length) = le_vlen e ∧
      sizeof_KVLogHeader + le_klen e + le_vlen e + sizeof_KVLogTail <= sz ∧
      let '(next, nsid) := read_link (r sid) (le_tail e + off_next_addr) in is_log r sz next nsid l'
  end.

Section log_walk.
Context {F : Fabric} `{HF : !QuietFabric F} (lkey : Z).

(** A single read, alone on the fabric. *)
Definition after_read (size sid remote local : Z) (s : Sys) : Sys :=
  s <| wld := mkWorld (copy size (rmem (wld s) sid) remote (lmem (wld s)) local)
                      (rmem (wld s)) [] |>.

Lemma read_from_sid_run (s : Sys) local lk size remote rk sid :
  cq (wld s) = [] →
  nm_rdma_read_from_sid local lk size remote rk sid s = Done 0 (after_read size sid remote local s).
Proof.
  intros Hcq. unfold nm_rdma_read_from_sid, rdma_post_send_batch_async, rdma_poll_one_completion,
    post_send, poll_cq. unM. destruct s as [[lm rm q] n m k c sv u]. cbn in Hcq. subst q.
  set (w := mkWorld lm rm []). set (wr := mkWr _ _ _ _ _ _ _ _).
  change (wld ((mkSys w n m k c sv u) <| wld ::= ibv_post_send sid [wr] |>)) with
    (ibv_post_send sid [wr] w).
  rewrite quiet_one, poll_take. reflexivity.
Qed.

(** One entry. *)
Lemma traverse_step_run (s : Sys) (cnt : Z) (e : log_entry) (l : list log_entry) :
  let r := rmem (wld s) in
  let slot := log_tail_st_ptr_ (mm s) + cnt * sizeof_KVLogTail in
  cq (wld s) = [] → is_log r (subblock_sz_ (mm s)) (le_addr e) (le_sid e) (e :: l) →
  is_Some (Nm.mr_info_list_ (nm s) !! Z.to_nat (le_sid e)) → 0 <= cnt →
  tmp_buf_ (mm s) + subblock_sz_ (mm s) <= log_tail_st_ptr_ (mm s) →
  ∃ s', traverse_step lkey (le_addr e) (le_sid e) cnt s =
          Done (read_link (r (le_sid e)) (le_tail e + off_next_addr)) s' ∧
    wld s' = mkWorld (lmem (wld s')) r [] ∧ nm s' = nm s ∧
    mm s' = (mm s) <| recover_log_info_list_ ::= λ q,
                        q ++ [mkRecoverLogInfo slot (le_klen e) (le_vlen e) (le_addr e) (le_sid e)] |>
                   <| recover_addr_is_allocated_map_ ::=
                        <[Z.lor (le_addr e) (le_sid e) := true]> |> ∧
    load_bytes sizeof_KVLogTail (lmem (wld s')) slot =
      load_bytes sizeof_KVLogTail (r (le_sid e)) (le_tail e) ∧
    (∀ a, log_tail_st_ptr_ (mm s) <= a → a + sizeof_KVLogTail <= slot →
       load_bytes sizeof_KVLogTail (lmem (wld s')) a = load_bytes sizeof_KVLogTail (lmem (wld s)) a) ∧
    (∀ x, x < tmp_buf_ (mm s) → lmem (wld s') x = lmem (wld s) x).
Proof.
  intros r slot Hcq Hlog [mr Hmr] Hcnt Hbuf. cbn [is_log] in Hlog.
  destruct Hlog as (Hne & _ & _ & Hsid & Hal & Hk & Hv & Hfit & _).
  assert (H16 := load_range 2 (r (le_sid e)) (le_addr e + off_key_length)).
  assert (H32 := load_range 4 (r (le_sid e)) (le_addr e + off_value_length)).
  change (load 2) with load16 in H16. change (load 4) with load32 in H32. rewrite Hk in H16. rewrite Hv in H32.
  assert (Hsz : sizeof_KVLogHeader = 8 ∧ sizeof_KVLogTail = 32 ∧ off_key_length = 2 ∧
                off_value_length = 4 ∧ off_next_addr = 0) by done.
  destruct Hsz as (Z1 & Z2 & Z3 & Z4 & Z5).
  assert (Hu : u8 (le_sid e) = le_sid e) by (apply Z.mod_small; exact Hsid).
  set (tmp := tmp_buf_ (mm s)) in *.
  set (m1 := copy (subblock_sz_ (mm s)) (r (le_sid e)) (le_addr e) (lmem (wld s)) tmp).
  assert (K1 : load16 m1 (tmp + off_key_length) = le_klen e).
  { unfold m1, load16. rewrite load_copy by (change (Z.of_nat 2) with 2; lia). rewrite <- Hk. f_equal. lia. }
  assert (V1 : load32 m1 (tmp + off_value_length) = le_vlen e).
  { unfold m1, load32. rewrite load_copy by (change (Z.of_nat 4) with 4; lia). rewrite <- Hv. f_equal. lia. }
  set (tail := tmp + sizeof_KVLogHeader + le_klen e + le_vlen e).
  set (m2 := copy sizeof_KVLogTail m1 tail m1 slot).
  unfold traverse_step, get_server_rkey, rd16, rd32, get_lmem, set_lmem, set_mm. unM.
  rewrite Hu, Hmr. rewrite read_from_sid_run by done.
  change (lmem (wld (after_read (subblock_sz_ (mm s)) (le_sid e) (le_addr e) (tmp_buf_ (mm s)) s))) with m1.
  fold tmp. rewrite K1, V1. fold tail slot.
  assert (Z.land (le_addr e) 255 =? 0 = true) as ->.
  { change 255 with (2 ^ 8 - 1). rewrite land_mask by lia. by apply Z.eqb_eq. }
  eexists. split.
  - cbv beta iota. f_equal. fold m2.
    assert (EL : load_bytes 6 m2 (tail + off_next_addr) =
                 load_bytes 6 (r (le_sid e)) (le_tail e + off_next_addr)).
    { unfold m2. rewrite load_bytes_copy_ne by (unfold tail, slot, tmp; nia).
      unfold m1. rewrite load_bytes_copy by (unfold tail; lia). f_equal. unfold tail, le_tail. lia. }
    unfold read_link. rewrite <- EL. reflexivity.
  - split; [reflexivity|]. split; [reflexivity|]. split; [reflexivity|]. split.
    + change (load_bytes sizeof_KVLogTail m2 slot = load_bytes sizeof_KVLogTail (r (le_sid e)) (le_tail e)).
      unfold m2. rewrite load_bytes_copy by lia. unfold m1.
      rewrite load_bytes_copy by (unfold tail; lia). f_equal. unfold tail, le_tail. lia.
    + split.
      * intros a Ha1 Ha2.
        change (load_bytes sizeof_KVLogTail m2 a = load_bytes sizeof_KVLogTail (lmem (wld s)) a).
        unfold m2. rewrite load_bytes_copy_ne by lia. unfold m1. apply load_bytes_copy_ne. unfold tmp. lia.
      * intros x Hx. change (m2 x = lmem (wld s) x). unfold m2, m1.
        rewrite !copy_below by (unfold slot, tmp in *; nia). done.
Qed.

(** What the walk records of the entries, from the [cnt]-th on. *)
Fixpoint log_infos (base cnt : Z) (l : list log_entry) : list RecoverLogInfo :=
  match l with
  | [] => []
  | e :: l' => mkRecoverLogInfo (base + cnt * sizeof_KVLogTail) (le_klen e) (le_vlen e)
                 (le_addr e) (le_sid e) :: log_infos base (cnt + 1) l'
  end.
Definition mark_allocated (m : gmap Z bool) (l : list log_entry) : gmap Z bool :=
  foldl (λ m e, <[Z.lor (le_addr e) (le_sid e) := true]> m) m l.

Definition recorded (m : t) (cnt : Z) (l : list log_entry) : t :=
  m <| recover_log_info_list_ := recover_log_info_list_ m ++ log_infos (log_tail_st_ptr_ m) cnt l |>
    <| recover_addr_is_allocated_map_ := mark_allocated (recover_addr_is_allocated_map_ m) l |>.

Definition walked (s : Sys) (cnt : Z) (l : list log_entry) (s' : Sys) : Prop :=
  let base := log_tail_st_ptr_ (mm s) in
  wld s' = mkWorld (lmem (wld s')) (rmem (wld s)) [] ∧ nm s' = nm s ∧
  mm s' = recorded (mm s) cnt l ∧
  (∀ (i : nat) e, l !! i = Some e →
     load_bytes sizeof_KVLogTail (lmem (wld s')) (base + (cnt + Z.of_nat i) * sizeof_KVLogTail) =
     load_bytes sizeof_KVLogTail (rmem (wld s) (le_sid e)) (le_tail e)) ∧
  (∀ a, base <= a → a + sizeof_KVLogTail <= base + cnt * sizeof_KVLogTail →
     load_bytes sizeof_KVLogTail (lmem (wld s')) a = load_bytes sizeof_KVLogTail (lmem (wld s)) a) ∧
  (∀ x, x < tmp_buf_ (mm s) → lmem (wld s') x = lmem (wld s) x).

Lemma recorded_cons m cnt e l :
  recorded (m <| recover_log_info_list_ ::= λ q, q ++ [mkRecoverLogInfo
      (log_tail_st_ptr_ m + cnt * sizeof_KVLogTail) (le_klen e) (le_vlen e) (le_addr e) (le_sid e)] |>
    <| recover_addr_is_allocated_map_ ::= <[Z.lor (le_addr e) (le_sid e) := true]> |>) (cnt + 1) l =
  recorded m cnt (e :: l).
Proof. destruct m. unfold recorded. cbn. by rewrite <- app_assoc. Qed.

Lemma traverse_loop_run l : ∀ (fuel : nat) (s : Sys) (cnt a sid : Z),
  cq (wld s) = [] → is_log (rmem (wld s)) (subblock_sz_ (mm s)) a sid l →
  Forall (λ e, is_Some (Nm.mr_info_list_ (nm s) !! Z.to_nat (le_sid e))) l → 0 <= cnt →
  tmp_buf_ (mm s) + subblock_sz_ (mm s) <= log_tail_st_ptr_ (mm s) → (length l <= fuel)%nat →
  ∃ s', traverse_loop lkey fuel a sid cnt s = Done tt s' ∧ walked s cnt l s'.
Proof.
  induction l as [|e l IH]; intros fuel s cnt a sid Hcq Hlog Hmr Hcnt Hbuf Hfuel.
  { cbn [is_log] in Hlog. subst a. exists s. split; [by destruct fuel|]. unfold walked.
    split; [destruct s as [[] ? ? ? ? ? ?]; cbn in *; by subst|]. split; [done|].
    split; [|done]. unfold recorded. cbn [log_infos mark_allocated foldl]. rewrite app_nil_r.
    by destruct (mm s). }
  apply Forall_cons in Hmr as [Hmr1 Hmr]. pose proof Hlog as Hlog'. cbn [is_log] in Hlog'.
  destruct Hlog' as (Hne & Ha & Hsid & _ & _ & _ & _ & _ & Hrest). subst a sid.
  destruct fuel as [|fuel]; [cbn in Hfuel; lia|].
  destruct (traverse_step_run s cnt e l Hcq Hlog Hmr1 Hcnt Hbuf) as (s1 & E1 & W1 & N1 & M1 & T1 & U1 & L1).
  destruct (read_link (rmem (wld s) (le_sid e)) (le_tail e + off_next_addr)) as [next nsid].
  destruct (IH fuel s1 (cnt + 1) next nsid) as (s2 & E2 & W2 & N2 & M2 & T2 & U2 & L2).
  - by rewrite W1.
  - rewrite W1, M1. exact Hrest.
  - by rewrite N1.
  - lia.
  - by rewrite M1.
  - cbn in Hfuel. lia.
  - exists s2. cbn [traverse_loop]. rewrite (proj2 (Z.eqb_neq (le_addr e) 0)) by done.
    unM. rewrite E1. split; [done|]. rewrite M1 in M2. rewrite recorded_cons in M2.
    rewrite W1 in W2, T2. cbn [rmem] in W2, T2. rewrite M1 in T2, U2, L2.
    change (tmp_buf_ (_ <| recover_addr_is_allocated_map_ ::= _ |>)) with (tmp_buf_ (mm s)) in L2.
    change (log_tail_st_ptr_ (_ <| recover_addr_is_allocated_map_ ::= _ |>)) with (log_tail_st_ptr_ (mm s)) in T2, U2.
    split; [done|]. split; [congruence|]. split; [done|].
    assert (Hsz : sizeof_KVLogTail = 32) by done. split_and!.
    + intros [|i] e' He'.
      * injection He' as <-. rewrite Z.add_0_r, U2 by nia. exact T1.
      * cbn in He'. rewrite <- (T2 i e' He'). f_equal. lia.
    + intros b Hb1 Hb2. rewrite U2 by lia. by apply U1.
    + intros x Hx. rewrite L2, L1 by done. done.
Qed.

Lemma mark_allocated_lookup l : ∀ m x,
  mark_allocated m l !! x = Some true ↔
  m !! x = Some true ∨ ∃ e, e ∈ l ∧ x = Z.lor (le_addr e) (le_sid e).
Proof.
  induction l as [|e l IH]; intros m x; cbn [mark_allocated foldl].
  - split; [by left|]. intros [H|(e & H & _)]; [done|]. by apply elem_of_nil in H.
  - fold (mark_allocated (<[Z.lor (le_addr e) (le_sid e) := true]> m) l). rewrite IH.
    rewrite lookup_insert_Some. setoid_rewrite elem_of_cons. split.
    + intros [[[<- _]|[_ H]]|(e' & H & ->)]; [right; eauto|by left|right; eauto].
    + intros [H|(e' & [->|H] & ->)]; [|by left; left|right; eauto].
      left. destruct (decide (Z.lor (le_addr e) (le_sid e) = x)); [by left|by right].
Qed.

Lemma mm_traverse_log_run (s : Sys) (l : list log_entry) :
  cq (wld s) = [] →
  is_log (rmem (wld s)) (subblock_sz_ (mm s))
    (u64 (load64 (lmem (wld s)) (recover_buf_ (mm s) + 8) + u64 (bmap_block_num_ (mm s) * subblock_sz_ (mm s))))
    (load8 (lmem (wld s)) (recover_buf_ (mm s))) l →
  Forall (λ e, is_Some (Nm.mr_info_list_ (nm s) !! Z.to_nat (le_sid e))) l →
  tmp_buf_ (mm s) + subblock_sz_ (mm s) <= log_tail_st_ptr_ (mm s) →
  Z.of_nat (length l) <= max_log_tails →
  ∃ s', mm_traverse_log lkey s = Done 0 s' ∧ walked s 0 l s'.
Proof.
  intros Hcq Hlog Hmr Hbuf Hlen.
  destruct (traverse_loop_run l (Z.to_nat max_log_tails) s 0 _ _ Hcq Hlog Hmr) as
    (s' & E1 & W); [lia|done|lia|].
  exists s'. unfold mm_traverse_log, rd8, rd64, get_lmem. unM. by rewrite E1.
Qed.

(** C25. The recovery finds the whole log: when the remote memories hold a chain
    of entries from the head the client recorded in its meta area, and the chain
    fits in the recovery buffer, [mm_traverse_log] ends, leaves the remote
    memories alone, appends to [recover_log_info_list_] exactly the entries of
    the chain, in order, with their lengths, addresses and nodes, keeps a copy
    of the tail of each, and marks exactly their blocks as allocated. *)
Theorem mm_traverse_log_correct (s : Sys) (l : list log_entry) :
  let m := mm s in
  cq (wld s) = [] →
  is_log (rmem (wld s)) (subblock_sz_ m)
    (u64 (load64 (lmem (wld s)) (recover_buf_ m + 8) + u64 (bmap_block_num_ m * subblock_sz_ m)))
    (load8 (lmem (wld s)) (recover_buf_ m)) l →
  Forall (λ e, is_Some (Nm.mr_info_list_ (nm s) !! Z.to_nat (le_sid e))) l →
  tmp_buf_ m + subblock_sz_ m <= log_tail_st_ptr_ m →
  Z.of_nat (length l) <= max_log_tails →
  ∃ s', mm_traverse_log lkey s = Done 0 s' ∧ rmem (wld s') = rmem (wld s) ∧
    mm s' = recorded m 0 l ∧
    (∀ (i : nat) e, l !! i = Some e →
       load_bytes sizeof_KVLogTail (lmem (wld s')) (log_tail_st_ptr_ m + Z.of_nat i * sizeof_KVLogTail) =
       load_bytes sizeof_KVLogTail (rmem (wld s) (le_sid e)) (le_tail e)) ∧
    (∀ x, recover_addr_is_allocated_map_ (mm s') !! x = Some true ↔
          recover_addr_is_allocated_map_ m !! x = Some true ∨
          ∃ e, e ∈ l ∧ x = Z.lor (le_addr e) (le_sid e)).
Proof.
  intros m Hcq Hlog Hmr Hbuf Hlen. subst m.
  destruct (mm_traverse_log_run s l Hcq Hlog Hmr Hbuf Hlen) as (s' & E1 & W & N & M' & T & _).
  exists s'. split; [done|]. split; [by rewrite W|]. split; [done|]. split; [exact T|].
  intros x. rewrite M'. apply mark_allocated_lookup.
Qed.
End log_walk.

(** ** Example: two entries on two nodes *)

(** An entry with a key of four and a value of two bytes. *)
Definition example_log_entry (a next nsid : Z) : mem → mem := λ m,
  store_bytes (store_bytes m a [0; 0; 4; 0; 2; 0; 0; 0]) (a + 14)
    (HashIndexConvert64To40Bits (Z.lor next nsid) ++ [Z.land (Z.lor next nsid) 0xFF]).

Definition example_log : Sys :=
  blank_sys
  <| wld := mkWorld (store64 (store8 mem_zero 1000 0) 1008 0x10000000)
       (λ sid, if sid =? 0 then example_log_entry 0x10000100 0x10000200 1 mem_zero
               else if sid =? 1 then example_log_entry 0x10000200 0 0 mem_zero else mem_zero) [] |>
  <| nm ::= λ n, n <| Nm.mr_info_list_ := [mkMrInfo 0 0; mkMrInfo 0 1] |> |>
  <| mm ::= λ m, m <| subblock_sz_ := 256 |> <| bmap_block_num_ := 1 |> <| recover_buf_ := 1000 |>
                   <| tmp_buf_ := 5000 |> <| log_tail_st_ptr_ := 10000 |> |>.

Example mm_traverse_log_correct_witness :
  ∃ s', mm_traverse_log (F := quiet_fabric) 0 example_log = Done 0 s' ∧
    recover_log_info_list_ (mm s') =
      [mkRecoverLogInfo 10000 4 2 0x10000100 0; mkRecoverLogInfo 10032 4 2 0x10000200 1].
Proof.
  destruct (mm_traverse_log_correct (F := quiet_fabric) 0 example_log
    [mkLogEntry 0x10000100 0 4 2; mkLogEntry 0x10000200 1 4 2]) as (s' & E1 & _ & H & _).
  - reflexivity.
  - vm_compute. intuition congruence.
  - repeat constructor; by eexists.
  - by vm_compute.
  - by vm_compute.
  - exists s'. split; [exact E1|]. rewrite H. reflexivity.
Defined.
