(* ===== verification/Rebuild.v ===== *)
(** * Reconstruction of the allocator of a crashed client
    ([src/src/client_mm.cc], [mm_recovery])

    A client registers every block it allocates in its meta area on the memory
    nodes, and chains the subblocks it uses in its log.  The theorem shows that
    [mm_recovery] rebuilds the allocator from these two: the blocks are those
    registered, the free queue starts with the subblock the log ends with, and
    continues with exactly the subblocks that are not in the log. *)

From S2P Require Import Prelude Mem KvUtils HashTable ServerMM Server Rdma ClientState Network ClientMM.
From S2P Require Import BlockMap ClientIndex LogWalk.
Import Cmm.

(** ** Queues *)

Lemma concat_heads {A} (qs : list (list A)) : concat qs ≡ₚ omap head qs ++ concat (@tail A <$> qs).
Proof.
  induction qs as [|[|x q] qs IH]; [done|exact IH|].
  change (x :: q ++ concat qs ≡ₚ x :: (omap head qs ++ q ++ concat (@tail A <$> qs))).
  f_equiv. rewrite IH. rewrite !app_assoc. f_equiv. by rewrite Permutation_app_comm.
Qed.

Lemma max_queue_tail qs : max_queue (@tail _ <$> qs) = Nat.pred (max_queue qs).
Proof.
  unfold max_queue. induction qs as [|q qs IH]; [done|].
  rewrite !fmap_cons. cbn [max_list_with]. cbn in *. rewrite IH. destruct q; cbn; lia.
Qed.

Lemma round_robin_perm (fuel : nat) : ∀ qs, (max_queue qs < fuel)%nat → round_robin fuel qs ≡ₚ concat qs.
Proof.
  induction fuel as [|fuel IH]; intros qs Hf; [lia|]. rewrite concat_heads. cbn [round_robin].
  destruct (omap head qs) as [|h hs] eqn:E.
  - replace (concat (@tail SubblockInfo <$> qs)) with (@nil SubblockInfo); [done|].
    clear Hf. induction qs as [|[|x q] qs IHq]; [done|by apply IHq|discriminate].
  - f_equiv. apply IH. rewrite max_queue_tail. 
    assert (max_queue qs ≠ 0)%nat; [|lia]. intros H0. clear Hf IH.
    revert E H0. unfold max_queue. clear. induction qs as [|[|x q] qs IHq]; [done|..]; cbn; intros.
    + by apply IHq.
    + lia.
Qed.

(** One queue per value of [f] holds everything once. *)
Lemma concat_classes {A} (f : A → Z) (P : A → Prop) `{!∀ x, Decision (P x)} (n : Z) (l : list A) :
  0 <= n → Forall (λ x, 0 <= f x) l →
  concat ((λ j, filter (λ x, P x ∧ f x = j) l) <$> zrange 0 n) ≡ₚ filter (λ x, P x ∧ f x < n) l.
Proof.
  intros Hn Hl. pattern n. apply natlike_ind; [|clear n Hn; intros n Hn IH|done].
  - rewrite zrange_nil by lia. cbn. induction Hl as [|x l Hx Hl IH]; [done|].
    rewrite filter_cons_False by lia. done.
  - unfold Z.succ. rewrite zrange_snoc, fmap_app, concat_app, IH by done. cbn. rewrite app_nil_r.
    clear IH. induction Hl as [|x l Hx Hl IH]; [done|].
    destruct (decide (P x)) as [HP|HP].
    2: { rewrite !filter_cons_False by tauto. exact IH. }
    destruct (decide (f x < n)); [|destruct (decide (f x = n))].
    + rewrite (filter_cons_True (λ x, P x ∧ f x < n)), (filter_cons_False (λ x, P x ∧ f x = n)),
        filter_cons_True by (try split; try lia; done). cbn. by rewrite IH.
    + rewrite (filter_cons_False (λ x, P x ∧ f x < n)), (filter_cons_True (λ x, P x ∧ f x = n)),
        filter_cons_True by (try split; try lia; done). by rewrite <- Permutation_middle, IH.
    + rewrite !filter_cons_False by lia. exact IH.
Qed.

(** ** The meta area *)

(** A registered space: its kind, and the memory and node of each replica. *)
Record space := mkSpace { sp_type : Z; sp_mrs : list MrInfo; sp_sids : list Z }.

Lemma load_bytes_eq_load (k : nat) n m1 m2 a1 a2 o :
  load_bytes n m1 a1 = load_bytes n m2 a2 → 0 <= o → o + Z.of_nat k <= n →
  load k m1 (a1 + o) = load k m2 (a2 + o).
Proof.
  intros H Ho Hk. apply load_ext. intros i Hi.
  assert (E : load_bytes n m1 a1 !! Z.to_nat (o + i) = load_bytes n m2 a2 !! Z.to_nat (o + i)) by by rewrite H.
  rewrite !load_bytes_lookup in E by lia. injection E as E.
  rewrite Z2Nat.id, !Z.add_assoc in E by lia. exact E.
Qed.

(** The fields of the 96 bytes [reg_new_space] writes. *)
Lemma meta_fields junk m ptr ty n mrs sids :
  load_bytes sizeof_ClientMetaAddrInfo m ptr = meta_info_bytes junk ty n mrs sids → 0 <= n <= MAX_REP_NUM →
  load8 m ptr = u8 ty ∧
  ∀ i, 0 <= i < n → load8 m (ptr + 1 + i) = u8 (nth (Z.to_nat i) sids 0) ∧
                    load64 m (ptr + 16 + 8 * i) = u64 (nth (Z.to_nat i) (mr_addr <$> mrs) 0).
Proof.
  unfold meta_info_bytes. intros H Hn. change MAX_REP_NUM with 10 in Hn.
  set (B := foldl _ _ _) in H.
  assert (HB : load8 B 0 = u8 ty ∧ ∀ i, 0 <= i < n →
    load8 B (1 + i) = u8 (nth (Z.to_nat i) sids 0) ∧
    load64 B (16 + 8 * i) = u64 (nth (Z.to_nat i) (mr_addr <$> mrs) 0)).
  { clear H m ptr. subst B. destruct Hn as [Hn Hm]. revert Hm. pattern n. apply natlike_ind; [|clear n Hn; intros n Hn IH Hm|done].
    - intros _. split; [apply (load_store_eq 1)|lia].
    - unfold Z.succ in *. rewrite zrange_snoc, foldl_app by done. cbn [foldl].
      set (B := foldl _ _ _) in *. destruct IH as [I1 I2]; [lia|]. unfold load8, load64, store8, store64 in *.
      split; [rewrite !load_store_ne by lia; exact I1|]. intros i Hi.
      destruct (decide (i = n)) as [->|Hne].
      + rewrite load_store_ne by lia. split; [apply (load_store_eq 1)|].
        rewrite load_store_eq. done.
      + rewrite !load_store_ne by lia. apply I2. lia. }
  destruct HB as [H0 HB]. unfold load8, load64, sizeof_ClientMetaAddrInfo in *.
  pose proof (λ k o, load_bytes_eq_load k 96 m B ptr 0 o H) as T. split.
  - rewrite <- H0, <- (Z.add_0_r ptr). apply T; lia.
  - intros i Hi. destruct (HB i Hi) as [<- <-]. rewrite <- !Z.add_assoc. split; apply T; lia.
Qed.

(** The spaces [es] are registered from [ptr] on, and nothing after them. *)
Fixpoint is_meta (m : mem) (n ptr : Z) (es : list space) : Prop :=
  match es with
  | [] => load8 m ptr = 0
  | e :: es' =>
      (∃ junk, load_bytes sizeof_ClientMetaAddrInfo m ptr =
               meta_info_bytes junk (sp_type e) n (sp_mrs e) (sp_sids e)) ∧
      is_meta m n (ptr + sizeof_ClientMetaAddrInfo) es'
  end.

(** A space is one that [reg_new_space] registers, with the keys of the nodes. *)
Definition space_wf (mrl : list MrInfo) (n : Z) (e : space) : Prop :=
  (sp_type e = TYPE_SUBTABLE ∨ sp_type e = TYPE_KVBLOCK) ∧
  ∀ i, 0 <= i < n →
    let sid := nth (Z.to_nat i) (sp_sids e) 0 in
    in_u8 sid ∧ in_u64 (nth (Z.to_nat i) (mr_addr <$> sp_mrs e) 0) ∧
    rkey <$> mrl !! Z.to_nat sid = Some (nth (Z.to_nat i) (rkey <$> sp_mrs e) 0).

Definition space_block (n : Z) (e : space) : ClientMMBlock := new_block n (sp_mrs e) (sp_sids e).

Lemma mapM_pure {A B} (f : A → option B) (g : A → B) (l : list A) :
  (∀ x, x ∈ l → f x = Some (g x)) → mapM f l = Some (g <$> l).
Proof.
  induction l as [|x l IH]; intros H; [done|]. cbn. rewrite (H x) by left. cbn.
  rewrite IH by (intros y Hy; apply H; by right). done.
Qed.

Lemma nth_fmap_zrange (g : Z → Z) n i d : 0 <= i < n → nth (Z.to_nat i) (g <$> zrange 0 n) d = g i.
Proof.
  intros Hi. rewrite nth_lookup, list_lookup_fmap, zrange_lookup by lia. cbn. f_equal. lia.
Qed.

Lemma recover_block_run s ptr junk e :
  let n := num_replication_ (mm s) in
  load_bytes sizeof_ClientMetaAddrInfo (lmem (wld s)) ptr =
    meta_info_bytes junk (sp_type e) n (sp_mrs e) (sp_sids e) →
  0 <= n <= MAX_REP_NUM → space_wf (Nm.mr_info_list_ (nm s)) n e →
  load8 (lmem (wld s)) ptr = sp_type e ∧ recover_block ptr s = Done (space_block n e) s.
Proof.
  intros n H Hn [Hty Hwf]. destruct (meta_fields _ _ _ _ _ _ _ H Hn) as [T Fd]. split.
  { rewrite T. by destruct Hty as [-> | ->]. }
  assert (Fd' : ∀ i, 0 <= i < n → load8 (lmem (wld s)) (ptr + 1 + i) = nth (Z.to_nat i) (sp_sids e) 0 ∧
    load64 (lmem (wld s)) (ptr + 16 + 8 * i) = nth (Z.to_nat i) (mr_addr <$> sp_mrs e) 0).
  { intros i Hi. destruct (Fd i Hi) as [-> ->]. destruct (Hwf i Hi) as (H8 & H64 & _).
    split; [by apply Z.mod_small|by apply Z.mod_small]. }
  unfold recover_block. unM. fold n.
  rewrite (mapM_pure _ (λ i, nth (Z.to_nat i) (rkey <$> sp_mrs e) 0)).
  2: { intros i Hi%elem_of_zrange. rewrite (proj1 (Fd' i Hi)). by apply Hwf. }
  cbv beta iota. f_equal. unfold space_block, new_block.
  rewrite (afill_ext n (λ i, load64 (lmem (wld s)) (ptr + 16 + 8 * i))
    (λ i, nth (Z.to_nat i) (mr_addr <$> sp_mrs e) 0)) by (intros; by apply Fd').
  rewrite (afill_ext n (λ i, load8 (lmem (wld s)) (ptr + 1 + i)) (λ i, nth (Z.to_nat i) (sp_sids e) 0))
    by (intros; by apply Fd').
  set (g := λ i, nth (Z.to_nat i) (rkey <$> sp_mrs e) 0).
  rewrite (afill_ext n (λ i, nth (Z.to_nat i) (g <$> zrange 0 n) 0) g) by (intros; by apply nth_fmap_zrange).
  done.
Qed.

(** ** The queues *)

(** A subblock by its primary replica, as [address | node]. *)
Definition pr_key (sb : SubblockInfo) : Z :=
  Z.lor (aget (sb_addr_list sb) 0) (aget (sb_server_id_list sb) 0).
Definition pr_node (sb : SubblockInfo) : Z := aget (sb_server_id_list sb) 0.

Lemma push_class (f : Z → list SubblockInfo) N j x :
  0 <= j < N →
  <[Z.to_nat j := f j ++ [x]]> (f <$> zrange 0 N) =
  (λ i, f i ++ (if decide (i = j) then [x] else [])) <$> zrange 0 N.
Proof.
  intros Hj. apply list_eq. intros k. rewrite list_lookup_insert, !list_lookup_fmap, length_fmap, zrange_length.
  destruct (decide (Z.of_nat k < N)).
  - rewrite zrange_lookup by lia. cbn. case_decide.
    + destruct H as [<- _]. rewrite Z2Nat.id by lia. by rewrite decide_True.
    + rewrite decide_False by lia. by rewrite app_nil_r.
  - rewrite decide_False by lia. rewrite (lookup_ge_None_2 (zrange 0 N)); [done|]. rewrite zrange_length. lia.
Qed.

(** The last match grows with the list only when the new element matches. *)
Lemma last_filter_snoc {A} (P : A → Prop) `{∀ a, Decision (P a)} (xs : list A) x :
  last (filter P (xs ++ [x])) = if decide (P x) then Some x else last (filter P xs).
Proof.
  rewrite filter_app. change (filter P [x]) with (if decide (P x) then [x] else []).
  destruct (decide (P x)); [apply last_snoc|by rewrite app_nil_r].
Qed.

Lemma last_filter_in {A} (P : A → Prop) `{!∀ x, Decision (P x)} l x :
  P x → x ∈ l → ∃ y, last (filter P l) = Some y ∧ P y ∧ y ∈ l.
Proof.
  intros HP Hx. destruct (last (filter P l)) as [y|] eqn:E.
  - apply last_Some_elem_of in E as [Hy Hin]%list_elem_of_filter. by exists y.
  - apply last_None in E. assert (x ∈ filter P l) as Hin by by apply list_elem_of_filter.
    rewrite E in Hin. by apply elem_of_nil in Hin.
Qed.

Section rebuild.
Context (m0 : Cmm.t) (head_key last_key : Z).
Hypotheses (Hn : 1 <= num_replication_ m0).

Definition unused (sb : SubblockInfo) : Prop :=
  pr_key sb ≠ head_key ∧ pr_key sb ≠ last_key ∧ recover_addr_is_allocated_map_ m0 !! pr_key sb ≠ Some true.

#[global] Instance unused_dec sb : Decision (unused sb).
Proof. unfold unused. apply _. Defined.

(** The unused subblocks of node [j]. *)
Definition unused_of (subs : list SubblockInfo) (j : Z) : list SubblockInfo :=
  filter (λ sb, unused sb ∧ pr_node sb = j) subs.

(** The state after the subblocks [subs] of the blocks read so far, [blocks] of
    them complete. *)
Definition rebuilt_mm (blocks : list ClientMMBlock) (subs : list SubblockInfo) : Cmm.t :=
  m0 <| last_allocated_info_ :=
          default (last_allocated_info_ m0)
            (last (filter (λ sb, pr_key sb ≠ head_key ∧ pr_key sb = last_key) subs)) |>
     <| mm_blocks_ := mm_blocks_ m0 ++ blocks |>.
Definition rebuilt_queues (subs : list SubblockInfo) : rebuild :=
  (last (filter (λ sb, pr_key sb = head_key) subs),
   unused_of subs <$> zrange 0 (num_memory_ m0)).

Lemma rebuilt_mm_snoc blocks subs sb :
  rebuilt_mm blocks (subs ++ [sb]) =
  if decide (pr_key sb ≠ head_key ∧ pr_key sb = last_key)
  then (rebuilt_mm blocks subs) <| last_allocated_info_ := sb |> else rebuilt_mm blocks subs.
Proof. unfold rebuilt_mm. rewrite last_filter_snoc. by case_decide. Qed.

Lemma rebuilt_queues_snoc subs sb :
  rebuilt_queues (subs ++ [sb]) =
  (if decide (pr_key sb = head_key) then Some sb else (rebuilt_queues subs).1,
   (λ j, unused_of subs j ++
         (if decide (unused sb ∧ pr_node sb = j) then [sb] else [])) <$> zrange 0 (num_memory_ m0)).
Proof.
  unfold rebuilt_queues. rewrite last_filter_snoc. f_equal. apply list_fmap_ext. intros ? j _.
  unfold unused_of. by rewrite filter_app.
Qed.

Lemma no_push subs sb :
  ¬ unused sb →
  (λ j, unused_of subs j ++
        (if decide (unused sb ∧ pr_node sb = j) then [sb] else [])) <$> zrange 0 (num_memory_ m0) =
  (rebuilt_queues subs).2.
Proof.
  intros H. apply list_fmap_ext. intros. rewrite decide_False by tauto. apply app_nil_r.
Qed.

Lemma push subs sb :
  unused sb → 0 <= pr_node sb < num_memory_ m0 →
  (rebuilt_queues subs).2 !! Z.to_nat (pr_node sb) =
    Some (unused_of subs (pr_node sb)) ∧
  <[Z.to_nat (pr_node sb) := unused_of subs (pr_node sb) ++ [sb]]>
    (rebuilt_queues subs).2 =
  (λ j, unused_of subs j ++
        (if decide (unused sb ∧ pr_node sb = j) then [sb] else [])) <$> zrange 0 (num_memory_ m0).
Proof.
  intros H Hsb. cbn [rebuilt_queues snd]. split.
  - rewrite list_lookup_fmap, zrange_lookup by lia. cbn. by rewrite Z2Nat.id by lia.
  - etrans; [by apply push_class|].
    apply list_fmap_ext. intros. f_equal. repeat case_decide; naive_solver.
Qed.

Lemma recover_subblock_run s blocks subs b i :
  let sb := gen_subblock_info m0 b i in
  0 <= pr_node sb < num_memory_ m0 →
  recover_subblock head_key last_key b (rebuilt_queues subs) i (s <| mm := rebuilt_mm blocks subs |>) =
  Done (rebuilt_queues (subs ++ [sb])) (s <| mm := rebuilt_mm blocks (subs ++ [sb]) |>).
Proof.
  intros sb Hsb. unfold recover_subblock. unM.
  change (gen_subblock_info (mm (s <| mm := rebuilt_mm blocks subs |>)) b i) with sb.
  assert (Hk : Z.lor (u64 (aget (mr_addr_list b) 0 + u64 (subblock_sz_ m0 * i))) (aget (blk_server_id_list b) 0)
               = pr_key sb ∧ aget (blk_server_id_list b) 0 = pr_node sb).
  { unfold pr_key, pr_node, sb, gen_subblock_info. cbn [sb_addr_list sb_server_id_list].
    rewrite !aget_afill by lia. by rewrite (Z.mul_comm i). }
  change (subblock_sz_ (mm (s <| mm := rebuilt_mm blocks subs |>))) with (subblock_sz_ m0).
  destruct Hk as [-> ->].
  change (recover_addr_is_allocated_map_ (mm (s <| mm := rebuilt_mm blocks subs |>))) with
    (recover_addr_is_allocated_map_ m0).
  rewrite rebuilt_queues_snoc, rebuilt_mm_snoc.
  destruct (Z.eqb_spec (pr_key sb) head_key) as [Eh|Eh].
  { rewrite (decide_True (P := pr_key sb = head_key)) by done.
    rewrite decide_False by tauto. rewrite no_push by (unfold unused; tauto). done. }
  rewrite (decide_False (P := pr_key sb = head_key)) by done.
  destruct (Z.eqb_spec (pr_key sb) last_key) as [El|El].
  { rewrite decide_True by done. rewrite no_push by (unfold unused; tauto). done. }
  rewrite decide_False by tauto.
  destruct (recover_addr_is_allocated_map_ m0 !! pr_key sb) as [[]|] eqn:Ea; cbn [default].
  { rewrite no_push by (unfold unused; tauto). done. }
  - destruct (push subs sb) as [Q1 Q2]; [by unfold unused; rewrite Ea|done|]. by rewrite Q1, Q2.
  - destruct (push subs sb) as [Q1 Q2]; [by unfold unused; rewrite Ea|done|]. by rewrite Q1, Q2.
Qed.

Lemma recover_subblocks_run s blocks b idxs : ∀ subs,
  (∀ i, 0 <= pr_node (gen_subblock_info m0 b i) < num_memory_ m0) →
  recover_subblocks head_key last_key b idxs (rebuilt_queues subs) (s <| mm := rebuilt_mm blocks subs |>) =
  Done (rebuilt_queues (subs ++ (gen_subblock_info m0 b <$> idxs)))
       (s <| mm := rebuilt_mm blocks (subs ++ (gen_subblock_info m0 b <$> idxs)) |>).
Proof.
  induction idxs as [|i idxs IH]; intros subs Hb; cbn [recover_subblocks fmap list_fmap].
  { by rewrite app_nil_r. }
  unM. rewrite recover_subblock_run by done. rewrite IH by done. by rewrite <- app_assoc.
Qed.

(** The blocks registered, and their subblocks. *)
Definition meta_blocks (es : list space) : list ClientMMBlock :=
  space_block (num_replication_ m0) <$> filter (λ e, sp_type e = TYPE_KVBLOCK) es.
Definition meta_subs (es : list space) : list SubblockInfo :=
  concat (block_subblocks m0 <$> meta_blocks es).

Lemma meta_blocks_cons e es :
  meta_blocks (e :: es) =
  (if decide (sp_type e = TYPE_KVBLOCK) then [space_block (num_replication_ m0) e] else []) ++ meta_blocks es.
Proof. unfold meta_blocks. rewrite filter_cons. by case_decide. Qed.

Lemma space_node e i :
  pr_node (gen_subblock_info m0 (space_block (num_replication_ m0) e) i) = nth 0 (sp_sids e) 0.
Proof.
  unfold pr_node, gen_subblock_info, space_block, new_block.
  cbn [sb_server_id_list]. rewrite aget_afill by lia. cbn [blk_server_id_list].
  change (aget (afill (num_replication_ m0) (λ i, nth (Z.to_nat i) (sp_sids e) 0) azero) 0 =
          nth 0 (sp_sids e) 0). by rewrite aget_afill by lia.
Qed.

Lemma recover_loop_run es : ∀ s (fuel : nat) ptr blocks subs,
  is_meta (lmem (wld s)) (num_replication_ m0) ptr es →
  Forall (space_wf (Nm.mr_info_list_ (nm s)) (num_replication_ m0)) es →
  Forall (λ e, nth 0 (sp_sids e) 0 < num_memory_ m0) es →
  num_replication_ m0 <= MAX_REP_NUM → (length es < fuel)%nat →
  recover_loop fuel head_key last_key ptr (rebuilt_queues subs) (s <| mm := rebuilt_mm blocks subs |>) =
  Done (rebuilt_queues (subs ++ meta_subs es))
       (s <| mm := rebuilt_mm (blocks ++ meta_blocks es) (subs ++ meta_subs es) |>).
Proof.
  induction es as [|e es IH]; intros s fuel ptr blocks subs Hm Hw Hs HR Hf;
    (destruct fuel as [|fuel]; [cbn in Hf; lia|]); cbn [is_meta] in Hm; cbn [recover_loop];
    unfold rd8, get_lmem; unM.
  { change (lmem (wld (s <| mm := rebuilt_mm blocks subs |>))) with (lmem (wld s)).
    rewrite Hm. cbn. unfold meta_subs, meta_blocks. cbn. by rewrite !app_nil_r. }
  destruct Hm as [[junk Hm] Hm']. apply Forall_cons in Hw as [He Hw]. apply Forall_cons in Hs as [Hes Hs].
  set (s1 := s <| mm := rebuilt_mm blocks subs |>).
  destruct (recover_block_run s1 ptr junk e Hm ltac:(split; [change (0 <= num_replication_ m0); lia|done]) He)
    as [Ht Hb].
  rewrite Ht. cbn [length] in Hf. destruct (proj1 He) as [Ety|Ety]; rewrite Ety; cbn [Z.eqb].
  - change (TYPE_SUBTABLE =? 0) with false. cbn [Z.eqb]. rewrite Z.eqb_refl. unfold s1.
    rewrite IH by (done || lia). unfold meta_subs. rewrite meta_blocks_cons, decide_False by (by rewrite Ety).
    done.
  - change (TYPE_KVBLOCK =? 0) with false. change (TYPE_KVBLOCK =? TYPE_SUBTABLE) with false. cbv iota.
    cbv beta. rewrite Hb. cbv beta iota. unfold s1.
    change (bmap_block_num_ (mm (s <| mm := rebuilt_mm blocks subs |>))) with (bmap_block_num_ m0).
    change (subblock_num_ (mm (s <| mm := rebuilt_mm blocks subs |>))) with (subblock_num_ m0).
    change (num_replication_ (mm (s <| mm := rebuilt_mm blocks subs |>))) with (num_replication_ m0).
    rewrite recover_subblocks_run.
    2: { intros i. rewrite space_node. destruct (proj2 He 0 ltac:(lia)) as ([Hlo _] & _).
         change (Z.to_nat 0) with 0%nat in Hlo. lia. }
    fold (block_subblocks m0 (space_block (num_replication_ m0) e)).
    unfold set_mm, modify. cbv beta iota.
    set (sb' := subs ++ _). set (b := space_block _ e).
    change (s <| mm := rebuilt_mm blocks sb' |> <| mm ::= _ |>) with
      (s <| mm := (rebuilt_mm blocks sb') <| mm_blocks_ := (mm_blocks_ m0 ++ blocks) ++ [b] |> |>).
    rewrite <- app_assoc.
    change ((rebuilt_mm blocks sb') <| mm_blocks_ := mm_blocks_ m0 ++ blocks ++ [b] |>) with
      (rebuilt_mm (blocks ++ [b]) sb').
    rewrite IH by (done || lia). unfold meta_subs. rewrite meta_blocks_cons, decide_True by done.
    fold b. rewrite <- app_assoc. unfold sb'. rewrite <- app_assoc. done.
Qed.
End rebuild.

(** ** The reconstruction *)

Definition info_key (r : RecoverLogInfo) : Z := Z.lor (rl_remote_addr r) (rl_server_id r).
Definition log_key (e : log_entry) : Z := Z.lor (le_addr e) (le_sid e).

Lemma mm_recover_mm_blocks_run junk s es infos r1 r2 :
  let m0 := (mm s) <| cur_mm_block_idx_ := u32 (-1) |> in
  let subs := meta_subs m0 es in
  recover_log_info_list_ (mm s) = infos ++ [r1; r2] →
  is_meta (lmem (wld s)) (num_replication_ m0) (recover_buf_ (mm s) + sizeof_ClientLogMetaInfo) es →
  Forall (space_wf (Nm.mr_info_list_ (nm s)) (num_replication_ m0)) es →
  Forall (λ e, nth 0 (sp_sids e) 0 < num_memory_ m0) es →
  1 <= num_replication_ m0 <= MAX_REP_NUM →
  Z.of_nat (length es) < REC_SPACE_SIZE / sizeof_ClientMetaAddrInfo →
  info_key r2 ∈ pr_key <$> subs →
  ∃ hd, last (filter (λ sb, pr_key sb = info_key r2) subs) = Some hd ∧
    mm_recover_mm_blocks junk s =
    Done 0 (s <| mm := (rebuilt_mm m0 (info_key r2) (info_key r1) (meta_blocks m0 es) subs)
        <| subblock_free_queue_ := subblock_free_queue_ (mm s) ++ hd ::
             (let qs := unused_of m0 (info_key r2) (info_key r1) subs <$> zrange 0 (num_memory_ m0) in
              round_robin (S (max_queue qs)) qs) |> |>).
Proof.
  intros m0 subs Hi Hm Hw Hs HR Hl Hh.
  apply list_elem_of_fmap in Hh as (sb & Hk & Hsb).
  destruct (last_filter_in (λ sb, pr_key sb = info_key r2) subs sb) as (hd & Eh & _); [done..|].
  exists hd. split; [done|]. unfold mm_recover_mm_blocks. unM. unfold set_mm, modify. cbv beta iota.
  rewrite Hi, length_app. cbn [length].
  rewrite lookup_app_r by lia. replace (length infos + 2 - 1 - length infos)%nat with 1%nat by lia.
  cbn [lookup list_lookup]. cbv beta iota.
  rewrite (proj2 (Nat.ltb_lt 1 (length infos + 2))) by lia.
  rewrite lookup_app_r by lia. replace (length infos + 2 - 2 - length infos)%nat with 0%nat by lia.
  cbn [lookup list_lookup fmap option_fmap option_map default].
  fold (info_key r1) (info_key r2).
  change (s <| mm ::= (λ m, m <| cur_mm_block_idx_ := u32 (-1) |>) |>) with (s <| mm := m0 |>).
  pose proof (recover_loop_run m0 (info_key r2) (info_key r1) ltac:(lia) es s
    (Z.to_nat (REC_SPACE_SIZE / sizeof_ClientMetaAddrInfo))
    (recover_buf_ (mm s) + sizeof_ClientLogMetaInfo) [] [] Hm Hw Hs ltac:(lia) ltac:(lia)) as E.
  assert (Em : rebuilt_mm m0 (info_key r2) (info_key r1) [] [] = m0).
  { unfold rebuilt_mm. cbn [filter last default]. rewrite app_nil_r. done. }
  assert (Eq : rebuilt_queues m0 (info_key r2) (info_key r1) [] =
               (None, replicate (Z.to_nat (num_memory_ (mm s))) [])).
  { unfold rebuilt_queues. f_equal. rewrite (const_fmap _ _ []) by done.
    by rewrite zrange_length, Z.sub_0_r. }
  rewrite Em, Eq, !app_nil_l in E. fold subs in E. unfold id. rewrite E. cbv beta iota.
  unfold rebuilt_queues. cbn [fst snd]. rewrite Eh. done.
Qed.

Lemma is_meta_ext n es : ∀ m1 m2 p1 p2,
  is_meta m1 n p1 es →
  (∀ i, 0 <= i <= Z.of_nat (length es) * sizeof_ClientMetaAddrInfo → m2 (p2 + i) mod 256 = m1 (p1 + i) mod 256) →
  is_meta m2 n p2 es.
Proof.
  assert (Hsz : sizeof_ClientMetaAddrInfo = 96) by done.
  induction es as [|e es IH]; intros m1 m2 p1 p2 H Hi; cbn [is_meta length] in *.
  - rewrite <- H. apply (load_ext 1). intros i Hr. apply Hi. change (Z.of_nat 1) with 1 in Hr. lia.
  - destruct H as [[junk H] H']. split.
    + exists junk. rewrite <- H. apply load_bytes_ext. intros i Hr. apply Hi. lia.
    + apply (IH m1 m2 (p1 + sizeof_ClientMetaAddrInfo)); [done|]. intros i Hr.
      rewrite <- !Z.add_assoc. apply Hi. lia.
Qed.

Lemma meta_subs_nodes m es :
  1 <= num_replication_ m →
  (∀ e, e ∈ es → 0 <= nth 0 (sp_sids e) 0 < num_memory_ m) →
  Forall (λ sb, 0 <= pr_node sb < num_memory_ m) (meta_subs m es).
Proof.
  intros Hn H. unfold meta_subs, meta_blocks. apply List.Forall_concat. rewrite !Forall_fmap.
  apply Forall_forall. intros e [_ He]%list_elem_of_filter.
  cbn. unfold block_subblocks. rewrite Forall_fmap. apply Forall_forall. intros i _. cbn.
  rewrite space_node by done. by apply H.
Qed.

(** The queue of the subblocks that are not in the log. *)
Lemma unused_queue m0 head_key last_key subs :
  0 <= num_memory_ m0 → Forall (λ sb, 0 <= pr_node sb < num_memory_ m0) subs →
  let qs := unused_of m0 head_key last_key subs <$> zrange 0 (num_memory_ m0) in
  round_robin (S (max_queue qs)) qs ≡ₚ filter (λ sb, unused m0 head_key last_key sb) subs.
Proof.
  intros HN Hs. cbv zeta. rewrite round_robin_perm by lia.
  etrans; [apply (concat_classes pr_node (unused m0 head_key last_key)); [done|]|].
  { eapply Forall_impl; [exact Hs|]. cbn. lia. }
  induction Hs as [|sb l Hsb Hl IH]; [done|]. rewrite !filter_cons.
  destruct (decide (unused m0 head_key last_key sb)).
  - rewrite decide_True by (split; [done|lia]). by f_equiv.
  - rewrite decide_False by tauto. exact IH.
Qed.

Lemma log_infos_app base l1 l2 : ∀ cnt,
  log_infos base cnt (l1 ++ l2) = log_infos base cnt l1 ++ log_infos base (cnt + Z.of_nat (length l1)) l2.
Proof.
  induction l1 as [|e l1 IH]; intros cnt; cbn [log_infos app length]; [by rewrite Z.add_0_r|].
  rewrite IH. do 3 f_equal. lia.
Qed.

Section mm_recovery.
Context {F : Fabric} `{HF : !QuietFabric F} (junk : mem) (recover_base recover_lkey : Z).

(** What is in the memories of the nodes, and in the client, when it restarts:
    [l] is its log, [es] what it registered. *)
Record recoverable (s : Sys) (l : list log_entry) (es : list space) : Prop := {
  rc_idle : cq (wld s) = [];
  rc_fresh : recover_log_info_list_ (mm s) = [] ∧ recover_addr_is_allocated_map_ (mm s) = ∅;
  rc_rep : 1 <= num_replication_ (mm s) <= MAX_REP_NUM ∧ 0 <= num_memory_ (mm s);
  rc_buf : 0 <= recover_base ∧ recover_base + REC_SPACE_SIZE <= 2 ^ 64 ∧ subblock_sz_ (mm s) <= CLIENT_META_LEN;
  rc_log : let a := u64 (client_meta_addr_ (mm s) - sizeof_ClientLogMetaInfo) in
    is_log (rmem (wld s)) (subblock_sz_ (mm s))
      (u64 (load64 (rmem (wld s) 0) (a + 8) + u64 (bmap_block_num_ (mm s) * subblock_sz_ (mm s))))
      (load8 (rmem (wld s) 0) a) l;
  rc_log_fits : Z.of_nat (length l) <= max_log_tails;
  rc_nodes : is_Some (Nm.mr_info_list_ (nm s) !! 0%nat) ∧
    Forall (λ e, is_Some (Nm.mr_info_list_ (nm s) !! Z.to_nat (le_sid e))) l;
  rc_meta : let a := u64 (client_meta_addr_ (mm s) - sizeof_ClientLogMetaInfo) in
    is_meta (rmem (wld s) 0) (num_replication_ (mm s)) (a + sizeof_ClientLogMetaInfo) es;
  rc_meta_fits : sizeof_ClientLogMetaInfo + Z.of_nat (length es) * sizeof_ClientMetaAddrInfo < CLIENT_META_LEN;
  rc_spaces : Forall (λ e, space_wf (Nm.mr_info_list_ (nm s)) (num_replication_ (mm s)) e ∧
                           nth 0 (sp_sids e) 0 < num_memory_ (mm s)) es }.

Lemma recovery_prepared (s : Sys) l es :
  recoverable s l es →
  ∃ s1, (_ ← mm_recover_prepare_space recover_base; _ ← mm_get_addr_meta recover_lkey;
         mm_traverse_log recover_lkey) s = Done 0 s1 ∧
    rmem (wld s1) = rmem (wld s) ∧ nm s1 = nm s ∧
    mm s1 = recorded ((mm s) <| recover_buf_ := recover_base |>
                             <| tmp_buf_ := recover_base + CLIENT_META_LEN |>
                             <| log_tail_st_ptr_ := recover_base + 2 * CLIENT_META_LEN |>) 0 l ∧
    is_meta (lmem (wld s1)) (num_replication_ (mm s)) (recover_base + sizeof_ClientLogMetaInfo) es.
Proof.
  intros [Hcq _ _ (Hb0 & Hb1 & Hsz) Hlog Hfit [[mr0 Hmr0] Hmr] Hmeta Hmfit _].
  assert (HC : CLIENT_META_LEN = 1048576 ∧ REC_SPACE_SIZE = 67108864 ∧ sizeof_ClientLogMetaInfo = 24 ∧
               sizeof_ClientMetaAddrInfo = 96) by done.
  destruct HC as (C1 & C2 & C3 & C4).
  unfold mm_recover_prepare_space, mm_get_addr_meta, get_server_rkey, set_mm, modify. unM.
  assert (Eu : u64 (recover_base + CLIENT_META_LEN) = recover_base + CLIENT_META_LEN)
    by (apply Z.mod_small; lia).
  rewrite Eu. assert (Eu2 : u64 (recover_base + CLIENT_META_LEN + CLIENT_META_LEN) =
                            recover_base + 2 * CLIENT_META_LEN)
    by (unfold u64; rewrite Z.mod_small; lia).
  rewrite Eu2. change (Z.to_nat (u8 0)) with 0%nat. 
  set (s0 := s <| mm ::= _ |>).
  change (Nm.mr_info_list_ (nm s0)) with (Nm.mr_info_list_ (nm s)). rewrite Hmr0.
  rewrite read_from_sid_run by exact Hcq.
  set (a := u64 (client_meta_addr_ (mm s0) - sizeof_ClientLogMetaInfo)).
  change (u64 (client_meta_addr_ (mm s) - sizeof_ClientLogMetaInfo)) with a in Hlog, Hmeta.
  set (s1 := after_read _ _ _ _ _).
  set (lm := copy CLIENT_META_LEN (rmem (wld s) 0) a (lmem (wld s)) recover_base).
  assert (EL : ∀ i, 0 <= i < CLIENT_META_LEN → lm (recover_base + i) = rmem (wld s) 0 (a + i)).
  { intros i Hi. unfold lm, copy.
    rewrite (proj2 (Z.leb_le recover_base (recover_base + i))),
      (proj2 (Z.ltb_lt (recover_base + i) (recover_base + CLIENT_META_LEN))) by lia.
    cbn [andb]. f_equal. lia. }
  destruct (mm_traverse_log_run recover_lkey s1 l) as (s2 & E2 & W & N & M2 & _ & _ & L2).
  - done.
  - change (lmem (wld s1)) with lm. change (recover_buf_ (mm s1)) with recover_base.
    change (rmem (wld s1)) with (rmem (wld s)).
    replace (load64 lm (recover_base + 8)) with (load64 (rmem (wld s) 0) (a + 8)).
    2: { unfold load64. apply load_ext. intros i Hi. rewrite <- !Z.add_assoc. rewrite EL by lia. done. }
    replace (load8 lm recover_base) with (load8 (rmem (wld s) 0) a).
    2: { unfold load8. apply load_ext. intros i Hi. rewrite EL by lia. done. }
    exact Hlog.
  - exact Hmr.
  - change (recover_base + CLIENT_META_LEN + subblock_sz_ (mm s) <= recover_base + 2 * CLIENT_META_LEN). lia.
  - exact Hfit.
  - cbv beta iota. exists s2. rewrite E2. split; [done|]. split; [by rewrite W|]. split; [by rewrite N|].
    split; [exact M2|].
    eapply is_meta_ext; [exact Hmeta|]. intros i Hi.
    rewrite L2 by (change (tmp_buf_ (mm s1)) with (recover_base + CLIENT_META_LEN); lia).
    change (lmem (wld s1)) with lm. rewrite <- !Z.add_assoc, EL by lia. done.
Qed.

Lemma filter_unused m0 l e1 e2 (subs : list SubblockInfo) :
  recover_addr_is_allocated_map_ m0 = mark_allocated ∅ (l ++ [e1; e2]) →
  filter (λ sb, unused m0 (log_key e2) (log_key e1) sb) subs =
  filter (λ sb, pr_key sb ∉ log_key <$> l ++ [e1; e2]) subs.
Proof.
  intros Hm. apply list_filter_iff. intros sb. unfold unused. rewrite Hm, mark_allocated_lookup, lookup_empty.
  rewrite list_elem_of_fmap. split.
  - intros (_ & _ & H) (e & He & Hin). apply H. right. by exists e.
  - intros H. split_and!; [intros E; apply H; eexists; split; [exact E|]; set_solver..|].
    intros [?|(e & Hin & E)]; [done|]. apply H. by exists e.
Qed.

Lemma spaces_nodes mrs (m : Cmm.t) es :
  1 <= num_replication_ m →
  Forall (λ e, space_wf mrs (num_replication_ m) e ∧ nth 0 (sp_sids e) 0 < num_memory_ m) es →
  Forall (λ sb, 0 <= pr_node sb < num_memory_ m) (meta_subs m es).
Proof.
  intros HR Hsp. apply meta_subs_nodes; [done|]. intros e He.
  rewrite Forall_forall in Hsp. destruct (Hsp e He) as [[_ Hw] Hlt].
  destruct (Hw 0 ltac:(lia)) as ([Hlo _] & _). change (Z.to_nat 0) with 0%nat in Hlo. lia.
Qed.

(** The rebuilt queue behind its first element. *)
Lemma recovered_rest (m0 : Cmm.t) l e1 e2 subs :
  0 <= num_memory_ m0 → Forall (λ sb, 0 <= pr_node sb < num_memory_ m0) subs →
  recover_addr_is_allocated_map_ m0 = mark_allocated ∅ (l ++ [e1; e2]) →
  let qs := unused_of m0 (log_key e2) (log_key e1) subs <$> zrange 0 (num_memory_ m0) in
  round_robin (S (max_queue qs)) qs ≡ₚ filter (λ sb, pr_key sb ∉ log_key <$> l ++ [e1; e2]) subs.
Proof. intros HN Hs Hm qs. unfold qs. rewrite unused_queue by done. by rewrite (filter_unused m0 l). Qed.

(** The last allocated subblock. *)
Lemma recovered_last d e1 e2 (subs : list SubblockInfo) :
  log_key e1 ∈ pr_key <$> subs → log_key e1 ≠ log_key e2 →
  pr_key (default d (last (filter (λ sb, pr_key sb ≠ log_key e2 ∧ pr_key sb = log_key e1) subs))) = log_key e1.
Proof.
  intros (sb & Hk & Hin)%list_elem_of_fmap Hne.
  destruct (last_filter_in (λ sb, pr_key sb ≠ log_key e2 ∧ pr_key sb = log_key e1) subs sb)
    as (x & -> & [_ Hx] & _); [split; congruence|done|exact Hx].
Qed.

(** C24. The allocator of a restarted client: from the log and the meta area in
    the memories of the nodes, [mm_recovery] ends and rebuilds it.  The blocks
    are the ones the client had registered.  The free queue starts with the
    subblock that ends the log (the one reserved for the next operation) and goes
    on with exactly the subblocks of these blocks that are not in the log, so no
    subblock of the log is ever handed out again and none is lost; the last
    allocated one is the entry before the end of the log. *)
Theorem mm_recovery_correct (s : Sys) (l : list log_entry) (e1 e2 : log_entry) (es : list space) :
  let subs := meta_subs (mm s) es in
  recoverable s (l ++ [e1; e2]) es →
  log_key e1 ∈ pr_key <$> subs → log_key e2 ∈ pr_key <$> subs → log_key e1 ≠ log_key e2 →
  ∃ s' hd rest, mm_recovery junk recover_base recover_lkey s = Done 0 s' ∧
    rmem (wld s') = rmem (wld s) ∧
    mm_blocks_ (mm s') = mm_blocks_ (mm s) ++ meta_blocks (mm s) es ∧
    subblock_free_queue_ (mm s') = subblock_free_queue_ (mm s) ++ hd :: rest ∧
    hd ∈ subs ∧ pr_key hd = log_key e2 ∧
    rest ≡ₚ filter (λ sb, pr_key sb ∉ log_key <$> l ++ [e1; e2]) subs ∧
    pr_key (last_allocated_info_ (mm s')) = log_key e1.
Proof.
  intros subs Hrc H1 H2 Hne.
  destruct (recovery_prepared s _ es Hrc) as (s1 & E1 & W1 & N1 & M1 & HM).
  destruct Hrc as [_ [Hf1 Hf2] [HR HN] _ _ _ _ _ Hmf Hsp].
  assert (HC : REC_SPACE_SIZE / sizeof_ClientMetaAddrInfo = 699050 ∧ CLIENT_META_LEN = 1048576 ∧
               sizeof_ClientLogMetaInfo = 24 ∧ sizeof_ClientMetaAddrInfo = 96) by done.
  destruct HC as (C1 & C2 & C3 & C4).
  set (base := recover_base + 2 * CLIENT_META_LEN) in M1.
  set (ri e c := mkRecoverLogInfo (base + c * sizeof_KVLogTail) (le_klen e) (le_vlen e) (le_addr e) (le_sid e)).
  destruct (mm_recover_mm_blocks_run junk s1 es (log_infos base 0 l) (ri e1 (0 + Z.of_nat (length l)))
    (ri e2 (0 + Z.of_nat (length l) + 1))) as (hd & Eh & E2).
  - rewrite M1. change (recover_log_info_list_ (mm s) ++ log_infos base 0 (l ++ [e1; e2]) =
      log_infos base 0 l ++ [ri e1 (0 + Z.of_nat (length l)); ri e2 (0 + Z.of_nat (length l) + 1)]).
    by rewrite Hf1, log_infos_app.
  - rewrite M1. exact HM.
  - rewrite N1, M1. eapply Forall_impl; [exact Hsp|]. by intros e [].
  - rewrite M1. eapply Forall_impl; [exact Hsp|]. by intros e [].
  - rewrite M1. exact HR.
  - lia.
  - rewrite M1. exact H2.
  - set (m0 := (mm s1) <| cur_mm_block_idx_ := u32 (-1) |>) in *.
    assert (Es : meta_subs m0 es = subs) by (unfold m0; rewrite M1; done).
    rewrite Es in Eh, E2. change (info_key (ri e2 _)) with (log_key e2) in Eh, E2.
    change (info_key (ri e1 _)) with (log_key e1) in E2.
    set (qs := unused_of m0 _ _ subs <$> _) in E2. set (rest := round_robin _ _) in E2.
    match type of E2 with _ = Done 0 ?x => set (s2 := x) in E2 end. exists s2, hd, rest. split.
    { unfold mm_recovery. revert E1. unM.
      destruct (mm_recover_prepare_space recover_base s) as [? t1|? t1]; [|done].
      destruct (mm_get_addr_meta recover_lkey t1) as [? t2|? t2]; [|done].
      intros E1. by rewrite E1, E2. }
    split; [exact W1|].
    split.
    { change (mm_blocks_ (mm s1) ++ meta_blocks m0 es = mm_blocks_ (mm s) ++ meta_blocks (mm s) es).
      unfold m0. by rewrite M1. }
    split.
    { change (subblock_free_queue_ (mm s1) ++ hd :: rest = subblock_free_queue_ (mm s) ++ hd :: rest).
      by rewrite M1. }
    apply last_Some_elem_of in Eh as [Hk Hin]%list_elem_of_filter. split_and!; [done|done|..].
    + apply recovered_rest; unfold m0; rewrite M1;
        [exact HN|apply (spaces_nodes (Nm.mr_info_list_ (nm s)) (mm s) es); [lia|exact Hsp]|].
      change (mark_allocated (recover_addr_is_allocated_map_ (mm s)) (l ++ [e1; e2]) =
              mark_allocated ∅ (l ++ [e1; e2])). by rewrite Hf2.
    + exact (recovered_last (last_allocated_info_ m0) e1 e2 subs H1 Hne).
Qed.
End mm_recovery.

(** ** Example: three entries in a block of six subblocks *)

Definition example_spaces : list space :=
  [mkSpace TYPE_SUBTABLE [mkMrInfo 0x5000 7] [0]; mkSpace TYPE_KVBLOCK [mkMrInfo 0x10000000 7] [0]].

Definition example_node_memory : mem :=
  let m := store64 mem_zero 0x1008 0x10000000 in
  let put m k := store_bytes m (0x1018 + 96 * Z.of_nat k)
    match example_spaces !! k with
    | Some e => meta_info_bytes mem_zero (sp_type e) 1 (sp_mrs e) (sp_sids e)
    | None => [] end in
  let m := put (put m 0%nat) 1%nat in
  example_log_entry 0x10000100 0x10000300 0
    (example_log_entry 0x10000300 0x10000200 0 (example_log_entry 0x10000200 0 0 m)).

Definition example_restart : Sys :=
  blank_sys
  <| wld := mkWorld mem_zero (λ sid, if sid =? 0 then example_node_memory else mem_zero) [] |>
  <| nm ::= λ n, n <| Nm.mr_info_list_ := [mkMrInfo 0 7] |> |>
  <| mm ::= λ m, m <| subblock_sz_ := 256 |> <| subblock_num_ := 6 |> <| bmap_block_num_ := 1 |>
                   <| num_replication_ := 1 |> <| num_memory_ := 1 |>
                   <| client_meta_addr_ := 0x1018 |> |>.

(** The entries of its log. *)
Definition example_e0 : log_entry := mkLogEntry 0x10000100 0 4 2.
Definition example_e1 : log_entry := mkLogEntry 0x10000300 0 4 2.
Definition example_e2 : log_entry := mkLogEntry 0x10000200 0 4 2.

Lemma example_recoverable :
  recoverable 0x100000 example_restart ([example_e0] ++ [example_e1; example_e2]) example_spaces.
Proof.
  split.
  - done.
  - done.
  - done.
  - by vm_compute.
  - vm_compute. intuition congruence.
  - by vm_compute.
  - split; [by eexists|]. repeat constructor; by eexists.
  - split; [exists mem_zero; vm_compute; reflexivity|]. 
    split; [exists mem_zero; vm_compute; reflexivity|]. by vm_compute.
  - by vm_compute.
  - assert (W : ∀ e, e ∈ example_spaces →
      space_wf [mkMrInfo 0 7] 1 e ∧ nth 0 (sp_sids e) 0 < 1).
    { intros e He. split; [split|].
      - repeat (apply elem_of_cons in He as [->|He]; [tauto|]). by apply elem_of_nil in He.
      - intros i Hi. assert (i = 0) as -> by lia.
        repeat (apply elem_of_cons in He as [->|He]; [by vm_compute|]). by apply elem_of_nil in He.
      - repeat (apply elem_of_cons in He as [->|He]; [by vm_compute|]). by apply elem_of_nil in He. }
    by apply Forall_forall.
Qed.

Lemma example_keys :
  log_key example_e1 = 0x10000300 ∧ log_key example_e2 = 0x10000200 ∧
  log_key example_e1 ≠ log_key example_e2 ∧ subblock_free_queue_ (mm example_restart) = [] ∧
  log_key example_e1 ∈ pr_key <$> meta_subs (mm example_restart) example_spaces ∧
  log_key example_e2 ∈ pr_key <$> meta_subs (mm example_restart) example_spaces ∧
  pr_key <$> filter (λ sb, pr_key sb ∉ log_key <$> [example_e0] ++ [example_e1; example_e2])
    (meta_subs (mm example_restart) example_spaces) = [0x10000400; 0x10000500].
Proof.
  split; [done|]. split; [done|]. split; [done|]. split; [done|].
  split; [apply (list_elem_of_lookup_2 _ 2); by vm_compute|].
  split; [apply (list_elem_of_lookup_2 _ 1); by vm_compute|]. vm_compute. reflexivity.
Qed.

Example mm_recovery_correct_witness :
  ∃ s' hd rest,
    mm_recovery (F := quiet_fabric) mem_zero 0x100000 0 example_restart = Done 0 s' ∧
    subblock_free_queue_ (mm s') = [] ++ hd :: rest ∧ pr_key hd = 0x10000200 ∧
    pr_key <$> rest ≡ₚ [0x10000400; 0x10000500] ∧ pr_key (last_allocated_info_ (mm s')) = 0x10000300.
Proof.
  destruct example_keys as (K1 & K2 & Hne & Hq & H1 & H2 & Hf).
  destruct (mm_recovery_correct (F := quiet_fabric) mem_zero 0x100000 0 example_restart
    [example_e0] example_e1 example_e2 example_spaces example_recoverable H1 H2 Hne)
    as (s' & hd & rest & E & _ & _ & Q & _ & K & R & L).
  exists s', hd, rest. rewrite <- K1, <- K2, <- Hf, <- Hq.
  split; [exact E|]. split; [exact Q|]. split; [exact K|]. split; [|exact L].
  apply fmap_Permutation. exact R.
Defined.
