(* ===== verification/ClientConsensus.v ===== *)
(** * Agreement on a slot ([src/src/client.cc])

    A client that modifies a slot swaps it on the backup index replicas first;
    [check_cas_consensus_0] decides from the values swapped back whether it won,
    [modify_backup_idx_consensus_1] makes the winner's value the one of all the
    backups or waits for the winner, and [modify_primary_idx] publishes it on
    the primary.

    The source has every routine twice, one for fibers (post and yield) and one
    synchronous; the two copies differ in the posting calls, which are the
    argument [P : Posting] here, and where they differ otherwise the difference
    is written out. *)

From stdpp Require Import sorting.
From S2P Require Import Prelude Mem KvUtils HashTable ServerMM Server Rdma ClientState Network ClientMM.
From S2P Require Import ClientIndex.

(** ** Posting disciplines *)

Record Posting := mkPosting {
  post_lists : list IbvSrList → M Sys Z;
  post_batch : list (list IbvSrList) → M Sys Z;
  post_unsignaled : list IbvSrList → M Sys Z }.

Definition fiber_posting `{F : Fabric} : Posting :=
  mkPosting post_sr_lists_and_yield_wait post_sr_list_batch_and_yield_wait
            post_sr_lists_unsignaled.
Definition sync_posting `{F : Fabric} : Posting :=
  mkPosting rdma_post_sr_lists_sync rdma_post_sr_list_batch_sync
            rdma_post_sr_lists_sync_unsignaled.

(** ** Counting the votes *)

(** What a backup votes for: a value swapped back that is the expected one, or
    already the target, is a vote for the target. *)
Definition vote_of (expected target swap_back : Z) : Z :=
  if (swap_back =? expected) || (swap_back =? target) then target else swap_back.

(** [std::map<uint64_t, int> win_addr_cnt]: keys in increasing order. *)
Fixpoint add_vote (v : Z) (m : list (Z * Z)) : list (Z * Z) :=
  match m with
  | [] => [(v, 1)]
  | (k, c) :: m' =>
      if v =? k then (k, c + 1) :: m'
      else if v <? k then (v, 1) :: m
      else (k, c) :: add_vote v m'
  end.

Definition tally (votes : list Z) : list (Z * Z) := foldl (λ m v, add_vote v m) [] votes.

(** [win_addr_cnt[v]]: a missing key counts as zero. *)
Fixpoint votes_for (v : Z) (m : list (Z * Z)) : Z :=
  match m with
  | [] => 0
  | (k, c) :: m' => if v =? k then c else votes_for v m'
  end.

(** The loop that finds the value with most votes, the smallest of those. *)
Definition majority (m : list (Z * Z)) : Z * Z :=
  foldl (λ best kc, if best.2 <? kc.2 then kc else best) (u64 (-1), -1) m.

(** The decision without the primary: [KV_CONSENSUS_NON] when there is none. *)
Definition decide_votes (num_idx_rep target : Z) (m : list (Z * Z)) : KVConsensusState :=
  let n := u32 (num_idx_rep - 1) in
  let maj_val := (majority m).1 in
  if votes_for maj_val m =? n then
    if maj_val =? target then KV_CONSENSUS_WIN_ALL else KV_CONSENSUS_FAIL
  else if n <? 2 * votes_for maj_val m then
    if maj_val =? target then KV_CONSENSUS_WIN_MAJOR else KV_CONSENSUS_FAIL
  else if votes_for target m =? 0 then KV_CONSENSUS_FAIL
  else KV_CONSENSUS_NON.

(** The decision with the value read from the primary. *)
Definition decide_primary (orig check_val target : Z) (m : list (Z * Z)) : KVConsensusState :=
  if negb (check_val =? orig) then KV_CONSENSUS_FINISH
  else match m with
       | (k, _) :: _ => if k =? target then KV_CONSENSUS_WIN_LITTLE else KV_CONSENSUS_FAIL
       | [] => KV_CONSENSUS_FAIL
       end.

(** The swaps of the second phase: the backups that voted for another value. *)
Definition lost_backups (expected target : Z) (l : list (KVCASAddr * Z)) : list KVCASAddr :=
  (λ p : KVCASAddr * Z,
    mkKVCASAddr (cas_server_id p.1) (cas_r_kv_addr p.1) (cas_l_kv_addr p.1) (cas_rkey p.1)
      (cas_lkey p.1) p.2 (swap_value p.1))
  <$> filter (λ p : KVCASAddr * Z, (p.2 =? expected) || (p.2 =? target) = false) l.

Section consensus.
Context {F : Fabric}.
(** How many rounds of the wait for the winner are followed; a wait that has not
    ended by then is [Diverges]. *)
Context (spin : nat).

Definition pr_cas (c : KVReqCtx) : M Sys KVCASAddr := of_option (kv_modify_pr_cas_list c !! 0%nat).

Definition check_cas_consensus_0_with (P : Posting) : M Sys unit :=
  c ← get_ctx;
  bk0 ← of_option (kv_modify_bk_0_cas_list c !! 0%nat);
  pr ← pr_cas c;
  let target := swap_value bk0 in
  let expected := orig_value bk0 in
  whenm (negb (target =? swap_value pr) || negb (expected =? orig_value pr)) (stopm Exited) ;;
  m ← get_lmem;
  let backs := (λ a, (a, load64 m (cas_l_kv_addr a))) <$> kv_modify_bk_0_cas_list c in
  set_ctx (λ c, c <| kv_modify_bk_1_cas_list := lost_backups expected target backs |>) ;;
  let cnt := tally (vote_of expected target <$> backs.*2) in
  s ← get;
  match decide_votes (Cl.num_idx_rep_ (cl s)) target cnt with
  | KV_CONSENSUS_NON =>
      c ← get_ctx;
      ls ← gen_read_primary_sr_list c;
      _ ← post_lists P ls;
      check_val ← rd64 (cas_l_kv_addr pr);
      set_ctx (λ c, c <| consensus_state := decide_primary (orig_value pr) check_val target cnt |>)
  | tmp_win => set_ctx (λ c, c <| consensus_state := tmp_win |>)
  end.

Definition check_cas_consensus_0 : M Sys unit := check_cas_consensus_0_with fiber_posting.
Definition check_cas_consensus_0_sync : M Sys unit := check_cas_consensus_0_with sync_posting.

(** Were all the swaps of the second phase successful?  The answer is only
    printed. *)
Definition check_cas_consensus_1 : M Sys Z :=
  c ← get_ctx;
  m ← get_lmem;
  mret (if forallb (λ a, load64 m (cas_l_kv_addr a) =? orig_value a) (kv_modify_bk_1_cas_list c)
        then 0 else 1).

(** The operation byte of the log entry is overwritten on every replica. *)
Definition write_log_unused (P : Posting) : M Sys unit :=
  c ← get_ctx;
  ls ← gen_log_commit_sr_lists (coro_id c) [KVLogOp_val KV_OP_FINISH] (write_unused_addr_list c);
  _ ← post_unsignaled P ls; skip.

Definition finish_lost : M Sys unit :=
  set_ctx (λ c, c <| is_finished := true |> <| ret_val := 0 |>).

(** The wait for the winner, for fibers: the primary is read until its value is
    no longer the original one, or the stop flag is set. *)
Fixpoint wait_primary (fuel : nat) : M Sys unit :=
  match fuel with
  | O => stopm Diverges
  | S fuel' =>
      c ← get_ctx;
      stop ← of_option (should_stop c);
      if stop : bool then skip
      else
        ls ← gen_read_primary_sr_list c;
        _ ← post_sr_lists_and_yield_wait ls;
        pr ← pr_cas c;
        v ← rd64 (cas_l_kv_addr pr);
        if v =? orig_value pr then wait_primary fuel' else skip
  end.

(** The synchronous wait tests the word at [op_laddr]. *)
Fixpoint wait_primary_sync (fuel : nat) : M Sys unit :=
  match fuel with
  | O => stopm Diverges
  | S fuel' =>
      c ← get_ctx;
      ls ← gen_read_primary_sr_list c;
      _ ← rdma_post_sr_lists_sync ls;
      pr ← pr_cas c;
      v ← rd64 (op_laddr c);
      if v =? orig_value pr then wait_primary_sync fuel' else skip
  end.

Definition modify_backup_idx_consensus_1 : M Sys unit :=
  check_cas_consensus_0 ;;
  c ← get_ctx;
  match consensus_state c with
  | KV_CONSENSUS_FINISH => finish_lost ;; write_log_unused fiber_posting
  | KV_CONSENSUS_FAIL =>
      wait_primary spin ;; write_log_unused fiber_posting ;; finish_lost
  | KV_CONSENSUS_WIN_ALL => set_ctx (λ c, c <| is_finished := false |>)
  | _ =>
      _ ← post_sr_list_batch_and_yield_wait
            [gen_cas_sr_lists (coro_id c) (kv_modify_bk_1_cas_list c)];
      _ ← check_cas_consensus_1;
      set_ctx (λ c, c <| is_finished := false |> <| consensus_state := KV_CONSENSUS_WIN_ALL |>)
  end.

Definition modify_backup_idx_consensus_1_sync : M Sys unit :=
  check_cas_consensus_0_sync ;;
  c ← get_ctx;
  match consensus_state c with
  | KV_CONSENSUS_FINISH => finish_lost ;; write_log_unused sync_posting
  | KV_CONSENSUS_FAIL =>
      wait_primary_sync spin ;; write_log_unused sync_posting ;; finish_lost
  | KV_CONSENSUS_WIN_ALL => set_ctx (λ c, c <| is_finished := false |>)
  | _ =>
      _ ← rdma_post_sr_list_batch_sync
            [gen_cas_sr_lists (coro_id c) (kv_modify_bk_1_cas_list c)];
      set_ctx (λ c, c <| is_finished := false |> <| consensus_state := KV_CONSENSUS_WIN_ALL |>)
  end.

(** ** The primary *)

Definition is_update_or_delete (t : KVRequestType) : bool :=
  match t with KV_REQ_UPDATE | KV_REQ_DELETE => true | _ => false end.

(** The slots of a request on every index replica, for the cache. *)
Definition slot_addrs (n : Z) (c : KVReqCtx) : option (list Z) :=
  pr ← kv_modify_pr_cas_list c !! 0%nat;
  bk ← mapM (λ i, cas_r_kv_addr <$> kv_modify_bk_0_cas_list c !! Z.to_nat (i - 1)) (zrange 1 n);
  Some (cas_r_kv_addr pr :: bk).

(** What follows a successful swap of the primary. *)
Definition primary_modified : M Sys unit :=
  set_ctx (λ c, c <| is_finished := true |> <| ret_val := KV_OPS_SUCCESS |>) ;;
  c ← get_ctx;
  pr ← pr_cas c;
  whenm (is_update_or_delete (req_type c)) (mm_free (orig_value pr)) ;;
  if use_cache c then
    if bool_decide (req_type c = KV_REQ_DELETE) then remove_cache (key_str c)
    else
      s ← get;
      addrs ← of_option (slot_addrs (Cl.num_idx_rep_ (cl s)) c);
      update_cache (key_str c) (slot_at (store64 mem_zero 0 (swap_value pr)) 0) addrs
  else skip.

(** What follows a failed one, with a single index replica. *)
Definition primary_lost : M Sys unit :=
  c ← get_ctx;
  match req_type c with
  | KV_REQ_INSERT =>
      set_ctx (λ c, c <| ret_val := KV_OPS_FAIL_REDO |> <| is_finished := true |>) ;;
      mm_free_cur (mm_alloc_ctx c)
  | KV_REQ_UPDATE | KV_REQ_DELETE =>
      set_ctx (λ c, c <| ret_val := KV_OPS_SUCCESS |> <| is_finished := true |>)
  | _ => skip
  end.

(** The requests of the last phase: the swap of the primary and, for an update
    or a deletion, the invalidation of the old block. *)
Definition primary_batch (c : KVReqCtx) : list (list IbvSrList) :=
  gen_cas_sr_lists (coro_id c) (kv_modify_pr_cas_list c)
  :: (if is_update_or_delete (req_type c)
      then [gen_invalid_sr_lists (coro_id c) (kv_invalid_addr c) 0] else []).

(** [strict] is the fiber version's exit when the swap fails although there are
    backup indices. *)
Definition modify_primary_idx_with (P : Posting) (strict : bool) : M Sys unit :=
  c ← get_ctx;
  if bool_decide (consensus_state c = KV_CONSENSUS_FAIL) then
    if bool_decide (req_type c = KV_REQ_INSERT) then
      set_ctx (λ c, c <| ret_val := KV_OPS_FAIL_REDO |>) ;; mm_free_cur (mm_alloc_ctx c)
    else skip
  else
    _ ← post_batch P (primary_batch c);
    pr ← pr_cas c;
    v ← rd64 (cas_l_kv_addr pr);
    s ← get;
    if v =? orig_value pr then primary_modified
    else if strict && negb (Cl.num_idx_rep_ (cl s) =? 1) then stopm Exited
    else primary_lost.

Definition modify_primary_idx : M Sys unit := modify_primary_idx_with fiber_posting true.
Definition modify_primary_idx_sync : M Sys unit := modify_primary_idx_with sync_posting false.

(** ** Committing the log *)

Definition kv_log_commit_with (P : Posting) : M Sys unit :=
  c ← get_ctx;
  pr ← pr_cas c;
  ls ← gen_log_commit_sr_lists (coro_id c) (le_bytes 8 (orig_value pr) ++ [0xFF])
         (log_commit_addr_list c);
  _ ← post_lists P ls;
  set_ctx (λ c, c <| is_finished := false |>).

Definition kv_log_commit : M Sys unit := kv_log_commit_with fiber_posting.
Definition kv_log_commit_sync : M Sys unit := kv_log_commit_with sync_posting.

(** ** Recovery of an operation *)

(** Is the slot of the log entry already in the index that was read?  The scan
    stops at the first match on the primary. *)
Definition recover_scan (s : Sys) (target : Z) : option (list (Z * Z)) :=
  let at_ r (p : Z * Z) := load64 (lmem (wld s))
    (bucket_slot (local_bucket_addr (ctx s) + (r * 4 + p.1) * sizeof_RaceHashBucket) p.2) in
  if existsb (λ p, at_ 0 p =? target) slot_indices then None
  else Some (r ← zrange 1 (Cl.num_idx_rep_ (cl s));
             filter (λ p, at_ r p = target) slot_indices).

Definition check_recover_need_cas_pr (stack : Z) : M Sys unit :=
  c ← get_ctx;
  fill_slot (mm_alloc_ctx c) (hash_info c) stack ;;
  target ← rd64 stack;
  s ← get;
  match recover_scan s target with
  | None => set_ctx (λ c, c <| committed_need_cas_pr := false |>)
  | Some ms =>
      set_ctx (λ c, c <| recover_match_idx_list ::= λ l, l ++ ms |>
        <| has_modified_bk_idx := has_modified_bk_idx c || negb (Nat.eqb (length ms) 0) |>
        <| committed_need_cas_pr :=
             Z.of_nat (length ms) =? u32 (Cl.num_replication_ (cl s) - 1) |>)
  end.
End consensus.

(** ** The count of votes *)

Definition count (v : Z) (l : list Z) : Z := Z.of_nat (length (filter (λ x, x = v) l)).

Lemma count_nil v : count v [] = 0.
Proof. done. Qed.

Lemma count_app v l1 l2 : count v (l1 ++ l2) = count v l1 + count v l2.
Proof. unfold count. rewrite filter_app, length_app. lia. Qed.

Lemma count_one v x : count v [x] = if v =? x then 1 else 0.
Proof.
  unfold count. destruct (decide (x = v)) as [->|Hx].
  - by rewrite filter_cons_True, Z.eqb_refl.
  - rewrite filter_cons_False by done. rewrite (proj2 (Z.eqb_neq v x)) by done. done.
Qed.

Lemma count_cons v x l : count v (x :: l) = (if v =? x then 1 else 0) + count v l.
Proof. change (x :: l) with ([x] ++ l). by rewrite count_app, count_one. Qed.

Lemma count_bound v l : 0 <= count v l <= Z.of_nat (length l).
Proof. unfold count. pose proof (length_filter (λ x, x = v) l). lia. Qed.

(** Two values together have at most all the votes. *)
Lemma count_two v w l : v ≠ w → count v l + count w l <= Z.of_nat (length l).
Proof.
  intros Hvw. induction l as [|x l IH]; [done|]. rewrite !count_cons. cbn [length].
  destruct (v =? x) eqn:E1, (w =? x) eqn:E2; zify_bool; lia.
Qed.

Lemma count_pos v l : 0 < count v l ↔ v ∈ l.
Proof.
  induction l as [|x l IH]; [rewrite count_nil; split; [lia|set_solver]|].
  rewrite count_cons, elem_of_cons. pose proof (count_bound v l).
  destruct (v =? x) eqn:E; zify_bool; naive_solver lia.
Qed.

(** The keys of a tally increase strictly. *)
Definition increasing (m : list (Z * Z)) : Prop := StronglySorted Z.lt m.*1.

Lemma add_vote_keys v m : ∀ k, k ∈ (add_vote v m).*1 ↔ k = v ∨ k ∈ m.*1.
Proof.
  induction m as [|[k c] m IH]; intros k'; cbn [add_vote]; [set_solver|].
  destruct (v =? k) eqn:E; zify_bool; [subst; set_solver|].
  destruct (v <? k); [set_solver|]. cbn [fmap list_fmap fst]. rewrite !elem_of_cons, IH. naive_solver.
Qed.

Lemma add_vote_increasing v m : increasing m → increasing (add_vote v m).
Proof.
  unfold increasing. induction m as [|[k c] m IH]; intros H; cbn [add_vote].
  { repeat constructor. }
  cbn [fmap list_fmap fst] in H. apply StronglySorted_inv in H as [H1 H2].
  destruct (v =? k) eqn:E; zify_bool; [by constructor|].
  destruct (v <? k) eqn:E'; zify_bool; cbn [fmap list_fmap fst].
  - constructor; [by constructor|]. constructor; [lia|].
    eapply Forall_impl; [exact H2|]. intros; lia.
  - constructor; [by apply IH|]. apply Forall_forall. intros x Hx.
    apply add_vote_keys in Hx as [->|Hx]; [lia|]. rewrite Forall_forall in H2. auto.
Qed.

Lemma votes_for_notin v m : v ∉ m.*1 → votes_for v m = 0.
Proof.
  induction m as [|[k c] m IH]; cbn [votes_for fmap list_fmap fst]; [done|]. intros H.
  rewrite (proj2 (Z.eqb_neq v k)) by set_solver. apply IH. set_solver.
Qed.

Lemma votes_for_add v w m :
  increasing m → votes_for v (add_vote w m) = votes_for v m + (if v =? w then 1 else 0).
Proof.
  unfold increasing. induction m as [|[k c] m IH]; intros H; cbn [add_vote votes_for]; [done|].
  cbn [fmap list_fmap fst] in H. apply StronglySorted_inv in H as [H1 H2].
  destruct (w =? k) eqn:E; zify_bool; [subst w; cbn [votes_for]; case_bool; zify_bool; lia|].
  destruct (w <? k) eqn:E'; zify_bool; cbn [votes_for].
  - destruct (v =? w) eqn:E1; zify_bool; [|by rewrite Z.add_0_r]. subst v.
    rewrite (proj2 (Z.eqb_neq w k)) by lia. rewrite votes_for_notin; [lia|].
    intros Hin. rewrite Forall_forall in H2. specialize (H2 w Hin). lia.
  - rewrite IH by done. destruct (v =? k) eqn:E1; [|done]. zify_bool. subst v.
    rewrite (proj2 (Z.eqb_neq k w)) by lia. lia.
Qed.

Lemma tally_snoc l v : tally (l ++ [v]) = add_vote v (tally l).
Proof. unfold tally. by rewrite foldl_app. Qed.

Lemma tally_increasing l : increasing (tally l).
Proof.
  induction l as [|v l IH] using rev_ind; [constructor|].
  rewrite tally_snoc. by apply add_vote_increasing.
Qed.

Lemma tally_keys l k : k ∈ (tally l).*1 ↔ k ∈ l.
Proof.
  induction l as [|v l IH] using rev_ind; [done|].
  rewrite tally_snoc, add_vote_keys, IH. set_solver.
Qed.

Lemma tally_count l v : votes_for v (tally l) = count v l.
Proof.
  induction l as [|w l IH] using rev_ind; [done|].
  rewrite tally_snoc, votes_for_add, IH, count_app, count_one by apply tally_increasing. done.
Qed.

(** The first key is the smallest vote. *)
Lemma tally_head l k c m : tally l = (k, c) :: m → k ∈ l ∧ ∀ v, v ∈ l → k <= v.
Proof.
  intros E. pose proof (tally_increasing l) as Hs. unfold increasing in Hs. rewrite E in Hs.
  cbn [fmap list_fmap fst] in Hs. apply StronglySorted_inv in Hs as [_ Hs]. rewrite Forall_forall in Hs.
  split.
  - apply tally_keys. rewrite E. cbn. set_solver.
  - intros v Hv%tally_keys. rewrite E in Hv. cbn in Hv.
    apply elem_of_cons in Hv as [->|Hv]; [lia|]. specialize (Hs v Hv). lia.
Qed.

Lemma in_votes_for k c m : increasing m → (k, c) ∈ m → votes_for k m = c.
Proof.
  unfold increasing. induction m as [|[k' c'] m IH]; [set_solver|].
  cbn [fmap list_fmap fst votes_for]. intros [H1 H2]%StronglySorted_inv Hin.
  apply elem_of_cons in Hin as [[= -> ->]|Hin]; [by rewrite Z.eqb_refl|].
  rewrite (proj2 (Z.eqb_neq k k')); [by apply IH|].
  rewrite Forall_forall in H2. assert (k' < k); [|lia]. apply H2.
  apply list_elem_of_fmap. by exists (k, c).
Qed.

(** The loop returns an entry of the map with the most votes. *)
Lemma majority_spec m :
  m ≠ [] → Forall (λ kc, 0 < kc.2) m →
  majority m ∈ m ∧ ∀ kc, kc ∈ m → kc.2 <= (majority m).2.
Proof.
  unfold majority. intros Hne Hpos.
  assert (∀ l best, (∀ kc, kc ∈ l → 0 < kc.2) →
    let r := foldl (λ best kc : Z * Z, if best.2 <? kc.2 then kc else best) best l in
    best.2 <= r.2 ∧ (∀ kc, kc ∈ l → kc.2 <= r.2) ∧ (r = best ∨ r ∈ l)) as H.
  { induction l as [|x l IH]; intros best Hl; cbn [foldl].
    - split_and!; [lia|set_solver|by left].
    - destruct (IH (if best.2 <? x.2 then x else best)) as (H1 & H2 & H3); [set_solver|].
      cbv zeta. set (r := foldl _ _ l) in *. destruct (best.2 <? x.2) eqn:E; zify_bool.
      + split_and!; [lia|intros kc [->|?]%elem_of_cons; [lia|auto]|]. right.
        destruct H3 as [->|?]; set_solver.
      + split_and!; [lia|intros kc [->|?]%elem_of_cons; [lia|auto]|].
        destruct H3 as [->|?]; [by left|right; set_solver]. }
  rewrite Forall_forall in Hpos. destruct (H m (u64 (-1), -1) Hpos) as (_ & H2 & H3). split; [|done].
  destruct H3 as [E|E]; [|done]. exfalso. destruct m as [|x m]; [done|].
  specialize (H2 x ltac:(set_solver)). cbv zeta in E. rewrite E in H2. cbn in H2.
  specialize (Hpos x ltac:(set_solver)). lia.
Qed.

Lemma tally_pos l : Forall (λ kc, 0 < kc.2) (tally l).
Proof.
  apply Forall_forall. intros [k c] Hin.
  assert (k ∈ l) as Hk by (apply tally_keys, list_elem_of_fmap; by exists (k, c)).
  apply count_pos in Hk. apply in_votes_for in Hin; [|apply tally_increasing].
  rewrite tally_count in Hin. cbn. lia.
Qed.

(** What a decision of the first phase means, in terms of the votes. *)
Definition decision_sound (target : Z) (votes : list Z) (d : KVConsensusState) : Prop :=
  let n := Z.of_nat (length votes) in
  match d with
  | KV_CONSENSUS_WIN_ALL => count target votes = n
  | KV_CONSENSUS_WIN_MAJOR => count target votes < n ∧ n < 2 * count target votes
  | KV_CONSENSUS_FAIL => count target votes = 0 ∨ ∃ v, v ≠ target ∧ n < 2 * count v votes
  | KV_CONSENSUS_NON => 0 < count target votes ∧ ∀ v, 2 * count v votes <= n
  | _ => False
  end.

Lemma decide_votes_sound N target votes :
  votes ≠ [] → N = Z.of_nat (length votes) + 1 → N < 2 ^ 32 →
  decision_sound target votes (decide_votes N target (tally votes)).
Proof.
  intros Hne -> HN. unfold decide_votes.
  assert (u32 (Z.of_nat (length votes) + 1 - 1) = Z.of_nat (length votes)) as ->.
  { unfold u32. rewrite Z.mod_small; lia. }
  assert (tally votes ≠ []) as Hm.
  { destruct votes as [|v vs]; [done|]. intros E.
    assert (v ∈ (tally (v :: vs)).*1) by (apply tally_keys; set_solver).
    rewrite E in H. set_solver. }
  destruct (majority_spec (tally votes) Hm (tally_pos votes)) as [Hin Hmax].
  destruct (majority (tally votes)) as [mv mc]. cbn [fst snd] in *.
  pose proof (in_votes_for mv mc _ (tally_increasing votes) Hin) as Emc.
  rewrite tally_count in Emc. rewrite !tally_count.
  assert (∀ v, count v votes <= count mv votes) as Hcmax.
  { intros v. destruct (decide (v ∈ votes)) as [Hv|Hv].
    - apply tally_keys in Hv. apply list_elem_of_fmap in Hv as ([k c] & -> & Hkc).
      pose proof (in_votes_for k c _ (tally_increasing votes) Hkc) as E.
      rewrite tally_count in E. specialize (Hmax _ Hkc). cbn in *. lia.
    - rewrite <- count_pos in Hv. pose proof (count_bound mv votes). pose proof (count_bound v votes). lia. }
  assert (0 < Z.of_nat (length votes)) by (destruct votes; [done|cbn; lia]).
  unfold decision_sound.
  destruct (count mv votes =? Z.of_nat (length votes)) eqn:E1; zify_bool.
  { destruct (mv =? target) eqn:E2; zify_bool; [by subst|right; exists mv; split; [done|lia]]. }
  pose proof (count_bound mv votes).
  destruct (Z.of_nat (length votes) <? 2 * count mv votes) eqn:E3; zify_bool.
  { destruct (mv =? target) eqn:E2; zify_bool; [subst; lia|right; exists mv; split; [done|lia]]. }
  pose proof (count_bound target votes).
  destruct (count target votes =? 0) eqn:E4; zify_bool; [by left|].
  split; [lia|]. intros v. specialize (Hcmax v). lia.
Qed.

(** ** What the two disciplines promise *)

(** No completion is outstanding. *)
Definition idle (s : Sys) : Prop := cq (wld s) = [] ∧ Nm.wrid_wc_map_ (nm s) = ∅.

(** A posting discipline returns when every request has been performed. *)
Class PostingOk `{F : Fabric} (P : Posting) : Prop := {
  post_lists_ok ls s : Forall plain_list ls → idle s → post_lists P ls s = Done 0 (posted ls s);
  post_batch_ok b s :
    Forall plain_list (concat b) → idle s → post_batch P b s = Done 0 (posted (concat b) s) }.

#[export] Instance fiber_posting_ok `{F : Fabric} `{!ReliableFabric F} : PostingOk fiber_posting.
Proof.
  split; intros ? s Hp [Hq Hm]; cbn [fiber_posting post_lists post_batch].
  - by apply async_run.
  - rewrite batch_async_concat. by apply async_run.
Qed.
#[export] Instance sync_posting_ok `{F : Fabric} `{!ReliableFabric F} : PostingOk sync_posting.
Proof.
  split; intros ? s Hp [Hq Hm]; cbn [sync_posting post_lists post_batch].
  - by apply sync_run.
  - rewrite batch_sync_concat. by apply sync_run.
Qed.

Lemma posted_idle `{F : Fabric} ls s : idle s → idle (posted ls s).
Proof. intros [_ Hm]. by split. Qed.

Lemma posted_client_side `{F : Fabric} ls s : client_side (posted ls s) = client_side s.
Proof. done. Qed.

(** One request to one node. *)
Lemma posted_one `{F : Fabric} `{!ReliableFabric F} wr sid s :
  ∃ r, wld (posted [mkSrList [wr] sid] s) =
       (apply_op (u8 sid) (wr <| signaled := true |>) ((wld s) <| rmem := r |>)) <| cq := [] |>.
Proof.
  unfold posted. cbn. destruct (post_one (u8 sid) (wr <| signaled := true |>) (wld s)) as [r E].
  exists r. unfold post_chains. cbn. rewrite E. unfold apply_wr. cbn. done.
Qed.

(** The word read by a single 8-byte read. *)
Lemma posted_read_word `{F : Fabric} `{!ReliableFabric F} id la lk ra rk sid s :
  ∃ r : Z → mem,
    load64 (lmem (wld (posted
      [mkSrList [mkWr id (Sge la 8 lk) IBV_WR_RDMA_READ false ra rk 0 0] sid] s))) la =
    load64 (r (u8 sid)) ra.
Proof.
  destruct (posted_one (mkWr id (Sge la 8 lk) IBV_WR_RDMA_READ false ra rk 0 0) sid s) as [r ->].
  exists r. change (load64 (copy 8 (r (u8 sid)) ra (lmem (wld s)) la) la = load64 (r (u8 sid)) ra).
  unfold load64. rewrite load_copy by lia. f_equal. lia.
Qed.

Section check_consensus.
Context {F : Fabric} {HF : ReliableFabric F} (P : Posting) {HP : PostingOk P}.
Context (s : Sys) (pr bk0 : KVCASAddr) (bks : list KVCASAddr).
Hypotheses (Hidle : idle s)
  (Hpr : kv_modify_pr_cas_list (ctx s) !! 0%nat = Some pr)
  (Hbk : kv_modify_bk_0_cas_list (ctx s) = bk0 :: bks)
  (Hswap : swap_value bk0 = swap_value pr) (Horig : orig_value bk0 = orig_value pr)
  (Hn : Cl.num_idx_rep_ (cl s) = Z.of_nat (length (bk0 :: bks)) + 1)
  (HN : Cl.num_idx_rep_ (cl s) < 2 ^ 32).

Definition swapped_back : list (KVCASAddr * Z) :=
  (λ a, (a, load64 (lmem (wld s)) (cas_l_kv_addr a))) <$> bk0 :: bks.
Definition all_votes : list Z :=
  vote_of (orig_value pr) (swap_value pr) <$> swapped_back.*2.

(** The second round of swaps: each backup that answered neither the original
    value nor the client's is swapped from its answer to the client's value. *)
Definition second_round : list KVCASAddr :=
  (λ p : KVCASAddr * Z,
    mkKVCASAddr (cas_server_id p.1) (cas_r_kv_addr p.1) (cas_l_kv_addr p.1) (cas_rkey p.1)
      (cas_lkey p.1) p.2 (swap_value p.1))
  <$> filter (λ p : KVCASAddr * Z, p.2 ≠ orig_value pr ∧ p.2 ≠ swap_value pr) swapped_back.

Lemma lost_backups_second_round :
  lost_backups (orig_value pr) (swap_value pr) swapped_back = second_round.
Proof.
  unfold lost_backups, second_round. f_equal. apply list_filter_iff. intros [a v]. cbn [snd].
  rewrite orb_false_iff, !Z.eqb_neq. done.
Qed.

(** What the state says after the check. *)
Definition consensus_meaning (st : KVConsensusState) : Prop :=
  (st ≠ KV_CONSENSUS_NON ∧ decision_sound (swap_value pr) all_votes st) ∨
  (decision_sound (swap_value pr) all_votes KV_CONSENSUS_NON ∧
   ∃ r : Z → mem,
     let pv := load64 (r (u8 (cas_server_id pr))) (cas_r_kv_addr pr) in
     (pv ≠ orig_value pr ∧ st = KV_CONSENSUS_FINISH) ∨
     (pv = orig_value pr ∧ (∀ v, v ∈ all_votes → swap_value pr <= v) ∧
        st = KV_CONSENSUS_WIN_LITTLE) ∨
     (pv = orig_value pr ∧ (∃ v, v ∈ all_votes ∧ v < swap_value pr) ∧ st = KV_CONSENSUS_FAIL)).

Lemma decide_primary_meaning pv :
  decision_sound (swap_value pr) all_votes KV_CONSENSUS_NON →
  let st := decide_primary (orig_value pr) pv (swap_value pr) (tally all_votes) in
  (pv ≠ orig_value pr ∧ st = KV_CONSENSUS_FINISH) ∨
  (pv = orig_value pr ∧ (∀ v, v ∈ all_votes → swap_value pr <= v) ∧
     st = KV_CONSENSUS_WIN_LITTLE) ∨
  (pv = orig_value pr ∧ (∃ v, v ∈ all_votes ∧ v < swap_value pr) ∧ st = KV_CONSENSUS_FAIL).
Proof.
  intros [Hpos%count_pos _]. unfold decide_primary.
  destruct (pv =? orig_value pr) eqn:E; zify_bool; cbn [negb]; [|by left]. right.
  destruct (tally all_votes) as [|[k c] m] eqn:Et.
  { apply tally_keys in Hpos. rewrite Et in Hpos. set_solver. }
  destruct (tally_head _ _ _ _ Et) as [Hk Hmin].
  destruct (k =? swap_value pr) eqn:Ek; zify_bool.
  - left. subst k. by split_and!.
  - right. split; [done|]. split; [|done]. exists k. split; [done|].
    specialize (Hmin _ Hpos). lia.
Qed.

Lemma check_consensus_run :
  ∃ s', check_cas_consensus_0_with P s = Done tt s' ∧ idle s' ∧
    mm s' = mm s ∧ cl s' = cl s ∧
    ctx s' = (ctx s) <| kv_modify_bk_1_cas_list := second_round |>
                     <| consensus_state := consensus_state (ctx s') |> ∧
    consensus_meaning (consensus_state (ctx s')).
Proof.
  unfold check_cas_consensus_0_with, pr_cas, get_ctx, get_lmem. unM. unfold get.
  rewrite Hbk, Hpr. cbn [lookup list_lookup]. rewrite Hswap, Horig, !Z.eqb_refl. cbn [negb orb].
  unfold set_ctx, modify. cbv beta iota. fold swapped_back.
  rewrite lost_backups_second_round. set (s1 := s <| ctx ::= _ |>). fold all_votes. change (cl s1) with (cl s).
  pose proof (decide_votes_sound (Cl.num_idx_rep_ (cl s)) (swap_value pr) all_votes) as Hd.
  assert (length all_votes = length (bk0 :: bks)) as Hlen.
  { unfold all_votes, swapped_back. by rewrite !length_fmap. }
  specialize (Hd ltac:(by intros E; rewrite E in Hlen) ltac:(rewrite Hlen; done) HN).
  destruct (decide_votes (Cl.num_idx_rep_ (cl s)) (swap_value pr) (tally all_votes)) eqn:Ed;
    try (eexists; split; [reflexivity|]; split_and!; [apply Hidle..|done|done|done|];
         left; split; [done|exact Hd]).
  unfold gen_read_primary_sr_list. unM. cbn [ctx]. change (kv_modify_pr_cas_list (ctx s1)) with
    (kv_modify_pr_cas_list (ctx s)). rewrite Hpr.
  set (ls := [mkSrList _ _]).
  rewrite (post_lists_ok ls s1); [|repeat constructor; done|done].
  unfold rd64, get_lmem. unM. eexists. split; [reflexivity|].
  split; [by apply posted_idle|]. split_and!; [done..|]. cbn [ctx consensus_state].
  right. split; [exact Hd|].
  destruct (posted_read_word (ib_gen_wr_id (coro_id (ctx s1)) (cas_server_id pr) READ_PR_ST_WRID 1)
    (cas_l_kv_addr pr) (cas_lkey pr) (cas_r_kv_addr pr) (cas_rkey pr) (cas_server_id pr) s1)
    as [r Er].
  exists r. rewrite <- Er. by apply decide_primary_meaning.
Qed.
End check_consensus.

(** C12. The decision after the first round of swaps, for both versions of the
    routine and whatever other clients do meanwhile: a backup whose swap
    succeeded (or that already holds the target) votes for the client, any other
    for the value it returned; the client wins all, wins a strict majority, or
    fails when another value has one or nobody voted for it; on a split vote the
    primary decides: its value changed means the round is over, otherwise the
    smallest value wins.  The second-phase swaps are exactly those of the
    backups that voted for another value, from that value to the client's. *)
Theorem check_cas_consensus_0_correct `{F : Fabric} `{HF : !ReliableFabric F} (P : Posting)
    `{HP : !PostingOk P} (s : Sys) (pr bk0 : KVCASAddr) (bks : list KVCASAddr) :
  idle s → kv_modify_pr_cas_list (ctx s) !! 0%nat = Some pr →
  kv_modify_bk_0_cas_list (ctx s) = bk0 :: bks →
  swap_value bk0 = swap_value pr → orig_value bk0 = orig_value pr →
  Cl.num_idx_rep_ (cl s) = Z.of_nat (length (bk0 :: bks)) + 1 →
  Cl.num_idx_rep_ (cl s) < 2 ^ 32 →
  ∃ s', check_cas_consensus_0_with P s = Done tt s' ∧ idle s' ∧
    mm s' = mm s ∧ cl s' = cl s ∧
    ctx s' = (ctx s) <| kv_modify_bk_1_cas_list :=
                          second_round s pr bk0 bks |>
                     <| consensus_state := consensus_state (ctx s') |> ∧
    consensus_meaning s pr bk0 bks (consensus_state (ctx s')).
Proof. intros. by apply check_consensus_run. Qed.

(** Two backups, one won, one lost to the value 5. *)
Definition example_round : Sys :=
  blank_sys <| wld ::= λ w, w <| lmem := store64 (store64 mem_zero 100 3) 108 5 |> |>
    <| cl ::= λ k, k <| Cl.num_idx_rep_ := 3 |> |>
    <| ctx ::= λ c, c <| kv_modify_pr_cas_list := [mkKVCASAddr 0 64 92 0 0 3 4] |>
                      <| kv_modify_bk_0_cas_list :=
                           [mkKVCASAddr 1 64 100 0 0 3 4; mkKVCASAddr 2 64 108 0 0 3 4] |> |>.

Example check_cas_consensus_0_correct_witness :
  ∃ s', check_cas_consensus_0_sync (F := quiet_fabric) example_round = Done tt s' ∧
        kv_modify_bk_1_cas_list (ctx s') = [mkKVCASAddr 2 64 108 0 0 5 4].
Proof.
  destruct (check_cas_consensus_0_correct (F := quiet_fabric) (sync_posting (F := quiet_fabric)) example_round
    (mkKVCASAddr 0 64 92 0 0 3 4) (mkKVCASAddr 1 64 100 0 0 3 4) [mkKVCASAddr 2 64 108 0 0 3 4])
    as (s' & H1 & _ & _ & _ & H2 & _); try reflexivity; [split; reflexivity|].
  exists s'. split; [exact H1|]. rewrite H2. vm_compute. reflexivity.
Defined.

(** ** The swap of the primary *)

(** *** One compare-and-swap *)

(** The request for the swap [a] when [expected] is the value to replace. *)
Definition cas_wr (id : Z) (a : KVCASAddr) (expected : Z) : ibv_send_wr :=
  mkWr id (Sge (cas_l_kv_addr a) 8 (cas_lkey a)) IBV_WR_ATOMIC_CMP_AND_SWP false
    (cas_r_kv_addr a) (cas_rkey a) expected (swap_value a).

Definition cas_node (a : KVCASAddr) : Z := u8 (cas_server_id a).
(** The slot of the swap in given memories, and the memories with the new value. *)
Definition slot_word (r : Z → mem) (a : KVCASAddr) : Z := load64 (r (cas_node a)) (cas_r_kv_addr a).
Definition write_slot (a : KVCASAddr) (r : Z → mem) : Z → mem :=
  upd_rmem r (cas_node a) (store64 (r (cas_node a)) (cas_r_kv_addr a) (swap_value a)).
Definition cas_slot (expected : Z) (a : KVCASAddr) (r : Z → mem) : Z → mem :=
  if slot_word r a =? expected then write_slot a r else r.

(** The state after a swap that met the memories [r]. *)
Definition after_cas (s : Sys) (a : KVCASAddr) (expected : Z) (r : Z → mem) (s' : Sys) : Prop :=
  idle s' ∧ client_side s' = client_side s ∧
  (∀ x, lmem (wld s') x = store64 (lmem (wld s)) (cas_l_kv_addr a) (slot_word r a) x) ∧
  rmem (wld s') = cas_slot expected a r.

Lemma store64_over m1 m a v w :
  (∀ x, m1 x = store64 m a v x) → ∀ x, store64 m1 a w x = store64 m a w x.
Proof.
  intros H x. unfold store64, store in *. specialize (H x). by destruct (_ && _).
Qed.

(** The swap as a posted request: it meets some memories [r], those of the state
    when no other client interferes. *)
Lemma posted_swap `{F : Fabric} id a e s r :
  idle s →
  ibv_post_send (cas_node a) [(cas_wr id a e) <| signaled := true |>] (wld s) =
    apply_wr (cas_node a) ((cas_wr id a e) <| signaled := true |>) ((wld s) <| rmem := r |>) →
  after_cas s a e r (posted [mkSrList [cas_wr id a e] (cas_server_id a)] s).
Proof.
  intros Hid E. split_and!; [by apply posted_idle|done|..];
    unfold posted, post_chains; cbn; fold (cas_node a);
    change (mkWr id _ _ true _ _ e _) with ((cas_wr id a e) <| signaled := true |>);
    rewrite E; reflexivity.
Qed.

Lemma cas_plain id a e : Forall plain_list [mkSrList [cas_wr id a e] (cas_server_id a)].
Proof. constructor; [|constructor]. split; [done|]. by constructor. Qed.

Lemma slot_word_range r a : 0 <= slot_word r a < 2 ^ 64.
Proof. apply (load_range 8). Qed.

Lemma after_cas_word s a e r s' :
  after_cas s a e r s' → load64 (lmem (wld s')) (cas_l_kv_addr a) = slot_word r a.
Proof.
  intros (_ & _ & Hl & _).
  transitivity (load64 (store64 (lmem (wld s)) (cas_l_kv_addr a) (slot_word r a)) (cas_l_kv_addr a)).
  - apply load_ext. intros. by rewrite Hl.
  - rewrite load64_store64_eq. apply Z.mod_small, slot_word_range.
Qed.

Lemma posted_swap_run `{F : Fabric} `{HF : !ReliableFabric F} id a e s :
  idle s → ∃ r, after_cas s a e r (posted [mkSrList [cas_wr id a e] (cas_server_id a)] s).
Proof.
  intros Hid. destruct (post_one (cas_node a) ((cas_wr id a e) <| signaled := true |>) (wld s)) as [r E].
  exists r. by apply posted_swap.
Qed.
Lemma posted_swap_quiet `{F : Fabric} `{HF : !QuietFabric F} id a e s :
  idle s → after_cas s a e (rmem (wld s)) (posted [mkSrList [cas_wr id a e] (cas_server_id a)] s).
Proof. intros Hid. apply posted_swap; [done|]. rewrite quiet_one. by destruct (wld s). Qed.

Lemma update_cache_run key slot addrs s :
  ∃ e, update_cache key slot addrs s =
         Done tt (s <| cl ::= λ k, k <| Cl.addr_cache_ ::= <[key := e]> |> |>) ∧
       ConvertSlotToInt (l_slot_ptr e) = ConvertSlotToInt slot.
Proof.
  unfold update_cache, set_cl. unM. destruct (Cl.addr_cache_ (cl s) !! key) as [e|] eqn:E.
  - set (e' := if ConvertSlotToInt (l_slot_ptr e) =? ConvertSlotToInt slot then e
      else mkLocalCacheEntry (afill (Cl.num_idx_rep_ (cl s)) (aget addrs) (r_slot_addr e)) slot
             (u32 (miss_cnt e + 1)) (acc_cnt e)).
    exists (mkLocalCacheEntry (r_slot_addr e') (l_slot_ptr e') (miss_cnt e') (u32 (acc_cnt e' + 1))).
    split.
    + f_equal. destruct s as [? ? ? k]. unfold set_field. cbn in *. by rewrite E.
    + cbn. unfold e'. destruct (_ =? _) eqn:Ee; [by apply Z.eqb_eq in Ee|done].
  - exists (mkLocalCacheEntry (afill (Cl.num_idx_rep_ (cl s)) (aget addrs) azero) slot 0 1).
    split; [|done]. f_equal. destruct s as [? ? ? k]. unfold set_field. cbn in *.
    by rewrite E.
Qed.

Lemma mm_free_cur_ends c s : ∃ m, mm_free_cur c s = Done tt (s <| mm := m |>).
Proof. eexists. unfold mm_free_cur, set_mm. unM. reflexivity. Qed.

Lemma slot_addrs_ok n c pr :
  kv_modify_pr_cas_list c = [pr] → n = Z.of_nat (length (kv_modify_bk_0_cas_list c)) + 1 →
  ∃ l, slot_addrs n c = Some l.
Proof.
  intros Hpr Hn. unfold slot_addrs. rewrite Hpr. cbn [lookup list_lookup mbind option_bind].
  destruct (mapM _ _) as [bk|] eqn:Ebk; [eauto|]. apply mapM_None, Exists_exists in Ebk.
  destruct Ebk as (i & Hi%elem_of_zrange & Hnone). apply fmap_None, lookup_ge_None in Hnone. lia.
Qed.

(** After the swap an insertion records its success, and the slot in the cache. *)
Lemma primary_modified_insert `{F : Fabric} (s : Sys) (pr : KVCASAddr) :
  kv_modify_pr_cas_list (ctx s) = [pr] → req_type (ctx s) = KV_REQ_INSERT → in_u64 (swap_value pr) →
  Cl.num_idx_rep_ (cl s) = Z.of_nat (length (kv_modify_bk_0_cas_list (ctx s))) + 1 →
  ∃ s', primary_modified s = Done tt s' ∧ is_finished (ctx s') = true ∧
    ret_val (ctx s') = KV_OPS_SUCCESS ∧ mm s' = mm s ∧ wld s' = wld s ∧
    (use_cache (ctx s) = true →
       ∃ e, Cl.addr_cache_ (cl s') !! key_str (ctx s) = Some e ∧
            ConvertSlotToInt (l_slot_ptr e) = swap_value pr).
Proof.
  intros Hpr Hreq Hsw Hn. unfold primary_modified, set_ctx, get_ctx, pr_cas. unM.
  set (s2 := s <| ctx ::= _ |>).
  assert (ctx s2 = (ctx s) <| is_finished := true |> <| ret_val := KV_OPS_SUCCESS |>) as Hc2 by done.
  rewrite Hc2. cbn [kv_modify_pr_cas_list set_field eta_KVReqCtx req_type use_cache key_str].
  rewrite Hpr, Hreq. cbn [lookup list_lookup is_update_or_delete].
  destruct (use_cache (ctx s)) eqn:Ec; cbv beta iota; [|by exists s2].
  rewrite bool_decide_eq_false_2 by done. unfold get.
  destruct (slot_addrs_ok (Cl.num_idx_rep_ (cl s2)) (ctx s2) pr Hpr Hn) as [l El].
  rewrite Hc2 in El. rewrite El.
  destruct (update_cache_run (key_str (ctx s)) (slot_at (store64 mem_zero 0 (swap_value pr)) 0) l s2)
    as (e & -> & He).
  eexists. split; [reflexivity|]. split_and!; try done.
  intros _. exists e. split; [apply lookup_insert_eq|].
  rewrite He, ConvertSlotToInt_at, load64_store64_eq. unfold u64. by apply Z.mod_small.
Qed.

(** The swap of the primary of a request, as it is posted. *)
Definition primary_swap (s : Sys) (pr : KVCASAddr) : ibv_send_wr :=
  cas_wr (ib_gen_wr_id (coro_id (ctx s)) (cas_server_id pr) CAS_ST_WRID (Z.of_nat 0 + 1)) pr (orig_value pr).

(** Publication when the swap meets the memories [r]. *)
Lemma modify_primary_insert_met `{F : Fabric} `{HF : !ReliableFabric F} (P : Posting)
    `{HP : !PostingOk P} (strict : bool) (s : Sys) (pr : KVCASAddr) (r : Z → mem) :
  after_cas s pr (orig_value pr) r (posted [mkSrList [primary_swap s pr] (cas_server_id pr)] s) →
  idle s → kv_modify_pr_cas_list (ctx s) = [pr] → req_type (ctx s) = KV_REQ_INSERT →
  consensus_state (ctx s) ≠ KV_CONSENSUS_FAIL → in_u64 (swap_value pr) →
  Cl.num_idx_rep_ (cl s) = Z.of_nat (length (kv_modify_bk_0_cas_list (ctx s))) + 1 →
  match modify_primary_idx_with P strict s with
  | Done _ s' =>
      is_finished (ctx s') = true ∧
      ((slot_word r pr = orig_value pr ∧ ret_val (ctx s') = KV_OPS_SUCCESS ∧ mm s' = mm s ∧
        rmem (wld s') = write_slot pr r ∧
        (use_cache (ctx s) = true →
           ∃ e, Cl.addr_cache_ (cl s') !! key_str (ctx s) = Some e ∧
                ConvertSlotToInt (l_slot_ptr e) = swap_value pr)) ∨
       (slot_word r pr ≠ orig_value pr ∧ ret_val (ctx s') = KV_OPS_FAIL_REDO ∧ rmem (wld s') = r ∧
        ∃ s1, mm s1 = mm s ∧ mm_free_cur (mm_alloc_ctx (ctx s)) s1 = Done tt s'))
  | Stopped e _ =>
      e = Exited ∧ strict = true ∧ Cl.num_idx_rep_ (cl s) ≠ 1 ∧ slot_word r pr ≠ orig_value pr
  end.
Proof.
  intros Hac Hid Hpr Hreq Hst Hsw Hn. unfold modify_primary_idx_with, get_ctx, pr_cas. unM.
  rewrite bool_decide_eq_false_2 by done. unfold primary_batch. rewrite Hreq, Hpr. cbn [is_update_or_delete].
  set (ls := [gen_cas_sr_lists _ _]).
  rewrite (post_batch_ok ls s); [|repeat constructor; done|done].
  change (posted (concat ls) s) with (posted [mkSrList [primary_swap s pr] (cas_server_id pr)] s).
  pose proof (after_cas_word _ _ _ _ _ Hac) as Hw. destruct Hac as (_ & Hcs & _ & Hr).
  set (s1 := posted _ s) in *. cbn [lookup list_lookup]. clearbody s1.
  unfold rd64, get_lmem. unM. unfold get. rewrite Hw. unfold cas_slot in Hr.
  injection Hcs as Hm1 Hl1 Hc1. destruct (slot_word r pr =? orig_value pr) eqn:Eo; zify_bool.
  - destruct (primary_modified_insert s1 pr) as (s' & -> & Hf & Hrv & Hm & Hwld & Hc);
      [by rewrite Hc1|by rewrite Hc1|done|by rewrite Hl1, Hc1|].
    split; [done|]. left. rewrite Hm, Hwld. rewrite Hc1 in Hc. done.
  - rewrite Hl1. destruct (strict && negb (Cl.num_idx_rep_ (cl s) =? 1)) eqn:Es.
    + zify_bool. done.
    + unfold primary_lost, get_ctx, set_ctx. unM. rewrite Hc1, Hreq. cbv beta iota.
      set (s2 := s1 <| ctx ::= _ |>).
      destruct (mm_free_cur_ends (mm_alloc_ctx (ctx s)) s2) as (m' & E). rewrite E.
      split; [done|]. right. split_and!; [done|done|exact Hr|]. exists s2. split; [exact Hm1|done].
Qed.

(** Publication on the primary, for an insertion that has not lost, in both
    versions and under any interference: the swap acts on the primary slot as it
    is at that moment.  If it still holds the original value, it holds the new
    one afterwards, the request ends with success and the cache, if in use,
    records the new slot; otherwise the remote memories are untouched, and the
    request gives its block back and ends with a demand to redo, except that the
    fiber version exits when there are backup indices. *)
Theorem modify_primary_insert `{F : Fabric} `{HF : !ReliableFabric F} (P : Posting)
    `{HP : !PostingOk P} (strict : bool) (s : Sys) (pr : KVCASAddr) :
  idle s → kv_modify_pr_cas_list (ctx s) = [pr] → req_type (ctx s) = KV_REQ_INSERT →
  consensus_state (ctx s) ≠ KV_CONSENSUS_FAIL → in_u64 (swap_value pr) →
  Cl.num_idx_rep_ (cl s) = Z.of_nat (length (kv_modify_bk_0_cas_list (ctx s))) + 1 →
  ∃ r : Z → mem,
    let sid := u8 (cas_server_id pr) in
    let old := load64 (r sid) (cas_r_kv_addr pr) in
    match modify_primary_idx_with P strict s with
    | Done _ s' =>
        is_finished (ctx s') = true ∧
        ((old = orig_value pr ∧ ret_val (ctx s') = KV_OPS_SUCCESS ∧ mm s' = mm s ∧
          rmem (wld s') = upd_rmem r sid (store64 (r sid) (cas_r_kv_addr pr) (swap_value pr)) ∧
          (use_cache (ctx s) = true →
             ∃ e, Cl.addr_cache_ (cl s') !! key_str (ctx s) = Some e ∧
                  ConvertSlotToInt (l_slot_ptr e) = swap_value pr)) ∨
         (old ≠ orig_value pr ∧ ret_val (ctx s') = KV_OPS_FAIL_REDO ∧ rmem (wld s') = r ∧
          ∃ s1, mm s1 = mm s ∧ mm_free_cur (mm_alloc_ctx (ctx s)) s1 = Done tt s'))
    | Stopped e _ => e = Exited ∧ strict = true ∧ Cl.num_idx_rep_ (cl s) ≠ 1 ∧ old ≠ orig_value pr
    end.
Proof.
  intros Hid. destruct (posted_swap_run (ib_gen_wr_id (coro_id (ctx s)) (cas_server_id pr) CAS_ST_WRID
    (Z.of_nat 0 + 1)) pr (orig_value pr) s Hid) as [r Hac].
  intros. exists r. by apply (modify_primary_insert_met P strict s pr r).
Qed.

(** An insertion with a single index replica, about to publish. *)
Definition example_publish : Sys :=
  blank_sys <| ctx ::= λ c, c <| req_type := KV_REQ_INSERT |>
    <| kv_modify_pr_cas_list := [mkKVCASAddr 0 64 92 0 0 0 77] |> |>.

Example modify_primary_insert_witness :
  match modify_primary_idx_with (sync_posting (F := quiet_fabric)) false example_publish with
  | Done _ s' => is_finished (ctx s') = true
  | Stopped _ _ => False
  end.
Proof.
  destruct (modify_primary_insert (F := quiet_fabric) (sync_posting (F := quiet_fabric)) false
    example_publish (mkKVCASAddr 0 64 92 0 0 0 77)) as [r H];
    [split; reflexivity|reflexivity|reflexivity|discriminate|vm_compute; intuition congruence
    |reflexivity|].
  destruct (modify_primary_idx_with _ _ _) as [[] s'|e s'].
  - exact (proj1 H).
  - destruct H as (_ & H & _). discriminate H.
Defined.
