(* ===== verification/Snapshot.v ===== *)
(** * Replication of a slot: many clients, one value
    ([src/src/client.cc], [check_cas_consensus_0], [modify_backup_idx_consensus_1],
    [modify_primary_idx])

    A step relation for any number of clients that modify the same slot in the
    same round, that is from the same original value.  Requests to different
    nodes are not ordered, so every swap, the read of the primary and the swap of
    the primary are separate steps, interleaved in any way.  The decisions are
    the functions of the client: [vote_of], [tally], [decide_votes] and
    [decide_primary].

    Nothing is assumed of the new values but that they differ from the original
    one.  Insertions and updates point to blocks of their own, so that their
    values are pairwise different; deletions all write 0, so that several clients
    may write the same value.

    The invariant names the client whose swap succeeded first on each backup: the
    winning value is determined by the values of these owners alone, whatever the
    other clients see later. *)

From S2P Require Import Prelude KvUtils Rdma ClientState ClientConsensus.

(** Where a client is: posting its swaps, waiting for the primary after a split
    vote, having won with backups still to be overwritten, having lost, having
    published its value, or having found the primary modified when it was about
    to ([cannot have happened]: the fiber version ends the program, the
    synchronous one returns). *)
Inductive phase :=
  | Swapping | Judging | Won (pending : list nat) | Lost | Published | Late.

Record proto := mkProto {
  primary : Z;
  backups : list Z;
  seen : nat → list (option Z);   (** the value each backup returned *)
  ph : nat → phase }.

Definition upd {A} (f : nat → A) (c : nat) (x : A) : nat → A :=
  λ d, if decide (d = c) then x else f d.

Lemma upd_eq {A} (f : nat → A) c x : upd f c x c = x.
Proof. unfold upd. by rewrite decide_True. Qed.
Lemma upd_ne {A} (f : nat → A) c d x : d ≠ c → upd f c x d = f d.
Proof. intros. unfold upd. by rewrite decide_False. Qed.

Section snapshot.
Context (orig : Z) (T : nat → Z).

(** The votes a client counts, when every backup has answered. *)
Definition votes_of (p : proto) (c : nat) : list Z :=
  (λ o, vote_of orig (T c) (default orig o)) <$> seen p c.

(** The backups to overwrite: [kv_modify_bk_1_cas_list]. *)
Definition lost_at (p : proto) (c i : nat) : bool :=
  match seen p c !! i with
  | Some (Some v) => negb ((v =? orig) || (v =? T c))
  | _ => false
  end.
Definition to_overwrite (p : proto) (c : nat) : list nat :=
  filter (λ i, lost_at p c i = true) (seq 0 (length (seen p c))).

Definition all_seen (p : proto) (c : nat) : Prop := ∀ i o, seen p c !! i = Some o → is_Some o.

Definition set_ph (p : proto) (c : nat) (x : phase) : proto :=
  mkProto (primary p) (backups p) (seen p) (upd (ph p) c x).

Definition num_idx_rep (p : proto) : Z := Z.of_nat (length (backups p)) + 1.

(** A step of client [c]. *)
Inductive step (c : nat) : proto → proto → Prop :=
  | step_swap p i v :
      ph p c = Swapping → seen p c !! i = Some None → backups p !! i = Some v →
      step c p (mkProto (primary p)
                (if decide (v = orig) then <[i := T c]> (backups p) else backups p)
                (upd (seen p) c (<[i := Some v]> (seen p c))) (ph p))
  | step_judge p :
      ph p c = Swapping → all_seen p c →
      step c p (set_ph p c
        match decide_votes (num_idx_rep p) (T c) (tally (votes_of p c)) with
        | KV_CONSENSUS_WIN_ALL | KV_CONSENSUS_WIN_MAJOR => Won (to_overwrite p c)
        | KV_CONSENSUS_NON => Judging
        | _ => Lost
        end)
  | step_read_primary p :
      ph p c = Judging →
      step c p (set_ph p c
        match decide_primary orig (primary p) (T c) (tally (votes_of p c)) with
        | KV_CONSENSUS_WIN_LITTLE => Won (to_overwrite p c)
        | _ => Lost
        end)
  | step_overwrite p i pend v w :
      ph p c = Won (i :: pend) → seen p c !! i = Some (Some v) → backups p !! i = Some w →
      step c p (mkProto (primary p)
                (if decide (w = v) then <[i := T c]> (backups p) else backups p)
                (seen p) (upd (ph p) c (Won pend)))
  | step_publish p :
      ph p c = Won [] →
      step c p (mkProto (if decide (primary p = orig) then T c else primary p) (backups p)
                (seen p) (upd (ph p) c (if decide (primary p = orig) then Published else Late))).

(** A step of some client; the states of a round with [n] backups. *)
Definition moves (p q : proto) : Prop := ∃ c, step c p q.

Definition init (n : nat) : proto :=
  mkProto orig (replicate n orig) (λ _, replicate n None) (λ _, Swapping).

Definition reachable (n : nat) (p : proto) : Prop := rtc moves (init n) p.

(** ** The invariant *)

(** The backups a client that got past the decision still has to overwrite. *)
Definition pending (x : phase) : option (list nat) :=
  match x with Won l => Some l | Published | Late => Some [] | _ => None end.
Definition won (p : proto) (c : nat) : Prop := is_Some (pending (ph p c)).

(** Value [v] wins when every backup has an owner and the owners' votes say so. *)
Definition wins (own : list (option nat)) (v : Z) : Prop :=
  ∃ os, own = Some <$> os ∧
    (2 * count v (T <$> os) > Z.of_nat (length os) ∨
     ((∀ u, 2 * count u (T <$> os) <= Z.of_nat (length os)) ∧ v ∈ T <$> os ∧
      ∀ o, o ∈ os → v <= T o)).

(** A value that comes from client [o] or from somebody past the decision. *)
Definition from (p : proto) (o : nat) (v : Z) : Prop := v = T o ∨ ∃ w, won p w ∧ v = T w.

Record inv (n : nat) (p : proto) (own : list (option nat)) : Prop := {
  inv_len : length (backups p) = n ∧ length own = n ∧ ∀ c, length (seen p c) = n;
  inv_free i : own !! i = Some None → backups p !! i = Some orig;
  inv_owned i o : own !! i = Some (Some o) → ∃ v, backups p !! i = Some v ∧ from p o v;
  inv_own_seen i o : own !! i = Some (Some o) → seen p o !! i = Some (Some orig);
  inv_seen c i v : seen p c !! i = Some (Some v) →
    ∃ o, own !! i = Some (Some o) ∧
      ((v = orig ∧ o = c) ∨ (o ≠ c ∧ from p o v ∧ (v = T o ∨ backups p !! i = Some v)));
  inv_done c : ph p c ≠ Swapping → all_seen p c;
  inv_judging c : ph p c = Judging →
    decide_votes (num_idx_rep p) (T c) (tally (votes_of p c)) = KV_CONSENSUS_NON;
  inv_won c : won p c → wins own (T c);
  inv_lost c : ph p c = Lost → wins own (T c) → primary p = T c;
  inv_pending c pend i : ph p c = Won pend → i ∈ pend →
    ∃ v, seen p c !! i = Some (Some v) ∧ v ≠ orig ∧ v ≠ T c ∧
      (backups p !! i = Some v ∨ backups p !! i = Some (T c));
  inv_rest c pend i : pending (ph p c) = Some pend →
    (i < n)%nat → i ∉ pend → backups p !! i = Some (T c);
  inv_primary : (primary p = orig ∧ ∀ c, ph p c ≠ Published ∧ ph p c ≠ Late) ∨
                ∃ c, ph p c = Published ∧ primary p = T c }.

Hypothesis (T_new : ∀ c, T c ≠ orig).

Lemma count_mono v l1 l2 : Forall2 (λ a b, a = v → b = v) l1 l2 → count v l1 <= count v l2.
Proof.
  induction 1 as [|a b l1 l2 H _ IH]; [done|]. rewrite !count_cons.
  destruct (v =? a) eqn:E1, (v =? b) eqn:E2; zify_bool; try lia.
Qed.

Lemma wins_unique own u v : wins own u → wins own v → u = v.
Proof.
  intros (os & -> & Hc) (os' & E & Hd).
  assert (os' = os) as -> by (symmetry; by apply (inj (fmap Some))).
  destruct (decide (u = v)) as [|HT]; [done|]. exfalso.
  pose proof (count_two u v (T <$> os) HT) as H2. rewrite length_fmap in H2.
  destruct Hc as [Hc|(Hc & (a & -> & Ha)%list_elem_of_fmap & Hcm)],
    Hd as [Hd|(Hd & (b & -> & Hb)%list_elem_of_fmap & Hdm)].
  - lia.
  - specialize (Hd u). lia.
  - specialize (Hc v). lia.
  - specialize (Hcm _ Hb). specialize (Hdm _ Ha). apply HT. lia.
Qed.

Lemma from_new p o v : from p o v → v ≠ orig.
Proof. intros [->|(w & _ & ->)]; apply T_new. Qed.

Lemma from_mono p q o v : (∀ w, won p w → won q w) → from p o v → from q o v.
Proof. intros H [?|(w & ? & ?)]; [by left|right; eauto]. Qed.

Section view.
Context (n : nat) (p : proto) (own : list (option nat)) (c : nat).
Hypotheses (HI : inv n p own) (Hseen : all_seen p c).

Lemma owners_known : ∃ os, own = Some <$> os ∧ length os = n.
Proof.
  pose proof (inv_len _ _ _ HI) as (Hl1 & Hl2 & Hl3).
  assert (Forall is_Some own) as Hall.
  { apply Forall_lookup. intros i o Ho.
    assert (i < n)%nat by (rewrite <- Hl2; by eapply lookup_lt_Some).
    destruct (lookup_lt_is_Some_2 (seen p c) i) as [x Hx]; [rewrite Hl3; lia|].
    destruct (Hseen i x Hx) as [v ->]. destruct (inv_seen _ _ _ HI c i v Hx) as (o' & Ho' & _).
    rewrite Ho in Ho'. injection Ho' as ->. eauto. }
  exists (omap id own). split; [|rewrite <- Hl2].
  - clear -Hall. induction Hall as [|o own [x ->] _ IH]; [done|]. cbn. f_equal. exact IH.
  - clear -Hall. induction Hall as [|o own [x ->] _ IH]; [done|]. cbn. by rewrite IH.
Qed.

(** What the client counts for a backup: its owner's value or a winner's. *)
Lemma votes_view os : own = Some <$> os → Forall2 (λ v o, from p o v) (votes_of p c) os.
Proof.
  intros Hos. pose proof (inv_len _ _ _ HI) as (Hl1 & Hl2 & Hl3).
  apply Forall2_same_length_lookup. unfold votes_of. rewrite length_fmap, Hl3.
  split; [by rewrite <- Hl2, Hos, length_fmap|]. intros i v o Hv Ho.
  rewrite list_lookup_fmap in Hv. apply fmap_Some in Hv as (x & Hx & ->).
  destruct (Hseen i x Hx) as [sv ->]. change (default orig (Some sv)) with sv.
  destruct (inv_seen _ _ _ HI c i sv Hx) as (o' & Ho' & Hc).
  rewrite Hos, list_lookup_fmap, Ho in Ho'. injection Ho' as <-.
  unfold vote_of. destruct Hc as [[-> ->]|(_ & Hf & _)]; [rewrite Z.eqb_refl; by left|].
  rewrite (proj2 (Z.eqb_neq _ orig)) by (by eapply from_new).
  cbn [orb]. destruct (sv =? T c) eqn:E; [|done]. apply Z.eqb_eq in E. by rewrite E in Hf.
Qed.

Lemma votes_length : length (votes_of p c) = n.
Proof. unfold votes_of. rewrite length_fmap. apply (inv_len _ _ _ HI). Qed.

Lemma votes_decision :
  (0 < n)%nat → Z.of_nat n + 1 < 2 ^ 32 →
  decision_sound (T c) (votes_of p c) (decide_votes (num_idx_rep p) (T c) (tally (votes_of p c))).
Proof.
  intros Hn Hn32. pose proof votes_length as Hvl.
  assert (num_idx_rep p = Z.of_nat (length (votes_of p c)) + 1) as HN.
  { unfold num_idx_rep. by rewrite Hvl, (proj1 (inv_len _ _ _ HI)). }
  apply decide_votes_sound; [|done|rewrite HN, Hvl; lia].
  intros E. rewrite E in Hvl. cbn in Hvl. lia.
Qed.

(** A strict majority of the votes is one of the owners, unless the value has
    already won. *)
Lemma majority_wins : Z.of_nat n < 2 * count (T c) (votes_of p c) → wins own (T c).
Proof.
  intros Hm. destruct owners_known as (os & Hos & Hlen).
  assert (Forall2 (λ v o, v = T c → T o = T c) (votes_of p c) os ∨ ∃ w, won p w ∧ T w = T c)
    as [Hall|(w & Hw & <-)].
  { pose proof (votes_view os Hos) as Hview. clear -Hview.
    induction Hview as [|v o vs os H _ [IH|?]]; [by left; constructor| |by right].
    destruct H as [->|(w & Hw & ->)]; [left; by constructor|].
    destruct (decide (T w = T c)); [right; eauto|left; by constructor]. }
  - exists os. split; [done|]. left.
    assert (count (T c) (votes_of p c) <= count (T c) (T <$> os)); [|lia].
    by apply count_mono, Forall2_fmap_r.
  - by apply (inv_won _ _ _ HI).
Qed.

(** A split vote in which the client has the smallest value. *)
Lemma smallest_wins :
  (∀ v, 2 * count v (votes_of p c) <= Z.of_nat n) → 0 < count (T c) (votes_of p c) →
  (∀ v, v ∈ votes_of p c → T c <= v) → wins own (T c).
Proof.
  intros Hno Hpos Hmin. destruct owners_known as (os & Hos & Hlen).
  pose proof (votes_view os Hos) as Hview.
  assert (votes_of p c = T <$> os ∨ ∃ w, won p w) as [E|(w & Hw)].
  { clear -Hview. induction Hview as [|v o vs os H _ [->|?]]; [by left| |by right].
    destruct H as [->|(w & Hw & _)]; [by left|right; eauto]. }
  { rewrite E in *. exists os. split; [done|]. right. rewrite Hlen. split_and!; [done| |].
    - by apply count_pos.
    - intros o Ho. apply Hmin. by apply list_elem_of_fmap_2. }
  pose proof (inv_won _ _ _ HI w Hw) as Hwin.
  destruct (decide (T w = T c)) as [<-|Hne]; [done|]. exfalso.
  assert (∀ w', won p w' → T w' = T w) as Hsame.
  { intros w' Hw'. eapply wins_unique; by apply (inv_won _ _ _ HI). }
  pose proof Hwin as (os' & Hos' & Hcase).
  assert (os' = os) as -> by (apply (inj (fmap Some)); congruence).
  (* a backup owned by the winning value is counted for it *)
  assert (count (T w) (T <$> os) <= count (T w) (votes_of p c)) as Hcnt.
  { apply count_mono, Forall2_flip, Forall2_fmap_r. eapply Forall2_impl; [exact Hview|].
    intros v o [->|(w' & Hw' & ->)] E; [done|by apply Hsame]. }
  destruct Hcase as [Hmaj|(_ & (o & Eo & Ho)%list_elem_of_fmap & Hwmin)].
  - specialize (Hno (T w)). lia.
  - assert (T w ∈ votes_of p c) as Hv.
    { apply count_pos. eapply Z.lt_le_trans; [|exact Hcnt]. rewrite Eo.
      by apply count_pos, list_elem_of_fmap_2. }
    specialize (Hmin _ Hv). apply count_pos, list_elem_of_lookup in Hpos as [i Hi].
    destruct (Forall2_lookup_l _ _ _ _ _ Hview Hi) as (o' & Ho' & [E|(w' & Hw' & E)]).
    + apply list_elem_of_lookup_2 in Ho'. specialize (Hwmin _ Ho'). lia.
    + specialize (Hsame w' Hw'). congruence.
Qed.

(** A client with the winning value sees the owners' votes, and more for itself
    where another client with this value has overwritten a backup. *)
Lemma rightful_votes os :
  own = Some <$> os → wins own (T c) →
  Forall2 (λ v o, v = T o ∨ v = T c) (votes_of p c) os.
Proof.
  intros Hos Hwin. eapply Forall2_impl; [by apply votes_view|].
  intros v o [?|(w & Hw & ->)]; [by left|right].
  eapply wins_unique; [by apply (inv_won _ _ _ HI)|done].
Qed.

Lemma rightful_decides :
  (0 < n)%nat → Z.of_nat n + 1 < 2 ^ 32 → wins own (T c) →
  match decide_votes (num_idx_rep p) (T c) (tally (votes_of p c)) with
  | KV_CONSENSUS_WIN_ALL | KV_CONSENSUS_WIN_MAJOR => True
  | KV_CONSENSUS_NON => ∀ v, v ∈ votes_of p c → T c <= v
  | _ => False
  end.
Proof.
  intros Hn Hn32 Hwin. pose proof (votes_decision Hn Hn32) as Hd. pose proof votes_length as Hvl.
  pose proof Hwin as (os & Hos & Hcase). pose proof (rightful_votes os Hos Hwin) as Hv.
  assert (length os = length (votes_of p c)) as Hlen by (symmetry; by eapply Forall2_length).
  assert (count (T c) (T <$> os) <= count (T c) (votes_of p c)) as Hown.
  { apply count_mono, Forall2_flip, Forall2_fmap_r. eapply Forall2_impl; [exact Hv|]. naive_solver. }
  assert (∀ v, v ≠ T c → count v (votes_of p c) <= count v (T <$> os)) as Hoth.
  { intros v Hne. apply count_mono, Forall2_fmap_r. eapply Forall2_impl; [exact Hv|]. naive_solver. }
  unfold decision_sound in Hd. rewrite Hlen in Hcase.
  destruct (decide_votes _ _ _); try done.
  - destruct Hd as [H0|(v & Hne & Hm)]; destruct Hcase as [Hc|(Hc & Hcos & _)].
    + lia.
    + apply count_pos in Hcos. lia.
    + pose proof (count_two (T c) v (votes_of p c) ltac:(done)). lia.
    + specialize (Hc v). specialize (Hoth v Hne). lia.
  - destruct Hcase as [Hc|(_ & _ & Hmin)].
    + destruct Hd as [_ Hd]. specialize (Hd (T c)). lia.
    + intros v (i & Hi)%list_elem_of_lookup.
      destruct (Forall2_lookup_l _ _ _ _ _ Hv Hi) as (o & Ho & [->| ->]); [|lia].
      apply Hmin. by eapply list_elem_of_lookup_2.
Qed.

(** What a client with the winning value finds on the backups: the ones it lost
    hold what it saw or its value already, the others hold its value. *)
Lemma winner_backups :
  wins own (T c) →
  (∀ i, i ∈ to_overwrite p c → ∃ v, seen p c !! i = Some (Some v) ∧ v ≠ orig ∧ v ≠ T c ∧
     (backups p !! i = Some v ∨ backups p !! i = Some (T c))) ∧
  (∀ i, (i < n)%nat → i ∉ to_overwrite p c → backups p !! i = Some (T c)).
Proof.
  intros Hwin. pose proof (inv_len _ _ _ HI) as (Hl1 & Hl2 & Hl3).
  assert (∀ w, won p w → T w = T c) as Hsame.
  { intros w Hw. eapply wins_unique; [by apply (inv_won _ _ _ HI)|done]. }
  assert (∀ i o, own !! i = Some (Some o) →
    backups p !! i = Some (T o) ∨ backups p !! i = Some (T c)) as Hb.
  { intros i o Ho. destruct (inv_owned _ _ _ HI i o Ho) as (v & Hv & [->|(w & Hw & ->)]); [by left|].
    right. by rewrite <- (Hsame w Hw). }
  assert (∀ i, i ∈ to_overwrite p c ↔ lost_at p c i = true) as Hto.
  { intros i. unfold to_overwrite. rewrite list_elem_of_filter, elem_of_seq, Hl3. split; [tauto|].
    intros H. split; [done|]. unfold lost_at in H. destruct (seen p c !! i) eqn:E; [|done].
    apply lookup_lt_Some in E. rewrite Hl3 in E. lia. }
  split.
  - intros i Hl%Hto. unfold lost_at in Hl. destruct (seen p c !! i) as [[v|]|] eqn:Ev; try done.
    apply negb_true_iff, orb_false_iff in Hl as [H1%Z.eqb_neq H2%Z.eqb_neq].
    exists v. split_and!; [done..|].
    destruct (inv_seen _ _ _ HI c i v Ev) as (o & Ho & [[? _]|(_ & [->|(w & Hw & ->)] & _)]);
      [done|by apply Hb|by rewrite Hsame in H2].
  - intros i Hi Hnin. rewrite Hto in Hnin.
    destruct (lookup_lt_is_Some_2 (seen p c) i) as [x Hx]; [rewrite Hl3; lia|].
    destruct (Hseen i x Hx) as [v ->]. unfold lost_at in Hnin. rewrite Hx in Hnin.
    destruct (inv_seen _ _ _ HI c i v Hx) as (o & Ho & [[_ ->]|(_ & Hf & Hv)]);
      [by destruct (Hb i c Ho)|].
    rewrite (proj2 (Z.eqb_neq _ orig)) in Hnin by (by eapply from_new).
    destruct (v =? T c) eqn:E; zify_bool; [subst v|done].
    destruct Hv as [Hv|Hv]; [|done]. destruct (Hb i o Ho); congruence.
Qed.
End view.

(** ** Every step preserves the invariant *)

Lemma won_set_ph p c x w : ¬ won p c → won p w → won (set_ph p c x) w.
Proof.
  unfold won, set_ph. cbn. intros Hc Hw. destruct (decide (w = c)) as [->|]; [done|].
  by rewrite upd_ne.
Qed.

Lemma won_upd pr bs sn p c x w :
  won p c → is_Some (pending x) → won (mkProto pr bs sn (upd (ph p) c x)) w ↔ won p w.
Proof.
  intros Hc Hx. unfold won. cbn. destruct (decide (w = c)) as [->|]; [by rewrite upd_eq|].
  by rewrite upd_ne.
Qed.

(** All the clients past the decision have the same value. *)
Lemma won_same n p own c d : inv n p own → won p c → won p d → T c = T d.
Proof. intros HI Hc Hd. eapply wins_unique; by apply (inv_won _ _ _ HI). Qed.

(** The primary holds the original value or the winning one. *)
Lemma primary_cases n p own c :
  inv n p own → wins own (T c) → primary p = orig ∨ primary p = T c.
Proof.
  intros HI Hwin. destruct (inv_primary _ _ _ HI) as [[? _]|(d & Hd & ->)]; [by left|right].
  eapply wins_unique; [apply (inv_won _ _ _ HI)|done]. unfold won. rewrite Hd. by eexists.
Qed.

(** A client that has not won moves to another phase. *)
Lemma set_ph_inv n p own c x :
  inv n p own → ¬ won p c → all_seen p c → x ≠ Swapping → x ≠ Published → x ≠ Late →
  (x = Judging → decide_votes (num_idx_rep p) (T c) (tally (votes_of p c)) = KV_CONSENSUS_NON) →
  (∀ pend, x = Won pend → pend = to_overwrite p c ∧ wins own (T c)) →
  (x = Lost → wins own (T c) → primary p = T c) →
  inv n (set_ph p c x) own.
Proof.
  intros HI Hnot Hall Hx1 Hx2 Hx3 HxJ HxW HxL.
  pose proof HI as [Hlen Hfree Hown Hos Hs Hdone Hj Hw Hlost Hpend Hrest Hpr].
  assert (∀ w, won p w → won (set_ph p c x) w) as Hmono by (intros; by apply won_set_ph).
  split; cbn [set_ph primary backups seen ph].
  - done.
  - done.
  - intros i o Ho. destruct (Hown i o Ho) as (v & Hv & Hf). eauto using from_mono.
  - done.
  - intros d i v Hv. destruct (Hs d i v Hv) as (o & Ho & Hcase). exists o. split; [done|].
    destruct Hcase as [?|(? & ? & ?)]; [by left|right]. eauto using from_mono.
  - intros d. destruct (decide (d = c)) as [->|]; [done|]. rewrite upd_ne by done. apply Hdone.
  - intros d. destruct (decide (d = c)) as [->|]; [rewrite upd_eq; exact HxJ|].
    rewrite upd_ne by done. apply Hj.
  - intros d. unfold won. cbn. destruct (decide (d = c)) as [->|].
    + rewrite upd_eq. destruct x; try done; intros [? E]; try done. by eapply HxW.
    + rewrite upd_ne by done. apply Hw.
  - intros d. destruct (decide (d = c)) as [->|]; [rewrite upd_eq; exact HxL|].
    rewrite upd_ne by done. apply Hlost.
  - intros d pend i. destruct (decide (d = c)) as [->|].
    + rewrite upd_eq. intros E. destruct (HxW pend E) as [-> Hwin].
      by apply (winner_backups n p own c HI Hall).
    + rewrite upd_ne by done. apply Hpend.
  - intros d pend i. destruct (decide (d = c)) as [->|].
    + rewrite upd_eq. intros E. destruct x; simplify_eq/=. destruct (HxW pend eq_refl) as [-> Hwin].
      by apply (winner_backups n p own c HI Hall).
    + rewrite upd_ne by done. apply Hrest.
  - destruct Hpr as [[Hp1 Hp2]|(d & Hd & Hp)].
    + left. split; [done|]. intros d. destruct (decide (d = c)) as [->|];
        [by rewrite upd_eq|by rewrite upd_ne].
    + right. exists d. split; [|done]. rewrite upd_ne; [done|]. intros ->.
      apply Hnot. unfold won. rewrite Hd. by eexists.
Qed.

Lemma not_won_yet p c : ph p c = Swapping ∨ ph p c = Judging → ¬ won p c.
Proof. unfold won. intros [-> | ->] [? ?]; done. Qed.

Lemma judge_inv n p own c :
  (0 < n)%nat → Z.of_nat n + 1 < 2 ^ 32 → inv n p own → ph p c = Swapping → all_seen p c →
  inv n (set_ph p c
    match decide_votes (num_idx_rep p) (T c) (tally (votes_of p c)) with
    | KV_CONSENSUS_WIN_ALL | KV_CONSENSUS_WIN_MAJOR => Won (to_overwrite p c)
    | KV_CONSENSUS_NON => Judging
    | _ => Lost
    end) own.
Proof.
  intros Hn Hn32 HI Hph Hall. pose proof (votes_length n p own c HI) as Hvl.
  pose proof (votes_decision n p own c HI Hn Hn32) as Hd. unfold decision_sound in Hd. rewrite Hvl in Hd.
  assert (¬ won p c) as Hnot by (apply not_won_yet; auto).
  pose proof (rightful_decides n p own c HI Hall Hn Hn32) as Hr.
  destruct (decide_votes _ _ _) eqn:E; apply set_ph_inv; try done;
    try (intros _ Hwin; by destruct (Hr Hwin));
    intros pend [= <-]; (split; [done|]); apply (majority_wins n p own c HI Hall); lia.
Qed.

(** A split vote and an unmodified primary make a client with the winning value
    win. *)
Lemma rightful_reads n p own c :
  inv n p own → (0 < n)%nat → Z.of_nat n + 1 < 2 ^ 32 → ph p c = Judging → wins own (T c) →
  primary p = orig →
  decide_primary orig (primary p) (T c) (tally (votes_of p c)) = KV_CONSENSUS_WIN_LITTLE.
Proof.
  intros HI Hn Hn32 Hph Hwin Hp.
  assert (all_seen p c) as Hall by (apply (inv_done _ _ _ HI); by rewrite Hph).
  pose proof (rightful_decides n p own c HI Hall Hn Hn32 Hwin) as Hmin.
  pose proof (votes_decision n p own c HI Hn Hn32) as Hd.
  rewrite (inv_judging _ _ _ HI c Hph) in Hmin, Hd. destruct Hd as [Hin%count_pos _].
  unfold decide_primary. rewrite Hp, Z.eqb_refl. cbn [negb].
  destruct (tally (votes_of p c)) as [|[k m0] m] eqn:Et.
  { apply tally_keys in Hin. rewrite Et in Hin. set_solver. }
  destruct (tally_head _ _ _ _ Et) as [Hk Hkmin].
  rewrite (proj2 (Z.eqb_eq k (T c))); [done|].
  specialize (Hmin k Hk). specialize (Hkmin _ Hin). lia.
Qed.

Lemma read_primary_inv n p own c :
  (0 < n)%nat → Z.of_nat n + 1 < 2 ^ 32 → inv n p own → ph p c = Judging →
  inv n (set_ph p c
    match decide_primary orig (primary p) (T c) (tally (votes_of p c)) with
    | KV_CONSENSUS_WIN_LITTLE => Won (to_overwrite p c)
    | _ => Lost
    end) own.
Proof.
  intros Hn Hn32 HI Hph.
  assert (all_seen p c) as Hall by (apply (inv_done _ _ _ HI); by rewrite Hph).
  assert (¬ won p c) as Hnot by (apply not_won_yet; auto).
  pose proof (votes_decision n p own c HI Hn Hn32) as Hd.
  rewrite (inv_judging _ _ _ HI c Hph) in Hd. destruct Hd as [Hpos Hno].
  rewrite (votes_length n p own c HI) in Hno.
  pose proof (rightful_reads n p own c HI Hn Hn32 Hph) as Hr.
  assert ((wins own (T c) → primary p = T c) → inv n (set_ph p c Lost) own) as Hlost
    by (intros; by apply set_ph_inv).
  unfold decide_primary in *. destruct (primary p =? orig) eqn:Ep; zify_bool; cbn [negb] in *.
  2:{ apply Hlost. intros Hwin. by destruct (primary_cases n p own c HI Hwin). }
  destruct (tally (votes_of p c)) as [|[k m0] m] eqn:Et;
    [apply Hlost; intros Hwin; by specialize (Hr Hwin Ep)|].
  destruct (k =? T c) eqn:Ek; [|apply Hlost; intros Hwin; by specialize (Hr Hwin Ep)].
  apply Z.eqb_eq in Ek as ->. destruct (tally_head _ _ _ _ Et) as [_ Hmin].
  apply set_ph_inv; try done. intros pend [= <-]. split; [done|].
  by apply (smallest_wins n p own c HI Hall).
Qed.

(** *** The first swap on a backup *)
Section swap.
Context (n : nat) (p : proto) (own : list (option nat)) (c i : nat) (v : Z).
Hypotheses (HI : inv n p own) (Hph : ph p c = Swapping) (Hnone : seen p c !! i = Some None)
  (Hv : backups p !! i = Some v).

Let bs : list Z := if decide (v = orig) then <[i := T c]> (backups p) else backups p.
Let q : proto := mkProto (primary p) bs (upd (seen p) c (<[i := Some v]> (seen p c))) (ph p).
Let own' : list (option nat) := if decide (v = orig) then <[i := Some c]> own else own.

Lemma swap_in : (i < n)%nat.
Proof. rewrite <- (proj1 (inv_len _ _ _ HI)). by eapply lookup_lt_Some. Qed.

(** The backup is free exactly when it holds the original value. *)
Lemma swap_free : v = orig ↔ own !! i = Some None.
Proof.
  pose proof (inv_len _ _ _ HI) as (_ & Hl & _). pose proof swap_in as Hi.
  destruct (lookup_lt_is_Some_2 own i) as [[o|] Ho]; [lia| |]; rewrite Ho.
  - split; [|done]. intros ->. destruct (inv_owned _ _ _ HI i o Ho) as (x & Hx & Hf).
    apply from_new in Hf. congruence.
  - split; [done|]. intros _. apply (inv_free _ _ _ HI) in Ho. congruence.
Qed.

Lemma swap_ne j : j ≠ i → own' !! j = own !! j ∧ bs !! j = backups p !! j.
Proof. intros Hj. unfold own', bs. case_decide; [|done]. by rewrite !list_lookup_insert_ne. Qed.

(** The owner of the backup afterwards. *)
Lemma swap_owner :
  (v = orig ∧ own' !! i = Some (Some c) ∧ bs !! i = Some (T c)) ∨
  (v ≠ orig ∧ own' = own ∧ bs = backups p ∧ ∃ o, own !! i = Some (Some o) ∧ o ≠ c ∧ from p o v).
Proof.
  pose proof swap_in as Hi. pose proof (inv_len _ _ _ HI) as (Hb & Hl & _).
  unfold own', bs. case_decide as E; [left|right].
  - by rewrite !list_lookup_insert_eq by lia.
  - destruct (lookup_lt_is_Some_2 own i) as [[o|] Ho]; [lia| |by apply swap_free in Ho].
    split_and!; try done. exists o. split; [done|]. split.
    + intros ->. apply (inv_own_seen _ _ _ HI) in Ho. congruence.
    + destruct (inv_owned _ _ _ HI i o Ho) as (x & Hx & Hf). congruence.
Qed.

Lemma swap_mono j o : own !! j = Some (Some o) → own' !! j = Some (Some o).
Proof.
  intros Ho. destruct (decide (j = i)) as [->|]; [|by rewrite (proj1 (swap_ne j ltac:(done)))].
  destruct swap_owner as [(E & _)|(_ & -> & _)]; [|done]. apply swap_free in E. congruence.
Qed.

(** Nothing but the original value is overwritten. *)
Lemma swap_kept j x : backups p !! j = Some x → x ≠ orig → bs !! j = Some x.
Proof.
  intros Hx Hne. destruct (decide (j = i)) as [->|]; [|by rewrite (proj2 (swap_ne j ltac:(done)))].
  destruct swap_owner as [(E & _)|(_ & _ & -> & _)]; [congruence|done].
Qed.

Lemma swap_seen d j : d ≠ c ∨ j ≠ i → seen q d !! j = seen p d !! j.
Proof.
  intros H. cbn. destruct (decide (d = c)) as [->|]; [|by rewrite upd_ne].
  rewrite upd_eq, list_lookup_insert_ne by naive_solver. done.
Qed.
Lemma swap_seen_now : seen q c !! i = Some (Some v).
Proof.
  cbn. rewrite upd_eq, list_lookup_insert_eq; [done|].
  rewrite (proj2 (proj2 (inv_len _ _ _ HI))). apply swap_in.
Qed.

Lemma swap_owned j o : own' !! j = Some (Some o) →
  (∃ x, bs !! j = Some x ∧ from q o x) ∧ seen q o !! j = Some (Some orig).
Proof.
  intros Ho. assert (own !! j = Some (Some o) ∨ (j = i ∧ o = c ∧ v = orig)) as [Hold|(-> & -> & E)].
  { destruct (decide (j = i)) as [->|Hj]; [|rewrite (proj1 (swap_ne j Hj)) in Ho; auto].
    destruct swap_owner as [(E & E' & _)|(_ & -> & _)]; [right|by left].
    rewrite Ho in E'. by injection E' as ->. }
  - destruct (inv_owned _ _ _ HI j o Hold) as (x & Hx & Hf). split.
    + exists x. split; [|exact Hf]. apply swap_kept; [done|by eapply from_new].
    + pose proof (inv_own_seen _ _ _ HI j o Hold) as Hs. rewrite swap_seen; [done|].
      destruct (decide (o = c)) as [->|]; [right|by left]. intros ->. congruence.
  - split; [|by rewrite swap_seen_now, E]. destruct swap_owner as [(_ & _ & E')|(? & _)]; [|done].
    exists (T c). split; [done|by left].
Qed.

Lemma swap_views d j x : seen q d !! j = Some (Some x) →
  ∃ o, own' !! j = Some (Some o) ∧
    ((x = orig ∧ o = d) ∨ (o ≠ d ∧ from q o x ∧ (x = T o ∨ bs !! j = Some x))).
Proof.
  intros Hx. destruct (decide (d = c ∧ j = i)) as [[-> ->]|Hne].
  - rewrite swap_seen_now in Hx. injection Hx as <-.
    destruct swap_owner as [(E & E' & _)|(_ & -> & -> & o & Ho & Hoc & Hf)].
    + exists c. split; [done|]. by left.
    + exists o. split; [done|]. right. split_and!; [done|exact Hf|by right].
  - rewrite swap_seen in Hx by (destruct (decide (d = c)); [right|left]; naive_solver).
    destruct (inv_seen _ _ _ HI d j x Hx) as (o & Ho & Hc). exists o. split; [by apply swap_mono|].
    destruct Hc as [?|(Hod & Hf & Hc)]; [by left|right]. split_and!; [done|exact Hf|].
    destruct Hc as [?|Hc]; [by left|right]. apply swap_kept; [done|by eapply from_new].
Qed.

(** A backup that was free is one that somebody had not seen. *)
Lemma swap_settled d : all_seen p d → d ≠ c → own' = own.
Proof.
  intros Had Hdc. destruct swap_owner as [(E & _)|(_ & -> & _)]; [|done]. exfalso.
  apply swap_free in E. destruct (owners_known n p own d HI Had) as (os & -> & _).
  rewrite list_lookup_fmap in E. apply fmap_Some in E as (? & _ & ?). done.
Qed.

Lemma swap_inv : inv n q own'.
Proof.
  pose proof HI as [(Hl1 & Hl2 & Hl3) Hfree Hown Hos Hs Hdone Hjd Hw Hlost Hpend Hrest Hpr].
  assert (∀ d, ph p d ≠ Swapping → d ≠ c) as Hdc by (intros d Hd ->; done).
  assert (∀ d, pending (ph p d) ≠ None → d ≠ c) as Hdp by (intros d Hd ->; by rewrite Hph in Hd).
  split.
  - split_and!; cbn; [unfold bs|unfold own'|].
    + case_decide; [|done]. by rewrite length_insert.
    + case_decide; [|done]. by rewrite length_insert.
    + intros d. destruct (decide (d = c)) as [->|]; [|by rewrite upd_ne].
      by rewrite upd_eq, length_insert.
  - intros j Hj. destruct (decide (j = i)) as [->|Hji].
    + destruct swap_owner as [(_ & E & _)|(_ & E & _ & o & Ho & _)]; congruence.
    + destruct (swap_ne j Hji) as [E1 E2]. cbn. rewrite E2. apply Hfree. congruence.
  - intros j o Ho. by apply swap_owned.
  - intros j o Ho. by apply swap_owned.
  - apply swap_views.
  - intros d Hd j o Ho. pose proof (Hdc d Hd). rewrite swap_seen in Ho by auto. by eapply Hdone.
  - intros d Hd. assert (d ≠ c) by (apply Hdc; cbn in Hd; by rewrite Hd).
    specialize (Hjd d Hd). unfold num_idx_rep, votes_of in *. cbn. rewrite upd_ne by done.
    rewrite <- Hjd. do 3 f_equal. unfold bs. case_decide; [by rewrite length_insert|done].
  - intros d Hd. assert (d ≠ c) by (apply Hdp; destruct Hd as [? E]; cbn in E; by rewrite E).
    rewrite (swap_settled d); [by apply Hw| |done]. apply Hdone.
    intros E. destruct Hd as [? E']. cbn in E'. by rewrite E in E'.
  - intros d Hd. assert (d ≠ c) by (apply Hdc; cbn in Hd; by rewrite Hd).
    rewrite (swap_settled d); [by apply Hlost| |done]. apply Hdone. cbn in Hd. by rewrite Hd.
  - intros d pend j Hd Hj. assert (d ≠ c) by (apply Hdc; cbn in Hd; by rewrite Hd).
    destruct (Hpend d pend j Hd Hj) as (x & Hx1 & Hx2 & Hx3 & Hx4). exists x.
    rewrite swap_seen by auto. split_and!; [done..|].
    destruct Hx4; [left|right]; by apply swap_kept.
  - intros d pend j Hd Hjn Hjp. apply swap_kept; [by eapply Hrest|done].
  - exact Hpr.
Qed.
End swap.

(** *** The swaps of a client past the decision *)

Lemma overwrite_inv n p own c i pend v w :
  inv n p own → ph p c = Won (i :: pend) → seen p c !! i = Some (Some v) → backups p !! i = Some w →
  inv n (mkProto (primary p) (if decide (w = v) then <[i := T c]> (backups p) else backups p)
           (seen p) (upd (ph p) c (Won pend))) own.
Proof.
  intros HI Hph Hv Hw'.
  pose proof HI as [(Hl1 & Hl2 & Hl3) Hfree Hown Hos Hs Hdone Hj Hw Hlost Hpend Hrest Hpr].
  assert (i < n)%nat as Hi by (rewrite <- Hl1; by eapply lookup_lt_Some).
  assert (won p c) as Hwc by (unfold won; rewrite Hph; by eexists).
  destruct (Hpend c _ i Hph ltac:(set_solver)) as (v' & Hv1 & Hv2 & Hv3 & Hv4).
  assert (v' = v) as -> by congruence.
  set (bs := if decide (w = v) then _ else _).
  assert (bs = <[i := T c]> (backups p)) as ->.
  { unfold bs. case_decide; [done|]. symmetry. apply list_insert_id.
    destruct Hv4 as [?|?]; congruence. }
  set (q := mkProto _ _ _ _).
  assert (∀ d, won q d ↔ won p d) as Hwon by (intros d; apply won_upd; [done|by eexists]).
  assert (∀ d, won p d → T d = T c) as Hsame by (intros d Hd; by eapply won_same).
  assert (∀ o x, from p o x → from q o x) as Hfrom by (intros; eapply from_mono; [|done]; by apply Hwon).
  assert (∀ d j, won p d → backups p !! j = Some (T d) → backups q !! j = Some (T d)) as Hkeep.
  { intros d j Hd Hb. cbn. destruct (decide (j = i)) as [->|]; [|by rewrite list_lookup_insert_ne].
    rewrite list_lookup_insert_eq by lia. by rewrite (Hsame d Hd). }
  split.
  - split_and!; [cbn; by rewrite length_insert|done|done].
  - intros j E. destruct (Hw c Hwc) as (os & -> & _). rewrite list_lookup_fmap in E.
    apply fmap_Some in E as (? & _ & ?). done.
  - intros j o Ho. cbn. destruct (decide (j = i)) as [->|Hji].
    + exists (T c). split; [apply list_lookup_insert_eq; lia|]. right. exists c. by rewrite Hwon.
    + rewrite list_lookup_insert_ne by done. destruct (Hown j o Ho) as (x & Hx & Hf). eauto.
  - done.
  - intros d j x Hx. destruct (Hs d j x Hx) as (o & Ho & Hc). exists o. split; [done|].
    destruct Hc as [?|(? & Hf & Hc)]; [by left|right]. split_and!; [done|by apply Hfrom|].
    destruct Hf as [?|(e & He & ->)]; [by left|]. destruct Hc as [?|Hc]; [by left|right].
    by apply Hkeep.
  - intros d. cbn. destruct (decide (d = c)) as [->|]; [|rewrite upd_ne by done; apply Hdone].
    intros _. apply Hdone. by rewrite Hph.
  - intros d. cbn. destruct (decide (d = c)) as [->|]; [by rewrite upd_eq|]. rewrite upd_ne by done.
    intros Hd. specialize (Hj d Hd). unfold num_idx_rep, votes_of in *. cbn.
    by rewrite length_insert.
  - intros d Hd%Hwon. by apply Hw.
  - intros d. cbn. destruct (decide (d = c)) as [->|]; [by rewrite upd_eq|]. rewrite upd_ne by done.
    apply Hlost.
  - intros d pend' j Hd Hj'.
    assert (∃ l, ph p d = Won l ∧ j ∈ l) as (l & Hl & Hjl).
    { cbn in Hd. destruct (decide (d = c)) as [->|]; [|rewrite upd_ne in Hd by done; eauto].
      rewrite upd_eq in Hd. injection Hd as <-. exists (i :: pend). split; [done|set_solver]. }
    assert (T d = T c) as Ed by (apply Hsame; unfold won; rewrite Hl; by eexists).
    destruct (Hpend d l j Hl Hjl) as (x & Hx1 & Hx2 & Hx3 & Hx4). exists x. split_and!; [done..|].
    cbn. destruct (decide (j = i)) as [->|]; [|by rewrite list_lookup_insert_ne].
    right. rewrite list_lookup_insert_eq by lia. congruence.
  - intros d pend' j Hd Hjn Hjp. cbn in Hd. destruct (decide (d = c)) as [->|Hdc].
    + rewrite upd_eq in Hd. injection Hd as <-. cbn.
      destruct (decide (j = i)) as [->|Hji]; [apply list_lookup_insert_eq; lia|].
      rewrite list_lookup_insert_ne by done.
      apply (Hrest c (i :: pend)); [by rewrite Hph|done|set_solver].
    + rewrite upd_ne in Hd by done. apply Hkeep; [by exists pend'|by eapply Hrest].
  - destruct Hpr as [[Hp1 Hp2]|(d & Hd & Hpd)].
    + left. split; [done|]. intros d. cbn. destruct (decide (d = c)) as [->|];
        [by rewrite upd_eq|by rewrite upd_ne].
    + right. exists d. split; [|done]. cbn. rewrite upd_ne; [done|]. intros ->. congruence.
Qed.

Lemma publish_inv n p own c :
  inv n p own → ph p c = Won [] →
  inv n (mkProto (if decide (primary p = orig) then T c else primary p) (backups p) (seen p)
           (upd (ph p) c (if decide (primary p = orig) then Published else Late))) own.
Proof.
  intros HI Hph.
  pose proof HI as [Hlen Hfree Hown Hos Hs Hdone Hj Hw Hlost Hpend Hrest Hpr].
  assert (won p c) as Hwc by (unfold won; rewrite Hph; by eexists).
  set (x := if decide _ then Published else Late).
  assert (pending x = Some [] ∧ x ≠ Swapping ∧ x ≠ Judging ∧ x ≠ Lost ∧ ∀ l, x ≠ Won l)
    as (Hx & Hx1 & Hx2 & Hx3 & Hx4) by (unfold x; by case_decide).
  set (q := mkProto _ _ _ _).
  assert (∀ d, won q d ↔ won p d) as Hwon by (intros d; apply won_upd; [done|rewrite Hx; by eexists]).
  assert (∀ o y, from p o y → from q o y) as Hfrom by (intros; eapply from_mono; [|done]; by apply Hwon).
  assert (primary q = T c) as Hq.
  { cbn. case_decide; [done|]. by destruct (primary_cases n p own c HI (Hw c Hwc)). }
  split.
  - done.
  - done.
  - intros j o Ho. destruct (Hown j o Ho) as (y & Hy & Hf). eauto.
  - done.
  - intros d j y Hy. destruct (Hs d j y Hy) as (o & Ho & Hc). exists o. split; [done|].
    destruct Hc as [?|(? & ? & ?)]; [by left|right; auto].
  - intros d. cbn. destruct (decide (d = c)) as [->|]; [|rewrite upd_ne by done; apply Hdone].
    intros _. apply Hdone. by rewrite Hph.
  - intros d. cbn. destruct (decide (d = c)) as [->|]; [by rewrite upd_eq|]. rewrite upd_ne by done.
    apply Hj.
  - intros d Hd%Hwon. by apply Hw.
  - intros d _ Hwin. rewrite Hq. eapply wins_unique; [by apply Hw|done].
  - intros d pend' j. cbn. destruct (decide (d = c)) as [->|Hdc]; [rewrite upd_eq; by intros ?%Hx4|].
    rewrite upd_ne by done. apply Hpend.
  - intros d pend' j. cbn. destruct (decide (d = c)) as [->|Hdc].
    + rewrite upd_eq, Hx. intros [= <-]. apply (Hrest c []). by rewrite Hph.
    + rewrite upd_ne by done. apply Hrest.
  - right. destruct Hpr as [[Hp1 Hp2]|(d & Hd & Hpd)].
    + exists c. split; [|done]. cbn. rewrite upd_eq. unfold x. by rewrite decide_True.
    + exists d. assert (d ≠ c) by (intros ->; congruence). cbn. rewrite upd_ne by done.
      split; [done|]. rewrite decide_False; [done|]. rewrite Hpd. apply T_new.
Qed.

Lemma init_inv n : inv n (init n) (replicate n None).
Proof.
  split; cbn [init primary backups seen ph].
  - by rewrite !length_replicate.
  - intros i [_ Hi]%lookup_replicate. by apply lookup_replicate.
  - intros i o [? _]%lookup_replicate. done.
  - intros i o [? _]%lookup_replicate. done.
  - intros c i v [? _]%lookup_replicate. done.
  - done.
  - done.
  - intros c. by intros [? ?].
  - done.
  - done.
  - done.
  - by left.
Qed.

(** Owners stay, so that a settled round stays settled. *)
Lemma step_inv n p own c q :
  (0 < n)%nat → Z.of_nat n + 1 < 2 ^ 32 → inv n p own → step c p q →
  ∃ own', inv n q own' ∧ ∀ os, own = Some <$> os → own' = own.
Proof.
  intros Hn Hn32 HI Hst. destruct Hst as [p i v|p|p|p i pend v w|p].
  - eexists. split; [by apply swap_inv|]. intros os ->. apply decide_False. intros ->.
    pose proof (inv_len _ _ _ HI) as (Hb & Hl & _).
    destruct (lookup_lt_is_Some_2 os i) as [o Ho].
    { rewrite <- (length_fmap Some os), Hl, <- Hb. by eapply lookup_lt_Some. }
    destruct (inv_owned _ _ _ HI i o) as (x & Hx & Hf); [by rewrite list_lookup_fmap, Ho|].
    apply from_new in Hf. congruence.
  - exists own. split; [by apply judge_inv|done].
  - exists own. split; [by apply read_primary_inv|done].
  - exists own. split; [by apply overwrite_inv with (v := v)|done].
  - exists own. split; [by apply publish_inv|done].
Qed.

Lemma reachable_inv n p :
  (0 < n)%nat → Z.of_nat n + 1 < 2 ^ 32 → reachable n p → ∃ own, inv n p own.
Proof.
  intros Hn Hn32. apply (rtc_ind_r (λ p, ∃ own, inv n p own)); [eexists; apply init_inv|].
  intros q r _ [c Hst] [own HI]. destruct (step_inv n q own c r Hn Hn32 HI Hst) as (own' & ? & _). eauto.
Qed.

Lemma settled_inv n p q os :
  (0 < n)%nat → Z.of_nat n + 1 < 2 ^ 32 → inv n p (Some <$> os) → rtc moves p q →
  inv n q (Some <$> os).
Proof.
  intros Hn Hn32 HI. apply (rtc_ind_r (λ q, inv n q (Some <$> os))); [done|].
  intros q' r _ [c Hst] Hq. destruct (step_inv n q' _ c r Hn Hn32 Hq Hst) as (own' & H & Hs).
  by rewrite (Hs os eq_refl) in H.
Qed.

(** When every backup has an owner, the value of one of the owners wins. *)
Lemma wins_exists os : os ≠ [] → ∃ c, c ∈ os ∧ wins (Some <$> os) (T c).
Proof.
  intros Hne. destruct (decide (Exists (λ o, Z.of_nat (length os) < 2 * count (T o) (T <$> os)) os))
    as [He|He].
  - apply Exists_exists in He as (c & Hc & Hm). exists c. split; [done|]. exists os.
    split; [done|]. left. lia.
  - assert (∃ c, c ∈ os ∧ ∀ o, o ∈ os → T c <= T o) as (c & Hc & Hmin).
    { clear He. induction os as [|x os IH]; [done|]. destruct os as [|y os].
      - exists x. split; [set_solver|]. intros o ->%list_elem_of_singleton. lia.
      - destruct IH as (c & Hc & Hmin); [done|]. destruct (decide (T x <= T c)).
        + exists x. split; [set_solver|]. intros o [->|Ho]%elem_of_cons; [lia|].
          specialize (Hmin o Ho). lia.
        + exists c. split; [set_solver|]. intros o [->|Ho]%elem_of_cons; [lia|auto]. }
    exists c. split; [done|]. exists os. split; [done|]. right.
    split_and!; [|by apply list_elem_of_fmap_2|done].
    intros v. destruct (decide (v ∈ T <$> os)) as [Hv|Hv].
    + apply list_elem_of_fmap in Hv as (o & -> & Ho). apply Z.nlt_ge. intros Hlt. apply He.
      apply Exists_exists. eauto.
    + rewrite <- count_pos in Hv. pose proof (count_bound v (T <$> os)). lia.
Qed.

(** *** A client with the winning value needs nobody else *)

Lemma solo_won n own c pend p :
  inv n p own → ph p c = Won pend → ∃ q, rtc (step c) p q ∧ primary q = T c.
Proof.
  revert p. induction pend as [|i pend IH]; intros p HI Hph.
  - eexists. split; [apply rtc_once, step_publish, Hph|]. cbn. case_decide; [done|].
    destruct (primary_cases n p own c HI) as [?|?]; [|done..].
    apply (inv_won _ _ _ HI). unfold won. rewrite Hph. by eexists.
  - destruct (inv_pending _ _ _ HI c _ i Hph ltac:(set_solver)) as (v & Hv & _ & _ & Hb).
    assert (∃ w, backups p !! i = Some w) as [w Hw] by (destruct Hb; eauto).
    destruct (IH _ (overwrite_inv n p own c i pend v w HI Hph Hv Hw)) as (q & Hq & Hp).
    { cbn. apply upd_eq. }
    exists q. split; [|done]. eapply rtc_l; [by eapply step_overwrite|done].
Qed.

(** Its outstanding swaps. *)
Lemma solo_swaps n c os k p :
  (0 < n)%nat → Z.of_nat n + 1 < 2 ^ 32 → inv n p (Some <$> os) → ph p c = Swapping →
  (∀ i, seen p c !! i = Some None → (n - k <= i)%nat) →
  ∃ q, rtc (step c) p q ∧ inv n q (Some <$> os) ∧ ph q c = Swapping ∧ all_seen q c.
Proof.
  intros Hn Hn32. revert p. induction k as [|k IH]; intros p HI Hph Hk.
  - exists p. split_and!; [apply rtc_refl|done..|]. intros i [v|] Hi; [eauto|].
    specialize (Hk i Hi). apply lookup_lt_Some in Hi. rewrite (proj2 (proj2 (inv_len _ _ _ HI))) in Hi. lia.
  - destruct (decide (seen p c !! (n - S k)%nat = Some None)) as [Hi|Hi].
    2:{ apply IH; [done..|]. intros i Hi'. specialize (Hk i Hi').
        destruct (decide (i = (n - S k)%nat)) as [->|]; [done|lia]. }
    pose proof (inv_len _ _ _ HI) as (Hb & _ & Hl).
    destruct (lookup_lt_is_Some_2 (backups p) (n - S k)) as [v Hv].
    { rewrite Hb. apply lookup_lt_Some in Hi. by rewrite (Hl c) in Hi. }
    pose proof (step_swap c p _ v Hph Hi Hv) as Hst.
    destruct (step_inv n p _ c _ Hn Hn32 HI Hst) as (own' & HI' & Hs). rewrite (Hs os eq_refl) in HI'.
    destruct (IH _ HI' Hph) as (q & Hq & Hrest).
    { intros i. cbn. rewrite upd_eq. destruct (decide (i = (n - S k)%nat)) as [->|].
      - rewrite list_lookup_insert_eq; [done|]. rewrite Hl. lia.
      - rewrite list_lookup_insert_ne by done. intros Hi'. specialize (Hk i Hi'). lia. }
    exists q. split; [by eapply rtc_l|done].
Qed.

Lemma solo_judging n c own p :
  (0 < n)%nat → Z.of_nat n + 1 < 2 ^ 32 → inv n p own → wins own (T c) → ph p c = Judging →
  ∃ q, rtc (step c) p q ∧ primary q = T c.
Proof.
  intros Hn Hn32 HI Hwin Hph.
  destruct (primary_cases n p own c HI Hwin) as [Hp|Hp]; [|eexists; split; [apply rtc_refl|done]].
  pose proof (rightful_reads n p own c HI Hn Hn32 Hph Hwin Hp) as Hd.
  pose proof (step_read_primary c p Hph) as Hst. rewrite Hd in Hst.
  pose proof (read_primary_inv n p own c Hn Hn32 HI Hph) as HI'. rewrite Hd in HI'.
  destruct (solo_won n own c (to_overwrite p c) _ HI') as (q & Hq & ?); [cbn; apply upd_eq|].
  exists q. split; [by eapply rtc_l|done].
Qed.

Lemma solo n c os p :
  (0 < n)%nat → Z.of_nat n + 1 < 2 ^ 32 → inv n p (Some <$> os) → wins (Some <$> os) (T c) →
  ∃ q, rtc (step c) p q ∧ primary q = T c.
Proof.
  intros Hn Hn32 HI Hwin.
  destruct (primary_cases n p _ c HI Hwin) as [Hp|Hp]; [|eexists; split; [apply rtc_refl|done]].
  destruct (ph p c) as [| |pend| | |] eqn:Hph.
  - destruct (solo_swaps n c os n p Hn Hn32 HI Hph) as (q & Hq & HI' & Hph' & Hall); [lia|].
    pose proof (judge_inv n q _ c Hn Hn32 HI' Hph' Hall) as HJ.
    pose proof (step_judge c q Hph' Hall) as Hst.
    pose proof (rightful_decides n q _ c HI' Hall Hn Hn32 Hwin) as Hr.
    assert (∃ r, rtc (step c) (set_ph q c
      match decide_votes (num_idx_rep q) (T c) (tally (votes_of q c)) with
      | KV_CONSENSUS_WIN_ALL | KV_CONSENSUS_WIN_MAJOR => Won (to_overwrite q c)
      | KV_CONSENSUS_NON => Judging | _ => Lost end) r ∧ primary r = T c) as (r & Hr1 & Hr2).
    { destruct (decide_votes _ _ _); try done;
        [eapply solo_won|eapply solo_won|eapply solo_judging]; try done; cbn; apply upd_eq. }
    exists r. split; [|done]. etrans; [exact Hq|]. by eapply rtc_l.
  - by eapply solo_judging.
  - by eapply solo_won.
  - exists p. split; [apply rtc_refl|]. by apply (inv_lost _ _ _ HI).
  - destruct (inv_primary _ _ _ HI) as [[_ H]|(d & Hd & E)]; [by destruct (H c)|].
    rewrite Hp in E. by destruct (T_new d).
  - destruct (inv_primary _ _ _ HI) as [[_ H]|(d & Hd & E)]; [by destruct (H c)|].
    rewrite Hp in E. by destruct (T_new d).
Qed.

(** ** The guarantees *)

(** C9. One value per round: in every interleaving of any number of clients that
    modify the slot from the same original value to values other than it, all
    the clients past the decision write the same value.  So at most one of
    several clients with different new values overwrites backups and swaps the
    primary; only clients with the same new value (deletions, which all write 0)
    can win together. *)
Theorem snapshot_one_winner (n : nat) (p : proto) (c d : nat) :
  (0 < n)%nat → Z.of_nat n + 1 < 2 ^ 32 → reachable n p → won p c → won p d → T c = T d.
Proof.
  intros Hn Hn32 Hr Hc Hd. destruct (reachable_inv n p Hn Hn32 Hr) as [own HI].
  by eapply won_same.
Qed.

(** The winner's second phase: a backup that a winner still has to overwrite
    holds the value it saw there, so that the swap succeeds, or already the
    value it would write. *)
Theorem snapshot_overwrite_succeeds (n : nat) (p : proto) (c i : nat) (pend : list nat) :
  (0 < n)%nat → Z.of_nat n + 1 < 2 ^ 32 → reachable n p → ph p c = Won pend → i ∈ pend →
  ∃ v, seen p c !! i = Some (Some v) ∧ v ≠ T c ∧
    (backups p !! i = Some v ∨ backups p !! i = Some (T c)).
Proof.
  intros Hn Hn32 Hr Hc Hi. destruct (reachable_inv n p Hn Hn32 Hr) as [own HI].
  destruct (inv_pending _ _ _ HI c pend i Hc Hi) as (v & ? & _ & ? & ?). eauto.
Qed.

(** C10. Agreement of the replicas.  When a winner is about to swap the primary,
    every backup holds its value, and the primary holds the original value, so
    that the swap succeeds, unless another client with the same new value has
    published it already.  Once a client has published, the primary and every
    backup hold its value, in every later state too.  The branch [cannot have
    happened] is reached only by a client whose very value another client has
    published: never when the new values of the clients differ. *)
Theorem snapshot_agreement (n : nat) (p : proto) (c : nat) :
  (0 < n)%nat → Z.of_nat n + 1 < 2 ^ 32 → reachable n p →
  let twin := ∃ d, d ≠ c ∧ T d = T c ∧ ph p d = Published ∧ primary p = T c in
  (ph p c = Won [] → backups p = replicate n (T c) ∧ (primary p = orig ∨ twin)) ∧
  (ph p c = Published → backups p = replicate n (T c) ∧ primary p = T c) ∧
  (ph p c = Late → backups p = replicate n (T c) ∧ twin).
Proof.
  intros Hn Hn32 Hr twin. destruct (reachable_inv n p Hn Hn32 Hr) as [own HI].
  assert (pending (ph p c) = Some [] → backups p = replicate n (T c)) as Hb.
  { intros Hc. apply list_eq. intros i. destruct (decide (i < n)%nat) as [Hi|Hi].
    - rewrite lookup_replicate_2 by done. apply (inv_rest _ _ _ HI c []); [done..|set_solver].
    - rewrite !(proj2 (lookup_ge_None _ _)); [done|rewrite length_replicate; lia|].
      rewrite (proj1 (inv_len _ _ _ HI)). lia. }
  assert (won p c → ph p c ≠ Published → (primary p = orig ∧ ph p c ≠ Late) ∨ twin) as Htwin.
  { intros Hc Hnp. destruct (inv_primary _ _ _ HI) as [[? H]|(d & Hd & E)]; [left|right].
    - split; [done|apply H].
    - assert (T d = T c) as Hdc by (eapply won_same; [done| |done]; unfold won; rewrite Hd; by eexists).
      exists d. split_and!; [by intros ->|done..|congruence]. }
  unfold won in Htwin.
  split_and!; intros Hc; rewrite Hc in *; (split; [by apply Hb|]).
  - destruct Htwin as [[? _]|?]; [by eexists|done|by left|by right].
  - destruct (inv_primary _ _ _ HI) as [[_ H]|(d & Hd & ->)]; [by destruct (H c)|].
    eapply won_same; [done|unfold won; rewrite Hd; by eexists|unfold won; rewrite Hc; by eexists].
  - destruct Htwin as [[_ ?]|?]; [by eexists|done..].
Qed.

(** C11. A round is never lost by everybody.  As soon as one client has heard from
    every backup, the outcome is settled: there is a client [c] that owns a
    backup and such that in every later state [q], whatever the clients did in
    between, the primary holds the original value or that of [c]; [c] has not
    lost unless its value is in the primary; and the steps of [c] alone lead
    from [q] to a state whose primary holds its value. *)
Theorem snapshot_progress (n : nat) (p : proto) (d : nat) :
  (0 < n)%nat → Z.of_nat n + 1 < 2 ^ 32 → reachable n p → all_seen p d →
  ∃ c i, seen p c !! i = Some (Some orig) ∧
    ∀ q, rtc moves p q →
      (primary q = orig ∨ primary q = T c) ∧
      (ph q c = Lost → primary q = T c) ∧
      ∃ r, rtc (step c) q r ∧ primary r = T c.
Proof.
  intros Hn Hn32 Hr Hd. destruct (reachable_inv n p Hn Hn32 Hr) as [own HI].
  destruct (owners_known n p own d HI Hd) as (os & -> & Hlen).
  destruct (wins_exists os) as (c & Hc & Hwin); [by intros ->; cbn in Hlen; lia|].
  apply list_elem_of_lookup in Hc as [i Hi]. exists c, i. split.
  { apply (inv_own_seen _ _ _ HI). by rewrite list_lookup_fmap, Hi. }
  intros q Hq. pose proof (settled_inv n p q os Hn Hn32 HI Hq) as HQ. split_and!.
  - by eapply primary_cases.
  - intros Hl. by apply (inv_lost _ _ _ HQ).
  - by eapply solo.
Qed.
End snapshot.

(** ** Witnesses

    Two backups: client 0 swaps both, decides and publishes. *)

Definition example_T (c : nat) : Z := Z.of_nat c + 1.
Lemma example_T_new c : example_T c ≠ 0.
Proof. unfold example_T. lia. Qed.

Definition example_p (k : nat) : proto :=
  let p0 := init 0 2 in
  let p1 := mkProto 0 [1; 0] (upd (seen p0) 0%nat [Some 0; None]) (ph p0) in
  let p2 := mkProto 0 [1; 1] (upd (seen p1) 0%nat [Some 0; Some 0]) (ph p1) in
  let p3 := set_ph p2 0%nat (Won []) in
  let p4 := mkProto 1 [1; 1] (seen p3) (upd (ph p3) 0%nat Published) in
  nth k [p0; p1; p2; p3; p4] p0.

(** The states of a run, one after the other. *)
Ltac reach IH := eapply rtc_r; [exact IH|].
Ltac known := intros i o Hi; repeat (destruct i as [|i]; [injection Hi as <-; by eexists|]);
  destruct i; discriminate Hi.

Lemma example_reachable (k : nat) : (k <= 4)%nat → reachable 0 example_T 2 (example_p k).
Proof.
  induction k as [|k IH]; intros Hk; [apply rtc_refl|].
  specialize (IH ltac:(lia)). reach IH. exists 0%nat.
  destruct k as [|[|[|[|k]]]]; [..|lia].
  - by apply (step_swap 0 example_T 0%nat (example_p 0) 0%nat 0).
  - by apply (step_swap 0 example_T 0%nat (example_p 1) 1%nat 0).
  - apply (step_judge 0 example_T 0%nat (example_p 2)); [done|known].
  - by apply (step_publish 0 example_T 0%nat (example_p 3)).
Qed.

Example snapshot_agreement_witness :
  primary (example_p 4) = 1 ∧ backups (example_p 4) = [1; 1].
Proof.
  destruct (snapshot_agreement 0 example_T example_T_new 2 (example_p 4) 0)
    as [_ [H _]]; [lia|lia|apply example_reachable; lia|].
  destruct (H eq_refl). split; assumption.
Defined.

Example snapshot_progress_witness :
  ∃ c r, rtc (step 0 example_T c) (example_p 2) r ∧ primary r = example_T c.
Proof.
  destruct (snapshot_progress 0 example_T example_T_new 2 (example_p 2) 0)
    as (c & i & _ & H); [lia|lia|apply example_reachable; lia|known|].
  destruct (H (example_p 2) (rtc_refl _ _)) as (_ & _ & r & Hr).
  exists c, r. exact Hr.
Defined.

(** Three backups: client 1 takes the last one, client 0 the others. *)
Definition example_q (k : nat) : proto :=
  let p0 := init 0 3 in
  let p1 := mkProto 0 [0; 0; 2] (upd (seen p0) 1%nat [None; None; Some 0]) (ph p0) in
  let p2 := mkProto 0 [1; 0; 2] (upd (seen p1) 0%nat [Some 0; None; None]) (ph p1) in
  let p3 := mkProto 0 [1; 1; 2] (upd (seen p2) 0%nat [Some 0; Some 0; None]) (ph p2) in
  let p4 := mkProto 0 [1; 1; 2] (upd (seen p3) 0%nat [Some 0; Some 0; Some 2]) (ph p3) in
  let p5 := set_ph p4 0%nat (Won [2%nat]) in
  nth k [p0; p1; p2; p3; p4; p5] p0.

Lemma example_q_reachable (k : nat) : (k <= 5)%nat → reachable 0 example_T 3 (example_q k).
Proof.
  induction k as [|k IH]; intros Hk; [apply rtc_refl|].
  specialize (IH ltac:(lia)). reach IH.
  destruct k as [|[|[|[|[|k]]]]]; [exists 1%nat|exists 0%nat..|lia].
  - by apply (step_swap 0 example_T 1%nat (example_q 0) 2%nat 0).
  - by apply (step_swap 0 example_T 0%nat (example_q 1) 0%nat 0).
  - by apply (step_swap 0 example_T 0%nat (example_q 2) 1%nat 0).
  - by apply (step_swap 0 example_T 0%nat (example_q 3) 2%nat 2).
  - apply (step_judge 0 example_T 0%nat (example_q 4)); [done|known].
Qed.

Example snapshot_overwrite_succeeds_witness :
  ∃ v, seen (example_q 5) 0%nat !! 2%nat = Some (Some v) ∧ v ≠ example_T 0.
Proof.
  destruct (snapshot_overwrite_succeeds 0 example_T example_T_new 3 (example_q 5)
    0 2 [2%nat]) as (v & H1 & H2 & _);
    [lia|lia|apply example_q_reachable; lia|reflexivity|set_solver|].
  exists v. split; assumption.
Defined.

(** ** Two deletions of the same key

    Both clients swap in 0.  Client 0 swaps both backups; client 1 finds the
    value it would write, which counts as a vote for itself, and wins too.  Once
    client 0 has published, client 1 finds the primary modified. *)

Definition delete_T (_ : nat) : Z := 0.
Lemma delete_T_new c : delete_T c ≠ 7.
Proof. done. Qed.

Definition example_d (k : nat) : proto :=
  let p0 := init 7 2 in
  let p1 := mkProto 7 [0; 7] (upd (seen p0) 0%nat [Some 7; None]) (ph p0) in
  let p2 := mkProto 7 [0; 0] (upd (seen p1) 0%nat [Some 7; Some 7]) (ph p1) in
  let p3 := mkProto 7 [0; 0] (upd (seen p2) 1%nat [Some 0; None]) (ph p2) in
  let p4 := mkProto 7 [0; 0] (upd (seen p3) 1%nat [Some 0; Some 0]) (ph p3) in
  let p5 := set_ph p4 0%nat (Won []) in
  let p6 := set_ph p5 1%nat (Won []) in
  let p7 := mkProto 0 [0; 0] (seen p6) (upd (ph p6) 0%nat Published) in
  let p8 := mkProto 0 [0; 0] (seen p7) (upd (ph p7) 1%nat Late) in
  nth k [p0; p1; p2; p3; p4; p5; p6; p7; p8] p0.

Lemma example_d_reachable (k : nat) : (k <= 8)%nat → reachable 7 delete_T 2 (example_d k).
Proof.
  induction k as [|k IH]; intros Hk; [apply rtc_refl|].
  specialize (IH ltac:(lia)). reach IH.
  destruct k as [|[|[|[|[|[|[|[|k]]]]]]]];
    [exists 0%nat|exists 0%nat|exists 1%nat|exists 1%nat|exists 0%nat|exists 1%nat|exists 0%nat
    |exists 1%nat|lia].
  - by apply (step_swap 7 delete_T 0%nat (example_d 0) 0%nat 7).
  - by apply (step_swap 7 delete_T 0%nat (example_d 1) 1%nat 7).
  - by apply (step_swap 7 delete_T 1%nat (example_d 2) 0%nat 0).
  - by apply (step_swap 7 delete_T 1%nat (example_d 3) 1%nat 0).
  - apply (step_judge 7 delete_T 0%nat (example_d 4)); [done|known].
  - apply (step_judge 7 delete_T 1%nat (example_d 5)); [done|known].
  - by apply (step_publish 7 delete_T 0%nat (example_d 6)).
  - by apply (step_publish 7 delete_T 1%nat (example_d 7)).
Qed.

(** Two clients past the decision, with the same value. *)
Example snapshot_one_winner_witness :
  won (example_d 6) 0%nat ∧ won (example_d 6) 1%nat ∧ delete_T 0 = delete_T 1.
Proof.
  split; [by eexists|]. split; [by eexists|].
  apply (snapshot_one_winner 7 delete_T delete_T_new 2 (example_d 6) 0 1);
    [lia|lia|apply example_d_reachable; lia|by eexists|by eexists].
Defined.

(** The second of two concurrent deletions reaches the branch that [cannot have
    happened]. *)
Lemma concurrent_deletes_late :
  reachable 7 delete_T 2 (example_d 8) ∧ ph (example_d 8) 0%nat = Published ∧
  ph (example_d 8) 1%nat = Late.
Proof. split; [apply example_d_reachable; lia|done]. Qed.
