(* ===== verification/ClientOps.v ===== *)
(** * Key-value operations of a client ([src/src/client.cc])

    Search, insertion, update and deletion: the phases of each operation and
    their composition.  The source has most phases twice, for fibers and
    synchronous; as in [ClientConsensus] the posting discipline is an argument
    where the two copies differ in nothing else, and every difference between
    the copies (the guards on [is_finished] and [should_stop], the place of the
    log tail of a deletion) is written out.  The posting calls check their own
    success and return 0, so the [kv_assert(ret == 0)] after some of them always
    holds. *)

From stdpp Require Import sorting.
From S2P Require Import Prelude Mem KvUtils HashTable ServerMM Server Rdma ClientState Network ClientMM.
From S2P Require Import BlockMap ClientIndex ClientConsensus.

(** ** Request contexts *)

(** A C string of at most 127 characters in a buffer of 128 zero bytes: the
    bytes up to the first null one. *)
Fixpoint c_string (bs : list Z) : string :=
  match bs with
  | [] => ""%string
  | b :: bs' => if b =? 0 then ""%string
                else String (Ascii.ascii_of_N (Z.to_N b)) (c_string bs')
  end.

(** [std::vector::resize] *)
Definition vresize {A} (n : nat) (zero : A) (l : list A) : list A :=
  take n l ++ replicate (n - length l) zero.

(** A context that was only constructed: its vectors are empty, the other fields
    are what the memory held. *)
Definition constructed (garbage : KVReqCtx) : KVReqCtx :=
  garbage <| kv_modify_pr_cas_list := [] |>
    <| kv_modify_bk_0_cas_list := [] |> <| kv_modify_bk_1_cas_list := [] |>
    <| log_commit_addr_list := [] |> <| write_unused_addr_list := [] |>
    <| kv_read_addr_list := [] |> <| kv_idx_list := [] |> <| recover_match_idx_list := [] |>
    <| healthy_idx_server_id_list := [] |> <| key_str := ""%string |>.

Definition req_type_of (operation : string) : KVRequestType :=
  if bool_decide (operation = "INSERT"%string) then KV_REQ_INSERT
  else if bool_decide (operation = "DELETE"%string) then KV_REQ_DELETE
  else if bool_decide (operation = "UPDATE"%string) then KV_REQ_UPDATE
  else KV_REQ_SEARCH.

(** A key that fills the buffer of 128 bytes, or overflows it, is not a string;
    a request without index replica cannot be sized. *)
Definition init_kv_req_ctx (k : KVInfo) (operation : string) : M Sys unit :=
  s ← get;
  let n := Cl.num_idx_rep_ (cl s) in
  let R := Z.to_nat (Cl.num_replication_ (cl s)) in
  whenm (n <? 1) (stopm Exited) ;;
  let key := load_bytes (key_len k) (lmem (wld s)) (get_key k) in
  whenm ((128 <? key_len k) || ((key_len k =? 128) && forallb (λ b, negb (b =? 0)) key))
    (stopm Undefined) ;;
  set_ctx (λ c, c <| kv_info := k |> <| ctx_lkey := Cl.local_buf_lkey (cl s) |>
    <| kv_modify_pr_cas_list ::= vresize 1 KVCASAddr_zero |>
    <| kv_modify_bk_0_cas_list ::= vresize (Z.to_nat (n - 1)) KVCASAddr_zero |>
    <| kv_modify_bk_1_cas_list ::= vresize (Z.to_nat (n - 1)) KVCASAddr_zero |>
    <| log_commit_addr_list ::= vresize R KVRWAddr_zero |>
    <| write_unused_addr_list ::= vresize R KVRWAddr_zero |>
    <| key_str := c_string key |> <| req_type := req_type_of operation |>).

(** The buffers of a request inside the local memory of its fiber. *)
Definition init_kv_insert_space (coro_local_addr : Z) : M Sys unit :=
  s ← get;
  let target := coro_local_addr + 4 * sizeof_RaceHashBucket in
  set_ctx (λ c, c <| use_cache := true |> <| local_bucket_addr := coro_local_addr |>
    <| local_cas_target_value_addr := target |> <| local_cas_return_value_addr := target + 8 |>
    <| op_laddr := target + 8 + 8 * Cl.num_replication_ (cl s) |>).

Definition init_kv_search_space (coro_local_addr : Z) : M Sys unit :=
  s ← get;
  let kv := coro_local_addr + 4 * sizeof_RaceHashBucket * Cl.num_replication_ (cl s) in
  set_ctx (λ c, c <| use_cache := true |> <| local_bucket_addr := coro_local_addr |>
    <| local_cache_addr := kv |> <| local_kv_addr := kv |>).

Definition init_kv_update_space (coro_local_addr : Z) : M Sys unit :=
  s ← get;
  let target := coro_local_addr + 16 * sizeof_RaceHashBucket in
  let op := target + 8 + 8 * Cl.num_replication_ (cl s) in
  set_ctx (λ c, c <| use_cache := true |> <| local_bucket_addr := coro_local_addr |>
    <| local_kv_addr := target |> <| local_cas_target_value_addr := target |>
    <| local_cas_return_value_addr := target + 8 |> <| op_laddr := op |>
    <| local_cache_addr := op + 2048 |>).

Definition init_kv_delete_space (coro_local_addr : Z) : M Sys unit :=
  s ← get;
  let target := coro_local_addr + 4 * sizeof_RaceHashBucket in
  set_ctx (λ c, c <| use_cache := true |> <| local_bucket_addr := coro_local_addr |>
    <| local_cache_addr := target |> <| local_kv_addr := target |>
    <| local_cas_target_value_addr := target |> <| local_cas_return_value_addr := target + 8 |>
    <| op_laddr := target + 8 + 8 * Cl.num_replication_ (cl s) |>).

(** The body of the loop of [init_kvreq_space], for the request at hand. *)
Definition init_kvreq_space (coro coro_local_addr : Z) : M Sys unit :=
  set_ctx (λ c, c <| coro_id := coro |>) ;;
  c ← get_ctx;
  match req_type c with
  | KV_REQ_INSERT => init_kv_insert_space coro_local_addr
  | KV_REQ_SEARCH => init_kv_search_space coro_local_addr
  | KV_REQ_UPDATE => init_kv_update_space coro_local_addr
  | KV_REQ_DELETE => init_kv_delete_space coro_local_addr
  | _ => set_ctx (λ c, c <| req_type := KV_REQ_SEARCH |>) ;; init_kv_search_space coro_local_addr
  end.

Section client_ops.
Context {F : Fabric}.
(** The contents of fresh heap memory, and the rounds followed of a wait for the
    winner of a slot. *)
Context (junk : mem) (spin : nat).

(** ** Shared steps *)

Definition finish (code : Z) : M Sys unit :=
  set_ctx (λ c, c <| is_finished := true |> <| ret_val := code |>).
Definition unfinished : M Sys unit := set_ctx (λ c, c <| is_finished := false |>).

(** [if ( *(ctx->should_stop) || ctx->is_finished) { is_finished = true; return; }]
    before [body]; a null flag is read first. *)
Definition unless_stopped (body : M Sys unit) : M Sys unit :=
  c ← get_ctx;
  stop ← of_option (should_stop c);
  if stop || is_finished c then set_ctx (λ c, c <| is_finished := true |>) else body.

(** The same with the two tests in the other order. *)
Definition unless_finished_or_stopped (body : M Sys unit) : M Sys unit :=
  c ← get_ctx;
  stop ← (if is_finished c then mret true else of_option (should_stop c));
  if stop : bool then set_ctx (λ c, c <| is_finished := true |>) else body.

Definition unless_finished (body : M Sys unit) : M Sys unit :=
  c ← get_ctx; if is_finished c then skip else body.

(** The cached location of the key, and the request that reads it. *)
Definition cache_probe : M Sys (list (list IbvSrList)) :=
  c ← get_ctx;
  if use_cache c then
    hit ← check_cache (key_str c);
    set_ctx (λ c, c <| is_local_cache_hit := bool_decide (is_Some hit) |>) ;;
    match hit with
    | None => mret []
    | Some key =>
        set_ctx (λ c, c <| cache_entry := Some key |>) ;;
        e ← cache_entry_of (Some key);
        l ← gen_read_cache_kv_sr_lists (coro_id c) (l_slot_ptr e) (local_cache_addr c);
        mret [l]
    end
  else mret [].

(** The same when nodes may have crashed: the entry is redirected first.  The
    slot of a block with no healthy replica is a null pointer. *)
Definition cache_probe_on_crash : M Sys (list (list IbvSrList)) :=
  c ← get_ctx;
  if use_cache c then
    hit ← check_cache (key_str c);
    set_ctx (λ c, c <| is_local_cache_hit := bool_decide (is_Some hit) |>) ;;
    match hit with
    | None => mret []
    | Some key =>
        e ← cache_entry_of (Some key);
        healthy ← check_failed_cache e;
        slot ← of_option healthy;
        set_cl (λ k, k <| Cl.addr_cache_ ::=
          <[key := mkLocalCacheEntry (r_slot_addr e) slot (miss_cnt e) (acc_cnt e)]> |>) ;;
        l ← gen_read_cache_kv_sr_lists (coro_id c) slot (local_cache_addr c);
        set_ctx (λ c, c <| cache_entry := Some key |>) ;;
        mret [l]
    end
  else mret [].

(** Is the block read from the cached location valid, and of the key? *)
Definition cached_block_ok (s : Sys) : bool :=
  let c := ctx s in
  let m := lmem (wld s) in
  let h := local_cache_addr c in
  use_cache c && is_local_cache_hit c && log_is_valid m h
  && CheckKey m (h + sizeof_KVLogHeader) (load16 m (h + off_key_length))
       (get_key (kv_info c)) (key_len (kv_info c)).

(** [ctx->cache_entry->acc_cnt ++] *)
Definition touch_cache : M Sys LocalCacheEntry :=
  c ← get_ctx;
  e ← cache_entry_of (cache_entry c);
  key ← of_option (cache_entry c);
  let e' := mkLocalCacheEntry (r_slot_addr e) (l_slot_ptr e) (miss_cnt e) (u32 (acc_cnt e + 1)) in
  set_cl (λ k, k <| Cl.addr_cache_ ::= <[key := e']> |>) ;;
  mret e'.

(** The candidate blocks are read. *)
Definition read_candidates (P : Posting) : M Sys unit :=
  c ← get_ctx;
  _ ← post_lists P (gen_read_kv_sr_lists (coro_id c) (kv_read_addr_list c)); unfinished.

(** The slot [j] of bucket [b] of the four that were read: its address in the
    local copy and on the first [n] index replicas. *)
Definition slot_location (n b j : Z) (c : KVReqCtx) : Z * list Z :=
  let t := tbl_addr_info c in
  let '(com_bucket, remote, b) :=
    if b <? 2 then (f_com_bucket c, f_bucket_addr t, b)
    else (s_com_bucket c, s_bucket_addr t, b - 2) in
  let old := bucket_slot (com_bucket + b * sizeof_RaceHashBucket) j in
  (old, (λ i, u64 (aget remote i + (old - com_bucket))) <$> zrange 0 n).

(** The swaps of that slot for the value at [local_cas_target_value_addr]. *)
Definition swap_slot (b j : Z) : M Sys RaceHashSlot :=
  s ← get;
  let '(old, remote) := slot_location (Cl.num_idx_rep_ (cl s)) b j (ctx s) in
  let m := lmem (wld s) in
  fill_cas_addr remote (slot_at m old) (slot_at m (local_cas_target_value_addr (ctx s))) ;;
  m ← get_lmem; mret (slot_at m old).

(** The first round of swaps, on the backups. *)
Definition swap_backups (P : Posting) : M Sys unit :=
  s ← get;
  if Cl.num_idx_rep_ (cl s) =? 1 then
    set_ctx (λ c, c <| consensus_state := KV_CONSENSUS_WIN_ALL |>)
  else
    _ ← post_lists P (gen_cas_sr_lists (coro_id (ctx s)) (kv_modify_bk_0_cas_list (ctx s))); skip.

(** ** Search *)

Definition kv_search_read_with (P : Posting) (buckets : KVReqCtx → list IbvSrList)
    (probe : M Sys (list (list IbvSrList))) : M Sys unit :=
  c ← get_ctx;
  cached ← probe;
  _ ← post_batch P (buckets c :: cached);
  unfinished.

Definition kv_search_read_buckets : M Sys unit :=
  kv_search_read_with fiber_posting gen_read_bucket_sr_lists cache_probe.
Definition kv_search_read_buckets_on_crash : M Sys unit :=
  kv_search_read_with fiber_posting gen_read_bucket_sr_lists cache_probe_on_crash.
Definition kv_search_read_buckets_sync : M Sys unit :=
  kv_search_read_with sync_posting gen_read_bucket_sr_lists cache_probe.
Definition kv_search_read_all_healthy_index : M Sys unit :=
  kv_search_read_with fiber_posting gen_read_bucket_sr_lists_on_crash cache_probe_on_crash.

(** The cached block ends the search, otherwise the candidates [find] finds are
    read. *)
Definition kv_search_read_kv_with (P : Posting) (find : M Sys unit) : M Sys unit :=
  s ← get;
  if cached_block_ok s then
    let h := local_cache_addr (ctx s) in
    finish (h + sizeof_KVLogHeader + load16 (lmem (wld s)) (h + off_key_length)) ;;
    _ ← touch_cache; skip
  else find ;; read_candidates P.

Definition kv_search_read_kv : M Sys unit :=
  unless_finished (kv_search_read_kv_with fiber_posting find_kv_in_buckets).
Definition kv_search_read_kv_sync : M Sys unit :=
  kv_search_read_kv_with sync_posting find_kv_in_buckets.
Definition kv_search_read_failed_kv : M Sys unit :=
  kv_search_read_kv_with fiber_posting
    (c ← get_ctx;
     (if failed_pr_index c then find_kv_in_buckets_on_crash else find_kv_in_buckets) ;;
     check_failed_data).

(** The array of slot addresses has [num_replication_] entries and
    [update_cache] reads [num_idx_rep_] of them. *)
Definition kv_search_check_kv : M Sys unit :=
  unless_finished (
    match_idx ← find_match_kv_idx;
    if negb (match_idx =? -1) then
      s ← get;
      r ← of_option (kv_read_addr_list (ctx s) !! Z.to_nat match_idx);
      let h := rw_l_kv_addr r in
      finish (h + sizeof_KVLogHeader + load16 (lmem (wld s)) (h + off_key_length)) ;;
      if use_cache (ctx s) then
        p ← of_option (kv_idx_list (ctx s) !! Z.to_nat match_idx);
        get_local_bucket_info ;;
        s ← get;
        let R := Cl.num_replication_ (cl s) in
        whenm (R <? Cl.num_idx_rep_ (cl s)) (stopm Undefined) ;;
        let '(old, remote) := slot_location R p.1 p.2 (ctx s) in
        update_cache (key_str (ctx s)) (slot_at (lmem (wld s)) old) remote
      else skip
    else finish 0).

(** ** Insertion *)

(** The log entry of the request: the operation is noted in its tail, a block is
    allocated for it and linked into the log.  [false] when the allocation
    failed, which is told by an address outside the memory of the nodes. *)
Definition log_entry (op : KVLogOp) (tail size : Z) : M Sys bool :=
  c ← get_ctx;
  wr8 (tail + off_op) (KVLogOp_val op) ;;
  wr8 (l_addr (kv_info c) + off_is_valid) 1 ;;
  a ← mm_alloc junk size (mm_alloc_ctx c);
  set_ctx (λ c, c <| mm_alloc_ctx := a |>) ;;
  s ← get;
  let addr := aget (addr_list a) 0 in
  let st := Cl.server_st_addr_ (cl s) in
  if (addr <? st) || (u64 (st + Cl.server_data_len_ (cl s)) <=? addr) then
    finish KV_OPS_FAIL_RETURN ;; mret false
  else
    update_log_tail tail a ;;
    prepare_log_commit_addrs ;;
    mret true.

(** Where the tail of the entry is, and the size of the entry. *)
Definition kv_entry_layout : M Sys (Z * Z) :=
  c ← get_ctx;
  let h := l_addr (kv_info c) in
  key_length ← rd16 (h + off_key_length);
  value_length ← rd32 (h + off_value_length);
  mret (h + sizeof_KVLogHeader + key_length + value_length,
        u32 (key_length + value_length + sizeof_KVLogHeader + sizeof_KVLogTail)).

Definition kv_insert_write_with (P : Posting) : M Sys unit :=
  '(tail, kv_block_size) ← kv_entry_layout;
  ok ← log_entry KV_OP_INSERT tail kv_block_size;
  if ok : bool then
    c ← get_ctx;
    w ← gen_write_kv_sr_lists c (kv_info c) (mm_alloc_ctx c);
    _ ← post_batch P [w; gen_read_bucket_sr_lists c];
    unfinished
  else skip.

Definition kv_insert_read_buckets_and_write_kv : M Sys unit := kv_insert_write_with fiber_posting.
Definition kv_insert_read_buckets_and_write_kv_sync : M Sys unit :=
  kv_insert_write_with sync_posting.

Definition kv_insert_backup_consensus_0_with (P : Posting) : M Sys unit :=
  find_empty_slot ;;
  c ← get_ctx;
  if bucket_idx c =? -1 then finish KV_OPS_FAIL_RETURN ;; mm_free_cur (mm_alloc_ctx c)
  else
    fill_slot (mm_alloc_ctx c) (hash_info c) (local_cas_target_value_addr c) ;;
    _ ← swap_slot (bucket_idx c) (slot_idx c);
    swap_backups P.

Definition kv_insert_backup_consensus_0 : M Sys unit :=
  kv_insert_backup_consensus_0_with fiber_posting.
Definition kv_insert_backup_consensus_0_sync : M Sys unit :=
  unless_finished (kv_insert_backup_consensus_0_with sync_posting).

Definition kv_insert_backup_consensus_1 : M Sys unit :=
  unless_finished (modify_backup_idx_consensus_1 spin).
Definition kv_insert_backup_consensus_1_sync : M Sys unit :=
  unless_finished_or_stopped (modify_backup_idx_consensus_1_sync spin).
Definition kv_insert_commit_log : M Sys unit := unless_finished kv_log_commit.
Definition kv_insert_commit_log_sync : M Sys unit :=
  unless_finished_or_stopped kv_log_commit_sync.
Definition kv_insert_cas_primary : M Sys unit := unless_finished modify_primary_idx.
Definition kv_insert_cas_primary_sync : M Sys unit := unless_finished modify_primary_idx_sync.

(** ** Update and deletion *)

(** The new value of the slot: the location of the new block, or zero. *)
Definition new_slot_update : M Sys unit :=
  c ← get_ctx; fill_slot (mm_alloc_ctx c) (hash_info c) (local_cas_target_value_addr c).
Definition new_slot_delete : M Sys unit :=
  c ← get_ctx; wr_bytes (local_cas_target_value_addr c) (replicate 8 0).

(** A cached block that is still the key's gives the slot to swap; otherwise the
    candidates are read. *)
Definition kv_modify_read_kv_with (P : Posting) (new_slot : M Sys unit) : M Sys unit :=
  s ← get;
  if cached_block_ok s then
    e ← touch_cache;
    new_slot ;;
    m ← get_lmem;
    fill_cas_addr (r_slot_addr e) (l_slot_ptr e)
      (slot_at m (local_cas_target_value_addr (ctx s))) ;;
    fill_invalid_addr (l_slot_ptr e) ;;
    set_ctx (λ c, c <| is_cache_hit := true |>)
  else
    set_ctx (λ c, c <| is_cache_hit := false |>) ;;
    find_kv_in_buckets ;;
    read_candidates P.

(** The slot of the key is swapped on the backups; a key that was not found ends
    the request with [missing]. *)
Definition kv_modify_backup_consensus_0_with (P : Posting) (new_slot : M Sys unit) (missing : Z)
    : M Sys unit :=
  c ← get_ctx;
  if use_cache c && is_cache_hit c then swap_backups P
  else
    match_idx ← find_match_kv_idx;
    if match_idx =? -1 then finish missing
    else
      p ← of_option (kv_idx_list c !! Z.to_nat match_idx);
      new_slot ;;
      old ← swap_slot p.1 p.2;
      fill_invalid_addr old ;;
      swap_backups P.

Definition kv_update_write_with (P : Posting) : M Sys bool :=
  '(tail, kv_block_size) ← kv_entry_layout;
  ok ← log_entry KV_OP_UPDATE tail kv_block_size;
  if ok : bool then
    cached ← cache_probe;
    c ← get_ctx;
    w ← gen_write_kv_sr_lists c (kv_info c) (mm_alloc_ctx c);
    _ ← post_batch P (w :: gen_read_bucket_sr_lists c :: cached);
    mret true
  else mret false.

Definition kv_update_read_buckets_and_write_kv : M Sys unit :=
  ok ← kv_update_write_with fiber_posting;
  if ok : bool then
    c ← get_ctx;
    stop ← of_option (should_stop c);
    if stop : bool then set_ctx (λ c, c <| is_finished := true |>) else unfinished
  else skip.
Definition kv_update_read_buckets_and_write_kv_sync : M Sys unit :=
  ok ← kv_update_write_with sync_posting;
  if ok : bool then unfinished else skip.

Definition kv_update_read_kv : M Sys unit :=
  unless_stopped (kv_modify_read_kv_with fiber_posting new_slot_update).
Definition kv_update_read_kv_sync : M Sys unit :=
  kv_modify_read_kv_with sync_posting new_slot_update.
Definition kv_update_backup_consensus_0 : M Sys unit :=
  unless_stopped (kv_modify_backup_consensus_0_with fiber_posting new_slot_update KV_OPS_FAIL_RETURN).
Definition kv_update_backup_consensus_0_sync : M Sys unit :=
  kv_modify_backup_consensus_0_with sync_posting new_slot_update KV_OPS_FAIL_RETURN.
Definition kv_update_backup_consensus_1 : M Sys unit :=
  unless_stopped (modify_backup_idx_consensus_1 spin).
Definition kv_update_backup_consensus_1_sync : M Sys unit :=
  unless_finished (modify_backup_idx_consensus_1_sync spin).
Definition kv_update_commit_log : M Sys unit := unless_stopped kv_log_commit.
Definition kv_update_commit_log_sync : M Sys unit := kv_log_commit_sync.
Definition kv_update_cas_primary : M Sys unit := unless_stopped modify_primary_idx.
Definition kv_update_cas_primary_sync : M Sys unit := modify_primary_idx_sync.

Definition kv_delete_write_with (P : Posting) (tail size : Z) : M Sys unit :=
  ok ← log_entry KV_OP_DELETE tail size;
  if ok : bool then
    c ← get_ctx;
    w ← gen_write_del_log_sr_lists c (kv_info c) (mm_alloc_ctx c);
    cached ← cache_probe;
    _ ← post_batch P (gen_read_bucket_sr_lists c :: w :: cached);
    unfinished
  else skip.

(** For fibers the tail follows the key, and is cleared first. *)
Definition kv_delete_read_buckets_write_log : M Sys unit :=
  c ← get_ctx;
  let h := l_addr (kv_info c) in
  key_length ← rd16 (h + off_key_length);
  let tail := h + sizeof_KVLogHeader + key_length in
  wr_bytes tail (replicate (Z.to_nat sizeof_KVLogTail) 0) ;;
  kv_delete_write_with fiber_posting tail
    (u32 (sizeof_KVLogHeader + key_length + sizeof_KVLogTail)).
(** The synchronous copy places it after the value. *)
Definition kv_delete_read_buckets_write_log_sync : M Sys unit :=
  '(tail, kv_block_size) ← kv_entry_layout;
  kv_delete_write_with sync_posting tail kv_block_size.

Definition kv_delete_read_kv : M Sys unit := kv_modify_read_kv_with fiber_posting new_slot_delete.
Definition kv_delete_read_kv_sync : M Sys unit :=
  kv_modify_read_kv_with sync_posting new_slot_delete.
Definition kv_delete_backup_consensus_0 : M Sys unit :=
  kv_modify_backup_consensus_0_with fiber_posting new_slot_delete KV_OPS_SUCCESS.
Definition kv_delete_backup_consensus_0_sync : M Sys unit :=
  kv_modify_backup_consensus_0_with sync_posting new_slot_delete KV_OPS_SUCCESS.
Definition kv_delete_backup_consensus_1 : M Sys unit :=
  s ← get;
  if Cl.num_idx_rep_ (cl s) =? 1 then skip else modify_backup_idx_consensus_1 spin.
Definition kv_delete_backup_consensus_1_sync : M Sys unit := modify_backup_idx_consensus_1_sync spin.
Definition kv_delete_commit_log : M Sys unit := unless_stopped kv_log_commit.
Definition kv_delete_commit_log_sync : M Sys unit := kv_log_commit_sync.
Definition kv_delete_cas_primary : M Sys unit := modify_primary_idx.
Definition kv_delete_cas_primary_sync : M Sys unit := modify_primary_idx_sync.

(** ** Operations *)

Definition ret : M Sys Z := c ← get_ctx; mret (ret_val c).

(** [if (ctx->is_finished) return ctx->ret_val.ret_code;] *)
Definition or_return (rest : M Sys Z) : M Sys Z :=
  c ← get_ctx; if is_finished c then mret (ret_val c) else rest.

(** [if (num_idx_rep_ > 1) body] *)
Definition with_backups (body : M Sys unit) : M Sys unit :=
  s ← get; whenm (1 <? Cl.num_idx_rep_ (cl s)) body.

Definition kv_search : M Sys Z :=
  prepare_request ;; kv_search_read_buckets ;; kv_search_read_kv ;; kv_search_check_kv ;; ret.

Definition kv_search_sync : M Sys Z :=
  prepare_request ;; kv_search_read_buckets_sync ;; kv_search_read_kv_sync ;;
  kv_search_check_kv ;; ret.

Definition kv_search_on_crash : M Sys Z :=
  prepare_request ;;
  check_failed_index ;;
  c ← get_ctx;
  (if failed_pr_index c then kv_search_read_all_healthy_index
   else kv_search_read_buckets_on_crash) ;;
  kv_search_read_failed_kv ;;
  kv_search_check_kv ;;
  ret.

Definition kv_insert : M Sys Z :=
  prepare_request ;;
  kv_insert_read_buckets_and_write_kv ;;
  or_return (
    kv_insert_backup_consensus_0 ;;
    or_return (
      with_backups (kv_insert_backup_consensus_1 ;; kv_insert_commit_log) ;;
      kv_insert_cas_primary ;;
      ret)).

Definition kv_insert_sync : M Sys Z :=
  prepare_request ;;
  kv_insert_read_buckets_and_write_kv_sync ;;
  or_return (
    kv_insert_backup_consensus_0_sync ;;
    with_backups (kv_insert_backup_consensus_1_sync ;; kv_insert_commit_log_sync) ;;
    kv_insert_cas_primary_sync ;;
    ret).

(** A crash at the given point: the client stops there, with -1. *)
Definition crash_at (crash_point : option KVOpsCrashPoint) (p : KVOpsCrashPoint)
    (rest : M Sys Z) : M Sys Z :=
  if bool_decide (crash_point = Some p) then mret (-1) else rest.

Definition kv_insert_w_crash (crash_point : option KVOpsCrashPoint) : M Sys Z :=
  prepare_request ;;
  kv_insert_read_buckets_and_write_kv_sync ;;
  kv_insert_backup_consensus_0_sync ;;
  crash_at crash_point KV_CRASH_UNCOMMITTED_BK_CONSENSUS_0 (
    let finally := 
      kv_insert_cas_primary_sync ;;
      crash_at crash_point KV_CRASH_COMMITTED_ALL_FINISH ret in
    s ← get;
    if 1 <? Cl.num_idx_rep_ (cl s) then
      kv_insert_backup_consensus_1_sync ;;
      crash_at crash_point KV_CRASH_UNCOMMITTED_BK_CONSENSUS_1 (
        kv_insert_commit_log_sync ;;
        crash_at crash_point KV_CRASH_COMMITTED_PR_CAS finally)
    else finally).

Definition kv_update : M Sys Z :=
  prepare_request ;;
  kv_update_read_buckets_and_write_kv ;;
  or_return (
    kv_update_read_kv ;;
    kv_update_backup_consensus_0 ;;
    or_return (
      with_backups (kv_update_backup_consensus_1 ;; kv_update_commit_log) ;;
      kv_update_cas_primary ;;
      ret)).

Definition kv_update_sync : M Sys Z :=
  prepare_request ;;
  kv_update_read_buckets_and_write_kv_sync ;;
  or_return (
    kv_update_read_kv_sync ;;
    kv_update_backup_consensus_0_sync ;;
    or_return (
      with_backups (kv_update_backup_consensus_1_sync ;; kv_update_commit_log_sync) ;;
      kv_update_cas_primary_sync ;;
      ret)).

Definition kv_update_w_crash (crash_point : option KVOpsCrashPoint) : M Sys Z :=
  prepare_request ;;
  kv_update_read_buckets_and_write_kv_sync ;;
  kv_update_read_kv_sync ;;
  kv_update_backup_consensus_0_sync ;;
  or_return (
    crash_at crash_point KV_CRASH_UNCOMMITTED_BK_CONSENSUS_0 (
      kv_update_backup_consensus_1_sync ;;
      crash_at crash_point KV_CRASH_UNCOMMITTED_BK_CONSENSUS_1 (
        kv_update_commit_log_sync ;;
        crash_at crash_point KV_CRASH_COMMITTED_PR_CAS (
          kv_update_cas_primary_sync ;;
          crash_at crash_point KV_CRASH_COMMITTED_ALL_FINISH ret)))).

Definition kv_delete : M Sys Z :=
  prepare_request ;;
  kv_delete_read_buckets_write_log ;;
  kv_delete_read_kv ;;
  or_return (
    kv_delete_backup_consensus_0 ;;
    or_return (
      with_backups (kv_delete_backup_consensus_1 ;; kv_delete_commit_log) ;;
      kv_delete_cas_primary ;;
      ret)).

Definition kv_delete_sync : M Sys Z :=
  prepare_request ;;
  kv_delete_read_buckets_write_log_sync ;;
  kv_delete_read_kv_sync ;;
  or_return (
    kv_delete_backup_consensus_0_sync ;;
    or_return (
      with_backups (kv_delete_backup_consensus_1_sync ;; kv_delete_commit_log_sync) ;;
      kv_delete_cas_primary_sync ;;
      ret)).

(** ** Operations on a context of their own

    The overloads that take a [KVInfo] clear a context on the stack and set some
    of its fields.  The vectors of the context stay empty. *)

Definition local_ctx (f : Cl.t → KVReqCtx → KVReqCtx) : M Sys unit :=
  modify (λ s, s <| ctx := f (cl s) KVReqCtx_zero |>).

Definition bucket_space (k : Cl.t) : Z := Cl.local_buf_ k + 4 * sizeof_RaceHashBucket.

Definition kv_search_w_cache (kv : KVInfo) : M Sys Z :=
  local_ctx (λ k c, c <| req_type := KV_REQ_SEARCH |> <| use_cache := true |> <| kv_info := kv |>
    <| local_bucket_addr := Cl.local_buf_ k |> <| local_cache_addr := bucket_space k |>
    <| local_kv_addr := bucket_space k + 256 |> <| ctx_lkey := Cl.local_buf_lkey k |>) ;;
  kv_search.

Definition kv_search_kv (kv : KVInfo) : M Sys Z :=
  local_ctx (λ k c, c <| req_type := KV_REQ_SEARCH |> <| use_cache := false |> <| kv_info := kv |>
    <| local_bucket_addr := Cl.local_buf_ k |> <| local_kv_addr := bucket_space k |>
    <| ctx_lkey := Cl.local_buf_lkey k |>) ;;
  kv_search.

Definition insert_ctx (cached : bool) (kv : KVInfo) (k : Cl.t) (c : KVReqCtx) : KVReqCtx :=
  c <| req_type := KV_REQ_INSERT |> <| use_cache := cached |> <| kv_info := kv |>
    <| local_bucket_addr := Cl.local_buf_ k |> <| local_cas_target_value_addr := bucket_space k |>
    <| local_cas_return_value_addr := bucket_space k + 8 |> <| ctx_lkey := Cl.local_buf_lkey k |>.

(** The phases in a row, without the early returns of [kv_insert]. *)
Definition insert_phases : M Sys Z :=
  prepare_request ;;
  kv_insert_read_buckets_and_write_kv ;;
  kv_insert_backup_consensus_0 ;;
  with_backups (kv_insert_backup_consensus_1 ;; kv_insert_commit_log) ;;
  kv_insert_cas_primary ;;
  ret.

Definition kv_insert_w_cache (kv : KVInfo) : M Sys Z :=
  local_ctx (insert_ctx true kv) ;; insert_phases.
Definition kv_insert_kv (kv : KVInfo) : M Sys Z :=
  local_ctx (insert_ctx false kv) ;; insert_phases.

Definition update_phases : M Sys Z :=
  prepare_request ;;
  kv_update_read_buckets_and_write_kv ;;
  kv_update_read_kv ;;
  kv_update_backup_consensus_0 ;;
  with_backups (kv_update_backup_consensus_1 ;; kv_update_commit_log) ;;
  kv_update_cas_primary ;;
  ret.

Definition kv_update_w_cache (kv : KVInfo) : M Sys Z :=
  local_ctx (λ k c, c <| req_type := KV_REQ_UPDATE |> <| use_cache := true |> <| kv_info := kv |>
    <| local_bucket_addr := Cl.local_buf_ k |> <| local_kv_addr := bucket_space k |>
    <| local_cas_target_value_addr := bucket_space k |>
    <| local_cas_return_value_addr := bucket_space k + 8 |>
    <| local_cache_addr := bucket_space k + 8 * Cl.num_replication_ k |>
    <| ctx_lkey := Cl.local_buf_lkey k |>) ;;
  update_phases.

Definition kv_update_kv (kv : KVInfo) : M Sys Z :=
  local_ctx (λ k c, c <| req_type := KV_REQ_UPDATE |> <| use_cache := false |> <| kv_info := kv |>
    <| local_bucket_addr := Cl.local_buf_ k |> <| local_kv_addr := bucket_space k |>
    <| local_cas_target_value_addr := bucket_space k |>
    <| local_cas_return_value_addr := bucket_space k + 8 |> <| op_laddr := bucket_space k + 8 |>
    <| ctx_lkey := Cl.local_buf_lkey k |>) ;;
  update_phases.

Definition delete_phases : M Sys Z :=
  prepare_request ;;
  kv_delete_read_buckets_write_log ;;
  kv_delete_read_kv ;;
  kv_delete_backup_consensus_0 ;;
  with_backups (kv_delete_backup_consensus_1 ;; kv_delete_commit_log) ;;
  kv_delete_cas_primary ;;
  ret.

Definition kv_delete_w_cache (kv : KVInfo) : M Sys Z :=
  local_ctx (λ k c, c <| req_type := KV_REQ_DELETE |> <| use_cache := true |> <| kv_info := kv |>
    <| local_bucket_addr := Cl.local_buf_ k |> <| local_cache_addr := bucket_space k |>
    <| local_kv_addr := bucket_space k + 256 |>
    <| local_cas_target_value_addr := bucket_space k |>
    <| local_cas_return_value_addr := bucket_space k + 8 |> <| ctx_lkey := Cl.local_buf_lkey k |>) ;;
  delete_phases.

Definition kv_delete_kv (kv : KVInfo) : M Sys Z :=
  local_ctx (λ k c, c <| req_type := KV_REQ_DELETE |> <| use_cache := false |> <| kv_info := kv |>
    <| local_bucket_addr := Cl.local_buf_ k |> <| local_kv_addr := bucket_space k |>
    <| local_cas_target_value_addr := bucket_space k |>
    <| local_cas_return_value_addr := bucket_space k + 8 |> <| ctx_lkey := Cl.local_buf_lkey k |>) ;;
  delete_phases.
End client_ops.

(** ** Search is total and sound *)

Lemma mapMS_run {A B} (Q : B → Prop) (f : A → M Sys B) (l : list A) s :
  (∀ x, x ∈ l → ∃ y, f x s = Done y s ∧ Q y) →
  ∃ ys, mapMS f l s = Done ys s ∧ length ys = length l ∧ Forall Q ys.
Proof.
  induction l as [|x l IH]; intros H; [by exists []|].
  destruct (H x) as (y & Ey & Hy); [set_solver|].
  destruct IH as (ys & Eys & Hl & Hq); [set_solver|].
  exists (y :: ys). cbn [mapMS length]. unM. rewrite Ey, Eys. split_and!; [done|lia|by constructor].
Qed.

(** The client [k] has the region of node [sid], as it has of each of the
    [memory_num] nodes it connected to. *)
Definition knows_node (k : Cl.t) (sid : Z) : Prop := is_Some (Cl.server_mr_info_map_ k !! sid).

Lemma server_rkey_run sid s : knows_node (cl s) sid → ∃ rk, server_rkey sid s = Done rk s.
Proof. intros [i E]. unfold server_rkey. unM. rewrite E. eauto. Qed.

(** The node of replica [i] of subtable [p], according to the root in memory [m]. *)
Definition root_node (k : Cl.t) (m : mem) (p i : Z) : Z :=
  load8 m (Cl.race_root_ k + Smm.root_subtable_entry p i + 2).

(** The root of the index has been read: it has a depth and a size, and the nodes
    it names are nodes the client is connected to. *)
Record root_read (s : Sys) : Prop := {
  rr_depth : load64 (lmem (wld s)) (Cl.race_root_ (cl s) + Smm.root_global_depth)
             <= RACE_HASH_MAX_GLOBAL_DEPTH;
  rr_range : 2 <= load64 (lmem (wld s)) (Cl.race_root_ (cl s) + Smm.root_subtable_hash_range);
  rr_nodes p i : 0 <= p < RACE_HASH_MAX_SUBTABLE_NUM → 0 <= i < Cl.num_idx_rep_ (cl s) →
    knows_node (cl s) (root_node (cl s) (lmem (wld s)) p i) }.

(** What a search relies on: nothing is under way, the root of the index has been
    read, the cache names nodes the client is connected to, and the buffers are
    inside the address space. *)
Record search_ready (s : Sys) : Prop := {
  sr_idle : idle s;
  sr_root : root_read s;
  sr_cache key e : Cl.addr_cache_ (cl s) !! key = Some e → knows_node (cl s) (slot_server_id (l_slot_ptr e));
  sr_buf : 0 <= local_kv_addr (ctx s);
  sr_sz : 0 < Cmm.subblock_sz_ (mm s) < 2 ^ 24;
  sr_room : local_kv_addr (ctx s) + 28 * (255 * Cmm.subblock_sz_ (mm s)) < 2 ^ 64;
  sr_rep : Cl.num_idx_rep_ (cl s) <= Cl.num_replication_ (cl s);
  sr_key : 0 <= key_len (kv_info (ctx s)) }.

(** What [prepare_request] finds out. *)
Definition prepared (k : Cl.t) (h : KVHashInfo) (t : KVTableAddrInfo) : Prop :=
  0 <= hash_fp h < 256 ∧ 0 <= f_main_idx t < 2 ∧ 0 <= s_main_idx t < 2 ∧
  ∀ i, 0 <= i < Cl.num_idx_rep_ k →
    0 <= aget (server_id_list t) i < 256 ∧ knows_node k (aget (server_id_list t) i).

(** The prefix of a hash value is the index of a subtable. *)
Lemma prefix_range x d :
  0 <= d <= RACE_HASH_MAX_GLOBAL_DEPTH →
  0 <= Z.land x (u64 (RACE_HASH_MASK d)) < RACE_HASH_MAX_SUBTABLE_NUM.
Proof.
  unfold RACE_HASH_MAX_GLOBAL_DEPTH. intros Hd.
  assert (u64 (RACE_HASH_MASK d) = Z.ones d) as ->.
  { assert (d = 0 ∨ d = 1 ∨ d = 2 ∨ d = 3 ∨ d = 4 ∨ d = 5) as Hc by lia.
    by repeat destruct Hc as [-> | Hc]; [..|subst d]. }
  rewrite Z.land_ones by lia. change RACE_HASH_MAX_SUBTABLE_NUM with (2 ^ 5).
  pose proof (Z.mod_pos_bound x (2 ^ d) ltac:(lia)). pose proof (Z.pow_le_mono_r 2 d 5). lia.
Qed.

Lemma prepare_request_run s :
  root_read s →
  ∃ h t, prepare_request s =
         Done tt (s <| ctx ::= λ c, c <| hash_info := h |> <| tbl_addr_info := t |> |>) ∧
         prepared (cl s) h t.
Proof.
  intros [Hd Hr Hk]. unfold prepare_request, get_kv_hash_info, get_ctx, set_ctx, root_u64, rd64, get_lmem,
    subtable_entry. unM. set (h := mkKVHashInfo _ _ _ _). exists h.
  set (s1 := s <| ctx ::= _ |>). unfold get_kv_addr_info, root_u64, rd64, get_lmem. unM.
  rewrite (proj2 (Z.eqb_neq _ 0)).
  2:{ apply Z.neq_sym, Z.lt_neq, Z.lt_le_trans with 1; [lia|].
      apply Z.div_le_lower_bound; [lia|]. exact Hr. }
  set (f := λ i : Z, _ : M Sys _).
  destruct (mapMS_run (λ y, 0 <= y.1.1 < 256 ∧ knows_node (cl s) y.1.1) f
    (zrange 0 (Cl.num_idx_rep_ (cl s1))) s1) as (ys & E & Hl & Hq).
  { intros i Hi%elem_of_zrange. unfold f, subtable_entry. unM.
    assert (knows_node (cl s1) (root_node (cl s1) (lmem (wld s1)) (prefix h) i)) as Hkn.
    { apply (Hk (prefix h) i); [|done]. apply prefix_range. split; [apply (load_range 8)|exact Hd]. }
    destruct (server_rkey_run _ s1 Hkn) as [rk Erk]. unfold root_node in Erk, Hkn.
    rewrite Erk. eexists. split; [reflexivity|]. split; [apply (load_range 1)|exact Hkn]. }
  rewrite E. eexists. unfold s1. split; [reflexivity|]. unfold prepared.
  cbn [f_main_idx s_main_idx server_id_list].
  split_and!; try (apply Z.mod_pos_bound; lia).
  intros i Hi. rewrite aget_afill by done.
  destruct (lookup_lt_is_Some_2 ys (Z.to_nat i)) as [y Ey].
  { rewrite Hl, zrange_length. change (cl s1) with (cl s). lia. }
  rewrite Forall_lookup in Hq. specialize (Hq _ _ Ey).
  by rewrite (nth_lookup_Some _ _ _ _ Ey).
Qed.

(** The probe of the cache changes nothing but the cache and the two fields of
    the request that describe the hit. *)
Definition probed (s s' : Sys) : Prop :=
  wld s' = wld s ∧ nm s' = nm s ∧ mm s' = mm s ∧
  cl s' = (cl s) <| Cl.addr_cache_ := Cl.addr_cache_ (cl s') |> ∧
  ctx s' = (ctx s) <| is_local_cache_hit := is_local_cache_hit (ctx s') |>
                   <| cache_entry := cache_entry (ctx s') |> ∧
  (use_cache (ctx s) = true → is_local_cache_hit (ctx s') = true →
     ∃ key e, cache_entry (ctx s') = Some key ∧ Cl.addr_cache_ (cl s') !! key = Some e).

Lemma check_cache_run key s :
  check_cache key s = Done None s ∨
  check_cache key s = Done None (s <| cl ::= λ k, k <| Cl.addr_cache_ ::= delete key |> |>) ∨
  (check_cache key s = Done (Some key) s ∧ is_Some (Cl.addr_cache_ (cl s) !! key)).
Proof.
  unfold check_cache. unM. unfold get. destruct (Cl.addr_cache_ (cl s) !! key) as [e|] eqn:E; [|auto].
  destruct (_ =? 0); [by right; left|]. destruct (SpecFloat.SFltb _ _); [by left|].
  right; right. eauto.
Qed.

Lemma cache_probe_run s :
  (∀ key e, Cl.addr_cache_ (cl s) !! key = Some e → knows_node (cl s) (slot_server_id (l_slot_ptr e))) →
  ∃ cached s', cache_probe s = Done cached s' ∧ Forall plain_list (concat cached) ∧ probed s s'.
Proof.
  intros Hc. unfold cache_probe, get_ctx, set_ctx. unM.
  destruct (use_cache (ctx s)) eqn:Eu.
  2:{ eexists [], s. split; [done|]. split; [constructor|]. destruct s as [? ? ? [] []].
      split_and!; try done. cbn in *. congruence. }
  destruct (check_cache_run (key_str (ctx s)) s) as [->|[->|[-> [e He]]]].
  1,2: eexists [], _; split; [reflexivity|]; split; [constructor|];
    destruct s as [? ? ? [] []]; split_and!; try done; discriminate.
  set (s1 := set_field ctx _ s). set (s2 := set_field ctx _ s1).
  unfold cache_entry_of. unM. unfold get. change (cl s2) with (cl s). rewrite He.
  unfold gen_read_cache_kv_sr_lists. unM. unfold get.
  destruct (server_rkey_run (slot_server_id (l_slot_ptr e)) s2) as [rk Erk]; [by eapply Hc|].
  rewrite Erk. eexists _, s2. split; [reflexivity|]. split; [repeat constructor; done|].
  unfold s2, s1. destruct s as [? ? ? k []]. split_and!; try done; [by destruct k|]. eauto.
Qed.

Lemma push_sorted_nonempty {A} k (v : A) l :
  Forall (λ g : Z * list A, g.2 ≠ []) l → Forall (λ g : Z * list A, g.2 ≠ []) (push_sorted k v l).
Proof.
  induction 1 as [|[k' vs] l Hg Hl IH]; cbn [push_sorted]; [by repeat constructor|].
  repeat case_match; constructor; try done; [|by constructor]. cbn. by destruct vs.
Qed.

Lemma gen_read_kv_plain coro l : Forall plain_list (gen_read_kv_sr_lists coro l).
Proof.
  unfold gen_read_kv_sr_lists. apply Forall_fmap.
  assert (∀ acc, Forall (λ g : Z * list KVRWAddr, g.2 ≠ []) acc →
    Forall (λ g : Z * list KVRWAddr, g.2 ≠ [])
      (foldl (λ m r, push_sorted (rw_server_id r) r m) acc l)) as H.
  { induction l as [|r l IH]; intros acc Hacc; cbn [foldl]; [done|].
    apply IH. by apply push_sorted_nonempty. }
  eapply Forall_impl; [apply H; constructor|]. intros [sid rs] Hrs. cbn in *. split; cbn.
  - destruct rs; [done|]. by rewrite imap_cons.
  - apply Forall_lookup_2. intros i x Hx. rewrite list_lookup_imap in Hx.
    by destruct (rs !! i); simplify_eq/=.
Qed.

Section search.
Context {F : Fabric} {HF : ReliableFabric F} (P : Posting) {HP : PostingOk P}.

(** The block at [h] carries the key of the request. *)
Definition key_at (s : Sys) (h : Z) : Prop :=
  let m := lmem (wld s) in
  load_bytes (load16 m (h + off_key_length)) m (h + sizeof_KVLogHeader) =
  load_bytes (key_len (kv_info (ctx s))) m (get_key (kv_info (ctx s))).

(** The first round trip, after which the buckets are in [s1]. *)
Definition buckets_read (s s1 : Sys) : Prop :=
  (prepare_request ;; kv_search_read_with P gen_read_bucket_sr_lists cache_probe) s = Done tt s1.

(** The answer [v] of a search that ends in [s']. *)
Definition search_answer (s : Sys) (v : Z) (s' : Sys) : Prop :=
  (∃ h, v = h + sizeof_KVLogHeader + load16 (lmem (wld s')) (h + off_key_length) ∧ key_at s' h) ∨
  (v = 0 ∧ ∃ s1, buckets_read s s1 ∧
     let arr := local_slot_arr (local_bucket_addr (ctx s1)) in
     Forall2 (reads_slot s1 arr) (filter (matches_at s1 arr) slot_indices)
       (kv_read_addr_list (ctx s')) ∧
     ∀ a, a ∈ kv_read_addr_list (ctx s') → ¬ key_at s' (rw_l_kv_addr a)).

(** What holds after the first round trip. *)
Record after_buckets (s : Sys) : Prop := {
  ab_idle : idle s;
  ab_buf : 0 <= local_kv_addr (ctx s);
  ab_sz : 0 < Cmm.subblock_sz_ (mm s) < 2 ^ 24;
  ab_room : local_kv_addr (ctx s) + 28 * (255 * Cmm.subblock_sz_ (mm s)) < 2 ^ 64;
  ab_rep : Cl.num_idx_rep_ (cl s) <= Cl.num_replication_ (cl s);
  ab_key : 0 <= key_len (kv_info (ctx s));
  ab_hit : use_cache (ctx s) = true → is_local_cache_hit (ctx s) = true →
    ∃ key e, cache_entry (ctx s) = Some key ∧ Cl.addr_cache_ (cl s) !! key = Some e;
  ab_unfinished : is_finished (ctx s) = false }.

Lemma buckets_read_run s : search_ready s → ∃ s1, buckets_read s s1 ∧ after_buckets s1.
Proof.
  intros [Hid Hr Hc Hb Hsz Hro Hrep Hkey]. unfold buckets_read, kv_search_read_with, get_ctx. unM.
  destruct (prepare_request_run s Hr) as (h & t & -> & _). set (s0 := set_field ctx _ s).
  destruct (cache_probe_run s0 Hc) as (cached & s' & -> & Hpl & Hw & Hn & Hm & Hcl & Hctx & Hhit).
  rewrite post_batch_ok.
  - eexists. split; [reflexivity|]. unfold unfinished, set_ctx.
    assert (Cl.num_idx_rep_ (cl s') = Cl.num_idx_rep_ (cl s) ∧
      Cl.num_replication_ (cl s') = Cl.num_replication_ (cl s)) as (E2 & E3)
      by (rewrite Hcl; by destruct (cl s0) eqn:E; unfold s0 in E; cbn in E; rewrite E).
    assert (local_kv_addr (ctx s') = local_kv_addr (ctx s) ∧ kv_info (ctx s') = kv_info (ctx s) ∧
      use_cache (ctx s') = use_cache (ctx s0)) as (E4 & E5 & E6) by (by rewrite Hctx).
    split; try (cbn; by rewrite ?E2, ?E3, ?E4, ?E5, ?Hm).
    + apply (posted_idle (concat (gen_read_bucket_sr_lists (ctx s0) :: cached))).
      destruct Hid. split; [by rewrite Hw|by rewrite Hn].
    + intros Hu Hh. apply Hhit; [by rewrite <- E6|done].
  - cbn [concat gen_read_bucket_sr_lists app]. constructor; [|done]. split; [done|by repeat constructor].
  - destruct Hid. split; [by rewrite Hw|by rewrite Hn].
Qed.

Lemma check_kv_run s1 s :
  is_finished (ctx s) = false → 0 <= key_len (kv_info (ctx s)) →
  Cl.num_idx_rep_ (cl s) <= Cl.num_replication_ (cl s) →
  Forall2 (reads_slot s1 (local_slot_arr (local_bucket_addr (ctx s1)))) (kv_idx_list (ctx s))
    (kv_read_addr_list (ctx s)) →
  ∃ s', kv_search_check_kv s = Done tt s' ∧ wld s' = wld s ∧
    kv_info (ctx s') = kv_info (ctx s) ∧ kv_read_addr_list (ctx s') = kv_read_addr_list (ctx s) ∧
    ((∃ (j : nat) a, kv_read_addr_list (ctx s) !! j = Some a ∧ key_at s (rw_l_kv_addr a) ∧
        (∀ (k : nat) b, (k < j)%nat → kv_read_addr_list (ctx s) !! k = Some b →
           ¬ key_at s (rw_l_kv_addr b)) ∧
        ret_val (ctx s') = rw_l_kv_addr a + sizeof_KVLogHeader
                           + load16 (lmem (wld s)) (rw_l_kv_addr a + off_key_length)) ∨
     (ret_val (ctx s') = 0 ∧ ∀ a, a ∈ kv_read_addr_list (ctx s) → ¬ key_at s (rw_l_kv_addr a))).
Proof.
  intros Hf Hk Hrep Hall. unfold kv_search_check_kv, unless_finished, get_ctx. unM. rewrite Hf.
  destruct (find_match_run s Hk) as (r & -> & Hr).
  destruct Hr as [[-> Hno]|(Hr & a & Ha & Hsame & Hfirst)].
  - eexists. split; [reflexivity|]. split_and!; try done. right. split; [done|]. exact Hno.
  - rewrite (proj2 (Z.eqb_neq r (-1))) by lia. cbn [negb]. rewrite Ha.
    unfold finish, set_ctx. unM.
    destruct (Forall2_lookup_r _ _ _ _ _ Hall Ha) as (p & Hp & _).
    destruct (use_cache (ctx s)).
    + rewrite Hp. unfold get_local_bucket_info, set_ctx. unM. set (s2 := set_field ctx _ _).
      change (cl s2) with (cl s). rewrite (proj2 (Z.ltb_ge _ _)) by lia.
      destruct (slot_location _ _ _ _) as [old remote].
      destruct (update_cache_run (key_str (ctx s2)) (slot_at (lmem (wld s2)) old) remote s2)
        as (e & -> & _).
      eexists. split; [reflexivity|]. split_and!; try done. left. by exists (Z.to_nat r), a.
    + eexists. split; [reflexivity|]. split_and!; try done. left. by exists (Z.to_nat r), a.
Qed.

(** The nodes of the candidates, in the buckets that were read, are known. *)
Definition candidates_known (s : Sys) : Prop :=
  let arr := local_slot_arr (local_bucket_addr (ctx s)) in
  Forall (λ p, matches_at s arr p → knows_node (cl s) (slot_server_id (slot_of (lmem (wld s)) arr p.1 p.2)))
    slot_indices.
#[global] Instance candidates_known_dec s : Decision (candidates_known s).
Proof. unfold candidates_known, knows_node. apply _. Defined.

Lemma search_rest_run s s1 :
  buckets_read s s1 → after_buckets s1 → cached_block_ok s1 = true ∨ candidates_known s1 →
  ∃ v s', (kv_search_read_kv_with P find_kv_in_buckets ;; kv_search_check_kv ;; ret) s1 = Done v s' ∧
    search_answer s v s'.
Proof.
  intros Hs1 [Hid Hb Hsz Hro Hrep Hkey Hhit Hunf] Hk. unfold kv_search_read_kv_with. unM.
  destruct (cached_block_ok s1) eqn:Eok.
  - unfold cached_block_ok in Eok. rewrite !andb_true_iff in Eok.
    destruct Eok as (((Hu & Hh) & _) & Hck).
    destruct (Hhit Hu Hh) as (key & e & Eke & Ee).
    unfold touch_cache, finish, set_ctx, get_ctx, cache_entry_of. unM.
    set (s2 := set_field ctx _ s1). change (cache_entry (ctx s2)) with (cache_entry (ctx s1)).
    rewrite Eke. change (cl s2) with (cl s1). rewrite Ee. unfold set_cl. unM.
    unfold kv_search_check_kv, unless_finished, get_ctx, ret. unM. cbn [ctx is_finished].
    eexists _, _. split; [reflexivity|]. left. exists (local_cache_addr (ctx s1)). split; [done|].
    apply CheckKey_iff in Hck; [exact Hck|apply (load_range 2)|done].
  - destruct (find_kv_in_buckets_run s1 Hb Hsz Hro) as (new & -> & Hall & _).
    { destruct Hk as [|Hk]; [done|]. intros p Hp. unfold candidates_known in Hk.
      rewrite Forall_forall in Hk. by apply Hk. }
    unfold read_candidates, get_ctx. unM.
    rewrite post_lists_ok; [|apply gen_read_kv_plain|done].
    unfold unfinished, set_ctx. unM. set (s2 := posted _ _). set (s3 := set_field ctx _ s2).
    destruct (check_kv_run s1 s3) as (s' & -> & Hw & Hki & Hkr & Hans);
      [done|exact Hkey|exact Hrep|exact Hall|].
    unfold ret, get_ctx. unM. eexists _, s'. split; [reflexivity|].
    assert (∀ h, key_at s3 h → key_at s' h) as Hat by (unfold key_at; by rewrite Hw, Hki).
    destruct Hans as [(j & a & Ha & Hka & _ & Hv)|(Hv & Hno)].
    + left. exists (rw_l_kv_addr a). rewrite Hw. split; [done|auto].
    + right. split; [done|]. exists s1. split; [done|]. rewrite Hkr. split; [exact Hall|].
      intros a Ha. unfold key_at. rewrite Hw, Hki. by apply Hno.
Qed.

Lemma search_rest_stops s1 :
  cached_block_ok s1 = false → ¬ candidates_known s1 →
  ∃ s', (kv_search_read_kv_with P find_kv_in_buckets ;; kv_search_check_kv ;; ret) s1 = Stopped Undefined s'.
Proof.
  intros Hok Hk. unfold kv_search_read_kv_with. unM. unfold get. rewrite Hok.
  unfold candidates_known, knows_node in Hk.
  apply not_Forall_Exists, Exists_exists in Hk as (p & Hp & Hn); [|apply _]. cbn in Hn.
  destruct (find_kv_in_buckets_stops s1 p) as (s' & ->); [done|by apply dec_stable; naive_solver| |by eexists].
  apply eq_None_not_Some. naive_solver.
Qed.

(** How the rest of a search [op] ends, from the state [s1] after its first round
    trip. *)
Definition search_end (s s1 : Sys) (op : M Sys Z) : Prop :=
  if decide (cached_block_ok s1 = true ∨ candidates_known s1)
  then ∃ v s', op s = Done v s' ∧ search_answer s v s'
  else ∃ s', op s = Stopped Undefined s'.

Lemma search_ends s s1 op :
  op s = (kv_search_read_kv_with P find_kv_in_buckets ;; kv_search_check_kv ;; ret) s1 →
  buckets_read s s1 → after_buckets s1 → search_end s s1 op.
Proof.
  intros E Hs1 Hab. unfold search_end. rewrite E. case_decide as Hc; [by apply search_rest_run|].
  apply search_rest_stops; [apply not_true_iff_false|]; tauto.
Qed.
End search.

(** The phases of a search after the buckets are there. *)
Lemma kv_search_phases `{F : Fabric} s s1 :
  buckets_read fiber_posting s s1 → is_finished (ctx s1) = false →
  kv_search s = (kv_search_read_kv_with fiber_posting find_kv_in_buckets ;; kv_search_check_kv ;; ret) s1.
Proof.
  intros H Hf. revert H.
  unfold buckets_read, kv_search, kv_search_read_buckets, kv_search_read_kv, unless_finished, get_ctx. unM.
  destruct (prepare_request s) as [[] s0|]; [|done]. intros ->. by rewrite Hf.
Qed.
Lemma kv_search_sync_phases `{F : Fabric} s s1 :
  buckets_read sync_posting s s1 →
  kv_search_sync s = (kv_search_read_kv_with sync_posting find_kv_in_buckets ;; kv_search_check_kv ;; ret) s1.
Proof.
  unfold buckets_read, kv_search_sync, kv_search_read_buckets_sync, kv_search_read_kv_sync. unM.
  destruct (prepare_request s) as [[] s0|]; [|done]. by intros ->.
Qed.

(** C6. Search, in both versions and whatever other clients do meanwhile, of a
    ready client: the first round trip always ends, in a state [s1].  If the
    block read through the cache is valid and carries the key, or if every slot
    with the key's fingerprint in the four buckets as they were read names a node
    the client is connected to, the search ends.  A non-null answer is then the
    value of a block in local memory whose key is, byte for byte, the key of the
    request, be it found through the cache or through the index; a null one means
    that every slot with the fingerprint was followed and that no block so read
    carries the key.  If another client left a slot with the fingerprint that
    names an unknown node, the search follows a null pointer. *)
Theorem kv_search_correct `{F : Fabric} `{HF : !ReliableFabric F} (s : Sys) :
  search_ready s →
  (∃ s1, buckets_read fiber_posting s s1 ∧ search_end fiber_posting s s1 kv_search) ∧
  (∃ s1, buckets_read sync_posting s s1 ∧ search_end sync_posting s s1 kv_search_sync).
Proof.
  intros Hs. split.
  - destruct (buckets_read_run fiber_posting s Hs) as (s1 & Hs1 & Hab). exists s1. split; [done|].
    by apply (search_ends fiber_posting s s1 kv_search (kv_search_phases s s1 Hs1 (ab_unfinished _ Hab))).
  - destruct (buckets_read_run sync_posting s Hs) as (s1 & Hs1 & Hab). exists s1. split; [done|].
    by apply (search_ends sync_posting s s1 kv_search_sync (kv_search_sync_phases s s1 Hs1)).
Qed.

(** ** Insertion *)

Definition entry_size (s : Sys) : Z :=
  let h := l_addr (kv_info (ctx s)) in
  u32 (load16 (lmem (wld s)) (h + off_key_length) + load32 (lmem (wld s)) (h + off_value_length)
       + sizeof_KVLogHeader + sizeof_KVLogTail).

(** A client about to insert: nothing under way, the root of the index read, two
    subblocks free, the entry fits one of them, which lies in the memory of the
    nodes. *)
Record insert_ready (s : Sys) (cur next : SubblockInfo) (rest : list SubblockInfo) : Prop := {
  ir_idle : idle s;
  ir_root : root_read s;
  ir_queue : Cmm.subblock_free_queue_ (mm s) = cur :: next :: rest;
  ir_rep : 1 <= Cl.num_replication_ (cl s);
  ir_rep_eq : Cmm.num_replication_ (mm s) = Cl.num_replication_ (cl s);
  ir_cur : sb_wf (Cl.num_replication_ (cl s)) cur;
  ir_last : sb_wf (Cl.num_replication_ (cl s)) (Cmm.last_allocated_info_ (mm s));
  ir_sz : 0 < Cmm.subblock_sz_ (mm s) < 2 ^ 31;
  ir_fits : 0 < entry_size s <= Cmm.subblock_sz_ (mm s);
  ir_range : Cl.server_st_addr_ (cl s) <= aget (sb_addr_list cur) 0
             < Cl.server_st_addr_ (cl s) + Cl.server_data_len_ (cl s);
  ir_start : 0 <= Cl.server_st_addr_ (cl s);
  ir_end : Cl.server_st_addr_ (cl s) + Cl.server_data_len_ (cl s) < 2 ^ 64;
  ir_commit : (Z.to_nat (Cl.num_replication_ (cl s)) <= length (log_commit_addr_list (ctx s)))%nat;
  ir_unused : (Z.to_nat (Cl.num_replication_ (cl s)) <= length (write_unused_addr_list (ctx s)))%nat }.

(** The block of the request in its context, [s0] being the state before the
    allocation. *)
Definition holds_block (s0 s : Sys) (cur next : SubblockInfo) (rest : list SubblockInfo) : Prop :=
  mm s = (mm s0) <| Cmm.subblock_free_queue_ := next :: rest |>
                 <| Cmm.last_allocated_info_ := cur |> ∧
  cl s = cl s0 ∧
  ∃ c, mm_alloc_ctx (ctx s) =
       fill_alloc_ctx (Cl.num_replication_ (cl s0)) 1 cur next (Cmm.last_allocated_info_ (mm s0)) c.

(** The first phase leaves the other fields of the request alone. *)
Definition insert_frame (s s1 : Sys) : Prop :=
  ctx s1 = (ctx s) <| hash_info := hash_info (ctx s1) |> <| tbl_addr_info := tbl_addr_info (ctx s1) |>
    <| mm_alloc_ctx := mm_alloc_ctx (ctx s1) |>
    <| log_commit_addr_list := log_commit_addr_list (ctx s1) |>
    <| write_unused_addr_list := write_unused_addr_list (ctx s1) |>
    <| is_local_cache_hit := is_local_cache_hit (ctx s1) |> <| is_finished := false |>.

Lemma entries_found {A B} (f : A → option B) (l : list A) :
  (∀ x, x ∈ l → is_Some (f x)) → ∃ ys, mapM f l = Some ys.
Proof.
  intros H. destruct (mapM f l) as [ys|] eqn:E; [eauto|].
  apply mapM_None, Exists_exists in E as (x & Hx & Hn). destruct (H x Hx). congruence.
Qed.

Lemma prepare_log_commit_run s :
  (Z.to_nat (Cl.num_replication_ (cl s)) <= length (log_commit_addr_list (ctx s)))%nat →
  (Z.to_nat (Cl.num_replication_ (cl s)) <= length (write_unused_addr_list (ctx s)))%nat →
  ∃ lc wu, prepare_log_commit_addrs s =
    Done tt (s <| ctx ::= λ c, c <| log_commit_addr_list := lc |> <| write_unused_addr_list := wu |> |>).
Proof.
  intros H1 H2. unfold prepare_log_commit_addrs, rd16, rd32, get_lmem, set_ctx. unM. unfold get.
  set (n := Cl.num_replication_ (cl s)) in *.
  assert (∀ off (l : list KVRWAddr), (Z.to_nat n <= length l)%nat → ∃ ys,
    mapM (λ i : Z, o ← l !! Z.to_nat i;
      Some (mkKVRWAddr (aget (ac_server_id_list (mm_alloc_ctx (ctx s))) i)
        (u64 (aget (addr_list (mm_alloc_ctx (ctx s))) i + off)) (rw_l_kv_addr o)
        (aget (rkey_list (mm_alloc_ctx (ctx s))) i) (rw_lkey o) (rw_length o))) (zrange 0 n) = Some ys)
    as Hm.
  { intros off l Hl. apply entries_found. intros i Hi%elem_of_zrange.
    destruct (lookup_lt_is_Some_2 l (Z.to_nat i)) as [o Eo]; [lia|]. rewrite Eo. eauto. }
  edestruct Hm as [ys1 E1]; [exact H1|]. unM. rewrite E1. clear E1.
  edestruct Hm as [ys2 E2]; [exact H2|]. unM. rewrite E2. clear E2.
  eexists _, _. destruct s as [? ? ? ? []]. reflexivity.
Qed.

(** The entry of an insertion, from its header to the tail of the log. *)
Definition log_tail (s : Sys) : Z :=
  let h := l_addr (kv_info (ctx s)) in
  h + sizeof_KVLogHeader + load16 (lmem (wld s)) (h + off_key_length)
    + load32 (lmem (wld s)) (h + off_value_length).

(** The requests of the first phase. *)
Definition insert_requests (s : Sys) : list (list IbvSrList) :=
  [replica_writes (Cl.num_replication_ (cl s)) (ctx s) (kv_info (ctx s))
     (u32 (ac_num_subblocks (mm_alloc_ctx (ctx s)) * Cmm.subblock_sz_ (mm s))) (mm_alloc_ctx (ctx s));
   gen_read_bucket_sr_lists (ctx s)].

(** When these are about to be posted, in [s1]: the block is allocated, the log
    entry is complete, and only its flag and its tail were written. *)
Record entry_ready (s s1 : Sys) (cur next : SubblockInfo) (rest : list SubblockInfo) : Prop := {
  er_idle : idle s1;
  er_block : holds_block s s1 cur next rest;
  er_ctx : insert_frame s (s1 <| ctx ::= λ c, c <| is_finished := false |> |>);
  er_prep : prepared (cl s) (hash_info (ctx s1)) (tbl_addr_info (ctx s1));
  er_found : prepare_request s = Done tt (s <| ctx ::= λ c, c <| hash_info := hash_info (ctx s1) |>
               <| tbl_addr_info := tbl_addr_info (ctx s1) |> |>);
  er_rmem : rmem (wld s1) = rmem (wld s);
  er_lmem x : x ≠ l_addr (kv_info (ctx s)) →
    ¬ (log_tail s <= x < log_tail s + sizeof_KVLogTail) → lmem (wld s1) x = lmem (wld s) x }.

Lemma store_outside n m a v x : ¬ (a <= x < a + Z.of_nat n) → store n m a v x = m x.
Proof. intros H. unfold store. destruct (_ && _) eqn:E; [|done]. zify_bool. lia. Qed.
Lemma store_bytes_outside m a bs x : ¬ (a <= x < a + Z.of_nat (length bs)) → store_bytes m a bs x = m x.
Proof. intros H. unfold store_bytes. destruct (_ && _) eqn:E; [|done]. zify_bool. lia. Qed.

(** The log entry of a request for which a block is free: [s] before it, [s1] when
    it is complete. *)
Record entry_logged (s s1 : Sys) (cur next : SubblockInfo) (rest : list SubblockInfo) (tail : Z) : Prop := {
  el_idle : idle s → idle s1;
  el_block : holds_block s s1 cur next rest;
  el_ctx : ctx s1 = (ctx s) <| mm_alloc_ctx := mm_alloc_ctx (ctx s1) |>
    <| log_commit_addr_list := log_commit_addr_list (ctx s1) |>
    <| write_unused_addr_list := write_unused_addr_list (ctx s1) |>;
  el_rmem : rmem (wld s1) = rmem (wld s);
  el_lmem x : x ≠ l_addr (kv_info (ctx s)) → ¬ (tail <= x < tail + sizeof_KVLogTail) →
    lmem (wld s1) x = lmem (wld s) x }.

(** What the entry relies on. *)
Record block_ready (s : Sys) (cur next : SubblockInfo) (rest : list SubblockInfo) : Prop := {
  br_queue : Cmm.subblock_free_queue_ (mm s) = cur :: next :: rest;
  br_rep : 1 <= Cl.num_replication_ (cl s);
  br_rep_eq : Cmm.num_replication_ (mm s) = Cl.num_replication_ (cl s);
  br_sz : 0 < Cmm.subblock_sz_ (mm s) < 2 ^ 31;
  br_range : Cl.server_st_addr_ (cl s) <= aget (sb_addr_list cur) 0
             < Cl.server_st_addr_ (cl s) + Cl.server_data_len_ (cl s);
  br_start : 0 <= Cl.server_st_addr_ (cl s);
  br_end : Cl.server_st_addr_ (cl s) + Cl.server_data_len_ (cl s) < 2 ^ 64;
  br_commit : (Z.to_nat (Cl.num_replication_ (cl s)) <= length (log_commit_addr_list (ctx s)))%nat;
  br_unused : (Z.to_nat (Cl.num_replication_ (cl s)) <= length (write_unused_addr_list (ctx s)))%nat }.

Lemma insert_block_ready s cur next rest : insert_ready s cur next rest → block_ready s cur next rest.
Proof. intros []. by split. Qed.

Lemma log_entry_run `{F : Fabric} junk op tail size s cur next rest :
  block_ready s cur next rest → 0 < size <= Cmm.subblock_sz_ (mm s) →
  ∃ s1, log_entry junk op tail size s = Done true s1 ∧ entry_logged s s1 cur next rest tail.
Proof.
  intros [Hq Hrep Hreq Hsz Hrange Hst Hend Hlc Hwu] Hfits.
  unfold log_entry, wr8, set_lmem, get_ctx, set_ctx. unM.
  set (s2 := set_field wld _ (set_field wld _ s)).
  pose proof (mm_alloc_run junk size (mm_alloc_ctx (ctx s)) s2 Hsz Hfits) as Ha.
  unfold alloc_outcome in Ha. change (mm s2) with (mm s) in Ha. rewrite Hq in Ha.
  cbn [length Nat.eqb Z.eqb] in Ha.
  set (a0 := fill_alloc_ctx (Cmm.num_replication_ (mm s)) 1 cur next
    (Cmm.last_allocated_info_ (mm s)) (mm_alloc_ctx (ctx s))).
  rewrite (Ha : mm_alloc junk size (mm_alloc_ctx (ctx s)) s2 = Done a0 _).
  set (s3 := set_field mm _ (set_field mm _ s2)). set (s4 := set_field ctx _ s3).
  change (cl s4) with (cl s).
  assert (aget (addr_list a0) 0 = aget (sb_addr_list cur) 0) as Haddr.
  { unfold a0, fill_alloc_ctx. cbn. apply aget_afill. lia. }
  rewrite Haddr, (proj2 (Z.ltb_ge _ _)) by lia.
  unfold u64. rewrite (Z.mod_small (Cl.server_st_addr_ _ + _)) by lia.
  rewrite (proj2 (Z.leb_gt _ _)) by lia. cbn [orb].
  unfold update_log_tail, wr_bytes, set_lmem. unM. set (s5 := set_field wld _ (set_field wld _ s4)).
  destruct (prepare_log_commit_run s5 Hlc Hwu) as (lc & wu & ->). set (s6 := set_field ctx _ s5).
  exists s6. split; [done|]. split; try done.
  - split; [done|]. split; [done|]. exists (mm_alloc_ctx (ctx s)). rewrite <- Hreq. reflexivity.
  - intros x Hh Ht. cbn.
    unfold off_next_addr, off_prev_addr, off_op, off_is_valid, sizeof_KVLogTail in *.
    rewrite !store_bytes_outside by (cbn [length]; lia).
    unfold store8. rewrite !store_outside by lia. done.
Qed.

(** The first phase up to the requests. *)
Lemma entry_ready_intro s s0 s1 cur next rest h t :
  insert_ready s cur next rest →
  prepare_request s = Done tt s0 → s0 = s <| ctx ::= λ c, c <| hash_info := h |> <| tbl_addr_info := t |> |> →
  prepared (cl s) h t → entry_logged s0 s1 cur next rest (log_tail s) →
  entry_ready s s1 cur next rest.
Proof.
  intros Hs Ep -> Hprep [Hid Hb Hc Hr Hl].
  assert (hash_info (ctx s1) = h ∧ tbl_addr_info (ctx s1) = t) as [Eh Et] by (by rewrite Hc).
  split; try done.
  - apply Hid, Hs.
  - unfold insert_frame. change (ctx (s1 <| ctx ::= _ |>)) with ((ctx s1) <| is_finished := false |>).
    change (ctx (s <| ctx ::= _ |>)) with ((ctx s) <| hash_info := h |> <| tbl_addr_info := t |>) in Hc.
    clear -Hc. destruct (ctx s1), (ctx s). cbn in *. injection Hc. intros. by subst.
  - by rewrite Eh, Et.
  - by rewrite Eh, Et.
Qed.

Lemma insert_entry_run `{F : Fabric} `{HF : !ReliableFabric F} (P : Posting) junk s cur next rest :
  insert_ready s cur next rest →
  ∃ s1, (prepare_request ;; kv_insert_write_with junk P) s =
          (_ ← post_batch P (insert_requests s1); unfinished) s1 ∧
    entry_ready s s1 cur next rest.
Proof.
  intros Hs. unfold mbind at 1, M_bind.
  destruct (prepare_request_run s (ir_root _ _ _ _ Hs)) as (h & t & Ep & Hprep).
  rewrite Ep. set (s0 := set_field ctx _ s).
  destruct (log_entry_run junk KV_OP_INSERT (log_tail s) (entry_size s) s0 cur next rest) as (s1 & E & He);
    [by apply insert_block_ready in Hs as []|apply Hs|].
  exists s1. split; [|by eapply entry_ready_intro].
  unfold kv_insert_write_with, kv_entry_layout, rd16, rd32, get_lmem, get_ctx. unM.
  change (u32 _) with (entry_size s). change (_ + load32 _ _) with (log_tail s). rewrite E.
  unfold gen_write_kv_sr_lists. unM. unfold get. done.
Qed.

(** The whole first phase: the block is allocated and the buckets are read. *)
Lemma insert_requests_plain s : Forall plain_list (concat (insert_requests s)).
Proof.
  cbn [concat insert_requests]. apply Forall_app. split; [|repeat constructor; done].
  unfold replica_writes. apply Forall_fmap, Forall_true. intros i. split; [done|]. by repeat constructor.
Qed.

Lemma insert_requests_posted `{F : Fabric} `{HF : !ReliableFabric F} (P : Posting) `{HP : !PostingOk P}
    s s1 cur next rest :
  entry_ready s s1 cur next rest →
  ∃ s2, (_ ← post_batch P (insert_requests s1); unfinished) s1 = Done tt s2 ∧ idle s2 ∧
    holds_block s s2 cur next rest ∧ insert_frame s s2 ∧
    ctx s2 = (ctx s1) <| is_finished := false |> ∧
    wld s2 = wld (posted (concat (insert_requests s1)) s1).
Proof.
  intros [Hid Hb Hc _ _ _ _].
  unM. rewrite post_batch_ok by (apply insert_requests_plain || done). unfold unfinished, set_ctx. unM.
  eexists. split; [reflexivity|]. split; [exact (posted_idle _ _ Hid)|].
  pose proof (posted_client_side (concat (insert_requests s1)) s1) as Ec.
  generalize dependent (posted (concat (insert_requests s1)) s1). intros s2 [= Em Ecl Ectx].
  destruct Hb as (H1 & H2 & c & H3). unfold holds_block, insert_frame in *.
  cbn [mm cl ctx wld set_field eta_Sys] in *. rewrite Em, Ecl, Ectx. split_and!; try done. by exists c.
Qed.

Lemma insert_write_run `{F : Fabric} `{HF : !ReliableFabric F} (P : Posting) `{HP : !PostingOk P}
    junk s cur next rest :
  insert_ready s cur next rest →
  ∃ s1, (prepare_request ;; kv_insert_write_with junk P) s = Done tt s1 ∧ idle s1 ∧
    holds_block s s1 cur next rest ∧ insert_frame s s1 ∧
    prepared (cl s) (hash_info (ctx s1)) (tbl_addr_info (ctx s1)).
Proof.
  intros Hs. destruct (insert_entry_run P junk s cur next rest Hs) as (s1 & -> & He).
  destruct (insert_requests_posted P s s1 cur next rest He) as (s2 & -> & Hid & Hb & Hf & Ec & _).
  exists s2. rewrite Ec. split_and!; try done. apply (er_prep _ _ _ _ _ He).
Qed.

(** All the slots that were read are taken. *)
Definition buckets_full (s : Sys) : Prop :=
  ∀ b i, 0 <= b < 4 → 0 <= i < 7 → slot_is_empty s b i = false.

Lemma insert_full_run (P : Posting) s0 s cur next rest :
  Cmm.subblock_free_queue_ (mm s0) = cur :: next :: rest →
  Cmm.num_replication_ (mm s0) = Cl.num_replication_ (cl s0) →
  sb_wf (Cl.num_replication_ (cl s0)) cur →
  sb_wf (Cl.num_replication_ (cl s0)) (Cmm.last_allocated_info_ (mm s0)) →
  holds_block s0 s cur next rest →
  0 <= f_main_idx (tbl_addr_info (ctx s)) < 2 → 0 <= s_main_idx (tbl_addr_info (ctx s)) < 2 →
  buckets_full s →
  ∃ s', kv_insert_backup_consensus_0_with P s = Done tt s' ∧ wld s' = wld s ∧ mm s' = mm s0 ∧
    cl s' = cl s0 ∧ is_finished (ctx s') = true ∧ ret_val (ctx s') = KV_OPS_FAIL_RETURN.
Proof.
  intros Hq Hn Hcur Hlast (Hm & Hcl & c & Hc) Hf Hsm Hfull.
  unfold kv_insert_backup_consensus_0_with, get_ctx. unM.
  destruct (find_empty_slot_run s Hf Hsm) as (s' & -> & Hcs & Hw & _ & Ha & [(Hb & _ & _)|(Hb & Hi & He)]).
  2:{ rewrite Hfull in He; done. }
  rewrite Hb. cbn [Z.eqb Pos.eqb]. unfold finish, set_ctx. unM. injection Hcs as Hm' Hcl'.
  replace (mm_alloc_ctx (ctx s')) with (mm_alloc_ctx (ctx s)) by (by rewrite Ha).
  rewrite Hc, mm_free_cur_run; [|cbn; rewrite Hm', Hm; exact Hn|done..].
  eexists. split; [reflexivity|]. split_and!; [exact Hw| |cbn; congruence|done|done].
  cbn [mm]. cbn. rewrite Hm', Hm. destruct (mm s0). cbn in *. by subst.
Qed.

(** C8. An insertion that finds no free slot, in both versions and whatever other
    clients do meanwhile: when the four buckets read in the first phase (state
    [s1]) are full, the operation ends with [KV_OPS_FAIL_RETURN], nothing is
    sent to the memory nodes after the first phase, and the block allocated for
    the entry is given back: the allocator is as before the operation. *)
Theorem kv_insert_no_room `{F : Fabric} `{HF : !ReliableFabric F} (junk : mem) (spin : nat)
    (s : Sys) (cur next : SubblockInfo) (rest : list SubblockInfo) :
  insert_ready s cur next rest →
  (∃ s1, (prepare_request ;; kv_insert_write_with junk fiber_posting) s = Done tt s1 ∧
     (buckets_full s1 →
      ∃ s', kv_insert junk spin s = Done KV_OPS_FAIL_RETURN s' ∧
        wld s' = wld s1 ∧ mm s' = mm s ∧ cl s' = cl s)) ∧
  (∃ s1, (prepare_request ;; kv_insert_write_with junk sync_posting) s = Done tt s1 ∧
     (buckets_full s1 →
      ∃ s', kv_insert_sync junk spin s = Done KV_OPS_FAIL_RETURN s' ∧
        wld s' = wld s1 ∧ mm s' = mm s ∧ cl s' = cl s)).
Proof.
  intros Hs. split.
  - destruct (insert_write_run fiber_posting junk s cur next rest Hs)
      as (s1 & E & Hid & Hh & Hfr & _ & Hf & Hsm & _).
    exists s1. split; [done|]. intros Hfull.
    destruct (insert_full_run fiber_posting s s1 cur next rest) as (s' & E' & Hw & Hm & Hcl & Hfin & Hrv);
      try apply Hs; try done.
    revert E. unfold kv_insert, kv_insert_read_buckets_and_write_kv, or_return, get_ctx,
      kv_insert_backup_consensus_0. unM.
    destruct (prepare_request s) as [[] s0|]; [|done]. intros ->.
    replace (is_finished (ctx s1)) with false by (by rewrite Hfr). rewrite E', Hfin, Hrv. eauto.
  - destruct (insert_write_run sync_posting junk s cur next rest Hs)
      as (s1 & E & Hid & Hh & Hfr & _ & Hf & Hsm & _).
    exists s1. split; [done|]. intros Hfull.
    destruct (insert_full_run sync_posting s s1 cur next rest) as (s' & E' & Hw & Hm & Hcl & Hfin & Hrv);
      try apply Hs; try done.
    revert E. unfold kv_insert_sync, kv_insert_read_buckets_and_write_kv_sync, or_return, get_ctx,
      kv_insert_backup_consensus_0_sync, unless_finished, with_backups, kv_insert_backup_consensus_1_sync,
      kv_insert_commit_log_sync, kv_insert_cas_primary_sync, unless_finished_or_stopped, unless_finished,
      ret, get_ctx, set_ctx. unM.
    destruct (prepare_request s) as [[] s0|]; [|done]. intros ->.
    assert (is_finished (ctx s1) = false) as Hun by (by rewrite Hfr).
    rewrite Hun. cbv beta iota. rewrite Hun, E'. unfold get.
    destruct (1 <? _); cbn; rewrite ?Hfin; cbn; rewrite ?Hfin, ?Hrv; eexists; (split; [reflexivity|]);
      done.
Qed.

(** *** A single index replica *)

(** Slot [i] of bucket [b]: its copy in local memory, and on index replica [r]. *)
Definition local_slot (s : Sys) (b i : Z) : Z :=
  bucket_slot (local_bucket_addr (ctx s) + b * sizeof_RaceHashBucket) i.
Definition remote_slot (t : KVTableAddrInfo) (r b i : Z) : Z :=
  u64 (if b <? 2 then aget (f_bucket_addr t) r + bucket_slot (b * sizeof_RaceHashBucket) i
       else aget (s_bucket_addr t) r + bucket_slot ((b - 2) * sizeof_RaceHashBucket) i).

Lemma slot_location_eq n b i s :
  0 <= b < 4 → 0 < n → f_com_bucket (ctx s) = local_bucket_addr (ctx s) →
  s_com_bucket (ctx s) = local_bucket_addr (ctx s) + 2 * sizeof_RaceHashBucket →
  (slot_location n b i (ctx s)).1 = local_slot s b i ∧
  ∀ r, 0 <= r < n → aget (slot_location n b i (ctx s)).2 r = remote_slot (tbl_addr_info (ctx s)) r b i.
Proof.
  intros Hb Hn Hf Hs. unfold slot_location, local_slot, remote_slot, bucket_slot. rewrite Hf, Hs.
  assert (∀ (f : Z → Z) r, 0 <= r < n → aget (f <$> zrange 0 n) r = f r) as Hget.
  { intros f r Hr. pose proof (aget_afill n f [] r Hr) as H. unfold afill in H.
    by rewrite drop_nil, app_nil_r in H. }
  destruct (b <? 2) eqn:E; zify_bool; cbn [fst snd]; split; try lia; intros r Hr;
    rewrite Hget by done; f_equal; lia.
Qed.

(** The slot value that points to the block of the request. *)
Definition block_slot (h : KVHashInfo) (b : SubblockInfo) : RaceHashSlot :=
  mkSlot (hash_fp h) 1 (aget (sb_server_id_list b) 0)
         (HashIndexConvert64To40Bits (aget (sb_addr_list b) 0)).

Lemma block_slot_wf n h b : 1 <= n → sb_wf n b → 0 <= hash_fp h < 256 → slot_wf (block_slot h b).
Proof.
  intros Hn [_ Hb] Hh. destruct (Hb 0 ltac:(lia)) as (_ & _ & Hs).
  destruct (HashIndexConvert64To40Bits_wf (aget (sb_addr_list b) 0)) as [Hl Hy].
  unfold slot_wf, block_slot. cbn [fp kv_len slot_server_id pointer]. unfold in_u8 in *.
  by split_and!; try lia.
Qed.

Lemma fill_slot_run n cur next l c h a s :
  1 <= n →
  fill_slot (fill_alloc_ctx n 1 cur next l c) h a s =
  Done tt (s <| wld ::= λ w, w <| lmem ::= λ m, store_bytes m a
    (fp (block_slot h cur) :: kv_len (block_slot h cur) :: slot_server_id (block_slot h cur)
       :: pointer (block_slot h cur)) |> |>).
Proof.
  intros Hn. unfold fill_slot, wr_bytes, set_lmem, fill_alloc_ctx, block_slot. unM. cbn.
  by rewrite !aget_afill by lia.
Qed.

(** The single swap of a request with one index replica. *)
Definition single_swap (s : Sys) (b i rk : Z) (new : RaceHashSlot) : KVCASAddr :=
  mkKVCASAddr (aget (server_id_list (tbl_addr_info (ctx s))) 0)
    (remote_slot (tbl_addr_info (ctx s)) 0 b i) (local_cas_return_value_addr (ctx s)) rk
    (ctx_lkey (ctx s)) (load64 (lmem (wld s)) (local_slot s b i)) (ConvertSlotToInt new).

Lemma swap_slot_run1 s b i x :
  Cl.num_idx_rep_ (cl s) = 1 → kv_modify_pr_cas_list (ctx s) = [x] →
  knows_node (cl s) (aget (server_id_list (tbl_addr_info (ctx s))) 0) → 0 <= b < 4 →
  f_com_bucket (ctx s) = local_bucket_addr (ctx s) →
  s_com_bucket (ctx s) = local_bucket_addr (ctx s) + 2 * sizeof_RaceHashBucket →
  ∃ rk, swap_slot b i s = Done (slot_at (lmem (wld s)) (local_slot s b i))
    (s <| ctx ::= λ c, c <| kv_modify_pr_cas_list :=
    [single_swap s b i rk (slot_at (lmem (wld s)) (local_cas_target_value_addr (ctx s)))] |> |>).
Proof.
  intros Hn Hpr Hk Hb Hf Hs. unfold swap_slot. unM. unfold get. rewrite Hn.
  destruct (slot_location_eq 1 b i s Hb ltac:(lia) Hf Hs) as [Ho Hr].
  specialize (Hr 0 ltac:(lia)).
  destruct (slot_location 1 b i (ctx s)) as [old remote]. cbn [fst snd] in Ho, Hr.
  unfold fill_cas_addr, get_ctx, get_lmem, set_ctx. unM. unfold get. rewrite Hn.
  rewrite zrange_cons, zrange_nil by lia. cbn [forM]. unM.
  destruct (server_rkey_run _ s Hk) as [rk ->]. exists rk. cbn [Z.eqb].
  rewrite Hpr. cbn [vset length Nat.ltb Nat.leb].
  rewrite Hr, Ho, ConvertSlotToInt_at, Z.mul_0_l, Z.add_0_r. reflexivity.
Qed.

(** A request with one index replica whose value buffer is behind its buckets. *)
Record single_index (ty : KVRequestType) (s : Sys) : Prop := {
  si_req : req_type (ctx s) = ty;
  si_rep : Cl.num_idx_rep_ (cl s) = 1;
  si_pr : ∃ x, kv_modify_pr_cas_list (ctx s) = [x];
  si_bk : kv_modify_bk_0_cas_list (ctx s) = [];
  si_buf : local_bucket_addr (ctx s) + 4 * sizeof_RaceHashBucket <= local_cas_target_value_addr (ctx s) }.

(** The slot is chosen and its swap prepared. *)
Lemma insert_chooses_slot (P : Posting) s0 s cur next rest :
  holds_block s0 s cur next rest → single_index KV_REQ_INSERT s → idle s →
  prepared (cl s) (hash_info (ctx s)) (tbl_addr_info (ctx s)) →
  1 <= Cl.num_replication_ (cl s0) → sb_wf (Cl.num_replication_ (cl s0)) cur →
  ¬ buckets_full s →
  ∃ b i rk s2, 0 <= b < 4 ∧ 0 <= i < 7 ∧ slot_is_empty s b i = true ∧
    kv_insert_backup_consensus_0_with P s = Done tt s2 ∧ idle s2 ∧ rmem (wld s2) = rmem (wld s) ∧
    mm s2 = mm s ∧ cl s2 = cl s ∧ is_finished (ctx s2) = is_finished (ctx s) ∧
    mm_alloc_ctx (ctx s2) = mm_alloc_ctx (ctx s) ∧
    req_type (ctx s2) = KV_REQ_INSERT ∧ consensus_state (ctx s2) = KV_CONSENSUS_WIN_ALL ∧
    kv_modify_bk_0_cas_list (ctx s2) = [] ∧
    use_cache (ctx s2) = use_cache (ctx s) ∧ key_str (ctx s2) = key_str (ctx s) ∧
    kv_modify_pr_cas_list (ctx s2) = [single_swap s b i rk (block_slot (hash_info (ctx s)) cur)].
Proof.
  intros (Hm & Hcl & c & Hc) [Hreq Hn [x Hpr] Hbk Hbuf] Hid (Hh & Hf & Hsm & Hids) Hrep Hcur Hroom.
  unfold kv_insert_backup_consensus_0_with, get_ctx. unM.
  destruct (find_empty_slot_run s Hf Hsm)
    as (s' & -> & Hcs & Hw & Hnm & Hctx & [(_ & _ & Hfull)|(Hb & Hi & He)]); [done|].
  injection Hcs as Hm' Hcl'. set (b := bucket_idx (ctx s')) in *. set (i := slot_idx (ctx s')) in *.
  rewrite (proj2 (Z.eqb_neq b (-1))) by lia.
  replace (mm_alloc_ctx (ctx s')) with (mm_alloc_ctx (ctx s)) by (by rewrite Hctx).
  replace (hash_info (ctx s')) with (hash_info (ctx s)) by (by rewrite Hctx).
  rewrite Hc, fill_slot_run by done. set (s1 := set_field wld _ s').
  assert (tbl_addr_info (ctx s1) = tbl_addr_info (ctx s)) as Ht by (cbn; by rewrite Hctx).
  destruct (swap_slot_run1 s1 b i x) as (rk & ->).
  { cbn. by rewrite Hcl'. } { cbn. by rewrite Hctx. }
  { rewrite Ht. change (cl s1) with (cl s'). rewrite Hcl'. apply Hids. rewrite Hn. lia. }
  { done. } 1,2: cbn; by rewrite Hctx.
  unfold swap_backups, set_ctx. unM. unfold get. cbn [cl]. change (cl _) with (cl s') at 1.
  rewrite Hcl', Hn. cbn [Z.eqb Pos.eqb].
  eexists b, i, rk, _. split_and!;
    [lia..|done|reflexivity| |change (rmem (wld s') = rmem (wld s)); by rewrite Hw|exact Hm'|exact Hcl'| | |
    |reflexivity| | | |].
  - destruct Hid. split; [change (cq (wld s') = []); by rewrite Hw|].
    change (Nm.wrid_wc_map_ (nm s') = ∅). by rewrite Hnm.
  - change (is_finished (ctx s') = is_finished (ctx s)). by rewrite Hctx.
  - rewrite <- Hc. change (mm_alloc_ctx (ctx s') = mm_alloc_ctx (ctx s)). by rewrite Hctx.
  - change (req_type (ctx s') = KV_REQ_INSERT). by rewrite Hctx.
  - change (kv_modify_bk_0_cas_list (ctx s') = []). by rewrite Hctx.
  - change (use_cache (ctx s') = use_cache (ctx s)). by rewrite Hctx.
  - change (key_str (ctx s') = key_str (ctx s)). by rewrite Hctx.
  - change (ctx s1) with (ctx s') in *.
    assert (load64 (lmem (wld s1)) (local_slot s1 b i) = load64 (lmem (wld s)) (local_slot s b i)) as Eo.
    { rewrite <- Hw. replace (local_slot s1 b i) with (local_slot s b i)
        by (unfold local_slot; change (ctx s1) with (ctx s'); by rewrite Hctx).
      apply load_store_bytes_ne. left.
      replace (local_cas_target_value_addr (ctx s')) with (local_cas_target_value_addr (ctx s))
        by (by rewrite Hctx).
      unfold local_slot, bucket_slot.
      change sizeof_RaceHashBucket with 64 in *. change sizeof_RaceHashSlot with 8 in *. lia. }
    assert (slot_at (lmem (wld s1)) (local_cas_target_value_addr (ctx s')) =
            block_slot (hash_info (ctx s)) cur) as En.
    { apply slot_at_store_bytes. by eapply block_slot_wf. }
    change ([single_swap s1 b i rk (slot_at (lmem (wld s1)) (local_cas_target_value_addr (ctx s')))]
      = [single_swap s b i rk (block_slot (hash_info (ctx s)) cur)]).
    rewrite En. unfold single_swap. change (ctx s1) with (ctx s').
    rewrite Eo, Ht.
    replace (local_cas_return_value_addr (ctx s')) with (local_cas_return_value_addr (ctx s))
      by (by rewrite Hctx).
    by replace (ctx_lkey (ctx s')) with (ctx_lkey (ctx s)) by (by rewrite Hctx).
Qed.

(** How an insertion ends that chose slot [i] of bucket [b]: [s] before it, [s1]
    after its first phase, [s'] at the end, and [r] the memories of the nodes
    when the swap reached the primary. *)
Definition insert_outcome (s s1 s' : Sys) (cur : SubblockInfo) (b i : Z) (r : Z → mem) : Prop :=
  let node := aget (server_id_list (tbl_addr_info (ctx s1))) 0 in
  let a := remote_slot (tbl_addr_info (ctx s1)) 0 b i in
  let sl := block_slot (hash_info (ctx s1)) cur in
  (load64 (r node) a = load64 (lmem (wld s1)) (local_slot s1 b i) ∧
     ret_val (ctx s') = KV_OPS_SUCCESS ∧ mm s' = mm s1 ∧
     rmem (wld s') = upd_rmem r node (store64 (r node) a (ConvertSlotToInt sl)) ∧
     slot_at (rmem (wld s') node) a = sl ∧
     HashIndexConvert40To64Bits (pointer sl) = aget (sb_addr_list cur) 0 ∧
     (use_cache (ctx s1) = true → ∃ e, Cl.addr_cache_ (cl s') !! key_str (ctx s1) = Some e ∧
        ConvertSlotToInt (l_slot_ptr e) = ConvertSlotToInt sl)) ∨
  (load64 (r node) a ≠ load64 (lmem (wld s1)) (local_slot s1 b i) ∧
     ret_val (ctx s') = KV_OPS_FAIL_REDO ∧ rmem (wld s') = r ∧ mm s' = mm s).

(** The second half of an insertion: the slot is chosen, and published when the
    swap meets the memories [r]. *)
Lemma insert_single_met `{F : Fabric} `{HF : !ReliableFabric F} (P : Posting) `{HP : !PostingOk P}
    (strict : bool) s s1 cur next rest :
  insert_ready s cur next rest → holds_block s s1 cur next rest → single_index KV_REQ_INSERT s1 → idle s1 →
  prepared (cl s1) (hash_info (ctx s1)) (tbl_addr_info (ctx s1)) →
  is_finished (ctx s1) = false → aget (sb_addr_list cur) 0 < 2 ^ 48 → ¬ buckets_full s1 →
  ∃ b i s2 pr, 0 <= b < 4 ∧ 0 <= i < 7 ∧ slot_is_empty s1 b i = true ∧
    kv_insert_backup_consensus_0_with P s1 = Done tt s2 ∧ is_finished (ctx s2) = false ∧
    Cl.num_idx_rep_ (cl s2) = 1 ∧ idle s2 ∧ rmem (wld s2) = rmem (wld s1) ∧
    ∀ r, after_cas s2 pr (orig_value pr) r (posted [mkSrList [primary_swap s2 pr] (cas_server_id pr)] s2) →
      ∃ s', modify_primary_idx_with P strict s2 = Done tt s' ∧ insert_outcome s s1 s' cur b i r.
Proof.
  intros Hs Hh Hsi Hid Hprep Hun Hlim Hroom. pose proof Hh as (Hm & Hcl & c & Hc).
  destruct (insert_chooses_slot P s s1 cur next rest)
    as (b & i & rk & s2 & Hb & Hi & He & E & Hid2 & Hrm2 & Hm2 & Hcl2 & Hf2 & Ha2 & Hr2 & Hc2 & Hbk2 & Hu2 & Hk2 & Hpr2);
    try done; try apply Hs.
  pose proof (block_slot_wf _ (hash_info (ctx s1)) _ (ir_rep _ _ _ _ Hs) (ir_cur _ _ _ _ Hs)
    (proj1 Hprep)) as Hwf.
  set (pr := single_swap _ _ _ _ _) in Hpr2.
  assert (cas_node pr = aget (server_id_list (tbl_addr_info (ctx s1))) 0) as Enode.
  { apply Z.mod_small. apply Hprep. rewrite (si_rep _ _ Hsi). lia. }
  assert (Cl.num_idx_rep_ (cl s2) = 1) as Hn2 by (rewrite Hcl2; apply Hsi).
  exists b, i, s2, pr. rewrite Hf2. do 8 (split; [done|]). intros r Hac.
  pose proof (modify_primary_insert_met P strict s2 pr r Hac) as H.
  destruct (modify_primary_idx_with P strict s2) as [[] s'|e s'].
  2:{ destruct H as (_ & _ & H & _); try done; [by rewrite Hc2| |by rewrite Hcl2, (si_rep _ _ Hsi), Hbk2].
      unfold pr, single_swap. cbn [swap_value]. rewrite <- (slot_at_store64 mem_zero 0 _ Hwf).
      rewrite ConvertSlotToInt_at. apply (load_range 8). }
  exists s'. split; [done|]. unfold insert_outcome. cbv zeta. rewrite <- Enode.
  destruct H as (_ & [(Ho & Hv & Hm' & Hr & Hca)|(Ho & Hv & Hr & s3 & Hm3 & Hfree)]); try done.
  { by rewrite Hc2. }
  { unfold pr, single_swap. cbn [swap_value]. rewrite <- (slot_at_store64 mem_zero 0 _ Hwf).
    rewrite ConvertSlotToInt_at. apply (load_range 8). }
  { by rewrite Hcl2, (si_rep _ _ Hsi), Hbk2. }
  - left. split_and!; [exact Ho|exact Hv|congruence|exact Hr| | |by rewrite <- Hu2, <- Hk2].
    + rewrite Hr. unfold write_slot, upd_rmem. rewrite Z.eqb_refl. by apply slot_at_store64.
    + apply Convert40_exact. destruct (proj2 (ir_cur _ _ _ _ Hs) 0) as (Hu & Hal & _).
      { pose proof (ir_rep _ _ _ _ Hs). lia. } unfold in_u64 in Hu. split; [lia|done].
  - right. split_and!; [exact Ho|exact Hv|exact Hr|].
    rewrite Ha2, Hc, mm_free_cur_run in Hfree; [|rewrite Hm3, Hm2, Hm; apply Hs|apply Hs..].
    injection Hfree as <-. cbn [mm]. pose proof (ir_queue _ _ _ _ Hs) as Hq.
    cbn. rewrite Hm3, Hm2, Hm. destruct (mm s). cbn in *. by subst.
Qed.

Lemma single_index_frame ty s s1 :
  insert_frame s s1 → cl s1 = cl s → single_index ty s → single_index ty s1.
Proof.
  intros Hf Hcl [H1 H2 H3 H4 H5]. split; try (rewrite Hf; done). by rewrite Hcl.
Qed.

(** The phases of an insertion with one index replica. *)
Lemma kv_insert_phases `{F : Fabric} junk spin s s1 s2 s' :
  (prepare_request ;; kv_insert_write_with junk fiber_posting) s = Done tt s1 → is_finished (ctx s1) = false →
  kv_insert_backup_consensus_0_with fiber_posting s1 = Done tt s2 → is_finished (ctx s2) = false →
  Cl.num_idx_rep_ (cl s2) = 1 → modify_primary_idx_with fiber_posting true s2 = Done tt s' →
  kv_insert junk spin s = Done (ret_val (ctx s')) s'.
Proof.
  intros E Hun E2 Hf2 Hn2 E'. revert E.
  unfold kv_insert, kv_insert_read_buckets_and_write_kv, or_return, get_ctx, kv_insert_backup_consensus_0,
    with_backups, kv_insert_cas_primary, unless_finished, ret, modify_primary_idx, get_ctx. unM.
  destruct (prepare_request s) as [[] s0|]; [|done]. intros ->.
  rewrite Hun, E2, Hf2. unfold get. rewrite Hn2. cbn [Z.ltb Z.compare Pos.compare Pos.compare_cont].
  cbv beta iota. rewrite Hf2, E'. done.
Qed.
Lemma kv_insert_sync_phases `{F : Fabric} junk spin s s1 s2 s' :
  (prepare_request ;; kv_insert_write_with junk sync_posting) s = Done tt s1 → is_finished (ctx s1) = false →
  kv_insert_backup_consensus_0_with sync_posting s1 = Done tt s2 → is_finished (ctx s2) = false →
  Cl.num_idx_rep_ (cl s2) = 1 → modify_primary_idx_with sync_posting false s2 = Done tt s' →
  kv_insert_sync junk spin s = Done (ret_val (ctx s')) s'.
Proof.
  intros E Hun E2 Hf2 Hn2 E'. revert E.
  unfold kv_insert_sync, kv_insert_read_buckets_and_write_kv_sync, or_return, get_ctx,
    kv_insert_backup_consensus_0_sync, with_backups, kv_insert_cas_primary_sync, unless_finished, ret,
    modify_primary_idx_sync, get_ctx. unM.
  destruct (prepare_request s) as [[] s0|]; [|done]. intros ->.
  rewrite Hun. cbv beta iota. rewrite Hun, E2. unfold get. rewrite Hn2.
  cbn [Z.ltb Z.compare Pos.compare Pos.compare_cont]. cbv beta iota. rewrite Hf2, E'. done.
Qed.

(** C7. Insertion with one index replica, in both versions and whatever other
    clients do meanwhile: it ends.  When a slot of the four buckets read in the
    first phase (state [s1]) is free, one of these is chosen, and the outcome is
    decided by the primary index when the swap reaches it (memories [r]): if the
    slot is as it was read, the operation succeeds and the slot now holds the
    fingerprint of the key and, as any client decodes it, the node and address
    of the block allocated for the entry, and the client's cache names it;
    otherwise the memories are left as they are, the operation asks to be redone,
    and the allocator is as before it. *)
Theorem kv_insert_publishes `{F : Fabric} `{HF : !ReliableFabric F} (junk : mem) (spin : nat)
    (s : Sys) (cur next : SubblockInfo) (rest : list SubblockInfo) :
  insert_ready s cur next rest → single_index KV_REQ_INSERT s → aget (sb_addr_list cur) 0 < 2 ^ 48 →
  (∃ s1, (prepare_request ;; kv_insert_write_with junk fiber_posting) s = Done tt s1 ∧
     (¬ buckets_full s1 →
      ∃ b i r s', kv_insert junk spin s = Done (ret_val (ctx s')) s' ∧
        0 <= b < 4 ∧ 0 <= i < 7 ∧ slot_is_empty s1 b i = true ∧ insert_outcome s s1 s' cur b i r)) ∧
  (∃ s1, (prepare_request ;; kv_insert_write_with junk sync_posting) s = Done tt s1 ∧
     (¬ buckets_full s1 →
      ∃ b i r s', kv_insert_sync junk spin s = Done (ret_val (ctx s')) s' ∧
        0 <= b < 4 ∧ 0 <= i < 7 ∧ slot_is_empty s1 b i = true ∧ insert_outcome s s1 s' cur b i r)).
Proof.
  intros Hs Hsi Hlim. split.
  - destruct (insert_write_run fiber_posting junk s cur next rest Hs)
      as (s1 & E & Hid & Hh & Hfr & Hprep). pose proof Hh as (_ & Hcl & _).
    exists s1. split; [done|]. intros Hroom.
    assert (is_finished (ctx s1) = false) as Hun by (by rewrite Hfr).
    destruct (insert_single_met fiber_posting true s s1 cur next rest)
      as (b & i & s2 & pr & Hb & Hi & He & E2 & Hf2 & Hn2 & Hid2 & _ & Hmet);
      [done|done|by eapply single_index_frame|done|by rewrite Hcl|done..|].
    destruct (posted_swap_run (ib_gen_wr_id (coro_id (ctx s2)) (cas_server_id pr) CAS_ST_WRID
      (Z.of_nat 0 + 1)) pr (orig_value pr) s2 Hid2) as [r Hac].
    destruct (Hmet r Hac) as (s' & E' & Hout).
    exists b, i, r, s'. split_and!; try done; try lia. by eapply kv_insert_phases.
  - destruct (insert_write_run sync_posting junk s cur next rest Hs)
      as (s1 & E & Hid & Hh & Hfr & Hprep). pose proof Hh as (_ & Hcl & _).
    exists s1. split; [done|]. intros Hroom.
    assert (is_finished (ctx s1) = false) as Hun by (by rewrite Hfr).
    destruct (insert_single_met sync_posting false s s1 cur next rest)
      as (b & i & s2 & pr & Hb & Hi & He & E2 & Hf2 & Hn2 & Hid2 & _ & Hmet);
      [done|done|by eapply single_index_frame|done|by rewrite Hcl|done..|].
    destruct (posted_swap_run (ib_gen_wr_id (coro_id (ctx s2)) (cas_server_id pr) CAS_ST_WRID
      (Z.of_nat 0 + 1)) pr (orig_value pr) s2 Hid2) as [r Hac].
    destruct (Hmet r Hac) as (s' & E' & Hout).
    exists b, i, r, s'. split_and!; try done; try lia. by eapply kv_insert_sync_phases.
Qed.

(** ** A client of two nodes, run

    Node 0 holds the primary of the index and node 1 its backup; the root is in
    local memory, three subblocks are free, and the key is "file". *)

Definition example_entry (value : list Z) : list Z :=
  [0; 0; 4; 0; Z.of_nat (length value); 0; 0; 0; 102; 105; 108; 101] ++ value.
Definition example_kv (value : list Z) : KVInfo := mkKVInfo 2000 0 4 (Z.of_nat (length value)).

Definition example_client (num_idx_rep : Z) : Sys :=
  blank_sys
  <| wld ::= λ w, w <| lmem :=
       store_bytes (store_bytes (store64 (store64 mem_zero 100000 5) 100056 34000)
         (100000 + Smm.root_subtable_entry 2 0) [0; 5; 0; 0; 16; 0; 0; 0])
         (100000 + Smm.root_subtable_entry 2 1) [0; 5; 1; 0; 32; 0; 0; 0] |> |>
  <| cl ::= λ k, k <| Cl.race_root_ := 100000 |> <| Cl.num_replication_ := 2 |>
       <| Cl.num_idx_rep_ := num_idx_rep |> <| Cl.server_data_len_ := 2 ^ 32 |>
       <| Cl.server_mr_info_map_ := {[0 := mkMrInfo 0 0; 1 := mkMrInfo 0 1]} |> |>
  <| mm := mm example_queue |>.

Definition example_request (op : string) (value : list Z) : M Sys unit :=
  wr_bytes 2000 (example_entry value) ;;
  modify (λ s, s <| ctx := KVReqCtx_zero <| should_stop := Some false |> |>) ;;
  init_kv_req_ctx (example_kv value) op ;;
  init_kvreq_space 1 300000.

Definition run_insert (value : list Z) : M Sys Z :=
  example_request "INSERT" value ;; kv_insert_sync (F := quiet_fabric) mem_zero 1.
Definition run_update (value : list Z) : M Sys Z :=
  example_request "UPDATE" value ;; kv_update_sync (F := quiet_fabric) mem_zero 1.
Definition run_delete : M Sys Z :=
  example_request "DELETE" [] ;; kv_delete_sync (F := quiet_fabric) mem_zero 1.
(** A search, with or without the cache: the answer and two bytes of the value. *)
Definition run_search (cached : bool) : M Sys (Z * list Z) :=
  example_request "SEARCH" [] ;;
  set_ctx (λ c, c <| use_cache := cached |>) ;;
  a ← kv_search_sync (F := quiet_fabric);
  m ← get_lmem;
  mret (a, load_bytes 2 m a).

Definition answer {A} (r : outcome Sys A) : A + stop :=
  match r with Done a _ => inl a | Stopped e _ => inr e end.

Example insert_then_search :
  answer ((_ ← run_insert [104; 105]; run_search false) (example_client 2)) = inl (300524, [104; 105]) ∧
  answer ((_ ← run_insert [104; 105]; run_search true) (example_client 2)) = inl (300524, [104; 105]).
Proof. vm_compute. split; reflexivity. Qed.

Example update_then_search :
  answer ((_ ← run_insert [104; 105]; _ ← run_update [111; 107]; run_search false) (example_client 2))
  = inl (300524, [111; 107]).
Proof. vm_compute. reflexivity. Qed.

Example delete_then_search :
  answer ((_ ← run_insert [104; 105]; _ ← run_delete; a ← run_search false; mret a.1)
            (example_client 2)) = inl 0.
Proof. vm_compute. reflexivity. Qed.

(** The overloads with a context of their own leave its vectors empty, and write
    past their end once a block has been allocated. *)
Example kv_insert_kv_out_of_bounds :
  answer ((wr_bytes 2000 (example_entry [104; 105]) ;;
           kv_insert_kv (F := quiet_fabric) mem_zero 1 (example_kv [104; 105])) (example_client 2))
  = inr Undefined.
Proof. vm_compute. reflexivity. Qed.

(** ** Witnesses *)

(** The state in which a request starts. *)
Definition started (op : string) (value : list Z) (n : Z) : Sys :=
  match example_request op value (example_client n) with Done _ s => s | Stopped _ s => s end.

Lemma started_cl :
  cl (started "SEARCH" [] 2) = cl (example_client 2) ∧
  cl (started "INSERT" [104; 105] 1) = cl (example_client 1).
Proof. split; vm_compute; reflexivity. Qed.

(** The nodes that the root names, checked one by one. *)
Definition root_known (s : Sys) : bool :=
  forallb (λ p, forallb (λ i,
    bool_decide (is_Some (Cl.server_mr_info_map_ (cl s) !! root_node (cl s) (lmem (wld s)) p i)))
    (zrange 0 (Cl.num_idx_rep_ (cl s)))) (zrange 0 RACE_HASH_MAX_SUBTABLE_NUM).
Lemma root_known_read s :
  load64 (lmem (wld s)) (Cl.race_root_ (cl s) + Smm.root_global_depth) <= RACE_HASH_MAX_GLOBAL_DEPTH →
  2 <= load64 (lmem (wld s)) (Cl.race_root_ (cl s) + Smm.root_subtable_hash_range) →
  root_known s = true → root_read s.
Proof.
  intros H1 H2 H. split; [done..|]. intros p i Hp Hi. unfold root_known in H. rewrite forallb_forall in H.
  specialize (H p (proj1 (list_elem_of_In _ _) (proj2 (elem_of_zrange _ _ _) Hp))).
  rewrite forallb_forall in H. eapply bool_decide_eq_true_1, H.
  by apply list_elem_of_In, elem_of_zrange.
Qed.

Lemma example_search_ready : search_ready (started "SEARCH" [] 2).
Proof.
  split; [| |vm_compute; intuition congruence..].
  - vm_compute. split; reflexivity.
  - apply root_known_read; vm_compute; [discriminate|discriminate|reflexivity].
Qed.

(** The nodes are empty, so that nothing matches. *)
Lemma example_candidates_known s1 :
  buckets_read (sync_posting (F := quiet_fabric)) (started "SEARCH" [] 2) s1 →
  candidates_known s1.
Proof.
  assert (match (prepare_request ;; kv_search_read_with (sync_posting (F := quiet_fabric))
      gen_read_bucket_sr_lists cache_probe) (started "SEARCH" [] 2) with
    | Done _ s => bool_decide (candidates_known s) | Stopped _ _ => false end = true) as H
    by (vm_compute; reflexivity).
  unfold buckets_read. intros E. rewrite E in H. by apply bool_decide_eq_true_1 in H.
Qed.

Example kv_search_correct_witness :
  ∃ v s', kv_search_sync (F := quiet_fabric) (started "SEARCH" [] 2) = Done v s' ∧
    search_answer (sync_posting (F := quiet_fabric)) (started "SEARCH" [] 2) v s'.
Proof.
  destruct (kv_search_correct (F := quiet_fabric) (started "SEARCH" [] 2) example_search_ready)
    as [_ (s1 & Hs1 & H)]. unfold search_end in H.
  rewrite decide_True in H by (right; exact (example_candidates_known s1 Hs1)). exact H.
Defined.

Lemma example_insert_ready :
  insert_ready (started "INSERT" [104; 105] 1) (example_sb 4096) (example_sb 4352) [example_sb 4608].
Proof.
  assert (mm (started "INSERT" [104; 105] 1) = mm example_queue) as Hm by (vm_compute; reflexivity).
  split; rewrite ?(proj2 started_cl), ?Hm.
  - vm_compute. split; reflexivity.
  - apply root_known_read; vm_compute; [discriminate|discriminate|reflexivity].
  - reflexivity.
  - vm_compute. discriminate.
  - reflexivity.
  - apply example_sb_wf; vm_compute; intuition congruence.
  - apply example_sb_wf; vm_compute; intuition congruence.
  - vm_compute. split; reflexivity.
  - vm_compute. split; [reflexivity|discriminate].
  - vm_compute. split; [discriminate|reflexivity].
  - vm_compute. discriminate.
  - vm_compute. reflexivity.
  - vm_compute. lia.
  - vm_compute. lia.
Qed.

(** The same request on nodes whose memory is not empty: every slot is taken. *)
Definition started_full : Sys :=
  (started "INSERT" [104; 105] 1) <| wld ::= λ w, w <| rmem := λ _ _, 1 |> |>.
Lemma insert_ready_rmem s cur next rest r :
  insert_ready s cur next rest → insert_ready (s <| wld ::= λ w, w <| rmem := r |> |>) cur next rest.
Proof. intros [? []]. by do 2 (split; try done). Qed.
Lemma started_full_ready :
  insert_ready started_full (example_sb 4096) (example_sb 4352) [example_sb 4608].
Proof. apply insert_ready_rmem, example_insert_ready. Qed.

Definition has_room (s : Sys) : bool :=
  existsb (λ p, slot_is_empty s p.1 p.2) slot_indices.

Lemma has_room_spec s : has_room s = false ↔ buckets_full s.
Proof.
  unfold has_room, buckets_full. rewrite <- not_true_iff_false, existsb_exists. split.
  - intros H b i Hb Hi. apply not_true_iff_false. intros He. apply H. exists (b, i).
    split; [|done]. apply list_elem_of_In. unfold slot_indices.
    apply list_elem_of_bind. exists b. rewrite elem_of_zrange. split; [|lia].
    apply list_elem_of_fmap. exists i. rewrite elem_of_zrange.
    change RACE_HASH_ASSOC_NUM with 7. done.
  - intros H ([b i] & Hin%list_elem_of_In & He). unfold slot_indices in Hin.
    apply list_elem_of_bind in Hin as (b' & Hi & Hb%elem_of_zrange).
    apply list_elem_of_fmap in Hi as (i' & [= -> ->] & Hi%elem_of_zrange).
    change RACE_HASH_ASSOC_NUM with 7 in Hi. cbn in He. by rewrite H in He.
Qed.

Lemma started_full_first_phase s1 :
  (prepare_request ;; kv_insert_write_with (F := quiet_fabric) mem_zero
     (sync_posting (F := quiet_fabric))) started_full = Done tt s1 → buckets_full s1.
Proof.
  intros E. apply has_room_spec.
  assert (match (prepare_request ;; kv_insert_write_with (F := quiet_fabric) mem_zero
     (sync_posting (F := quiet_fabric))) started_full with
     Done _ s => has_room s | _ => true end = false) as Hr by (vm_compute; reflexivity).
  rewrite E in Hr. exact Hr.
Qed.

Lemma started_first_phase s1 :
  (prepare_request ;; kv_insert_write_with (F := quiet_fabric) mem_zero
     (sync_posting (F := quiet_fabric))) (started "INSERT" [104; 105] 1) = Done tt s1 →
  ¬ buckets_full s1.
Proof.
  intros E Hf%has_room_spec.
  assert (match (prepare_request ;; kv_insert_write_with (F := quiet_fabric) mem_zero
     (sync_posting (F := quiet_fabric))) (started "INSERT" [104; 105] 1) with
     Done _ s => has_room s | _ => false end = true) as Hr by (vm_compute; reflexivity).
  rewrite E, Hf in Hr. discriminate Hr.
Qed.

Example kv_insert_no_room_witness :
  ∃ s', kv_insert_sync (F := quiet_fabric) mem_zero 1 started_full = Done KV_OPS_FAIL_RETURN s' ∧
        mm s' = mm started_full.
Proof.
  destruct (kv_insert_no_room (F := quiet_fabric) mem_zero 1 started_full _ _ _ started_full_ready)
    as [_ (s1 & E & H)].
  destruct (H (started_full_first_phase s1 E)) as (s' & H1 & _ & H2 & _).
  exists s'. split; assumption.
Defined.

Lemma started_single : single_index KV_REQ_INSERT (started "INSERT" [104; 105] 1).
Proof.
  split; try (vm_compute; intuition congruence). eexists. vm_compute. reflexivity.
Qed.

Example kv_insert_publishes_witness :
  ∃ s1 b i r s',
    kv_insert_sync (F := quiet_fabric) mem_zero 1 (started "INSERT" [104; 105] 1)
    = Done (ret_val (ctx s')) s' ∧
    insert_outcome (started "INSERT" [104; 105] 1) s1 s' (example_sb 4096) b i r.
Proof.
  destruct (kv_insert_publishes (F := quiet_fabric) mem_zero 1 (started "INSERT" [104; 105] 1) _ _ _
    example_insert_ready started_single) as [_ (s1 & E & H)]; [vm_compute; reflexivity|].
  destruct (H (started_first_phase s1 E)) as (b & i & r & s' & H1 & _ & _ & _ & H2).
  exists s1, b, i, r, s'. split; assumption.
Defined.
