(* ===== verification/IndexView.v ===== *)
(** * The index as the nodes hold it

    The candidate buckets of a key and the blocks they point to, read from the
    memories of the nodes: [index_lookup] is what a search is meant to find there.
    The theorems show that [kv_search] of [client.cc] computes it on a fabric
    without interference, through the cache and through the index, whatever the
    client's own memory held before. *)

From S2P Require Import Prelude Mem KvUtils HashTable ServerMM Server Rdma ClientState Network PostEffects.
From S2P Require Import ClientMM BlockMap ClientIndex ClientConsensus ClientOps.

(** ** Abstract lookup *)

(** Slot [p] of the four buckets of a request, on the primary index. *)
Definition slot_addr (t : KVTableAddrInfo) (p : Z * Z) : Z :=
  if p.1 <? 2 then bucket_slot (aget (f_bucket_addr t) 0 + p.1 * sizeof_RaceHashBucket) p.2
  else bucket_slot (aget (s_bucket_addr t) 0 + (p.1 - 2) * sizeof_RaceHashBucket) p.2.
Definition index_node (t : KVTableAddrInfo) : Z := aget (server_id_list t) 0.
Definition index_slot (r : Z → mem) (t : KVTableAddrInfo) (p : Z * Z) : RaceHashSlot :=
  slot_at (r (index_node t)) (slot_addr t p).

(** The block a slot points to: its header, its key and its value. *)
Definition block_addr (sl : RaceHashSlot) : Z := HashIndexConvert40To64Bits (pointer sl).
Definition block_mem (r : Z → mem) (sl : RaceHashSlot) : mem := r (slot_server_id sl).
Definition block_key_len (r : Z → mem) (sl : RaceHashSlot) : Z :=
  load16 (block_mem r sl) (block_addr sl + off_key_length).
Definition block_value_len (r : Z → mem) (sl : RaceHashSlot) : Z :=
  load32 (block_mem r sl) (block_addr sl + off_value_length).
Definition block_key (r : Z → mem) (sl : RaceHashSlot) : list Z :=
  load_bytes (block_key_len r sl) (block_mem r sl) (block_addr sl + sizeof_KVLogHeader).
Definition block_value (r : Z → mem) (sl : RaceHashSlot) : list Z :=
  load_bytes (block_value_len r sl) (block_mem r sl)
    (block_addr sl + sizeof_KVLogHeader + block_key_len r sl).

(** The slots in use with the fingerprint of the key, in bucket and slot order. *)
Definition candidates (r : Z → mem) (h : KVHashInfo) (t : KVTableAddrInfo) : list RaceHashSlot :=
  filter (λ sl, slot_matches h sl = true) (index_slot r t <$> slot_indices).

(** The positions whose block carries the key, and the value of the first. *)
Definition hits (r : Z → mem) (h : KVHashInfo) (t : KVTableAddrInfo) (key : list Z) : list (Z * Z) :=
  filter (λ p, slot_matches h (index_slot r t p) = true ∧ block_key r (index_slot r t p) = key) slot_indices.
Definition index_lookup (r : Z → mem) (h : KVHashInfo) (t : KVTableAddrInfo) (key : list Z)
    : option (list Z) :=
  (λ p, block_value r (index_slot r t p)) <$> head (hits r h t key).

(** Header, key and value of every candidate are inside its block. *)
Definition blocks_fit (r : Z → mem) (h : KVHashInfo) (t : KVTableAddrInfo) (sz : Z) : Prop :=
  ∀ sl, sl ∈ candidates r h t →
    sizeof_KVLogHeader + block_key_len r sl + block_value_len r sl <= kv_len sl * sz.

(** Where [prepare_request] locates the key of a request. *)
Definition located (s : Sys) (h : KVHashInfo) (t : KVTableAddrInfo) : Prop :=
  prepare_request s =
  Done tt (s <| ctx ::= λ c, c <| hash_info := h |> <| tbl_addr_info := t |> |>).

Definition request_key (s : Sys) : list Z :=
  load_bytes (key_len (kv_info (ctx s))) (lmem (wld s)) (get_key (kv_info (ctx s))).

(** The buffers of a search: the buckets, the block read through the cache. *)
Definition in_buckets (s : Sys) (x : Z) : Prop :=
  local_bucket_addr (ctx s) <= x < local_bucket_addr (ctx s) + 4 * sizeof_RaceHashBucket.
Definition in_cache_buf (s : Sys) (x : Z) : Prop :=
  local_cache_addr (ctx s) <= x < local_cache_addr (ctx s) + 255 * Cmm.subblock_sz_ (mm s).
Definition in_key (s : Sys) (x : Z) : Prop :=
  get_key (kv_info (ctx s)) <= x < get_key (kv_info (ctx s)) + key_len (kv_info (ctx s)).

(** The key of the request is outside the buffers that a search fills, and the
    two that are filled at once are apart. *)
Record search_layout (s : Sys) : Prop := {
  sl_buckets x : in_key s x → ¬ in_buckets s x;
  sl_blocks x : in_key s x →
    ¬ (local_kv_addr (ctx s) <= x < local_kv_addr (ctx s) + 28 * (255 * Cmm.subblock_sz_ (mm s)));
  sl_cached x : in_key s x → ¬ in_cache_buf s x;
  sl_apart x : in_buckets s x → ¬ in_cache_buf s x;
  sl_cache_addr : 0 <= local_cache_addr (ctx s) }.

(** The client's cache does not know the key of the request. *)
Definition cache_misses (s : Sys) : Prop :=
  use_cache (ctx s) = true → Cl.addr_cache_ (cl s) !! key_str (ctx s) = None.

Definition block_valid (r : Z → mem) (sl : RaceHashSlot) : bool :=
  log_is_valid (block_mem r sl) (block_addr sl).

(** What the client's cache knows of the key of the request, if anything, is not
    misleading: the cached slot has room for the key, and when its block is
    still marked valid and carries the key, it is the slot that the index finds.
    (Updates and deletions clear the mark of the block they replace.) *)
Record cache_current (s : Sys) (h : KVHashInfo) (t : KVTableAddrInfo) (e : LocalCacheEntry) : Prop := {
  cc_node : 0 <= slot_server_id (l_slot_ptr e) < 256;
  cc_len : 0 <= kv_len (l_slot_ptr e) < 256;
  cc_room : sizeof_KVLogHeader + key_len (kv_info (ctx s)) <= kv_len (l_slot_ptr e) * Cmm.subblock_sz_ (mm s);
  cc_slot : block_valid (rmem (wld s)) (l_slot_ptr e) = true →
    block_key (rmem (wld s)) (l_slot_ptr e) = request_key s →
    index_slot (rmem (wld s)) t <$> head (hits (rmem (wld s)) h t (request_key s)) = Some (l_slot_ptr e) }.
Definition cache_coherent (s : Sys) (h : KVHashInfo) (t : KVTableAddrInfo) : Prop :=
  use_cache (ctx s) = true → ∀ e, Cl.addr_cache_ (cl s) !! key_str (ctx s) = Some e → cache_current s h t e.

(** The slots that the lookup follows name nodes the client is connected to. *)
Definition index_known (k : Cl.t) (r : Z → mem) (h : KVHashInfo) (t : KVTableAddrInfo) : Prop :=
  ∀ sl, sl ∈ candidates r h t → knows_node k (slot_server_id sl).

(** ** The buckets arrive *)

Lemma slot_at_ext m m' a a' :
  (∀ i, 0 <= i < 8 → m (a + i) = m' (a' + i)) → slot_at m a = slot_at m' a'.
Proof.
  intros H. unfold slot_at. f_equal.
  1-3: apply load_ext; intros i Hi; rewrite <- ?Z.add_assoc, H by lia; done.
  apply load_bytes_ext. intros i Hi. rewrite <- ?Z.add_assoc, H by lia. done.
Qed.

Lemma ops_of_single l : ops_of [l] = (λ wr, (u8 (sr_server_id l), wr)) <$> sr_list l.
Proof. unfold ops_of. cbn. by rewrite !app_nil_r. Qed.

Lemma run_reads_rmem ops w :
  Forall (λ p : Z * ibv_send_wr, opcode p.2 = IBV_WR_RDMA_READ) ops → rmem (run_ops ops w) = rmem w.
Proof.
  intros H. revert w. induction H as [|p ops Hp _ IH]; intros w; [done|]. cbn. unfold run_ops in IH.
  rewrite IH. unfold apply_op. rewrite Hp. by destruct (sg p.2).
Qed.

Lemma elem_of_slot_indices p : p ∈ slot_indices ↔ 0 <= p.1 < 4 ∧ 0 <= p.2 < 7.
Proof.
  unfold slot_indices. destruct p as [b i]. rewrite list_elem_of_bind. cbn [fst snd]. split.
  - intros (b' & Hb & Hi). apply list_elem_of_fmap in Hb as (i' & [= -> ->] & Hb).
    apply elem_of_zrange in Hi, Hb. unfold RACE_HASH_ASSOC_NUM in Hb. lia.
  - intros [Hb Hi]. exists b. split; [|by apply elem_of_zrange].
    apply list_elem_of_fmap. exists i. split; [done|]. apply elem_of_zrange. unfold RACE_HASH_ASSOC_NUM. lia.
Qed.

(** What the first round trip brings: [s] before it, [s1] after it. *)
Record buckets_arrived (s s1 : Sys) (h : KVHashInfo) (t : KVTableAddrInfo) : Prop := {
  ba_idle : idle s1;
  ba_mm : mm s1 = mm s;
  ba_cl : cl s1 = (cl s) <| Cl.addr_cache_ := Cl.addr_cache_ (cl s1) |>;
  ba_ctx : ctx s1 = (ctx s) <| hash_info := h |> <| tbl_addr_info := t |>
             <| is_local_cache_hit := is_local_cache_hit (ctx s1) |>
             <| cache_entry := cache_entry (ctx s1) |> <| is_finished := false |>;
  ba_hit : use_cache (ctx s) = true → is_local_cache_hit (ctx s1) = true →
    ∃ e, Cl.addr_cache_ (cl s) !! key_str (ctx s) = Some e ∧ cl s1 = cl s ∧
      cache_entry (ctx s1) = Some (key_str (ctx s)) ∧
      ∀ x, local_cache_addr (ctx s) <= x
             < local_cache_addr (ctx s) + kv_len (l_slot_ptr e) * Cmm.subblock_sz_ (mm s) →
        lmem (wld s1) x = block_mem (rmem (wld s)) (l_slot_ptr e)
                            (block_addr (l_slot_ptr e) + (x - local_cache_addr (ctx s)));
  ba_rmem : rmem (wld s1) = rmem (wld s);
  ba_frame x : ¬ in_buckets s x → ¬ in_cache_buf s x → lmem (wld s1) x = lmem (wld s) x;
  ba_slots p : p ∈ slot_indices →
    slot_of (lmem (wld s1)) (local_slot_arr (local_bucket_addr (ctx s))) p.1 p.2 =
    index_slot (rmem (wld s)) t p }.

(** The slots of the local copy, bucket by bucket. *)
Lemma local_slot_addr b p :
  0 <= p.1 < 4 →
  local_slot_arr b !!! Z.to_nat p.1 + p.2 * sizeof_RaceHashSlot =
  b + p.1 * sizeof_RaceHashBucket + 8 + p.2 * sizeof_RaceHashSlot.
Proof.
  intros Hp. unfold local_slot_arr, bucket_slot.
  assert (p.1 = 0 ∨ p.1 = 1 ∨ p.1 = 2 ∨ p.1 = 3) as [->|[->|[->| ->]]] by lia;
    [change (Z.to_nat 0) with 0%nat|change (Z.to_nat 1) with 1%nat|change (Z.to_nat 2) with 2%nat
    |change (Z.to_nat 3) with 3%nat]; cbn -[Z.add Z.mul]; unfold sizeof_RaceHashBucket; lia.
Qed.

(** The two bucket reads as operations. *)
Lemma bucket_ops c q :
  q ∈ ops_of (gen_read_bucket_sr_lists c) →
  opcode q.2 = IBV_WR_RDMA_READ ∧
  ∀ x, lwrites q.2 x → local_bucket_addr c <= x < local_bucket_addr c + 4 * sizeof_RaceHashBucket.
Proof.
  unfold gen_read_bucket_sr_lists. rewrite ops_of_single. cbn [sr_list bucket_pair_reads fmap list_fmap].
  unfold sizeof_RaceHashBucket.
  intros [->|[->|[]%not_elem_of_nil]%elem_of_cons]%elem_of_cons; (split; [done|]); intros x; cbn; lia.
Qed.

Lemma bucket_op_brings c p k :
  0 <= index_node (tbl_addr_info c) < 256 → p ∈ slot_indices → 0 <= k < 8 →
  let x := local_slot_arr (local_bucket_addr c) !!! Z.to_nat p.1 + p.2 * sizeof_RaceHashSlot + k in
  let b := brings (index_node (tbl_addr_info c)) (slot_addr (tbl_addr_info c) p + k) x in
  (∃ q, q ∈ ops_of (gen_read_bucket_sr_lists c) ∧ b q) ∧
  ∀ q, q ∈ ops_of (gen_read_bucket_sr_lists c) → b q ∨ ¬ lwrites q.2 x.
Proof.
  intros Hn [Hb Hi]%elem_of_slot_indices Hk x b. unfold b, x. clear b x. rewrite local_slot_addr by done.
  unfold gen_read_bucket_sr_lists. rewrite ops_of_single.
  cbn [sr_list sr_server_id bucket_pair_reads fmap list_fmap].
  fold (index_node (tbl_addr_info c)). unfold u8. rewrite Z.mod_small by done.
  set (q1 := (_, mkWr _ (Sge (local_bucket_addr c) _ _) _ _ _ _ _ _)).
  set (q2 := (_, mkWr _ (Sge (local_bucket_addr c + _) _ _) _ _ _ _ _ _)).
  unfold brings, slot_addr, bucket_slot.
  change sizeof_RaceHashBucket with 64 in *. change sizeof_RaceHashSlot with 8 in *.
  destruct (p.1 <? 2) eqn:E; zify_bool.
  - split; [exists q1; split; [set_solver|]|intros q [->|[->|[]%not_elem_of_nil]%elem_of_cons]%elem_of_cons;
      [left|right; cbn; lia]].
    all: cbn; split_and!; [done|done|]; eexists _, _, _; split; [reflexivity|lia].
  - split; [exists q2; split; [set_solver|]|intros q [->|[->|[]%not_elem_of_nil]%elem_of_cons]%elem_of_cons;
      [right; cbn; lia|left]].
    all: cbn; split_and!; [done|done|]; eexists _, _, _; split; [reflexivity|lia].
Qed.

(** The reads of the buckets, with others [cr] whose local buffers are apart from
    them. *)
Lemma bucket_trip_effect c (cr : list (Z * ibv_send_wr)) ops w :
  (∀ q, q ∈ ops ↔ q ∈ ops_of (gen_read_bucket_sr_lists c) ∨ q ∈ cr) →
  (∀ q, q ∈ cr → opcode q.2 = IBV_WR_RDMA_READ) →
  (∀ q x, q ∈ cr → lwrites q.2 x →
     ¬ (local_bucket_addr c <= x < local_bucket_addr c + 4 * sizeof_RaceHashBucket)) →
  0 <= index_node (tbl_addr_info c) < 256 →
  let w' := run_ops ops w in
  rmem w' = rmem w ∧
  (∀ p, p ∈ slot_indices →
     slot_of (lmem w') (local_slot_arr (local_bucket_addr c)) p.1 p.2 = index_slot (rmem w) (tbl_addr_info c) p) ∧
  (∀ x, ¬ (local_bucket_addr c <= x < local_bucket_addr c + 4 * sizeof_RaceHashBucket) →
     (∀ q, q ∈ cr → ¬ lwrites q.2 x) → lmem w' x = lmem w x) ∧
  (∀ q, q ∈ ops → ∀ y, ¬ rwrites q.2 y).
Proof.
  intros Hops Hread Hapart Hn w'.
  assert (∀ q, q ∈ ops → opcode q.2 = IBV_WR_RDMA_READ) as Hr.
  { intros q [Hq|Hq]%Hops; [by apply bucket_ops in Hq as []|by apply Hread]. }
  assert (∀ q, q ∈ ops → ∀ y, ¬ rwrites q.2 y) as Hnw.
  { intros q Hq y. unfold rwrites. rewrite (Hr q Hq). destruct (sg q.2); exact id. }
  split_and!; [|..|done].
  - apply run_reads_rmem, Forall_forall, Hr.
  - intros p Hp. unfold slot_of, index_slot. apply slot_at_ext. intros k Hk.
    destruct (bucket_op_brings c p k Hn Hp Hk) as [(q & Hq & Hqb) Hother]. apply run_ops_read.
    + exists q. split; [apply Hops; by left|done].
    + intros q' [Hq'|Hq']%Hops; [by apply Hother|right]. intros Hw%(Hapart q' _ Hq').
      destruct Hqb as (_ & Ho & a & n & k' & Hg & Hx & _). apply Hw.
      apply (proj2 (bucket_ops c q Hq)). unfold lwrites. by rewrite Ho, Hg.
    + intros q' Hq' _. by apply Hnw.
  - intros x Hx Hc. apply run_ops_lframe. intros q [Hq|Hq]%Hops; [|by apply Hc].
    intros Hw. by apply (proj2 (bucket_ops c q Hq)) in Hw.
Qed.

Lemma ctx_update (g : KVReqCtx → KVReqCtx) (s : Sys) :
  wld (s <| ctx ::= g |>) = wld s ∧ nm (s <| ctx ::= g |>) = nm s ∧
  client_side (s <| ctx ::= g |>) = (mm s, cl s, g (ctx s)).
Proof. by destruct s. Qed.

Lemma idle_update g s : idle s → idle (s <| ctx ::= g |>).
Proof. by destruct s. Qed.

(** The cache does not know the key. *)
Lemma cache_probe_miss s :
  (use_cache (ctx s) = true → Cl.addr_cache_ (cl s) !! key_str (ctx s) = None) →
  ∃ b, cache_probe s = Done [] (s <| ctx ::= λ c, c <| is_local_cache_hit := b |> |>) ∧
    (use_cache (ctx s) = true → b = false).
Proof.
  intros Hmiss. unfold cache_probe, get_ctx, set_ctx, check_cache. unM. unfold get.
  destruct (use_cache (ctx s)).
  - rewrite Hmiss by done. cbv beta iota. exists false. split; [|done]. reflexivity.
  - exists (is_local_cache_hit (ctx s)). split; [|done]. destruct s as [? ? ? ? []]. reflexivity.
Qed.

(** The request that reads the block of cache entry [e]. *)
Definition cache_read (s : Sys) (e : LocalCacheEntry) (rk : Z) : ibv_send_wr :=
  mkWr (ib_gen_wr_id (coro_id (ctx s)) (slot_server_id (l_slot_ptr e)) READ_CACHE_ST_WRID 1)
    (Sge (local_cache_addr (ctx s)) (u32 (kv_len (l_slot_ptr e) * Cmm.subblock_sz_ (mm s)))
         (Cl.local_buf_lkey (cl s)))
    IBV_WR_RDMA_READ false (block_addr (l_slot_ptr e)) rk 0 0.

(** The cache is asked: it does not know the key, its entry is not to be used, or
    the block it names is to be read. *)
Lemma cache_probe_cases s :
  (∀ key e, Cl.addr_cache_ (cl s) !! key = Some e → knows_node (cl s) (slot_server_id (l_slot_ptr e))) →
  ∃ cached s', cache_probe s = Done cached s' ∧
    wld s' = wld s ∧ nm s' = nm s ∧ mm s' = mm s ∧
    cl s' = (cl s) <| Cl.addr_cache_ := Cl.addr_cache_ (cl s') |> ∧
    ctx s' = (ctx s) <| is_local_cache_hit := is_local_cache_hit (ctx s') |>
                     <| cache_entry := cache_entry (ctx s') |> ∧
    ((cached = [] ∧ (use_cache (ctx s) = true → is_local_cache_hit (ctx s') = false)) ∨
     ∃ e rk, use_cache (ctx s) = true ∧ Cl.addr_cache_ (cl s) !! key_str (ctx s) = Some e ∧ cl s' = cl s ∧
       cache_entry (ctx s') = Some (key_str (ctx s)) ∧
       cached = [[mkSrList [cache_read s e rk] (slot_server_id (l_slot_ptr e))]]).
Proof.
  intros Hc. unfold cache_probe, get_ctx, set_ctx. unM. destruct (use_cache (ctx s)) eqn:Eu.
  2:{ eexists [], s. split; [done|]. destruct s as [? ? ? [] []]. split_and!; try done. left. done. }
  destruct (check_cache_run (key_str (ctx s)) s) as [->|[->|[-> [e He]]]].
  1,2: eexists [], _; split; [reflexivity|]; destruct s as [? ? ? [] []]; split_and!; try done; by left.
  set (s1 := set_field ctx _ s). set (s2 := set_field ctx _ s1).
  unfold cache_entry_of. unM. unfold get. change (cl s2) with (cl s). rewrite He.
  unfold gen_read_cache_kv_sr_lists. unM. unfold get.
  destruct (server_rkey_run (slot_server_id (l_slot_ptr e)) s2) as [rk Erk]; [by eapply Hc|].
  rewrite Erk. eexists _, s2. split; [reflexivity|].
  unfold s2, s1. destruct s as [? ? ? k []]. split_and!; try done; [by destruct k|]. right. by exists e, rk.
Qed.

(** The block of the entry arrives with the buckets. *)
Lemma cached_block_arrives s c e rk ops w :
  search_layout s → 0 < Cmm.subblock_sz_ (mm s) < 2 ^ 24 →
  0 <= slot_server_id (l_slot_ptr e) < 256 → 0 <= kv_len (l_slot_ptr e) < 256 →
  local_bucket_addr c = local_bucket_addr (ctx s) →
  (∀ q, q ∈ ops ↔ q ∈ ops_of (gen_read_bucket_sr_lists c) ∨
                  q ∈ [(slot_server_id (l_slot_ptr e), cache_read s e rk)]) →
  (∀ q, q ∈ ops → ∀ y, ¬ rwrites q.2 y) →
  ∀ x, local_cache_addr (ctx s) <= x
         < local_cache_addr (ctx s) + kv_len (l_slot_ptr e) * Cmm.subblock_sz_ (mm s) →
    lmem (run_ops ops w) x = block_mem (rmem w) (l_slot_ptr e)
                               (block_addr (l_slot_ptr e) + (x - local_cache_addr (ctx s))).
Proof.
  intros Hl Hsz Hn Hk Eb Hops Hnw x Hx.
  assert (brings (slot_server_id (l_slot_ptr e))
    (block_addr (l_slot_ptr e) + (x - local_cache_addr (ctx s))) x
    (slot_server_id (l_slot_ptr e), cache_read s e rk)) as Hb.
  { split_and!; [done|done|]. eexists _, _, _. split; [reflexivity|]. unfold u32.
    rewrite Z.mod_small by nia. cbn [remote_addr cache_read snd]. lia. }
  apply run_ops_read.
  - eexists. split; [|exact Hb]. apply Hops. right. by apply list_elem_of_singleton.
  - intros q [Hq| ->%list_elem_of_singleton]%Hops; [right|by left]. intros Hw%(proj2 (bucket_ops c q Hq)).
    rewrite Eb in Hw. apply (sl_apart _ Hl x Hw). unfold in_cache_buf. nia.
  - intros q Hq _. by apply Hnw.
Qed.

(** The requests of the first round trip: [s] before it, [s'] when the cache has
    been asked. *)
Lemma trip_requests s s' c cached h t :
  search_layout s → 0 < Cmm.subblock_sz_ (mm s) < 2 ^ 24 → cache_coherent s h t →
  (cached = [] ∧ (use_cache (ctx s) = true → is_local_cache_hit (ctx s') = false)) ∨
  (∃ e rk, use_cache (ctx s) = true ∧ Cl.addr_cache_ (cl s) !! key_str (ctx s) = Some e ∧ cl s' = cl s ∧
     cache_entry (ctx s') = Some (key_str (ctx s)) ∧
     cached = [[mkSrList [cache_read s e rk] (slot_server_id (l_slot_ptr e))]]) →
  let ls := concat (gen_read_bucket_sr_lists c :: cached) in
  Forall plain_list ls ∧
  ∃ cr, (∀ q, q ∈ ops_of ls ↔ q ∈ ops_of (gen_read_bucket_sr_lists c) ∨ q ∈ cr) ∧
    (∀ q, q ∈ cr → opcode q.2 = IBV_WR_RDMA_READ) ∧
    (∀ q x, q ∈ cr → lwrites q.2 x → in_cache_buf s x) ∧
    (use_cache (ctx s) = true → is_local_cache_hit (ctx s') = true →
     ∃ e rk, Cl.addr_cache_ (cl s) !! key_str (ctx s) = Some e ∧ cl s' = cl s ∧
       cache_entry (ctx s') = Some (key_str (ctx s)) ∧
       cr = [(slot_server_id (l_slot_ptr e), cache_read s e rk)]).
Proof.
  intros Hl Hsz Hcc [[-> Hf]|(e & rk & Hu & He & Hcl & Hce & ->)]; cbn [concat]; rewrite app_nil_r; split.
  - repeat constructor; done.
  - exists []. split_and!; [|set_solver|set_solver|].
    + intros q. pose proof (not_elem_of_nil q). tauto.
    + intros Hu Hh. by rewrite Hf in Hh.
  - repeat constructor; done.
  - destruct (Hcc Hu e He) as [Hn Hk _ _].
    exists [(slot_server_id (l_slot_ptr e), cache_read s e rk)]. split_and!.
    + intros q. rewrite list_elem_of_singleton, !elem_of_ops_of. setoid_rewrite elem_of_app.
      setoid_rewrite list_elem_of_singleton. split.
      * intros (l & wr & [Hq| ->] & Hwr & ->); [left; eauto|right]. cbn in *.
        apply list_elem_of_singleton in Hwr as ->. unfold u8. by rewrite Z.mod_small.
      * intros [(l & wr & Hq & Hwr & ->)| ->]; [exists l, wr; auto|].
        eexists (mkSrList _ _), (cache_read s e rk). split; [by right|]. cbn [sr_list sr_server_id].
        split; [by apply list_elem_of_singleton|]. unfold u8. by rewrite Z.mod_small.
    + by intros q ->%list_elem_of_singleton.
    + intros q x ->%list_elem_of_singleton. unfold in_cache_buf, lwrites. cbn.
      unfold u32. rewrite Z.mod_small by nia. nia.
    + intros _ _. by exists e, rk.
Qed.

Lemma buckets_arrive `{F : Fabric} `{HF : !QuietFabric F} (P : Posting) `{HP : !PostingOk P} s h t :
  search_ready s → search_layout s → cache_coherent s h t → located s h t → 0 <= index_node t < 256 →
  ∃ s1, buckets_read P s s1 ∧ buckets_arrived s s1 h t.
Proof.
  intros Hsr Hl Hcc Hloc Hn. unfold buckets_read, kv_search_read_with, get_ctx. unM.
  rewrite Hloc. set (s0 := set_field ctx _ s). pose proof (sr_sz _ Hsr) as Hsz.
  destruct (cache_probe_cases s0 (sr_cache _ Hsr)) as (cached & s' & -> & Ew & En & Em & Ecl & Ec & Hcase).
  destruct (trip_requests s s' (ctx s0) cached h t Hl Hsz Hcc Hcase)
    as (Hpl & cr & Hops & Hread & Hbuf & Hhit).
  assert (idle s') as Hid by (destruct (sr_idle _ Hsr); split; [by rewrite Ew|by rewrite En]).
  rewrite post_batch_ok by done. unfold unfinished, set_ctx. unM. eexists. split; [reflexivity|].
  set (ls := concat _) in *.
  destruct (posted_effect ls s') as [El Er]. pose proof (posted_client_side ls s') as Ecs.
  assert (idle (posted ls s')) as Hid1 by (by apply posted_idle).
  generalize dependent (posted ls s'). intros s1 El Er Ecs Hid1. injection Ecs as Em1 Ecl1 Ectx1.
  destruct (ctx_update (λ c, c <| is_finished := false |>) s1) as (Ew1 & _ & _).
  destruct (bucket_trip_effect (ctx s0) cr (ops_of ls) (wld s') Hops Hread) as (Hr & Hs & Hf & Hnw).
  { intros q x Hq Hw Hx. by apply (sl_apart _ Hl x Hx), (Hbuf q x). } { done. }
  rewrite <- El in Hs, Hf. rewrite Ew in *. split.
  - by apply idle_update.
  - change (mm s1 = mm s). rewrite Em1. exact Em.
  - change (cl s1 = (cl s) <| Cl.addr_cache_ := Cl.addr_cache_ (cl s1) |>). by rewrite Ecl1.
  - cbn [ctx set_field eta_Sys]. by rewrite Ectx1, Ec.
  - intros Hu Hh. change (is_local_cache_hit (ctx s1) = true) in Hh. rewrite Ectx1 in Hh.
    destruct (Hhit Hu Hh) as (e & rk & He & Hcl & Hce & ->). exists e.
    destruct (Hcc Hu e He) as [Hsn Hkl _ _]. split_and!.
    + done.
    + change (cl s1 = cl s). by rewrite Ecl1.
    + change (cache_entry (ctx s1) = Some (key_str (ctx s))). by rewrite Ectx1.
    + intros x Hx. rewrite Ew1, El. by apply (cached_block_arrives s (ctx s0) e rk).
  - rewrite Ew1, Er. exact Hr.
  - intros x Hx1 Hx2. rewrite Ew1. apply Hf; [exact Hx1|]. intros q Hq Hw. by apply Hx2, (Hbuf q x).
  - intros p Hp. rewrite Ew1. by apply Hs.
Qed.

(** ** The blocks arrive *)

Lemma elem_of_push_sorted {A} sid k (v x : A) l :
  (∃ g, (sid, g) ∈ push_sorted k v l ∧ x ∈ g) ↔ (sid = k ∧ x = v) ∨ ∃ g, (sid, g) ∈ l ∧ x ∈ g.
Proof.
  assert (∀ s0 (xs : list A) rest, (∃ g, (sid, g) ∈ (s0, xs) :: rest ∧ x ∈ g) ↔
    (sid = s0 ∧ x ∈ xs) ∨ ∃ g, (sid, g) ∈ rest ∧ x ∈ g) as Hcons.
  { intros s0 xs rest. setoid_rewrite elem_of_cons. naive_solver. }
  induction l as [|[s0 xs] l IH]; cbn [push_sorted].
  - rewrite Hcons, list_elem_of_singleton. done.
  - destruct (k =? s0) eqn:E; [apply Z.eqb_eq in E as ->|destruct (k <? s0)]; rewrite !Hcons.
    + rewrite elem_of_app, list_elem_of_singleton. naive_solver.
    + rewrite list_elem_of_singleton. done.
    + rewrite IH. naive_solver.
Qed.

(** The request that reads block [r], the [i]-th of its node. *)
Definition block_read (coro : Z) (i : nat) (r : KVRWAddr) : ibv_send_wr :=
  mkWr (ib_gen_wr_id coro (rw_server_id r) READ_KV_ST_WRID (Z.of_nat i + 1))
    (Sge (rw_l_kv_addr r) (rw_length r) (rw_lkey r)) IBV_WR_RDMA_READ false
    (rw_r_kv_addr r) (rw_rkey r) 0 0.

Lemma elem_of_read_groups sid r l :
  (∃ g, (sid, g) ∈ foldl (λ m r, push_sorted (rw_server_id r) r m) [] l ∧ r ∈ g) ↔
  r ∈ l ∧ sid = rw_server_id r.
Proof.
  induction l as [|x l IH] using rev_ind; [set_solver|].
  rewrite foldl_app. cbn [foldl]. rewrite elem_of_push_sorted, IH, elem_of_app, list_elem_of_singleton.
  naive_solver.
Qed.

Lemma elem_of_block_reads coro l p :
  p ∈ ops_of (gen_read_kv_sr_lists coro l) →
  ∃ r i, r ∈ l ∧ p = (u8 (rw_server_id r), block_read coro i r).
Proof.
  intros (sl & wr & Hl & Hwr & ->)%elem_of_ops_of. unfold gen_read_kv_sr_lists in Hl.
  apply list_elem_of_fmap in Hl as ([sid g] & -> & Hg).
  cbn [sr_list sr_server_id] in *. apply list_elem_of_lookup in Hwr as [i Hi].
  rewrite list_lookup_imap in Hi. destruct (g !! i) as [r|] eqn:Er; [|done]. injection Hi as <-.
  destruct (proj1 (elem_of_read_groups sid r l)) as [Hr ->].
  { exists g. split; [done|]. by eapply list_elem_of_lookup_2. }
  exists r, i. done.
Qed.

Lemma block_reads_elem coro l r :
  r ∈ l → ∃ i, (u8 (rw_server_id r), block_read coro i r) ∈ ops_of (gen_read_kv_sr_lists coro l).
Proof.
  intros Hr. destruct (proj2 (elem_of_read_groups (rw_server_id r) r l)) as (g & Hg & Hrg); [done|].
  apply list_elem_of_lookup in Hrg as [i Hi]. exists i. apply elem_of_ops_of.
  eexists _, (block_read coro i r). split_and!.
  - unfold gen_read_kv_sr_lists. apply list_elem_of_fmap. exists (rw_server_id r, g). split; [|done].
    reflexivity.
  - cbn [sr_list]. apply (list_elem_of_lookup_2 _ i). rewrite list_lookup_imap, Hi. reflexivity.
  - reflexivity.
Qed.

(** The buffers of the reads follow one another. *)
Lemma laid_out_start buf l a :
  laid_out buf l → Forall (λ a, 0 <= rw_length a) l → a ∈ l → buf <= rw_l_kv_addr a.
Proof.
  revert buf. induction l as [|x l IH]; intros buf Hl Hf Ha; [set_solver|].
  destruct Hl as [<- Hl]. inversion_clear Hf. apply elem_of_cons in Ha as [->|Ha]; [done|].
  pose proof (IH _ Hl ltac:(done) Ha). lia.
Qed.

Lemma laid_out_apart buf l a b x :
  laid_out buf l → Forall (λ a, 0 <= rw_length a) l → a ∈ l → b ∈ l →
  rw_l_kv_addr a <= x < rw_l_kv_addr a + rw_length a →
  rw_l_kv_addr b <= x < rw_l_kv_addr b + rw_length b → a = b.
Proof.
  revert buf. induction l as [|c l IH]; intros buf Hl Hf Ha Hb Hxa Hxb; [set_solver|].
  destruct Hl as [<- Hl]. inversion_clear Hf as [|? ? Hc Hf'].
  apply elem_of_cons in Ha as [->|Ha]; apply elem_of_cons in Hb as [->|Hb]; [done| | |by eapply IH].
  - pose proof (laid_out_start _ _ _ Hl Hf' Hb). lia.
  - pose proof (laid_out_start _ _ _ Hl Hf' Ha). lia.
Qed.

Lemma laid_out_end buf l a sz :
  laid_out buf l → Forall (λ a, 0 <= rw_length a <= sz) l → a ∈ l →
  buf <= rw_l_kv_addr a ∧ rw_l_kv_addr a + rw_length a <= buf + Z.of_nat (length l) * sz.
Proof.
  revert buf. induction l as [|c l IH]; intros buf Hl Hf Ha; [set_solver|].
  destruct Hl as [<- Hl]. inversion_clear Hf as [|? ? Hc Hf']. cbn [length].
  apply elem_of_cons in Ha as [->|Ha]; [nia|]. pose proof (IH _ Hl Hf' Ha). lia.
Qed.

(** The effect of the reads of blocks laid out in the buffer at [buf]. *)
Lemma block_reads_effect coro buf l w :
  laid_out buf l → Forall (λ a, 0 <= rw_length a ∧ 0 <= rw_server_id a < 256) l →
  let w' := run_ops (ops_of (gen_read_kv_sr_lists coro l)) w in
  rmem w' = rmem w ∧
  (∀ a x, a ∈ l → rw_l_kv_addr a <= x < rw_l_kv_addr a + rw_length a →
     lmem w' x = rmem w (rw_server_id a) (rw_r_kv_addr a + (x - rw_l_kv_addr a))) ∧
  (∀ x, (∀ a, a ∈ l → ¬ (rw_l_kv_addr a <= x < rw_l_kv_addr a + rw_length a)) → lmem w' x = lmem w x).
Proof.
  intros Hl Hf w'. assert (Forall (λ a, 0 <= rw_length a) l) as Hf0 by (eapply Forall_impl; [exact Hf|by intros ? []]).
  rewrite Forall_forall in Hf.
  assert (∀ q, q ∈ ops_of (gen_read_kv_sr_lists coro l) → ∀ y, ¬ rwrites q.2 y) as Hnw.
  { intros q (r & i & _ & ->)%elem_of_block_reads y H. exact H. }
  split_and!.
  - apply run_reads_rmem, Forall_forall. by intros q (r & i & _ & ->)%elem_of_block_reads.
  - intros a x Ha Hx. destruct (block_reads_elem coro l a Ha) as [i Hi].
    rewrite <- (Z.mod_small (rw_server_id a) 256) by (by apply Hf).
    apply run_ops_read.
    + exists (u8 (rw_server_id a), block_read coro i a). split; [done|]. split_and!; [done|done|].
      eexists _, _, _. split; [reflexivity|done].
    + intros q (r & j & Hr & ->)%elem_of_block_reads.
      destruct (decide (rw_l_kv_addr r <= x < rw_l_kv_addr r + rw_length r)) as [Hxr|Hxr]; [|auto].
      left. assert (r = a) as -> by (by eapply laid_out_apart). split_and!; [done|done|].
      eexists _, _, _. split; [reflexivity|done].
    + intros q Hq _. by apply Hnw.
  - intros x Hx. apply run_ops_lframe. intros q (r & j & Hr & ->)%elem_of_block_reads. apply (Hx r Hr).
Qed.

(** ** The search *)

Lemma filter_through {A B} (f : A → B) (Q : A → Prop) (R : B → Prop)
    `{!∀ x, Decision (Q x)} `{!∀ y, Decision (R y)} (l : list A) :
  (∀ x, x ∈ l → Q x ↔ R (f x)) → filter R (f <$> l) = f <$> filter Q l.
Proof.
  induction l as [|x l IH]; intros Hl; [done|]. cbn [fmap list_fmap].
  rewrite !filter_cons, IH by set_solver. specialize (Hl x). destruct (decide (Q x)), (decide (R (f x)));
    set_solver.
Qed.

Lemma list_filter_iff_in {A} (Q R : A → Prop) `{!∀ x, Decision (Q x)} `{!∀ x, Decision (R x)} (l : list A) :
  (∀ x, x ∈ l → Q x ↔ R x) → filter Q l = filter R l.
Proof.
  intros Hl. rewrite <- (list_fmap_id l) at 2. rewrite (filter_through id Q R) by done. by rewrite list_fmap_id.
Qed.

(** The buckets of a request in its local copy, as its node holds them. *)
Record buckets_here (s : Sys) (h : KVHashInfo) (t : KVTableAddrInfo) : Prop := {
  bh_hash : hash_info (ctx s) = h;
  bh_slots p : p ∈ slot_indices →
    slot_of (lmem (wld s)) (local_slot_arr (local_bucket_addr (ctx s))) p.1 p.2 =
    index_slot (rmem (wld s)) t p }.

(** The slots of that copy with the fingerprint of the key. *)
Definition matching (s : Sys) : list (Z * Z) :=
  filter (matches_at s (local_slot_arr (local_bucket_addr (ctx s)))) slot_indices.

Lemma candidates_local s h t :
  buckets_here s h t →
  candidates (rmem (wld s)) h t = index_slot (rmem (wld s)) t <$> matching s.
Proof.
  intros [Hh Hs]. apply filter_through. intros p Hp. unfold matches_at. by rewrite Hs, Hh.
Qed.

(** The first hit among the candidates. *)
Lemma head_filter {A} (Q : A → Prop) `{!∀ x, Decision (Q x)} (l : list A) :
  head (filter Q l) = snd <$> list_find Q l.
Proof.
  induction l as [|x l IH]; [done|]. rewrite filter_cons. cbn [list_find].
  destruct (decide (Q x)); [done|]. rewrite IH. by destruct (list_find Q l) as [[]|].
Qed.

Lemma filter_and {A} (Q R : A → Prop) `{!∀ x, Decision (Q x)} `{!∀ x, Decision (R x)} (l : list A) :
  filter (λ x, Q x ∧ R x) l = filter R (filter Q l).
Proof.
  induction l as [|x l IH]; [done|]. rewrite !filter_cons.
  destruct (decide (Q x)), (decide (Q x ∧ R x)); rewrite ?filter_cons, ?IH; try case_decide; tauto.
Qed.

Lemma index_lookup_candidates r h t key :
  index_lookup r h t key = block_value r <$> head (filter (λ sl, block_key r sl = key) (candidates r h t)).
Proof.
  unfold index_lookup, hits, candidates.
  rewrite <- (filter_and (λ sl, slot_matches h sl = true) (λ sl, block_key r sl = key)).
  rewrite (filter_through (index_slot r t)
    (λ p, slot_matches h (index_slot r t p) = true ∧ block_key r (index_slot r t p) = key)
    (λ sl, slot_matches h sl = true ∧ block_key r sl = key)) by done.
  by destruct (filter _ slot_indices).
Qed.

(** A block in its local buffer reads like the block on its node. *)
Lemma block_arrived (lm : mem) r sl l len :
  (∀ x, l <= x < l + len → lm x = block_mem r sl (block_addr sl + (x - l))) →
  sizeof_KVLogHeader + block_key_len r sl + block_value_len r sl <= len →
  load16 lm (l + off_key_length) = block_key_len r sl ∧
  load_bytes (block_key_len r sl) lm (l + sizeof_KVLogHeader) = block_key r sl ∧
  load_bytes (block_value_len r sl) lm (l + sizeof_KVLogHeader + block_key_len r sl) = block_value r sl.
Proof.
  intros H Hlen. unfold sizeof_KVLogHeader in *.
  pose proof (load_range 2 (block_mem r sl) (block_addr sl + off_key_length)) as Hk.
  pose proof (load_range 4 (block_mem r sl) (block_addr sl + off_value_length)) as Hv.
  fold (block_key_len r sl) in Hk. fold (block_value_len r sl) in Hv.
  change (load 2 (block_mem r sl) (block_addr sl + off_key_length)) with (block_key_len r sl) in Hk.
  change (load 4 (block_mem r sl) (block_addr sl + off_value_length)) with (block_value_len r sl) in Hv.
  split_and!; [apply load_ext|apply load_bytes_ext|apply load_bytes_ext]; intros i Hi;
    (rewrite H; [f_equal; f_equal; unfold sizeof_KVLogHeader; lia|unfold off_key_length in *; lia]).
Qed.

(** What a search that ends in [s'] with [v] found. *)
Definition answers (found : option (list Z)) (s' : Sys) (v : Z) : Prop :=
  match found with
  | None => v = 0
  | Some val => v ≠ 0 ∧ load_bytes (Z.of_nat (length val)) (lmem (wld s')) v = val
  end.

(** The candidates in their buffers, one after the other. *)
Definition blocks_arrived (s : Sys) (sls : list RaceHashSlot) (s3 : Sys) : Prop :=
  Forall2 (λ sl a, ∃ len,
      sizeof_KVLogHeader + block_key_len (rmem (wld s)) sl + block_value_len (rmem (wld s)) sl <= len ∧
      local_kv_addr (ctx s) <= rw_l_kv_addr a ∧
      ∀ x, rw_l_kv_addr a <= x < rw_l_kv_addr a + len →
        lmem (wld s3) x = block_mem (rmem (wld s)) sl (block_addr sl + (x - rw_l_kv_addr a)))
    sls (kv_read_addr_list (ctx s3)).

(** What the second round trip brings: [s] before it, [s3] after it. *)
Record candidates_here (s s3 : Sys) (h : KVHashInfo) (t : KVTableAddrInfo) : Prop := {
  ch_idle : idle s3;
  ch_mm : mm s3 = mm s;
  ch_cl : cl s3 = cl s;
  ch_ctx : ctx s3 = (with_candidates (kv_read_addr_list (ctx s3)) (matching s) (ctx s)) <| is_finished := false |>;
  ch_reads : Forall2 (reads_slot s (local_slot_arr (local_bucket_addr (ctx s)))) (matching s)
    (kv_read_addr_list (ctx s3));
  ch_rmem : rmem (wld s3) = rmem (wld s);
  ch_frame x : ¬ (local_kv_addr (ctx s) <= x < local_kv_addr (ctx s) + 28 * (255 * Cmm.subblock_sz_ (mm s))) →
    lmem (wld s3) x = lmem (wld s) x;
  ch_blocks : blocks_arrived s (candidates (rmem (wld s)) h t) s3 }.

(** The key of a request is outside the buffer of the blocks. *)
Definition key_kept (s : Sys) : Prop :=
  ∀ x, get_key (kv_info (ctx s)) <= x < get_key (kv_info (ctx s)) + key_len (kv_info (ctx s)) →
    ¬ (local_kv_addr (ctx s) <= x < local_kv_addr (ctx s) + 28 * (255 * Cmm.subblock_sz_ (mm s))).

Lemma candidates_key s s3 h t :
  candidates_here s s3 h t → key_kept s → request_key s3 = request_key s.
Proof.
  intros Hc Hk. unfold request_key.
  assert (kv_info (ctx s3) = kv_info (ctx s)) as -> by (by rewrite (ch_ctx _ _ _ _ Hc)).
  apply load_bytes_ext. intros i Hi. f_equal. apply (ch_frame _ _ _ _ Hc), Hk. lia.
Qed.

Lemma key_at_arrived s s3 sl a len :
  sizeof_KVLogHeader + block_key_len (rmem (wld s)) sl + block_value_len (rmem (wld s)) sl <= len →
  (∀ x, rw_l_kv_addr a <= x < rw_l_kv_addr a + len →
     lmem (wld s3) x = block_mem (rmem (wld s)) sl (block_addr sl + (x - rw_l_kv_addr a))) →
  request_key s3 = request_key s →
  key_at s3 (rw_l_kv_addr a) ↔ block_key (rmem (wld s)) sl = request_key s.
Proof.
  intros Hlen Hx Hkey. destruct (block_arrived _ _ _ _ _ Hx Hlen) as (Hk & Hb & _).
  unfold key_at. rewrite Hk, Hb. fold (request_key s3). by rewrite Hkey.
Qed.

(** The first candidate with the key is the first match, and there is one iff
    there is the other. *)
Lemma first_candidate s s3 h t j a :
  candidates_here s s3 h t → key_kept s →
  kv_read_addr_list (ctx s3) !! j = Some a → key_at s3 (rw_l_kv_addr a) →
  (∀ (k : nat) b, (k < j)%nat → kv_read_addr_list (ctx s3) !! k = Some b → ¬ key_at s3 (rw_l_kv_addr b)) →
  ∃ sl, candidates (rmem (wld s)) h t !! j = Some sl ∧
    list_find (λ sl, block_key (rmem (wld s)) sl = request_key s) (candidates (rmem (wld s)) h t) = Some (j, sl).
Proof.
  intros Hc Hkk Ha Hka Hfirst. pose proof (candidates_key _ _ _ _ Hc Hkk) as Hkey.
  pose proof (ch_blocks _ _ _ _ Hc) as Harr.
  destruct (Forall2_lookup_r _ _ _ _ _ Harr Ha) as (sl & Hsl & len & Hlen & _ & Hx).
  exists sl. split; [done|]. apply list_find_Some. split_and!; [done|by eapply key_at_arrived|].
  intros k sl' Hk Hkj Hsame. destruct (Forall2_lookup_l _ _ _ _ _ Harr Hk) as (b & Hb & len' & Hlen' & _ & Hx').
  apply (Hfirst k b Hkj Hb). by eapply key_at_arrived.
Qed.

Lemma no_candidate s s3 h t :
  candidates_here s s3 h t → key_kept s →
  (∀ a, a ∈ kv_read_addr_list (ctx s3) → ¬ key_at s3 (rw_l_kv_addr a)) →
  list_find (λ sl, block_key (rmem (wld s)) sl = request_key s) (candidates (rmem (wld s)) h t) = None.
Proof.
  intros Hc Hkk Hno. pose proof (candidates_key _ _ _ _ Hc Hkk) as Hkey.
  apply list_find_None, Forall_forall. intros sl [j Hj]%list_elem_of_lookup Hsame.
  destruct (Forall2_lookup_l _ _ _ _ _ (ch_blocks _ _ _ _ Hc) Hj) as (b & Hb & len & Hlen & _ & Hx).
  apply (Hno b); [by eapply list_elem_of_lookup_2|]. by eapply key_at_arrived.
Qed.

(** The comparison of the candidates is the abstract lookup. *)
Lemma check_kv_answers s s3 h t :
  after_buckets s → key_kept s → candidates_here s s3 h t →
  ∃ s', kv_search_check_kv s3 = Done tt s' ∧ wld s' = wld s3 ∧
    answers (index_lookup (rmem (wld s)) h t (request_key s)) s' (ret_val (ctx s')).
Proof.
  intros Hs Hkk Hc. pose proof (ch_ctx _ _ _ _ Hc) as Hctx.
  destruct (check_kv_run s s3) as (s' & E & Hw & _ & _ & Hans);
    [by rewrite Hctx|rewrite Hctx; apply Hs|rewrite (ch_cl _ _ _ _ Hc); apply Hs| |].
  { assert (kv_idx_list (ctx s3) = matching s) as -> by (by rewrite Hctx). apply Hc. }
  exists s'. split_and!; [done|done|]. rewrite index_lookup_candidates, head_filter.
  destruct Hans as [(j & a & Ha & Hka & Hfirst & Hv)|(Hv & Hno)].
  - destruct (first_candidate s s3 h t j a Hc Hkk Ha Hka Hfirst) as (sl & Hsl & ->).
    destruct (Forall2_lookup_lr _ _ _ _ _ _ (ch_blocks _ _ _ _ Hc) Hsl Ha) as (len & Hlen & Hbuf & Hx).
    destruct (block_arrived _ _ _ _ _ Hx Hlen) as (Hk & _ & Hval). cbn [fmap option_fmap option_map answers snd].
    rewrite Hv, Hk. split.
    + pose proof (load_range 2 (block_mem (rmem (wld s)) sl) (block_addr sl + off_key_length)).
      change (load 2 (block_mem (rmem (wld s)) sl) (block_addr sl + off_key_length))
        with (block_key_len (rmem (wld s)) sl) in *.
      pose proof (ab_buf _ Hs). unfold sizeof_KVLogHeader. lia.
    + rewrite Hw. unfold block_value at 1. rewrite load_bytes_length, Z2Nat.id; [exact Hval|].
      apply (load_range 4).
  - by rewrite (no_candidate s s3 h t Hc Hkk Hno).
Qed.

(** The index of the match is that of the first hit of the lookup. *)
Lemma match_is_hit s s3 h t :
  buckets_here s h t → candidates_here s s3 h t → key_kept s → 0 <= key_len (kv_info (ctx s)) →
  ∃ r, find_match_kv_idx s3 = Done r s3 ∧
    match head (hits (rmem (wld s)) h t (request_key s)) with
    | None => r = -1
    | Some p => 0 <= r ∧ kv_idx_list (ctx s3) !! Z.to_nat r = Some p
    end.
Proof.
  intros Hbh Hc Hkk Hl. pose proof (ch_ctx _ _ _ _ Hc) as Hctx.
  assert (kv_idx_list (ctx s3) = matching s) as -> by (by rewrite Hctx).
  destruct (find_match_run s3) as (r & E & Hr); [by rewrite Hctx|]. exists r. split; [done|].
  unfold hits. rewrite (filter_and (λ p, slot_matches h (index_slot (rmem (wld s)) t p) = true)
    (λ p, block_key (rmem (wld s)) (index_slot (rmem (wld s)) t p) = request_key s)), head_filter.
  assert (filter (λ p, slot_matches h (index_slot (rmem (wld s)) t p) = true) slot_indices = matching s) as ->.
  { unfold matching. apply list_filter_iff_in. intros p Hp. unfold matches_at.
    by rewrite (bh_slots _ _ _ Hbh p Hp), (bh_hash _ _ _ Hbh). }
  assert (list_find (λ sl, block_key (rmem (wld s)) sl = request_key s)
    (index_slot (rmem (wld s)) t <$> matching s) =
    prod_map id (index_slot (rmem (wld s)) t) <$>
      list_find (λ p, block_key (rmem (wld s)) (index_slot (rmem (wld s)) t p) = request_key s) (matching s))
    as Hfind by apply list_find_fmap.
  rewrite <- (candidates_local s h t Hbh) in Hfind.
  destruct Hr as [[-> Hno]|(Hr & a & Ha & Hka & Hfirst)].
  - rewrite (no_candidate s s3 h t Hc Hkk Hno) in Hfind.
    by destruct (list_find _ (matching s)) as [[]|].
  - destruct (first_candidate s s3 h t _ a Hc Hkk Ha Hka Hfirst) as (sl & Hsl & Ef). rewrite Ef in Hfind.
    destruct (list_find _ (matching s)) as [[k p]|] eqn:Ep; [|done].
    cbn in Hfind. injection Hfind as -> _. apply list_find_Some in Ep as [Ep _]. cbn. done.
Qed.

Lemma length_slot_indices : length slot_indices = 28%nat.
Proof. reflexivity. Qed.

(** What the requests for the candidates ask for. *)
Definition asks (sz : Z) (sl : RaceHashSlot) (a : KVRWAddr) : Prop :=
  rw_server_id a = slot_server_id sl ∧ rw_r_kv_addr a = block_addr sl ∧ rw_length a = kv_len sl * sz ∧
  0 <= slot_server_id sl < 256 ∧ 0 <= kv_len sl < 256.

Lemma candidates_asked s h t new :
  buckets_here s h t →
  Forall2 (reads_slot s (local_slot_arr (local_bucket_addr (ctx s)))) (matching s) new →
  Forall2 (asks (Cmm.subblock_sz_ (mm s))) (candidates (rmem (wld s)) h t) new.
Proof.
  intros Hbh Hall. rewrite (candidates_local _ _ _ Hbh). apply Forall2_fmap_l.
  apply Forall2_same_length_lookup_2; [by eapply Forall2_length|]. intros j p a Hp Ha.
  destruct (Forall2_lookup_lr _ _ _ _ _ _ Hall Hp Ha) as (E1 & E2 & E3 & _).
  apply list_elem_of_lookup_2, list_elem_of_filter in Hp as [_ Hp].
  rewrite (bh_slots _ _ _ Hbh p Hp) in E1, E2, E3.
  split_and!; [done|done|done|apply (load_range 1)|apply (load_range 1)|apply (load_range 1)|apply (load_range 1)].
Qed.

Lemma asked_bounds s sls new :
  0 < Cmm.subblock_sz_ (mm s) → Forall2 (asks (Cmm.subblock_sz_ (mm s))) sls new →
  Forall (λ a, (0 <= rw_length a <= 255 * Cmm.subblock_sz_ (mm s)) ∧ 0 <= rw_server_id a < 256) new.
Proof.
  intros Hsz Hask. apply Forall_forall. intros a [j Ha]%list_elem_of_lookup.
  destruct (Forall2_lookup_r _ _ _ _ _ Hask Ha) as (sl & _ & -> & _ & -> & Hn & Hl). split; [nia|done].
Qed.

(** The second round trip. *)
Lemma candidates_arrive `{F : Fabric} `{HF : !QuietFabric F} (P : Posting) `{HP : !PostingOk P} s h t :
  after_buckets s → buckets_here s h t → blocks_fit (rmem (wld s)) h t (Cmm.subblock_sz_ (mm s)) →
  index_known (cl s) (rmem (wld s)) h t →
  ∃ s3, (find_kv_in_buckets ;; read_candidates P) s = Done tt s3 ∧ candidates_here s s3 h t.
Proof.
  intros Hs Hbh Hfit Hkn. unM.
  destruct (find_kv_in_buckets_run s) as (new & -> & Hall & Hlo); [apply Hs..| |].
  { intros p Hp Hm. rewrite (bh_slots _ _ _ Hbh p Hp). apply Hkn. unfold candidates.
    apply list_elem_of_filter. split; [|by apply list_elem_of_fmap_2].
    unfold matches_at in Hm. by rewrite (bh_slots _ _ _ Hbh p Hp), (bh_hash _ _ _ Hbh) in Hm. }
  fold (matching s) in *. unfold read_candidates, get_ctx. unM. set (s2 := set_field ctx _ s).
  rewrite post_lists_ok; [|apply gen_read_kv_plain|apply Hs].
  unfold unfinished, set_ctx. unM.
  change (kv_read_addr_list (ctx s2)) with new. set (ls := gen_read_kv_sr_lists _ new).
  destruct (posted_effect ls s2) as [El Er]. change (wld s2) with (wld s) in El, Er.
  assert (idle (posted ls s2)) as Hid by (apply posted_idle, Hs).
  pose proof (posted_client_side ls s2) as Ec.
  pose proof (candidates_asked _ _ _ new Hbh Hall) as Hask.
  pose proof (asked_bounds s _ new (proj1 (ab_sz _ Hs)) Hask) as Hnew.
  destruct (block_reads_effect (coro_id (ctx s2)) (local_kv_addr (ctx s)) new (wld s) Hlo)
    as (Hr3 & Hin & Hout).
  { eapply Forall_impl; [exact Hnew|]. by intros a [[] ]. }
  fold ls in Hr3, Hin, Hout. rewrite <- Er in Hr3. rewrite <- El in Hin, Hout.
  generalize dependent (posted ls s2). intros s3 El Er Hid Ec Hr3 Hin Hout. injection Ec as Em Ecl Ectx.
  assert (length new <= 28)%nat as Hlen.
  { rewrite <- (Forall2_length _ _ _ Hall), <- length_slot_indices. apply length_filter. }
  assert (∀ a, a ∈ new → local_kv_addr (ctx s) <= rw_l_kv_addr a ∧
    rw_l_kv_addr a + rw_length a <= local_kv_addr (ctx s) + 28 * (255 * Cmm.subblock_sz_ (mm s))) as Hrange.
  { intros a Ha. destruct (laid_out_end (local_kv_addr (ctx s)) new a (255 * Cmm.subblock_sz_ (mm s)) Hlo)
      as [H1 H2]; [eapply Forall_impl; [exact Hnew|by intros ? []]|done|].
    pose proof (ab_sz _ Hs). nia. }
  destruct (ctx_update (λ c, c <| is_finished := false |>) s3) as (Ew & _ & _).
  assert (kv_read_addr_list (ctx (s3 <| ctx ::= λ c, c <| is_finished := false |> |>)) = new) as Enew.
  { cbn [ctx set_field eta_Sys]. by rewrite Ectx. }
  eexists. split; [reflexivity|]. split.
  - by apply idle_update.
  - exact Em.
  - exact Ecl.
  - rewrite Enew. cbn [ctx set_field eta_Sys]. by rewrite Ectx.
  - by rewrite Enew.
  - by rewrite Ew.
  - intros x Hx. rewrite Ew. apply Hout. intros a Ha Hxa. destruct (Hrange a Ha). lia.
  - unfold blocks_arrived. rewrite Enew, Ew.
    apply Forall2_same_length_lookup_2; [by eapply Forall2_length|]. intros j sl a Hj Ha.
    destruct (Forall2_lookup_lr _ _ _ _ _ _ Hask Hj Ha) as (E1 & E2 & E3 & _).
    assert (a ∈ new) as Hain by (by eapply list_elem_of_lookup_2).
    exists (rw_length a). split_and!.
    + rewrite E3. apply Hfit. by eapply list_elem_of_lookup_2.
    + by apply Hrange.
    + intros x Hx. by rewrite (Hin a x Hain Hx), E1, E2.
Qed.

(** The buckets that a search has read are those of its node. *)
Lemma arrived_here s s1 h t : buckets_arrived s s1 h t → buckets_here s1 h t.
Proof.
  intros Hba. pose proof (ba_ctx _ _ _ _ Hba) as Hctx. split; [by rewrite Hctx|]. intros p Hp.
  assert (local_bucket_addr (ctx s1) = local_bucket_addr (ctx s)) as -> by (by rewrite Hctx).
  rewrite (ba_rmem _ _ _ _ Hba). by apply (ba_slots _ _ _ _ Hba).
Qed.

Lemma arrived_client s s1 h t :
  buckets_arrived s s1 h t →
  Cl.num_idx_rep_ (cl s1) = Cl.num_idx_rep_ (cl s) ∧ Cl.num_replication_ (cl s1) = Cl.num_replication_ (cl s) ∧
  Cl.server_mr_info_map_ (cl s1) = Cl.server_mr_info_map_ (cl s).
Proof. intros H. rewrite (ba_cl _ _ _ _ H). by destruct (cl s). Qed.

Lemma arrived_after s s1 h t : search_ready s → buckets_arrived s s1 h t → after_buckets s1.
Proof.
  intros Hs Hba. pose proof (ba_ctx _ _ _ _ Hba) as Hctx.
  destruct (arrived_client _ _ _ _ Hba) as (E1 & E2 & E3).
  assert (local_kv_addr (ctx s1) = local_kv_addr (ctx s) ∧ kv_info (ctx s1) = kv_info (ctx s) ∧
    use_cache (ctx s1) = use_cache (ctx s) ∧ is_finished (ctx s1) = false) as (Ekv & Eki & Eu & Ef) by (by rewrite Hctx).
  split; rewrite ?Ekv, ?Eki, ?E1, ?E2, ?(ba_mm _ _ _ _ Hba); try apply Hs.
  - apply Hba.
  - intros Hu Hhit. rewrite Eu in Hu. destruct (ba_hit _ _ _ _ Hba Hu Hhit) as (e & He & -> & Hce & _). eauto.
  - done.
Qed.

Lemma arrived_key s s1 h t : search_layout s → buckets_arrived s s1 h t → request_key s1 = request_key s.
Proof.
  intros Hl Hba. assert (kv_info (ctx s1) = kv_info (ctx s)) as Eki by (by rewrite (ba_ctx _ _ _ _ Hba)).
  unfold request_key. rewrite Eki. apply load_bytes_ext. intros i Hi. f_equal.
  assert (in_key s (get_key (kv_info (ctx s)) + i)) as Hk by (unfold in_key; lia).
  apply (ba_frame _ _ _ _ Hba); [by apply (sl_buckets _ Hl)|by apply (sl_cached _ Hl)].
Qed.

(** The block read through the cache is the one that the index finds. *)
Lemma cached_answer s s1 h t :
  search_ready s → search_layout s → cache_coherent s h t → buckets_arrived s s1 h t →
  blocks_fit (rmem (wld s)) h t (Cmm.subblock_sz_ (mm s)) → cached_block_ok s1 = true →
  let v := local_cache_addr (ctx s) + sizeof_KVLogHeader
           + load16 (lmem (wld s1)) (local_cache_addr (ctx s) + off_key_length) in
  ∀ s', wld s' = wld s1 → answers (index_lookup (rmem (wld s)) h t (request_key s)) s' v.
Proof.
  intros Hs Hl Hcc Hba Hfit Hok v s' Hw. unfold cached_block_ok in Hok. rewrite !andb_true_iff in Hok.
  pose proof (ba_ctx _ _ _ _ Hba) as Hctx.
  assert (use_cache (ctx s1) = use_cache (ctx s) ∧ local_cache_addr (ctx s1) = local_cache_addr (ctx s) ∧
    kv_info (ctx s1) = kv_info (ctx s)) as (Eu & Ec & Eki) by (by rewrite Hctx).
  rewrite Eu, Ec, Eki in Hok. destruct Hok as (((Hu & Hhit) & Hval) & Hck).
  destruct (ba_hit _ _ _ _ Hba Hu Hhit) as (e & He & _ & _ & Hx). destruct (Hcc Hu e He) as [Hn Hkl Hroom Hslot].
  set (sl := l_slot_ptr e) in *. set (a := local_cache_addr (ctx s)) in *.
  set (len := kv_len sl * Cmm.subblock_sz_ (mm s)) in *. pose proof (sr_key _ Hs) as Hk0.
  unfold sizeof_KVLogHeader in Hroom.
  assert (load16 (lmem (wld s1)) (a + off_key_length) = block_key_len (rmem (wld s)) sl) as Eklen.
  { apply load_ext. intros i Hi. unfold off_key_length in *. rewrite Hx by lia. f_equal. f_equal. lia. }
  apply CheckKey_iff in Hck; [|apply (load_range 2)|done]. rewrite Eklen in Hck.
  rewrite <- Eki in Hck. fold (request_key s1) in Hck. rewrite (arrived_key _ _ _ _ Hl Hba) in Hck.
  assert (block_key_len (rmem (wld s)) sl = key_len (kv_info (ctx s))) as Elen.
  { apply (f_equal length) in Hck. unfold request_key in Hck. rewrite !load_bytes_length in Hck.
    assert (0 <= block_key_len (rmem (wld s)) sl) by apply (load_range 2). lia. }
  assert (index_slot (rmem (wld s)) t <$> head (hits (rmem (wld s)) h t (request_key s)) = Some sl) as Hhd.
  { apply Hslot.
    - rewrite <- Hval. unfold block_valid, log_is_valid. f_equal. apply load_ext. intros i Hi.
      unfold off_is_valid in *. rewrite Hx by lia. f_equal. f_equal. lia.
    - rewrite <- Hck. unfold block_key. apply load_bytes_ext. intros i Hi. unfold sizeof_KVLogHeader.
      rewrite Hx by lia. f_equal. f_equal. lia. }
  unfold index_lookup. destruct (head (hits _ _ _ _)) as [p|] eqn:Ep; [|done]. cbn in Hhd |- *.
  injection Hhd as Esl. rewrite Esl.
  assert (sl ∈ candidates (rmem (wld s)) h t) as Hin.
  { unfold hits in Ep. apply head_Some_elem_of, list_elem_of_filter in Ep as [[Hm _] Hp].
    rewrite <- Esl. apply list_elem_of_filter. split; [done|by apply list_elem_of_fmap_2]. }
  destruct (block_arrived (lmem (wld s1)) (rmem (wld s)) sl a len Hx (Hfit sl Hin)) as (_ & _ & Hv).
  unfold v. rewrite Eklen. split.
  - pose proof (sl_cache_addr _ Hl). unfold sizeof_KVLogHeader. lia.
  - rewrite Hw. unfold block_value at 1. rewrite load_bytes_length, Z2Nat.id; [exact Hv|apply (load_range 4)].
Qed.

Section search_rest.
Context {F : Fabric} {HF : QuietFabric F} (P : Posting) {HP : PostingOk P}.
Context (s s1 : Sys) (h : KVHashInfo) (t : KVTableAddrInfo).
Context (Hs : search_ready s) (Hlay : search_layout s) (Hba : buckets_arrived s s1 h t).
Context (Hfit : blocks_fit (rmem (wld s)) h t (Cmm.subblock_sz_ (mm s))).

(** The candidates are read and compared. *)
Lemma search_rest_index :
  index_known (cl s) (rmem (wld s)) h t → cached_block_ok s1 = false →
  ∃ v s', (kv_search_read_kv_with P find_kv_in_buckets ;; kv_search_check_kv ;; ret) s1 = Done v s' ∧
    rmem (wld s') = rmem (wld s) ∧
    answers (index_lookup (rmem (wld s)) h t (request_key s)) s' v.
Proof.
  intros Hkn Hok. pose proof (arrived_after _ _ _ _ Hs Hba) as Hab.
  pose proof (ba_rmem _ _ _ _ Hba) as Hr. pose proof (ba_mm _ _ _ _ Hba) as Hm.
  assert (kv_info (ctx s1) = kv_info (ctx s) ∧ local_kv_addr (ctx s1) = local_kv_addr (ctx s)) as [Eki Ekv]
    by (by rewrite (ba_ctx _ _ _ _ Hba)).
  assert (key_kept s1) as Hkk.
  { unfold key_kept. rewrite Eki, Ekv, Hm. apply Hlay. }
  destruct (candidates_arrive P s1 h t Hab) as (s3 & E & Hc).
  { by eapply arrived_here. } { by rewrite Hr, Hm. }
  { rewrite Hr. unfold index_known, knows_node. destruct (arrived_client _ _ _ _ Hba) as (_ & _ & ->). exact Hkn. }
  destruct (check_kv_answers s1 s3 h t Hab Hkk Hc) as (s' & Ecmp & Hw & Hans).
  unfold kv_search_read_kv_with, mbind, M_bind, get. rewrite Hok.
  unfold mbind, M_bind in E. rewrite E, Ecmp. unfold ret, get_ctx. unM. eexists _, s'. split; [reflexivity|].
  split; [by rewrite Hw, (ch_rmem _ _ _ _ Hc)|]. rewrite Hr in Hans.
  by rewrite (arrived_key _ _ _ _ Hlay Hba) in Hans.
Qed.

(** The cached block ends the search. *)
Lemma search_rest_cached :
  cache_coherent s h t → cached_block_ok s1 = true →
  ∃ v s', (kv_search_read_kv_with P find_kv_in_buckets ;; kv_search_check_kv ;; ret) s1 = Done v s' ∧
    rmem (wld s') = rmem (wld s) ∧
    answers (index_lookup (rmem (wld s)) h t (request_key s)) s' v.
Proof.
  intros Hcc Hok.
  pose proof (cached_answer s s1 h t Hs Hlay Hcc Hba Hfit Hok) as Hans.
  pose proof Hok as Hok'. unfold cached_block_ok in Hok'. rewrite !andb_true_iff in Hok'.
  destruct Hok' as (((Hu & Hhit) & _) & _).
  assert (use_cache (ctx s) = true ∧ local_cache_addr (ctx s1) = local_cache_addr (ctx s)) as [Eu Ec].
  { rewrite <- Hu. by rewrite (ba_ctx _ _ _ _ Hba). }
  destruct (ba_hit _ _ _ _ Hba Eu Hhit) as (e & He & Ecl & Hce & _).
  unfold kv_search_read_kv_with. unM. unfold get. rewrite Hok.
  unfold touch_cache, finish, set_ctx, get_ctx, cache_entry_of. unM.
  set (s2 := set_field ctx _ s1). change (cache_entry (ctx s2)) with (cache_entry (ctx s1)).
  rewrite Hce. change (cl s2) with (cl s1). rewrite Ecl, He. unfold set_cl. unM.
  unfold kv_search_check_kv, unless_finished, get_ctx, ret. unM. cbn [ctx is_finished].
  eexists _, _. split; [reflexivity|]. split; [apply (ba_rmem _ _ _ _ Hba)|].
  rewrite <- Ec in Hans. exact (Hans _ eq_refl).
Qed.
End search_rest.

Lemma located_prepared s h t : root_read s → located s h t → prepared (cl s) h t.
Proof.
  intros Hr Hloc. destruct (prepare_request_run s Hr) as (h' & t' & E & Hp).
  unfold located in Hloc. rewrite Hloc in E. apply (f_equal (λ o, match o with
    | Done _ s' => Some (hash_info (ctx s'), tbl_addr_info (ctx s')) | Stopped _ _ => None end)) in E.
  cbn in E. by injection E as -> ->.
Qed.

(** What a search on a quiet fabric finds: the client is ready and its buffers are
    in order, the key is located at [h] and [t], the blocks there hold what their
    headers say, and the slots name nodes the client is connected to. *)
Record searchable (s : Sys) (h : KVHashInfo) (t : KVTableAddrInfo) : Prop := {
  se_ready : search_ready s;
  se_layout : search_layout s;
  se_rep : 1 <= Cl.num_idx_rep_ (cl s);
  se_located : located s h t;
  se_fit : blocks_fit (rmem (wld s)) h t (Cmm.subblock_sz_ (mm s));
  se_known : index_known (cl s) (rmem (wld s)) h t }.

Lemma searchable_node s h t : searchable s h t → 0 <= index_node t < 256.
Proof.
  intros H. destruct (located_prepared s h t (sr_root _ (se_ready _ _ _ H)) (se_located _ _ _ H))
    as (_ & _ & _ & Hp). apply Hp. pose proof (se_rep _ _ _ H). lia.
Qed.

Lemma kv_search_index_run `{F : Fabric} `{HF : !QuietFabric F} (s : Sys) (h : KVHashInfo)
    (t : KVTableAddrInfo) :
  searchable s h t → cache_coherent s h t →
  let found := index_lookup (rmem (wld s)) h t (request_key s) in
  (∃ v s', kv_search s = Done v s' ∧ rmem (wld s') = rmem (wld s) ∧ answers found s' v) ∧
  (∃ v s', kv_search_sync s = Done v s' ∧ rmem (wld s') = rmem (wld s) ∧ answers found s' v).
Proof.
  intros He Hcc found. pose proof (searchable_node s h t He) as Hnode. destruct He as [Hs Hlay Hn Hloc Hfit Hkn].
  split.
  - destruct (buckets_arrive fiber_posting s h t Hs Hlay Hcc Hloc Hnode) as (s1 & Hs1 & Hba).
    rewrite (kv_search_phases s s1 Hs1) by (by rewrite (ba_ctx _ _ _ _ Hba)).
    destruct (cached_block_ok s1) eqn:Hok; 
      [by apply (search_rest_cached fiber_posting s s1 h t)|by apply (search_rest_index fiber_posting s s1 h t)].
  - destruct (buckets_arrive sync_posting s h t Hs Hlay Hcc Hloc Hnode) as (s1 & Hs1 & Hba).
    rewrite (kv_search_sync_phases s s1 Hs1).
    destruct (cached_block_ok s1) eqn:Hok; 
      [by apply (search_rest_cached sync_posting s s1 h t)|by apply (search_rest_index sync_posting s s1 h t)].
Qed.

(** C2. Search on a fabric without interference, in both versions and for any
    number of index replicas: the client ends with the value that the abstract
    lookup finds in the memories of the nodes, byte for byte, or with null when it
    finds none; the memories of the nodes are as before.  The lookup is for the
    key and the buckets of the primary index that [prepare_request] locates, over
    blocks that hold their header, key and value on nodes the client is connected
    to.  The answer may come through the cache, whose entry for the key must not
    be misleading ([cache_coherent]); a stale entry, whose block is marked
    invalid or carries another key, sends the search to the index. *)
Theorem kv_search_refines_index `{F : Fabric} `{HF : !QuietFabric F} (s : Sys) (h : KVHashInfo)
    (t : KVTableAddrInfo) :
  searchable s h t → cache_coherent s h t →
  let found := index_lookup (rmem (wld s)) h t (request_key s) in
  (∃ v s', kv_search s = Done v s' ∧ rmem (wld s') = rmem (wld s) ∧ answers found s' v) ∧
  (∃ v s', kv_search_sync s = Done v s' ∧ rmem (wld s') = rmem (wld s) ∧ answers found s' v).
Proof. apply kv_search_index_run. Qed.

(** ** Example *)

(** A search for the key "file" by the client of two nodes with one index replica,
    when the nodes have the memories [r]. *)
Definition ex_search (r : Z → mem) : Sys := (started "SEARCH" [] 1) <| wld ::= λ w, w <| rmem := r |> |>.

(** Where a request is located. *)
Definition location (s : Sys) : KVHashInfo * KVTableAddrInfo :=
  match prepare_request s with
  | Done _ s' | Stopped _ s' => (hash_info (ctx s'), tbl_addr_info (ctx s'))
  end.
Definition ex_hash : KVHashInfo := Eval vm_compute in (location (ex_search (λ _, mem_zero))).1.
Definition ex_table : KVTableAddrInfo := Eval vm_compute in (location (ex_search (λ _, mem_zero))).2.

Lemma location_located s : root_read s → located s (location s).1 (location s).2.
Proof.
  intros Hr. destruct (prepare_request_run s Hr) as (h & t & E & _). unfold location, located.
  rewrite E. done.
Qed.

(** The client with another cache. *)
Definition with_cache (c : gmap string LocalCacheEntry) (s : Sys) : Sys :=
  s <| cl ::= λ k, k <| Cl.addr_cache_ := c |> |>.

Lemma with_cache_ready c s :
  search_ready s → (∀ key e, c !! key = Some e → knows_node (cl s) (slot_server_id (l_slot_ptr e))) →
  search_ready (with_cache c s).
Proof. intros [H1 [] H3 H4 H5 H6 H7 H8] Ho. by split. Qed.
Lemma with_cache_layout c s : search_layout s → search_layout (with_cache c s).
Proof. intros []. by split. Qed.
Lemma with_cache_root c s : root_read s → root_read (with_cache c s).
Proof. intros []. by split. Qed.
Lemma with_cache_same c s :
  rmem (wld (with_cache c s)) = rmem (wld s) ∧ mm (with_cache c s) = mm s ∧ ctx (with_cache c s) = ctx s ∧
  Cl.num_idx_rep_ (cl (with_cache c s)) = Cl.num_idx_rep_ (cl s) ∧
  Cl.server_mr_info_map_ (cl (with_cache c s)) = Cl.server_mr_info_map_ (cl s) ∧
  Cl.addr_cache_ (cl (with_cache c s)) = c ∧ request_key (with_cache c s) = request_key s.
Proof. done. Qed.
Lemma with_cache_coherent c s h t :
  (∀ e, c !! key_str (ctx s) = Some e → cache_current s h t e) → cache_coherent (with_cache c s) h t.
Proof. intros Ho _ e He. destruct (Ho e He). by split. Qed.

Lemma ex_search_ready r : search_ready (ex_search r).
Proof.
  split; [| |vm_compute; intuition congruence..].
  - vm_compute. split; reflexivity.
  - apply root_known_read; vm_compute; [discriminate|discriminate|reflexivity].
Qed.

Lemma ex_search_fields r :
  key_str (ctx (ex_search r)) = "file"%string ∧ Cl.num_idx_rep_ (cl (ex_search r)) = 1 ∧
  kv_info (ctx (ex_search r)) = mkKVInfo 2000 0 4 0 ∧ local_bucket_addr (ctx (ex_search r)) = 300000 ∧
  local_kv_addr (ctx (ex_search r)) = 300512 ∧ local_cache_addr (ctx (ex_search r)) = 300512 ∧
  Cmm.subblock_sz_ (mm (ex_search r)) = 256 ∧
  Cl.server_mr_info_map_ (cl (ex_search r)) = {[0 := mkMrInfo 0 0; 1 := mkMrInfo 0 1]}.
Proof. vm_compute. split_and!; reflexivity. Qed.

Lemma ex_search_located c r : located (with_cache c (ex_search r)) ex_hash ex_table.
Proof.
  assert (location (with_cache c (ex_search r)) = (ex_hash, ex_table)) as E by (vm_compute; reflexivity).
  pose proof (location_located (with_cache c (ex_search r))) as H. rewrite E in H. apply H.
  apply with_cache_root, ex_search_ready.
Qed.

Lemma ex_search_layout c r : search_layout (with_cache c (ex_search r)).
Proof.
  apply with_cache_layout. destruct (ex_search_fields r) as (_ & _ & H6 & H7 & H8 & H9 & H10 & _).
  split; unfold in_key, in_buckets, in_cache_buf;
    rewrite ?H6, ?H7, ?H8, ?H9, ?H10; unfold get_key, sizeof_KVLogHeader, sizeof_RaceHashBucket;
    cbn [l_addr key_len]; lia.
Qed.

(** The first slot of the first bucket refers to a block of node 1. *)
Definition ex_slot : RaceHashSlot := mkSlot (hash_fp ex_hash) 1 1 (HashIndexConvert64To40Bits 4096).
Definition ex_memories (n : Z) : mem :=
  if n =? 0 then store_bytes mem_zero (slot_addr ex_table (0, 0))
                   (fp ex_slot :: kv_len ex_slot :: slot_server_id ex_slot :: pointer ex_slot)
  else store_bytes mem_zero 4096 (1 :: tail (example_entry [104; 105])).

Lemma ex_memories_candidates : candidates ex_memories ex_hash ex_table = [ex_slot].
Proof. vm_compute. reflexivity. Qed.

Lemma ex_search_knows r sid : sid = 0 ∨ sid = 1 → knows_node (cl (ex_search r)) sid.
Proof.
  unfold knows_node. destruct (ex_search_fields r) as (_ & _ & _ & _ & _ & _ & _ & ->).
  intros [-> | ->]; by eexists.
Qed.

(** A cache that knows nothing, or the slot of the index. *)
Definition ex_cache (hit : bool) : gmap string LocalCacheEntry :=
  if hit then {["file"%string := mkLocalCacheEntry [] ex_slot 0 1]} else ∅.

Lemma ex_cache_slot hit key e : ex_cache hit !! key = Some e → e = mkLocalCacheEntry [] ex_slot 0 1.
Proof. unfold ex_cache. destruct hit; [by intros [_ <-]%lookup_singleton_Some|by rewrite lookup_empty]. Qed.

Lemma ex_searchable hit : searchable (with_cache (ex_cache hit) (ex_search ex_memories)) ex_hash ex_table.
Proof.
  destruct (ex_search_fields ex_memories) as (_ & H4 & _ & _ & _ & _ & H10 & H11).
  destruct (with_cache_same (ex_cache hit) (ex_search ex_memories)) as (E1 & E2 & _ & E4 & E5 & _).
  change (rmem (wld (ex_search ex_memories))) with ex_memories in E1.
  split; [apply with_cache_ready; [apply ex_search_ready|]|apply ex_search_layout| |apply ex_search_located|..];
    rewrite ?E1, ?E2, ?E4.
  - intros key e ->%ex_cache_slot. apply ex_search_knows. by right.
  - by rewrite H4.
  - rewrite H10. unfold blocks_fit. rewrite ex_memories_candidates. intros sl ->%list_elem_of_singleton.
    vm_compute. discriminate.
  - unfold index_known. rewrite ex_memories_candidates. intros sl ->%list_elem_of_singleton.
    unfold knows_node. rewrite E5. apply ex_search_knows. by right.
Qed.

Lemma ex_coherent hit : cache_coherent (with_cache (ex_cache hit) (ex_search ex_memories)) ex_hash ex_table.
Proof.
  destruct (ex_search_fields ex_memories) as (_ & _ & H6 & _ & _ & _ & H10 & _).
  apply with_cache_coherent. intros e ->%ex_cache_slot.
  split; cbn [l_slot_ptr]; [done|done|by rewrite H6, H10|]. intros _ _. vm_compute. reflexivity.
Qed.

Lemma ex_memories_lookup hit :
  let s := with_cache (ex_cache hit) (ex_search ex_memories) in
  index_lookup (rmem (wld s)) ex_hash ex_table (request_key s) = Some [104; 105].
Proof. vm_compute. reflexivity. Qed.

(** The value is found through the index and through the cache. *)
Example kv_search_refines_index_witness :
  let found (hit : bool) :=
    ∃ v s', kv_search_sync (F := quiet_fabric) (with_cache (ex_cache hit) (ex_search ex_memories)) = Done v s' ∧
      v ≠ 0 ∧ load_bytes 2 (lmem (wld s')) v = [104; 105] in
  found false ∧ found true.
Proof.
  intros found. assert (∀ hit, found hit) as H; [|split; apply H]. intros hit.
  destruct (kv_search_refines_index (F := quiet_fabric) _ ex_hash ex_table (ex_searchable hit) (ex_coherent hit))
    as [_ (v & s' & E & _ & Ha)].
  exists v, s'. split; [exact E|]. rewrite (ex_memories_lookup hit) in Ha. exact Ha.
Defined.
