(* ===== verification/IndexChange.v ===== *)
(** * A change of one slot, as the index sees it

    The memories of the nodes before and after an operation that put a new value
    into one slot and wrote some bytes that are no part of the index: what every
    key is mapped to afterwards.  Insertion, update and deletion are instances. *)

From S2P Require Import Prelude Mem KvUtils HashTable ServerMM Server Rdma ClientState Network PostEffects.
From S2P Require Import ClientMM BlockMap ClientIndex ClientConsensus ClientOps IndexView.

(** The byte of [n] at [y] belongs to slot [p]. *)
Definition on_slot (t : KVTableAddrInfo) (p : Z * Z) (n y : Z) : Prop :=
  n = index_node t ∧ slot_addr t p <= y < slot_addr t p + 8.

(** Slot [p] of [t] now is [new]; other bytes changed in [D] only. *)
Record changed (r r' : Z → mem) (t : KVTableAddrInfo) (p : Z * Z) (new : RaceHashSlot)
    (D : Z → Z → Prop) : Prop := {
  cg_pos : p ∈ slot_indices;
  cg_slot : index_slot r' t p = new;
  cg_rest n y : ¬ D n y → ¬ on_slot t p n y → r' n y = r n y }.

(** The index of a request with hash [h2] and buckets [t2] is undisturbed by
    changes in [D] and of slots of [t]: its slots and the blocks these refer to
    are outside of [D], its slots are those of [t] or apart from them, and no
    block covers a slot. *)
Record undisturbed (r : Z → mem) (D : Z → Z → Prop) (t : KVTableAddrInfo) (h2 : KVHashInfo)
    (t2 : KVTableAddrInfo) : Prop := {
  ud_slots p y : p ∈ slot_indices → on_slot t2 p (index_node t2) y → ¬ D (index_node t2) y;
  ud_apart p q : p ∈ slot_indices → q ∈ slot_indices → index_node t2 = index_node t →
    slot_addr t2 p = slot_addr t q ∨ slot_addr t2 p + 8 <= slot_addr t q ∨ slot_addr t q + 8 <= slot_addr t2 p;
  ud_blocks sl k : sl ∈ candidates r h2 t2 →
    off_key_length <= k < sizeof_KVLogHeader + block_key_len r sl + block_value_len r sl →
    ¬ D (slot_server_id sl) (block_addr sl + k) ∧
    ∀ q, q ∈ slot_indices → ¬ on_slot t q (slot_server_id sl) (block_addr sl + k) }.

Lemma changed_weaken r r' t p new (D D' : Z → Z → Prop) :
  changed r r' t p new D → (∀ n y, D n y → D' n y) → changed r r' t p new D'.
Proof. intros [H1 H2 H3] HD. split; auto. Qed.

Lemma undisturbed_weaken r (D D' : Z → Z → Prop) t h2 t2 :
  undisturbed r D' t h2 t2 → (∀ n y, D n y → D' n y) → undisturbed r D t h2 t2.
Proof.
  intros [H1 H2 H3] HD. split; [intros p y Hp Hy HDy; by apply (H1 p y), HD|done|].
  intros sl k Hsl Hk. destruct (H3 sl k Hsl Hk) as [H4 H5]. split; [|done]. intros HDy. by apply H4, HD.
Qed.

(** The same slot, seen from two requests. *)
Definition same_slot (t2 : KVTableAddrInfo) (q : Z * Z) (t : KVTableAddrInfo) (p : Z * Z) : Prop :=
  index_node t2 = index_node t ∧ slot_addr t2 q = slot_addr t p.

(** Slot [sl] refers to a block with the key. *)
Definition is_hit (r : Z → mem) (h : KVHashInfo) (key : list Z) (sl : RaceHashSlot) : Prop :=
  slot_matches h sl = true ∧ block_key r sl = key.

Lemma elem_of_hits r h t key q :
  q ∈ hits r h t key ↔ q ∈ slot_indices ∧ is_hit r h key (index_slot r t q).
Proof. unfold hits, is_hit. rewrite list_elem_of_filter. tauto. Qed.

Lemma head_elem {A} (l : list A) x : head l = Some x → x ∈ l.
Proof. destruct l; [done|]. intros [= ->]. set_solver. Qed.

Lemma head_none {A} (l : list A) : (∀ x, x ∉ l) → head l = None.
Proof. destruct l as [|x l]; [done|]. intros H. destruct (H x). set_solver. Qed.

Lemma lookup_none r h t key : index_lookup r h t key = None ↔ ∀ q, q ∉ hits r h t key.
Proof.
  unfold index_lookup. rewrite fmap_None. split; [|apply head_none].
  destruct (hits r h t key); [set_solver|done].
Qed.

Lemma same_slot_index r t2 q t p : same_slot t2 q t p → index_slot r t2 q = index_slot r t p.
Proof. intros [En Ea]. unfold index_slot. by rewrite En, Ea. Qed.

(** A block whose bytes are kept, but for the first two, reads as before. *)
Lemma block_kept (r r' : Z → mem) sl :
  (∀ k, off_key_length <= k < sizeof_KVLogHeader + block_key_len r sl + block_value_len r sl →
     r' (slot_server_id sl) (block_addr sl + k) = r (slot_server_id sl) (block_addr sl + k)) →
  block_key r' sl = block_key r sl ∧ block_value r' sl = block_value r sl ∧
  block_key_len r' sl = block_key_len r sl ∧ block_value_len r' sl = block_value_len r sl.
Proof.
  intros H.
  pose proof (load_range 2 (block_mem r sl) (block_addr sl + off_key_length)) as Hk.
  pose proof (load_range 4 (block_mem r sl) (block_addr sl + off_value_length)) as Hv.
  change (load 2 (block_mem r sl) (block_addr sl + off_key_length)) with (block_key_len r sl) in Hk.
  change (load 4 (block_mem r sl) (block_addr sl + off_value_length)) with (block_value_len r sl) in Hv.
  assert (∀ a k, a + k = block_addr sl + (a + k - block_addr sl)) as Ha by (intros; lia).
  assert (block_key_len r' sl = block_key_len r sl) as Ek.
  { apply load_ext. intros i Hi. unfold block_mem. rewrite (Ha (block_addr sl + off_key_length) i).
    f_equal. apply H. unfold off_key_length, sizeof_KVLogHeader in *. lia. }
  assert (block_value_len r' sl = block_value_len r sl) as Ev.
  { apply load_ext. intros i Hi. unfold block_mem. rewrite (Ha (block_addr sl + off_value_length) i).
    f_equal. apply H. unfold off_key_length, off_value_length, sizeof_KVLogHeader in *. lia. }
  unfold block_key, block_value. rewrite Ek, Ev. unfold off_key_length, sizeof_KVLogHeader in *.
  split_and!; try done; apply load_bytes_ext; intros i Hi; unfold block_mem; rewrite <- !Z.add_assoc; f_equal; apply H; lia.
Qed.

Section change.
Context (r r' : Z → mem) (t : KVTableAddrInfo) (p : Z * Z) (new : RaceHashSlot) (D : Z → Z → Prop).
Context (Hch : changed r r' t p new D).

Section view.
Context (h2 : KVHashInfo) (t2 : KVTableAddrInfo) (Hud : undisturbed r D t h2 t2).

(** A slot is kept, or it is the one that changed. *)
Lemma slot_after q :
  q ∈ slot_indices →
  (index_slot r' t2 q = index_slot r t2 q ∧ ¬ same_slot t2 q t p) ∨
  (same_slot t2 q t p ∧ index_slot r' t2 q = new).
Proof.
  intros Hq. destruct (decide (index_node t2 = index_node t ∧ slot_addr t2 q = slot_addr t p)) as [Hs|Hne].
  - right. split; [exact Hs|]. rewrite (same_slot_index r' t2 q t p Hs). apply Hch.
  - left. split; [|exact Hne]. apply slot_at_ext. intros k Hk. apply (cg_rest _ _ _ _ _ _ Hch).
    + apply (ud_slots _ _ _ _ _ Hud q); [done|]. split; [done|lia].
    + intros [En Hy]. apply Hne. split; [done|].
      destruct (ud_apart _ _ _ _ _ Hud q p Hq (cg_pos _ _ _ _ _ _ Hch) En) as [?|[?|?]]; [done|lia|lia].
Qed.

(** The blocks of the slots that were in use are kept. *)
Lemma block_after q :
  q ∈ slot_indices → slot_matches h2 (index_slot r t2 q) = true →
  let sl := index_slot r t2 q in
  block_key r' sl = block_key r sl ∧ block_value r' sl = block_value r sl ∧
  block_key_len r' sl = block_key_len r sl ∧ block_value_len r' sl = block_value_len r sl.
Proof.
  intros Hq Hm sl. apply block_kept. intros k Hk.
  destruct (ud_blocks _ _ _ _ _ Hud sl k) as [H1 H2]; [|done|].
  { apply list_elem_of_filter. split; [done|]. apply list_elem_of_fmap. eauto. }
  apply (cg_rest _ _ _ _ _ _ Hch); [done|]. apply H2, Hch.
Qed.

(** The hits afterwards: those before at other slots, and the new slot. *)
Lemma hit_after key q :
  q ∈ slot_indices →
  is_hit r' h2 key (index_slot r' t2 q) ↔
  (¬ same_slot t2 q t p ∧ is_hit r h2 key (index_slot r t2 q)) ∨ (same_slot t2 q t p ∧ is_hit r' h2 key new).
Proof.
  intros Hq. destruct (slot_after q Hq) as [[E Hne]|[Hs E]]; rewrite E; [|tauto].
  unfold is_hit. split.
  - intros [Hm Hk]. left. split_and!; [done|done|]. by rewrite <- (proj1 (block_after q Hq Hm)).
  - intros [(_ & Hm & Hk)|[? _]]; [|done]. split; [done|]. by rewrite (proj1 (block_after q Hq Hm)).
Qed.

(** A key that neither the old nor the new slot refers to. *)
Lemma lookup_unchanged key :
  ¬ is_hit r h2 key (index_slot r t p) → ¬ is_hit r' h2 key new →
  index_lookup r' h2 t2 key = index_lookup r h2 t2 key.
Proof.
  intros Hold Hnew. unfold index_lookup.
  assert (hits r' h2 t2 key = hits r h2 t2 key) as ->.
  { apply list_filter_iff_in. intros q Hq. change (is_hit r' h2 key (index_slot r' t2 q) ↔ is_hit r h2 key (index_slot r t2 q)).
    rewrite (hit_after key q Hq). split; [tauto|]. intros Hi. left. split; [|done].
    intros Hs. by rewrite (same_slot_index r t2 q t p Hs) in Hi. }
  destruct (head (hits r h2 t2 key)) as [q|] eqn:E; [|done]. cbn. f_equal.
  apply head_elem, elem_of_hits in E as [Hq Hi].
  destruct (slot_after q Hq) as [[-> _]|[Hs _]].
  - apply block_after; [done|apply Hi].
  - by rewrite (same_slot_index r t2 q t p Hs) in Hi.
Qed.
End view.

Context (h : KVHashInfo) (key : list Z) (Hud : undisturbed r D t h t).

(** An absent key that the new slot refers to. *)
Lemma hit_added :
  index_lookup r h t key = None → is_hit r' h key new →
  index_slot r' t <$> head (hits r' h t key) = Some new.
Proof.
  intros Hnone Hnew. rewrite lookup_none in Hnone.
  assert (∀ q, q ∈ hits r' h t key → index_slot r' t q = new) as Hall.
  { intros q [Hq Hi]%elem_of_hits. destruct (slot_after h t Hud q Hq) as [[_ Hne]|[_ E]]; [|done].
    apply (hit_after h t Hud key q Hq) in Hi as [[_ Hi]|[? _]]; [|done].
    destruct (Hnone q). by apply elem_of_hits. }
  assert (p ∈ hits r' h t key) as Hp.
  { apply elem_of_hits. split; [apply Hch|]. by rewrite (cg_slot _ _ _ _ _ _ Hch). }
  destruct (hits r' h t key) as [|q l]; [set_solver|]. cbn. rewrite Hall by set_solver. done.
Qed.

Lemma lookup_added :
  index_lookup r h t key = None → is_hit r' h key new → index_lookup r' h t key = Some (block_value r' new).
Proof.
  intros Hnone Hnew. pose proof (hit_added Hnone Hnew) as H. unfold index_lookup.
  destruct (head (hits r' h t key)) as [q|]; [|done]. cbn in *. by injection H as ->.
Qed.

(** A key whose first slot now refers to another block with it. *)
Lemma lookup_replaced :
  head (hits r h t key) = Some p → is_hit r' h key new → index_lookup r' h t key = Some (block_value r' new).
Proof.
  intros Hp Hnew. unfold index_lookup.
  assert (hits r' h t key = hits r h t key) as ->.
  { apply list_filter_iff_in. intros q Hq. change (is_hit r' h key (index_slot r' t q) ↔ is_hit r h key (index_slot r t q)).
    rewrite (hit_after h t Hud key q Hq). apply head_elem, elem_of_hits in Hp as [_ Hp].
    destruct (slot_after h t Hud q Hq) as [[_ Hne]|[Hs _]]; [tauto|].
    rewrite (same_slot_index r t q t p Hs). tauto. }
  rewrite Hp. cbn. by rewrite (cg_slot _ _ _ _ _ _ Hch).
Qed.

(** A key whose only slot no longer refers to it. *)
Lemma lookup_removed :
  (∀ q, q ∈ hits r h t key → same_slot t q t p) → ¬ is_hit r' h key new → index_lookup r' h t key = None.
Proof.
  intros Hsole Hnew. apply lookup_none. intros q [Hq Hi]%elem_of_hits.
  apply (hit_after h t Hud key q Hq) in Hi as [[Hne Hi]|[_ ?]]; [|done].
  apply Hne, Hsole. by apply elem_of_hits.
Qed.

(** Afterwards the new slot alone refers to the key, if no other slot did. *)
Lemma sole_after q :
  (∀ q, q ∈ hits r h t key → same_slot t q t p) → q ∈ hits r' h t key → same_slot t q t p.
Proof.
  intros Hsole [Hq Hi]%elem_of_hits. apply (hit_after h t Hud key q Hq) in Hi as [[_ Hi]|[? _]]; [|done].
  apply Hsole. by apply elem_of_hits.
Qed.

(** The candidates afterwards: those before, and the new slot. *)
Lemma candidates_after sl : sl ∈ candidates r' h t → sl = new ∨ sl ∈ candidates r h t.
Proof.
  intros [Hm Hsl]%list_elem_of_filter. apply list_elem_of_fmap in Hsl as (q & -> & Hq).
  destruct (slot_after h t Hud q Hq) as [[E _]|[_ E]]; rewrite E in *; [right|by left].
  apply list_elem_of_filter. split; [done|]. apply list_elem_of_fmap. eauto.
Qed.

Lemma fit_after sz :
  blocks_fit r h t sz →
  (slot_matches h new = true →
     sizeof_KVLogHeader + block_key_len r' new + block_value_len r' new <= kv_len new * sz) →
  blocks_fit r' h t sz.
Proof.
  intros Hfit Hnew sl [Hm Hsl]%list_elem_of_filter. apply list_elem_of_fmap in Hsl as (q & -> & Hq).
  destruct (slot_after h t Hud q Hq) as [[E _]|[_ E]]; rewrite E in *; [|auto].
  destruct (block_after h t Hud q Hq Hm) as (_ & _ & -> & ->). apply Hfit.
  apply list_elem_of_filter. split; [done|]. apply list_elem_of_fmap. eauto.
Qed.
End change.

Lemma free_no_match h2 sl : slot_is_free sl = true → slot_matches h2 sl = false.
Proof.
  unfold slot_is_free, slot_matches. intros H. rewrite !andb_true_iff in H. destruct H as [[_ ->] _].
  cbn. apply andb_false_r.
Qed.

(** Changes outside of the index leave it as it is. *)
Section kept.
Context (r r' : Z → mem) (D : Z → Z → Prop) (t : KVTableAddrInfo) (h2 : KVHashInfo) (t2 : KVTableAddrInfo).
Context (Hrest : ∀ n y, ¬ D n y → r' n y = r n y) (Hud : undisturbed r D t h2 t2).

Lemma kept_slot q : q ∈ slot_indices → index_slot r' t2 q = index_slot r t2 q.
Proof.
  intros Hq. apply slot_at_ext. intros k Hk. apply Hrest, (ud_slots _ _ _ _ _ Hud q _ Hq). split; [done|lia].
Qed.

Lemma kept_block q :
  q ∈ slot_indices → slot_matches h2 (index_slot r t2 q) = true →
  let sl := index_slot r t2 q in
  block_key r' sl = block_key r sl ∧ block_value r' sl = block_value r sl ∧
  block_key_len r' sl = block_key_len r sl ∧ block_value_len r' sl = block_value_len r sl.
Proof.
  intros Hq Hm sl. apply block_kept. intros k Hk. apply Hrest, (ud_blocks _ _ _ _ _ Hud sl k); [|done].
  apply list_elem_of_filter. split; [done|]. apply list_elem_of_fmap. eauto.
Qed.

Lemma kept_hits key : hits r' h2 t2 key = hits r h2 t2 key.
Proof.
  apply list_filter_iff_in. intros q Hq. rewrite (kept_slot q Hq).
  split; intros [Hm Hk]; (split; [done|]); by rewrite (proj1 (kept_block q Hq Hm)) in *.
Qed.

Lemma kept_lookup key : index_lookup r' h2 t2 key = index_lookup r h2 t2 key.
Proof.
  unfold index_lookup. rewrite kept_hits. destruct (head (hits r h2 t2 key)) as [q|] eqn:E; [|done].
  cbn. f_equal. apply head_elem, elem_of_hits in E as [Hq [Hm _]]. rewrite (kept_slot q Hq).
  by apply kept_block.
Qed.

Lemma kept_candidates : candidates r' h2 t2 = candidates r h2 t2.
Proof.
  unfold candidates. f_equal. apply list_fmap_ext. intros i q Hq.
  apply kept_slot. by eapply list_elem_of_lookup_2.
Qed.

Lemma kept_fit sz : blocks_fit r h2 t2 sz → blocks_fit r' h2 t2 sz.
Proof.
  intros Hfit sl [Hm Hsl]%list_elem_of_filter. apply list_elem_of_fmap in Hsl as (q & -> & Hq).
  rewrite (kept_slot q Hq) in *. destruct (kept_block q Hq Hm) as (_ & _ & -> & ->). apply Hfit.
  apply list_elem_of_filter. split; [done|]. apply list_elem_of_fmap. eauto.
Qed.
End kept.
