(* ===== verification/IndexInsert.v ===== *)
(** * Insertion, as the index sees it

    What an insertion with one index replica does to the index that the nodes
    hold, on a fabric without interference: the key of the request is then found
    with its value, other keys are found as before; and a search returns the value
    that was inserted, be it by the client that inserted it, through its cache, or
    by another one. *)

From S2P Require Import Prelude Mem KvUtils HashTable ServerMM Server Rdma ClientState Network PostEffects.
From S2P Require Import ClientMM BlockMap ClientIndex ClientConsensus ClientOps IndexView IndexChange.

(** ** The first phase *)

(** Byte [y] of node [n] is in a replica of the block [b]. *)
Definition on_block (R sz : Z) (b : SubblockInfo) (n y : Z) : Prop :=
  ∃ i, 0 <= i < R ∧ n = aget (sb_server_id_list b) i ∧
       aget (sb_addr_list b) i <= y < aget (sb_addr_list b) i + sz.

Definition request_value (s : Sys) : list Z :=
  let h := l_addr (kv_info (ctx s)) in
  load_bytes (load32 (lmem (wld s)) (h + off_value_length)) (lmem (wld s))
    (h + sizeof_KVLogHeader + load16 (lmem (wld s)) (h + off_key_length)).

(** What the insertion relies on besides [insert_ready]: the header has the length
    of the key, the entry fits its block (its size, a sum of 32 bits, might have
    wrapped), the entry is outside the buffer of the buckets, the replicas of
    the block are on different nodes and outside the buckets of the request, and
    the slots of these have addresses of 64 bits. *)
Record insert_layout (s : Sys) (t : KVTableAddrInfo) (cur : SubblockInfo) : Prop := {
  il_header : load16 (lmem (wld s)) (l_addr (kv_info (ctx s)) + off_key_length) = key_len (kv_info (ctx s));
  il_size : log_tail s + sizeof_KVLogTail <= l_addr (kv_info (ctx s)) + Cmm.subblock_sz_ (mm s);
  il_entry x : l_addr (kv_info (ctx s)) <= x < l_addr (kv_info (ctx s)) + Cmm.subblock_sz_ (mm s) →
    ¬ (local_bucket_addr (ctx s) <= x < local_bucket_addr (ctx s) + 4 * sizeof_RaceHashBucket);
  il_nodes i j : 0 <= i < Cl.num_replication_ (cl s) → 0 <= j < Cl.num_replication_ (cl s) →
    aget (sb_server_id_list cur) i = aget (sb_server_id_list cur) j → i = j;
  il_slots p y : p ∈ slot_indices → slot_addr t p <= y < slot_addr t p + 8 →
    ¬ on_block (Cl.num_replication_ (cl s)) (Cmm.subblock_sz_ (mm s)) cur (index_node t) y;
  il_addrs p : p ∈ slot_indices → 0 <= slot_addr t p < 2 ^ 64 }.

(** The writes of the first [len] bytes of the entry to the replicas. *)
Definition replica_write (c : KVReqCtx) (len : Z) (cur : SubblockInfo) (i : Z) : ibv_send_wr :=
  mkWr (ib_gen_wr_id (coro_id c) (aget (sb_server_id_list cur) i) WRITE_KV_ST_WRID (i + 1))
    (Sge (l_addr (kv_info c)) len (kv_info_lkey (kv_info c)))
    IBV_WR_RDMA_WRITE false (aget (sb_addr_list cur) i) (aget (sb_rkey_list cur) i) 0 0.

Lemma replica_writes_lists s s1 cur next rest len :
  holds_block s s1 cur next rest →
  replica_writes (Cl.num_replication_ (cl s1)) (ctx s1) (kv_info (ctx s1)) len (mm_alloc_ctx (ctx s1)) =
  (λ i, mkSrList [replica_write (ctx s1) len cur i] (aget (sb_server_id_list cur) i))
    <$> zrange 0 (Cl.num_replication_ (cl s)).
Proof.
  intros (Hm & Hcl & c & Hc). unfold replica_writes. rewrite Hcl, Hc.
  apply list_fmap_ext. intros k i Hi. apply list_elem_of_lookup_2, elem_of_zrange in Hi.
  unfold replica_write, fill_alloc_ctx. cbn [ac_server_id_list addr_list rkey_list set_field eta_AllocCtx].
  rewrite !aget_afill by lia. done.
Qed.

(** The operations of a first phase: these writes and the reads of the buckets. *)
Definition first_op (R : Z) (c : KVReqCtx) (len : Z) (cur : SubblockInfo) (q : Z * ibv_send_wr) : Prop :=
  (∃ i, 0 <= i < R ∧ q = (aget (sb_server_id_list cur) i, replica_write c len cur i)) ∨
  q ∈ ops_of (gen_read_bucket_sr_lists c).

Lemma first_ops s s1 cur next rest len ls q :
  sb_wf (Cl.num_replication_ (cl s)) cur → holds_block s s1 cur next rest →
  (∀ l, l ∈ ls ↔
     l ∈ replica_writes (Cl.num_replication_ (cl s1)) (ctx s1) (kv_info (ctx s1)) len (mm_alloc_ctx (ctx s1)) ∨
     l ∈ gen_read_bucket_sr_lists (ctx s1)) →
  q ∈ ops_of ls ↔ first_op (Cl.num_replication_ (cl s)) (ctx s1) len cur q.
Proof.
  intros Hcur Hb Hls. rewrite (replica_writes_lists s s1 cur next rest len Hb) in Hls.
  unfold first_op. rewrite !elem_of_ops_of. setoid_rewrite Hls. setoid_rewrite list_elem_of_fmap.
  assert (∀ i, 0 <= i < Cl.num_replication_ (cl s) →
    u8 (aget (sb_server_id_list cur) i) = aget (sb_server_id_list cur) i) as Hu.
  { intros i Hi. apply Z.mod_small. by apply (proj2 Hcur i Hi). }
  split.
  - intros (l & wr & [(i & -> & Hi%elem_of_zrange)|Hl] & Hwr & ->); [left|right; eauto].
    cbn [sr_list sr_server_id] in *. apply list_elem_of_singleton in Hwr as ->. exists i. by rewrite Hu.
  - intros [(i & Hi & ->)|(l & wr & Hl & Hwr & ->)]; [|eauto 10].
    eexists _, (replica_write (ctx s1) len cur i).
    split; [left; exists i; split; [reflexivity|by apply elem_of_zrange]|].
    cbn [sr_list sr_server_id]. rewrite Hu by done. split; [by apply list_elem_of_singleton|done].
Qed.

(** The memories after the operations of the first phase, [w] before them. *)
Record first_phase_effect (s : Sys) (t : KVTableAddrInfo) (cur : SubblockInfo) (len : Z) (w w' : world) : Prop := {
  fp_block i y : 0 <= i < Cl.num_replication_ (cl s) →
    aget (sb_addr_list cur) i <= y < aget (sb_addr_list cur) i + len →
    rmem w' (aget (sb_server_id_list cur) i) y =
    lmem w (l_addr (kv_info (ctx s)) + (y - aget (sb_addr_list cur) i));
  fp_rest n y : ¬ on_block (Cl.num_replication_ (cl s)) (Cmm.subblock_sz_ (mm s)) cur n y →
    rmem w' n y = rmem w n y;
  fp_slots p : p ∈ slot_indices →
    slot_of (lmem w') (local_slot_arr (local_bucket_addr (ctx s))) p.1 p.2 = index_slot (rmem w) t p;
  fp_local x : ¬ (local_bucket_addr (ctx s) <= x < local_bucket_addr (ctx s) + 4 * sizeof_RaceHashBucket) →
    lmem w' x = lmem w x }.

Lemma first_ops_effect s c cur len ops w :
  (∀ q, q ∈ ops ↔ first_op (Cl.num_replication_ (cl s)) c len cur q) →
  0 <= len <= Cmm.subblock_sz_ (mm s) →
  kv_info c = kv_info (ctx s) → local_bucket_addr c = local_bucket_addr (ctx s) →
  insert_layout s (tbl_addr_info c) cur → 0 <= index_node (tbl_addr_info c) < 256 →
  first_phase_effect s (tbl_addr_info c) cur len w (run_ops ops w).
Proof.
  intros Hops Hlen Eki Eb Hl Hn.
  assert (∀ i y, rwrites (replica_write c len cur i) y ↔
    aget (sb_addr_list cur) i <= y < aget (sb_addr_list cur) i + len) as Hrw.
  { intros i y. unfold rwrites. done. }
  assert (∀ q, q ∈ ops_of (gen_read_bucket_sr_lists c) → ∀ y, ¬ rwrites q.2 y) as Hnw.
  { intros q Hq y. unfold rwrites. rewrite (proj1 (bucket_ops _ _ Hq)). destruct (sg q.2); exact id. }
  assert (∀ i x y, aget (sb_addr_list cur) i <= y < aget (sb_addr_list cur) i + len →
    x = l_addr (kv_info (ctx s)) + (y - aget (sb_addr_list cur) i) →
    carries x (aget (sb_server_id_list cur) i) y (aget (sb_server_id_list cur) i, replica_write c len cur i)) as Hcar.
  { intros i x y Hy ->. split_and!; [done|done|]. eexists _, _, _. split; [reflexivity|].
    cbn [remote_addr replica_write snd]. by rewrite Eki. }
  split.
  - intros i y Hi Hy. apply run_ops_write.
    + exists (aget (sb_server_id_list cur) i, replica_write c len cur i). split; [apply Hops; left; eauto|auto].
    + intros q [(j & Hj & ->)|Hq]%Hops Hsid.
      * cbn [fst] in Hsid. apply (il_nodes _ _ _ Hl) in Hsid as ->; [|done..]. auto.
      * right. by apply Hnw.
    + intros q [(j & Hj & ->)|Hq]%Hops; [exact id|].
      intros Hw%(proj2 (bucket_ops _ _ Hq)). rewrite Eb in Hw. revert Hw. apply (il_entry _ _ _ Hl). lia.
  - intros n y Hy. apply run_ops_rframe. intros q [(j & Hj & ->)|Hq]%Hops Hsid; [|by apply Hnw].
    cbn [fst snd] in *. rewrite Hrw. intros Hr. apply Hy. exists j. split_and!; [lia..|done|lia|lia].
  - intros p Hp. unfold slot_of, index_slot. apply slot_at_ext. intros k Hk.
    destruct (bucket_op_brings c p k Hn Hp Hk) as [(q & Hq & Hqb) Hother].
    rewrite Eb in Hqb, Hother. apply run_ops_read.
    + exists q. split; [|done]. apply Hops. by right.
    + intros q' [(j & Hj & ->)|Hq']%Hops; [right; exact id|auto].
    + intros q' [(j & Hj & ->)|Hq']%Hops Hsid; [|by apply Hnw].
      cbn [fst snd] in *. rewrite Hrw. intros Hr. apply (il_slots _ _ _ Hl p (slot_addr (tbl_addr_info c) p + k) Hp).
      { lia. } exists j. split_and!; [lia..|done|lia|lia].
  - intros x Hx. apply run_ops_lframe. intros q [(j & Hj & ->)|Hq]%Hops; [exact id|].
    intros Hw%(proj2 (bucket_ops _ _ Hq)). by rewrite Eb in Hw.
Qed.

Lemma insert_frame_entry s s1 :
  insert_frame s (s1 <| ctx ::= λ c, c <| is_finished := false |> |>) →
  kv_info (ctx s1) = kv_info (ctx s) ∧ local_bucket_addr (ctx s1) = local_bucket_addr (ctx s).
Proof.
  intros Hc. unfold insert_frame in Hc. cbn [ctx set_field eta_Sys] in Hc.
  split; [change (kv_info (ctx s1)) with (kv_info ((ctx s1) <| is_finished := false |>))
         |change (local_bucket_addr (ctx s1)) with (local_bucket_addr ((ctx s1) <| is_finished := false |>))];
    by rewrite Hc.
Qed.

Lemma insert_requests_effect s s1 cur next rest w :
  insert_ready s cur next rest → entry_ready s s1 cur next rest →
  insert_layout s (tbl_addr_info (ctx s1)) cur → 0 <= index_node (tbl_addr_info (ctx s1)) < 256 →
  first_phase_effect s (tbl_addr_info (ctx s1)) cur (Cmm.subblock_sz_ (mm s)) w
    (run_ops (ops_of (concat (insert_requests s1))) w).
Proof.
  intros Hs He Hl Hn. pose proof (er_block _ _ _ _ _ He) as Hb. pose proof Hb as (Hm & _ & c & Hc).
  destruct (insert_frame_entry s s1 (er_ctx _ _ _ _ _ He)) as [Eki Eb].
  pose proof (ir_sz _ _ _ _ Hs) as Hsz.
  apply first_ops_effect; try done; [|lia]. intros q. eapply first_ops; [apply Hs|done|]. intros l.
  unfold insert_requests. cbn [concat]. rewrite app_nil_r, elem_of_app.
  assert (u32 (ac_num_subblocks (mm_alloc_ctx (ctx s1)) * Cmm.subblock_sz_ (mm s1)) = Cmm.subblock_sz_ (mm s)) as ->;
    [|done].
  rewrite Hc, Hm. cbn [ac_num_subblocks fill_alloc_ctx]. cbn -[Z.mul]. rewrite Z.mul_1_l. apply Z.mod_small. lia.
Qed.

(** ** Publication *)

(** Header, key and value of the request [s] are in the first replica of its
    block, to which the slot for it refers. *)
Record stored (s : Sys) (h : KVHashInfo) (cur : SubblockInfo) (r' : Z → mem) : Prop := {
  st_addr : block_addr (block_slot h cur) = aget (sb_addr_list cur) 0;
  st_entry k : off_key_length <= k < log_tail s - l_addr (kv_info (ctx s)) →
    r' (aget (sb_server_id_list cur) 0) (aget (sb_addr_list cur) 0 + k) =
    lmem (wld s) (l_addr (kv_info (ctx s)) + k) }.

(** The bytes of the block of a request. *)
Definition own_block (s : Sys) (cur : SubblockInfo) (n y : Z) : Prop :=
  on_block (Cl.num_replication_ (cl s)) (Cmm.subblock_sz_ (mm s)) cur n y.

(** The state [s1] after a first phase that wrote [len] bytes of the entry, with
    its tail at [tail]: the block is allocated and written, the buckets are in
    the local copy, and nothing else changed. *)
Record first_phase (s s1 : Sys) (h : KVHashInfo) (t : KVTableAddrInfo) (cur next : SubblockInfo)
    (rest : list SubblockInfo) (len tail : Z) : Prop := {
  f1_idle : idle s1;
  f1_block : holds_block s s1 cur next rest;
  f1_frame : insert_frame s s1;
  f1_hash : hash_info (ctx s1) = h;
  f1_tbl : tbl_addr_info (ctx s1) = t;
  f1_prep : prepared (cl s) h t;
  f1_entry k : off_key_length <= k < tail - l_addr (kv_info (ctx s)) → k < len →
    rmem (wld s1) (aget (sb_server_id_list cur) 0) (aget (sb_addr_list cur) 0 + k) =
    lmem (wld s) (l_addr (kv_info (ctx s)) + k);
  f1_rest n y : ¬ own_block s cur n y → rmem (wld s1) n y = rmem (wld s) n y;
  f1_slots p : p ∈ slot_indices →
    slot_of (lmem (wld s1)) (local_slot_arr (local_bucket_addr (ctx s))) p.1 p.2 =
    index_slot (rmem (wld s)) t p;
  f1_local x : ¬ (local_bucket_addr (ctx s) <= x < local_bucket_addr (ctx s) + 4 * sizeof_RaceHashBucket) →
    x ≠ l_addr (kv_info (ctx s)) → ¬ (tail <= x < tail + sizeof_KVLogTail) →
    lmem (wld s1) x = lmem (wld s) x }.

(** From the effect of its requests, posted in [s0]. *)
Lemma first_phase_intro s s0 s1 h t cur next rest len tail :
  1 <= Cl.num_replication_ (cl s) → idle s1 → holds_block s s1 cur next rest → insert_frame s s1 →
  hash_info (ctx s1) = h → tbl_addr_info (ctx s1) = t → prepared (cl s) h t →
  rmem (wld s0) = rmem (wld s) →
  (∀ x, x ≠ l_addr (kv_info (ctx s)) → ¬ (tail <= x < tail + sizeof_KVLogTail) →
     lmem (wld s0) x = lmem (wld s) x) →
  first_phase_effect s t cur len (wld s0) (wld s1) →
  first_phase s s1 h t cur next rest len tail.
Proof.
  intros HR Hid Hb Hf Eh Et Hprep Er El [Hblk Hrest Hslots Hloc]. rewrite Er in Hrest, Hslots. split; try done.
  - intros k Hk Hlen. unfold off_key_length in Hk. rewrite (Hblk 0) by lia.
    replace (aget (sb_addr_list cur) 0 + k - aget (sb_addr_list cur) 0) with k by lia. apply El; lia.
  - intros x Hx H1 H2. rewrite Hloc by done. auto.
Qed.

Lemma weq_effect s t cur len w w1 w2 :
  weq w1 w2 → first_phase_effect s t cur len w w2 → first_phase_effect s t cur len w w1.
Proof. intros [El Er] [H1 H2 H3 H4]. by split; rewrite ?El, ?Er. Qed.

Lemma located_unique s h t h' t' : located s h t → located s h' t' → h' = h ∧ t' = t.
Proof.
  unfold located. intros H1 H2. rewrite H1 in H2. apply (f_equal (λ o, match o with
    | Done _ s' => Some (hash_info (ctx s'), tbl_addr_info (ctx s')) | Stopped _ _ => None end)) in H2.
  cbn in H2. by injection H2 as -> ->.
Qed.

Lemma entry_located s s0 cur next rest h t :
  entry_ready s s0 cur next rest → located s h t →
  hash_info (ctx s0) = h ∧ tbl_addr_info (ctx s0) = t.
Proof. intros He Hloc. eapply located_unique; [exact Hloc|]. apply (er_found _ _ _ _ _ He). Qed.

(** The first phase of an insertion, and of an update that misses the cache. *)
Lemma insert_first_phase `{F : Fabric} `{HF : !QuietFabric F} s s0 s1 cur next rest h t :
  insert_ready s cur next rest → entry_ready s s0 cur next rest → located s h t → insert_layout s t cur →
  1 <= Cl.num_idx_rep_ (cl s) → idle s1 → holds_block s s1 cur next rest → insert_frame s s1 →
  ctx s1 = (ctx s0) <| is_finished := false |> → wld s1 = wld (posted (concat (insert_requests s0)) s0) →
  first_phase s s1 h t cur next rest (Cmm.subblock_sz_ (mm s)) (log_tail s).
Proof.
  intros Hs He Hloc Hlay Hrep Hid Hb Hf Ec Ew.
  destruct (entry_located s s0 cur next rest h t He Hloc) as [Eh0 Et0].
  pose proof (er_prep _ _ _ _ _ He) as Hprep. rewrite Eh0, Et0 in *.
  apply (first_phase_intro s s0 s1); try done; [apply Hs|by rewrite Ec|by rewrite Ec|apply He|apply He|].
  eapply weq_effect; [rewrite Ew; apply posted_effect|]. rewrite <- Et0.
  eapply insert_requests_effect; [done..|by rewrite Et0|]. rewrite Et0.
  destruct Hprep as (_ & _ & _ & H). apply H. lia.
Qed.

(** A slot of [t] changed after the first phase, with bytes in [dead]. *)
Definition republished (t : KVTableAddrInfo) (p : Z * Z) (new : RaceHashSlot) (dead : Z → Z → Prop)
    (r r' : Z → mem) : Prop :=
  index_slot r' t p = new ∧ ∀ n y, ¬ on_slot t p n y → ¬ dead n y → r' n y = r n y.

Lemma first_phase_changed s s1 h t cur next rest len tail p new dead r' :
  first_phase s s1 h t cur next rest len tail → p ∈ slot_indices →
  republished t p new dead (rmem (wld s1)) r' →
  changed (rmem (wld s)) r' t p new (λ n y, own_block s cur n y ∨ dead n y).
Proof.
  intros H1 Hp [Hnew Hrest]. split; [done|done|]. intros n y HD Hy. rewrite Hrest by tauto.
  apply (f1_rest _ _ _ _ _ _ _ _ _ H1). tauto.
Qed.

Lemma first_phase_stored s s1 h t cur next rest p new dead r' :
  first_phase s s1 h t cur next rest (Cmm.subblock_sz_ (mm s)) (log_tail s) → insert_layout s t cur →
  1 <= Cl.num_replication_ (cl s) → p ∈ slot_indices →
  (∀ n y, dead n y → ¬ own_block s cur n y) → republished t p new dead (rmem (wld s1)) r' →
  block_addr (block_slot h cur) = aget (sb_addr_list cur) 0 → stored s h cur r'.
Proof.
  intros H1 Hlay HR Hp Hdead [_ Hrest] Haddr. split; [done|]. intros k Hk.
  pose proof (il_size _ _ _ Hlay) as Hsize. unfold sizeof_KVLogTail in Hsize.
  assert (own_block s cur (aget (sb_server_id_list cur) 0) (aget (sb_addr_list cur) 0 + k)) as Hon.
  { unfold off_key_length in Hk. exists 0. split_and!; [lia..|done|lia|lia]. }
  rewrite Hrest.
  - apply (f1_entry _ _ _ _ _ _ _ _ _ H1); [done|lia].
  - intros [En Hy]. rewrite En in Hon. by apply (il_slots _ _ _ Hlay p _ Hp Hy).
  - intros Hd. by apply (Hdead _ _ Hd).
Qed.

(** The memories [r'] that an insertion through slot [p] leaves: the slot, which
    was free, refers to the block, header, key and value are in the block, and
    nothing else changed outside the block. *)
Record indexed (s : Sys) (h : KVHashInfo) (t : KVTableAddrInfo) (cur : SubblockInfo) (p : Z * Z)
    (r' : Z → mem) : Prop := {
  ix_free : slot_is_free (index_slot (rmem (wld s)) t p) = true;
  ix_changed : changed (rmem (wld s)) r' t p (block_slot h cur) (own_block s cur);
  ix_stored : stored s h cur r' }.

Lemma slot_is_free_local s2 s r t :
  local_bucket_addr (ctx s2) = local_bucket_addr (ctx s) →
  (∀ p, p ∈ slot_indices → slot_of (lmem (wld s2)) (local_slot_arr (local_bucket_addr (ctx s))) p.1 p.2 =
     index_slot r t p) →
  ∀ b i, 0 <= b < 4 → 0 <= i < 7 →
    slot_is_empty s2 b i = slot_is_free (index_slot r t (b, i)) ∧
    load64 (lmem (wld s2)) (local_slot s2 b i) = ConvertSlotToInt (index_slot r t (b, i)).
Proof.
  intros Eb H b i Hb Hi. rewrite <- (H (b, i)) by (by apply elem_of_slot_indices).
  unfold slot_is_empty, local_slot, slot_of. cbn [fst snd].
  pose proof (local_slot_addr (local_bucket_addr (ctx s)) (b, i) Hb) as E. cbn [fst snd] in E.
  rewrite E, <- ConvertSlotToInt_at, Eb. split; [f_equal; unfold bucket_slot; f_equal|unfold bucket_slot; f_equal; f_equal]; lia.
Qed.

Lemma remote_slot_addr t b i :
  0 <= slot_addr t (b, i) < 2 ^ 64 → remote_slot t 0 b i = slot_addr t (b, i).
Proof.
  intros H. unfold remote_slot. unfold slot_addr in *. cbn [fst snd] in *. unfold bucket_slot in *.
  destruct (b <? 2); unfold u64; (rewrite Z.mod_small; [lia|]); lia.
Qed.


Lemma entry_starts s : l_addr (kv_info (ctx s)) + sizeof_KVLogHeader <= log_tail s.
Proof.
  unfold log_tail. set (h := l_addr (kv_info (ctx s))).
  pose proof (load_range 2 (lmem (wld s)) (h + off_key_length)) as Hk.
  pose proof (load_range 4 (lmem (wld s)) (h + off_value_length)) as Hv.
  change (load 2) with load16 in Hk. change (load 4) with load32 in Hv. lia.
Qed.

(** After the request [s], in [s'], the cache names the slot [sl] for its key. *)
Definition remembered (s s' : Sys) (sl : RaceHashSlot) : Prop :=
  use_cache (ctx s) = true → ∃ e, Cl.addr_cache_ (cl s') !! key_str (ctx s) = Some e ∧
    ConvertSlotToInt (l_slot_ptr e) = ConvertSlotToInt sl.

Section quiet_insert.
Context {F : Fabric} {HF : QuietFabric F} (P : Posting) {HP : PostingOk P}.

(** Somewhere in the four buckets there is room. *)
Definition has_free_slot (r : Z → mem) (t : KVTableAddrInfo) : Prop :=
  ∃ p, p ∈ slot_indices ∧ slot_is_free (index_slot r t p) = true.

Lemma insert_indexed (strict : bool) junk s cur next rest h t :
  insert_ready s cur next rest → single_index KV_REQ_INSERT s → aget (sb_addr_list cur) 0 < 2 ^ 48 →
  located s h t → insert_layout s t cur → has_free_slot (rmem (wld s)) t →
  ∃ s1 s2 s' p, (prepare_request ;; kv_insert_write_with junk P) s = Done tt s1 ∧
    is_finished (ctx s1) = false ∧ kv_insert_backup_consensus_0_with P s1 = Done tt s2 ∧
    is_finished (ctx s2) = false ∧ Cl.num_idx_rep_ (cl s2) = 1 ∧
    modify_primary_idx_with P strict s2 = Done tt s' ∧ ret_val (ctx s') = KV_OPS_SUCCESS ∧
    remembered s s' (block_slot h cur) ∧ indexed s h t cur p (rmem (wld s')).
Proof.
  intros Hs Hsi Hlim Hloc Hlay ([b0 i0] & Hp0 & Hfree0).
  destruct (insert_entry_run P junk s cur next rest Hs) as (s0 & E0 & He).
  destruct (insert_requests_posted P s s0 cur next rest He) as (s1 & E1 & Hid1 & Hb1 & Hf1 & Ec1 & Ew1).
  rewrite E1 in E0.
  assert (first_phase s s1 h t cur next rest (Cmm.subblock_sz_ (mm s)) (log_tail s)) as H1.
  { eapply insert_first_phase; try done. rewrite (si_rep _ _ Hsi). done. }
  clear Ec1 Ew1 E1 He s0. pose proof Hb1 as (Hm1 & Hcl1 & _).
  pose proof (f1_hash _ _ _ _ _ _ _ _ _ H1) as Eh1. pose proof (f1_tbl _ _ _ _ _ _ _ _ _ H1) as Et1.
  assert (local_bucket_addr (ctx s1) = local_bucket_addr (ctx s) ∧ is_finished (ctx s1) = false ∧
    use_cache (ctx s1) = use_cache (ctx s) ∧ key_str (ctx s1) = key_str (ctx s)) as (Eb & Hun & Eu & Ek)
    by (by rewrite Hf1).
  pose proof (slot_is_free_local s1 s (rmem (wld s)) t Eb (f1_slots _ _ _ _ _ _ _ _ _ H1)) as Hsl.
  apply elem_of_slot_indices in Hp0 as [Hb0 Hi0]. cbn [fst snd] in Hb0, Hi0.
  destruct (insert_single_met P strict s s1 cur next rest)
    as (b & i & s2 & pr & Hb & Hi & Hem & E2 & Hf2 & Hn2 & Hid2 & Hr2 & Hmet);
    [done|done|by eapply single_index_frame|done|rewrite Hcl1, Eh1, Et1; apply H1|done|done| |].
  { intros Hfull. rewrite <- (proj1 (Hsl b0 i0 Hb0 Hi0)), Hfull in Hfree0 by done. done. }
  destruct (Hmet (rmem (wld s2))) as (s' & E' & Hout); [by apply posted_swap_quiet|].
  rewrite Hr2 in Hout. clear Hmet.
  assert ((b, i) ∈ slot_indices) as Hpos by (by apply elem_of_slot_indices).
  unfold insert_outcome in Hout. rewrite Et1, Eh1 in Hout. fold (index_node t) in Hout. cbv zeta in Hout.
  rewrite remote_slot_addr in Hout by (by apply (il_addrs _ _ _ Hlay)).
  assert (load64 (rmem (wld s1) (index_node t)) (slot_addr t (b, i)) =
    load64 (lmem (wld s1)) (local_slot s1 b i)) as Eold.
  { rewrite (proj2 (Hsl b i Hb Hi)). unfold index_slot. rewrite ConvertSlotToInt_at.
    apply load_ext. intros k Hk. f_equal. apply (f1_rest _ _ _ _ _ _ _ _ _ H1).
    apply (il_slots _ _ _ Hlay (b, i)); [done|lia]. }
  destruct Hout as [(_ & Hret & _ & Hr' & Hslot & Haddr & Hca)|(Hne & _)]; [|done].
  exists s1, s2, s', (b, i). do 7 (split; [done|]). split; [unfold remembered; by rewrite <- Eu, <- Ek|].
  assert (republished t (b, i) (block_slot h cur) (λ _ _, False) (rmem (wld s1)) (rmem (wld s'))) as Hpub.
  { split; [done|]. intros n y Hy _. rewrite Hr'. unfold upd_rmem. destruct (n =? index_node t) eqn:En; [|done].
    apply Z.eqb_eq in En. subst n. unfold store64. rewrite store_outside; [done|].
    intros Hy'. apply Hy. split; [done|lia]. }
  split.
  - by rewrite <- (proj1 (Hsl b i Hb Hi)).
  - eapply changed_weaken; [by eapply first_phase_changed|]. tauto.
  - eapply first_phase_stored; try done; [apply Hs|tauto].
Qed.
End quiet_insert.

(** ** Lookups after an insertion *)

(** The index of a request with hash [h2] and buckets [t2] is undisturbed by a
    request [s] that changes a slot of [t] and writes the block [cur]. *)
Definition isolated (s : Sys) (cur : SubblockInfo) (t : KVTableAddrInfo) (h2 : KVHashInfo)
    (t2 : KVTableAddrInfo) : Prop :=
  undisturbed (rmem (wld s)) (own_block s cur) t h2 t2.

Section lookups.
Context (s : Sys) (h : KVHashInfo) (t : KVTableAddrInfo) (cur : SubblockInfo) (r' : Z → mem).
Context (Hst : stored s h cur r') (Hlay : insert_layout s t cur).

(** The new block. *)
Lemma stored_block :
  block_key r' (block_slot h cur) = request_key s ∧ block_value r' (block_slot h cur) = request_value s ∧
  sizeof_KVLogHeader + block_key_len r' (block_slot h cur) + block_value_len r' (block_slot h cur)
    = log_tail s - l_addr (kv_info (ctx s)).
Proof.
  set (l := l_addr (kv_info (ctx s))).
  assert (∀ k, off_key_length <= k < log_tail s - l → block_mem r' (block_slot h cur) (block_addr (block_slot h cur) + k) =
    lmem (wld s) (l + k)) as H.
  { intros k Hk. rewrite (st_addr _ _ _ _ Hst). by apply (st_entry _ _ _ _ Hst). }
  pose proof (entry_starts s) as Hes. fold l in Hes.
  unfold off_key_length, sizeof_KVLogHeader in *.
  assert (block_key_len r' (block_slot h cur) = load16 (lmem (wld s)) (l + off_key_length)) as Ek.
  { apply load_ext. intros i Hi. unfold off_key_length. rewrite <- !Z.add_assoc, H by lia. done. }
  assert (block_value_len r' (block_slot h cur) = load32 (lmem (wld s)) (l + off_value_length)) as Ev.
  { apply load_ext. intros i Hi. unfold off_value_length. rewrite <- !Z.add_assoc, H by lia. done. }
  unfold block_key, block_value, request_key, request_value. rewrite Ek, Ev, <- (il_header _ _ _ Hlay).
  fold l. unfold get_key. fold l.
  assert (log_tail s = l + sizeof_KVLogHeader + load16 (lmem (wld s)) (l + off_key_length)
    + load32 (lmem (wld s)) (l + off_value_length)) as Et by reflexivity.
  pose proof (load_range 2 (lmem (wld s)) (l + off_key_length)) as Hk.
  pose proof (load_range 4 (lmem (wld s)) (l + off_value_length)) as Hv.
  change (load 2) with load16 in Hk. change (load 4) with load32 in Hv.
  unfold sizeof_KVLogHeader in *.
  split_and!; [apply load_bytes_ext; intros i Hi; rewrite <- !Z.add_assoc, H by lia; done..|].
  rewrite Et. lia.
Qed.

Lemma stored_hit : is_hit r' h (request_key s) (block_slot h cur).
Proof.
  split; [|apply stored_block]. unfold slot_matches, block_slot. cbn [fp kv_len]. by rewrite Z.eqb_refl.
Qed.

Lemma stored_fits :
  sizeof_KVLogHeader + block_key_len r' (block_slot h cur) + block_value_len r' (block_slot h cur)
    <= kv_len (block_slot h cur) * Cmm.subblock_sz_ (mm s).
Proof.
  destruct stored_block as (_ & _ & ->). cbn [kv_len block_slot].
  pose proof (il_size _ _ _ Hlay). unfold sizeof_KVLogTail in *. lia.
Qed.

Lemma lookup_other p h2 t2 key :
  indexed s h t cur p r' → isolated s cur t h2 t2 → key ≠ request_key s →
  index_lookup r' h2 t2 key = index_lookup (rmem (wld s)) h2 t2 key.
Proof.
  intros Hix His Hkey. eapply lookup_unchanged; [apply Hix|exact His| |].
  - intros [Hm _]. by rewrite (free_no_match _ _ (ix_free _ _ _ _ _ _ Hix)) in Hm.
  - intros [_ Hk]. by rewrite (proj1 stored_block) in Hk.
Qed.

(** The key of the insertion is found with its value, if it was absent. *)
Lemma lookup_own p :
  indexed s h t cur p r' → isolated s cur t h t →
  index_lookup (rmem (wld s)) h t (request_key s) = None →
  index_lookup r' h t (request_key s) = Some (request_value s).
Proof.
  intros Hix His Hnone. rewrite <- (proj1 (proj2 stored_block)).
  eapply lookup_added; [apply Hix|exact His|done|apply stored_hit].
Qed.
End lookups.

(** ** Insertion and search *)

(** What an insertion finds: the client is ready, its buffers and its block are in
    order, the buckets of the key have room and do not know the key. *)
Record insertable (s : Sys) (h : KVHashInfo) (t : KVTableAddrInfo) (cur next : SubblockInfo)
    (rest : list SubblockInfo) : Prop := {
  in_ready : insert_ready s cur next rest;
  in_single : single_index KV_REQ_INSERT s;
  in_addr : aget (sb_addr_list cur) 0 < 2 ^ 48;
  in_located : located s h t;
  in_layout : insert_layout s t cur;
  in_isolated : isolated s cur t h t;
  in_room : has_free_slot (rmem (wld s)) t;
  in_absent : index_lookup (rmem (wld s)) h t (request_key s) = None }.

Lemma kv_insert_indexed `{F : Fabric} `{HF : !QuietFabric F} junk spin s h t cur next rest :
  insertable s h t cur next rest →
  let inserted (op : M Sys Z) := ∃ p s', op s = Done KV_OPS_SUCCESS s' ∧
    remembered s s' (block_slot h cur) ∧ indexed s h t cur p (rmem (wld s')) in
  inserted (kv_insert junk spin) ∧ inserted (kv_insert_sync junk spin).
Proof.
  intros [Hs Hsi Hlim Hloc Hlay _ Hroom _] inserted. split.
  - destruct (insert_indexed fiber_posting true junk s cur next rest h t Hs Hsi Hlim Hloc Hlay Hroom)
      as (s1 & s2 & s' & p & E1 & Hf1 & E2 & Hf2 & Hn2 & E' & Hret & Hix).
    exists p, s'. split; [|done]. rewrite <- Hret. by eapply kv_insert_phases.
  - destruct (insert_indexed sync_posting false junk s cur next rest h t Hs Hsi Hlim Hloc Hlay Hroom)
      as (s1 & s2 & s' & p & E1 & Hf1 & E2 & Hf2 & Hn2 & E' & Hret & Hix).
    exists p, s'. split; [|done]. rewrite <- Hret. by eapply kv_insert_sync_phases.
Qed.

(** C3. Insertion of an absent key with one index replica and a free slot among
    the four buckets of the key, on a fabric without interference and in both
    versions: it succeeds, the client's cache names the new slot, and in the
    index that the nodes then hold the key has the value of the request, while
    every other key, in whatever buckets it is looked up, has the value it had
    before, as long as its slots and blocks are apart from the new block. *)
Theorem kv_insert_updates_index `{F : Fabric} `{HF : !QuietFabric F} (junk : mem) (spin : nat) (s : Sys)
    (h : KVHashInfo) (t : KVTableAddrInfo) (cur next : SubblockInfo) (rest : list SubblockInfo) :
  insertable s h t cur next rest →
  let updated (op : M Sys Z) :=
    ∃ s', op s = Done KV_OPS_SUCCESS s' ∧ remembered s s' (block_slot h cur) ∧
      index_lookup (rmem (wld s')) h t (request_key s) = Some (request_value s) ∧
      ∀ h2 t2 key, isolated s cur t h2 t2 → key ≠ request_key s →
        index_lookup (rmem (wld s')) h2 t2 key = index_lookup (rmem (wld s)) h2 t2 key in
  updated (kv_insert junk spin) ∧ updated (kv_insert_sync junk spin).
Proof.
  intros Hin updated. destruct (kv_insert_indexed junk spin s h t cur next rest Hin)
    as [(p1 & s1 & E1 & Hr1 & H1) (p2 & s2 & E2 & Hr2 & H2)].
  split; [exists s1|exists s2];
    (split_and!; [done|done|by eapply lookup_own; eauto using ix_stored, in_layout, in_isolated, in_absent|]);
    intros h2 t2 key His Hkey; eapply lookup_other; eauto using ix_stored, in_layout.
Qed.

(** *** Who finds it *)

(** A client [s2] about to search for the key of the insertion [s], which left the
    state [s']: it locates the key in the same buckets, it is connected to the
    nodes that the inserting client is connected to, and its cache does not know
    the key or is the cache that the insertion left, with slots of eight bytes. *)
Record searches_for (s s' s2 : Sys) (h : KVHashInfo) (t : KVTableAddrInfo) : Prop := {
  sf_ready : search_ready s2;
  sf_layout : search_layout s2;
  sf_rep : 1 <= Cl.num_idx_rep_ (cl s2);
  sf_located : located s2 h t;
  sf_size : Cmm.subblock_sz_ (mm s2) = Cmm.subblock_sz_ (mm s);
  sf_key : request_key s2 = request_key s;
  sf_nodes sid : knows_node (cl s) sid → knows_node (cl s2) sid;
  sf_rmem : rmem (wld s2) = rmem (wld s');
  sf_cache : cache_misses s2 ∨
    (use_cache (ctx s) = true ∧ key_str (ctx s2) = key_str (ctx s) ∧
     Cl.addr_cache_ (cl s2) = Cl.addr_cache_ (cl s') ∧
     ∀ key e, Cl.addr_cache_ (cl s2) !! key = Some e → slot_wf (l_slot_ptr e)) }.

Section found.
Context (s s' s2 : Sys) (h : KVHashInfo) (t : KVTableAddrInfo) (cur next : SubblockInfo).
Context (rest : list SubblockInfo) (p : Z * Z).
Context (Hin : insertable s h t cur next rest) (Hix : indexed s h t cur p (rmem (wld s'))).
Context (Hfit : blocks_fit (rmem (wld s)) h t (Cmm.subblock_sz_ (mm s))).
Context (Hkn : index_known (cl s) (rmem (wld s)) h t).
Context (Hnode : knows_node (cl s) (aget (sb_server_id_list cur) 0)).
Context (Hsf : searches_for s s' s2 h t).

Lemma found_searchable : searchable s2 h t.
Proof.
  destruct Hsf as [Hs2 Hlay2 Hn2 Hloc2 Hsz Hkey Hnodes Hr _].
  split; try done; rewrite Hr, ?Hsz.
  - eapply fit_after; [by eauto using ix_changed|exact (in_isolated _ _ _ _ _ _ Hin)|done|].
    intros _. eapply stored_fits; eauto using ix_stored, in_layout.
  - intros sl Hsl. apply Hnodes.
    destruct (candidates_after _ _ _ _ _ _ (ix_changed _ _ _ _ _ _ Hix) _ (in_isolated _ _ _ _ _ _ Hin) _ Hsl)
      as [->|Hold]; [exact Hnode|by apply Hkn].
Qed.

(** The only slot of the key is the new one. *)
Lemma found_hit :
  index_slot (rmem (wld s')) t <$> head (hits (rmem (wld s')) h t (request_key s)) = Some (block_slot h cur).
Proof.
  eapply hit_added; [by eauto using ix_changed|exact (in_isolated _ _ _ _ _ _ Hin)|
    exact (in_absent _ _ _ _ _ _ Hin)|]. eapply stored_hit; eauto using ix_stored, in_layout.
Qed.

Lemma found_coherent : remembered s s' (block_slot h cur) → cache_coherent s2 h t.
Proof.
  intros Hrem Hu e He. destruct Hsf as [Hs2 Hlay2 Hn2 Hloc2 Hsz Hkey Hnodes Hr [Hmiss|(Hus & Ek & Ec & Hwf)]].
  { by rewrite Hmiss in He. }
  pose proof (located_prepared _ _ _ (ir_root _ _ _ _ (in_ready _ _ _ _ _ _ Hin)) (in_located _ _ _ _ _ _ Hin))
    as (Hfp & _).
  pose proof (ir_rep _ _ _ _ (in_ready _ _ _ _ _ _ Hin)) as HR.
  pose proof (block_slot_wf _ h _ HR (ir_cur _ _ _ _ (in_ready _ _ _ _ _ _ Hin)) Hfp) as Hbwf.
  destruct (Hrem Hus) as (e' & He' & Hint). pose proof (Hwf _ _ He) as Hew.
  rewrite Ek, Ec, He' in He. injection He as ->.
  apply ConvertSlotToInt_inj in Hint; [|done..].
  assert (key_len (kv_info (ctx s2)) = key_len (kv_info (ctx s))) as Elen.
  { pose proof (sr_key _ Hs2) as H0. pose proof (load_range 2 (lmem (wld s)) (l_addr (kv_info (ctx s)) + off_key_length)) as H1.
    change (load 2) with load16 in H1. rewrite (il_header _ _ _ (in_layout _ _ _ _ _ _ Hin)) in H1.
    apply (f_equal length) in Hkey. unfold request_key in Hkey. rewrite !load_bytes_length in Hkey. lia. }
  split; rewrite Hint.
  - apply Hbwf.
  - cbn. lia.
  - rewrite Elen, Hsz. cbn [kv_len block_slot]. pose proof (il_size _ _ _ (in_layout _ _ _ _ _ _ Hin)) as Hsize.
    unfold log_tail in Hsize. rewrite (il_header _ _ _ (in_layout _ _ _ _ _ _ Hin)) in Hsize.
    pose proof (load_range 4 (lmem (wld s)) (l_addr (kv_info (ctx s)) + off_value_length)) as Hv.
    change (load 4) with load32 in Hv. unfold sizeof_KVLogTail in Hsize. lia.
  - intros _ _. rewrite Hr, Hkey. apply found_hit.
Qed.

Lemma found_value :
  index_lookup (rmem (wld s2)) h t (request_key s2) = Some (request_value s).
Proof.
  rewrite (sf_rmem _ _ _ _ _ Hsf), (sf_key _ _ _ _ _ Hsf).
  by eapply lookup_own; eauto using ix_stored, in_layout, in_isolated, in_absent.
Qed.
End found.

(** C1. What was inserted is found.  After an insertion of an absent key as above
    (one index replica, a free slot, no interference), in either version, a
    search for the key that locates it in the same buckets ends, in either
    version, with the address of a copy of the value, byte for byte: a search of
    the client that inserted it, which finds the block through its cache, and a
    search of any other client connected to the same nodes whose cache does not
    know the key. *)
Theorem insert_search_roundtrip `{F : Fabric} `{HF : !QuietFabric F} (junk : mem) (spin : nat) (s : Sys)
    (h : KVHashInfo) (t : KVTableAddrInfo) (cur next : SubblockInfo) (rest : list SubblockInfo) :
  insertable s h t cur next rest → blocks_fit (rmem (wld s)) h t (Cmm.subblock_sz_ (mm s)) →
  index_known (cl s) (rmem (wld s)) h t → knows_node (cl s) (aget (sb_server_id_list cur) 0) →
  let found_after (op : M Sys Z) :=
    ∃ s', op s = Done KV_OPS_SUCCESS s' ∧
      ∀ s2, searches_for s s' s2 h t →
        (∃ v s3, kv_search s2 = Done v s3 ∧ answers (Some (request_value s)) s3 v) ∧
        (∃ v s3, kv_search_sync s2 = Done v s3 ∧ answers (Some (request_value s)) s3 v) in
  found_after (kv_insert junk spin) ∧ found_after (kv_insert_sync junk spin).
Proof.
  intros Hin Hfit Hkn Hnode found_after.
  assert (∀ p s' s2, indexed s h t cur p (rmem (wld s')) → remembered s s' (block_slot h cur) →
    searches_for s s' s2 h t →
    (∃ v s3, kv_search s2 = Done v s3 ∧ answers (Some (request_value s)) s3 v) ∧
    (∃ v s3, kv_search_sync s2 = Done v s3 ∧ answers (Some (request_value s)) s3 v)) as Hfound.
  { intros p s' s2 Hix Hrem Hsf. rewrite <- (found_value s s' s2 h t cur next rest p Hin Hix Hsf).
    destruct (kv_search_index_run s2 h t) as [(v1 & s4 & Ea & _ & Ha) (v2 & s5 & Eb & _ & Hb)]; [| |eauto 10].
    - exact (found_searchable s s' s2 h t cur next rest p Hin Hix Hfit Hkn Hnode Hsf).
    - exact (found_coherent s s' s2 h t cur next rest p Hin Hix Hsf Hrem). }
  destruct (kv_insert_indexed junk spin s h t cur next rest Hin)
    as [(p1 & s1 & E1 & Hr1 & H1) (p2 & s2 & E2 & Hr2 & H2)].
  split; [exists s1|exists s2]; eauto.
Qed.

(** ** Examples *)

(** The insertion of the value [104; 105] for the key "file" by the client of two
    nodes with one index replica. *)
Definition ex_insert : Sys := started "INSERT" [104; 105] 1.

Lemma ex_insert_located : located ex_insert ex_hash ex_table.
Proof.
  assert (location ex_insert = (ex_hash, ex_table)) as E by (vm_compute; reflexivity).
  pose proof (location_located ex_insert (ir_root _ _ _ _ example_insert_ready)) as H. by rewrite E in H.
Qed.

(** The slots of the key are above all blocks, and apart from one another. *)
Lemma ex_slots p q :
  p ∈ slot_indices → q ∈ slot_indices →
  2 ^ 32 <= slot_addr ex_table p < 2 ^ 40 ∧
  (slot_addr ex_table p = slot_addr ex_table q ∨ slot_addr ex_table p + 8 <= slot_addr ex_table q ∨
   slot_addr ex_table q + 8 <= slot_addr ex_table p).
Proof.
  assert (forallb (λ p, (2 ^ 32 <=? slot_addr ex_table p) && (slot_addr ex_table p <? 2 ^ 40) &&
    forallb (λ q, (slot_addr ex_table p =? slot_addr ex_table q)
      || (slot_addr ex_table p + 8 <=? slot_addr ex_table q)
      || (slot_addr ex_table q + 8 <=? slot_addr ex_table p)) slot_indices) slot_indices = true) as H
    by (vm_compute; reflexivity).
  rewrite forallb_forall in H. intros Hp Hq. specialize (H p (proj1 (list_elem_of_In _ _) Hp)).
  rewrite !andb_true_iff, forallb_forall in H. destruct H as [H1 H2].
  specialize (H2 q (proj1 (list_elem_of_In _ _) Hq)). rewrite !orb_true_iff in H2.
  rewrite ?Z.leb_le, ?Z.ltb_lt, ?Z.eqb_eq in H1, H2. lia.
Qed.

Lemma ex_on_block n y :
  on_block (Cl.num_replication_ (cl ex_insert)) (Cmm.subblock_sz_ (mm ex_insert)) (example_sb 4096) n y →
  y < 2 ^ 32.
Proof.
  intros (i & Hi & _ & Hy). assert (Cl.num_replication_ (cl ex_insert) = 2 ∧ Cmm.subblock_sz_ (mm ex_insert) = 256)
    as [ER Es] by (vm_compute; auto).
  rewrite ER in Hi. rewrite Es in Hy. assert (i = 0 ∨ i = 1) as [-> | ->] by lia;
    (change (aget (sb_addr_list (example_sb 4096)) 0) with 4096 in Hy
     || change (aget (sb_addr_list (example_sb 4096)) 1) with 69632 in Hy); lia.
Qed.

Lemma ex_insertable :
  insertable ex_insert ex_hash ex_table (example_sb 4096) (example_sb 4352) [example_sb 4608].
Proof.
  assert (kv_info (ctx ex_insert) = mkKVInfo 2000 0 4 2 ∧ local_bucket_addr (ctx ex_insert) = 300000 ∧
    Cmm.subblock_sz_ (mm ex_insert) = 256 ∧ Cl.num_replication_ (cl ex_insert) = 2) as (E1 & E2 & E3 & E4)
    by (vm_compute; auto).
  split.
  - apply example_insert_ready.
  - apply started_single.
  - vm_compute. reflexivity.
  - apply ex_insert_located.
  - split.
    + vm_compute. reflexivity.
    + vm_compute. discriminate.
    + intros x. rewrite E1, E2, E3. unfold sizeof_RaceHashBucket. cbn [l_addr]. lia.
    + intros i j. rewrite E4. intros Hi Hj. assert (i = 0 ∨ i = 1) as [-> | ->] by lia;
        assert (j = 0 ∨ j = 1) as [-> | ->] by lia; vm_compute; congruence.
    + intros p y Hp Hy Hon%ex_on_block. destruct (ex_slots p p Hp Hp). lia.
    + intros p Hp. destruct (ex_slots p p Hp Hp). lia.
  - split.
    + intros p y Hp [_ Hy] Hon%ex_on_block. destruct (ex_slots p p Hp Hp). lia.
    + intros p q Hp Hq _. by apply ex_slots.
    + intros sl k Hsl. exfalso. revert Hsl.
      assert (candidates (rmem (wld ex_insert)) ex_hash ex_table = []) as -> by (vm_compute; reflexivity).
      apply not_elem_of_nil.
  - exists (0, 0). split; [by apply elem_of_slot_indices|vm_compute; reflexivity].
  - vm_compute. reflexivity.
Qed.

Lemma ex_insert_value : request_value ex_insert = [104; 105].
Proof. vm_compute. reflexivity. Qed.

Example kv_insert_updates_index_witness :
  ∃ s', kv_insert_sync (F := quiet_fabric) mem_zero 1 ex_insert = Done KV_OPS_SUCCESS s' ∧
    index_lookup (rmem (wld s')) ex_hash ex_table [102; 105; 108; 101] = Some [104; 105].
Proof.
  destruct (kv_insert_updates_index (F := quiet_fabric) mem_zero 1 ex_insert ex_hash ex_table _ _ _
    ex_insertable) as [_ (s' & E & _ & H & _)].
  assert (request_key ex_insert = [102; 105; 108; 101]) as Ek by (vm_compute; reflexivity).
  rewrite Ek, ex_insert_value in H. exists s'. split; [exact E|exact H].
Defined.

Lemma ex_blocks_fit : blocks_fit (rmem (wld ex_insert)) ex_hash ex_table (Cmm.subblock_sz_ (mm ex_insert)).
Proof.
  intros sl Hsl. exfalso. revert Hsl.
  assert (candidates (rmem (wld ex_insert)) ex_hash ex_table = []) as -> by (vm_compute; reflexivity).
  apply not_elem_of_nil.
Qed.

Lemma ex_insert_known :
  index_known (cl ex_insert) (rmem (wld ex_insert)) ex_hash ex_table ∧
  (∀ sid, knows_node (cl ex_insert) sid ↔ sid = 0 ∨ sid = 1).
Proof.
  split.
  - intros sl Hsl. exfalso. revert Hsl.
    assert (candidates (rmem (wld ex_insert)) ex_hash ex_table = []) as -> by (vm_compute; reflexivity).
    apply not_elem_of_nil.
  - assert (Cl.server_mr_info_map_ (cl ex_insert) = {[0 := mkMrInfo 0 0; 1 := mkMrInfo 0 1]}) as E
      by (vm_compute; reflexivity).
    intros sid. unfold knows_node. rewrite E, lookup_insert_is_Some, lookup_singleton_is_Some. naive_solver lia.
Qed.

Lemma ex_search_same r :
  Cmm.subblock_sz_ (mm (ex_search r)) = Cmm.subblock_sz_ (mm ex_insert) ∧
  request_key (ex_search r) = request_key ex_insert ∧ key_str (ctx (ex_search r)) = key_str (ctx ex_insert) ∧
  use_cache (ctx ex_insert) = true.
Proof. vm_compute. split_and!; reflexivity. Qed.

Lemma rmem_replaced (s : Sys) (r : Z → mem) : rmem (wld (s <| wld ::= λ w, w <| rmem := r |> |>)) = r.
Proof. reflexivity. Qed.

(** The cache as the insertion leaves it. *)
Definition ex_new_slot : RaceHashSlot := Eval vm_compute in block_slot ex_hash (example_sb 4096).

Lemma ex_new_slot_wf : slot_wf ex_new_slot.
Proof. unfold slot_wf, in_u8. cbn. split_and!; try lia; try done. repeat constructor; lia. Qed.

Lemma ex_insert_cache s' :
  kv_insert_sync (F := quiet_fabric) mem_zero 1 ex_insert = Done KV_OPS_SUCCESS s' →
  ∃ l, Cl.addr_cache_ (cl s') = {["file"%string := mkLocalCacheEntry l ex_new_slot 0 1]}.
Proof.
  assert (∃ l, match kv_insert_sync (F := quiet_fabric) mem_zero 1 ex_insert with
    | Done _ s' => Cl.addr_cache_ (cl s') = {["file"%string := mkLocalCacheEntry l ex_new_slot 0 1]}
    | Stopped _ _ => False end) as [l H] by (eexists; vm_compute; reflexivity).
  intros E. rewrite E in H. eauto.
Qed.

(** The same client searches, with the cache that the insertion left, or another
    one with an empty cache. *)
Definition ex_searcher (own : bool) (s' : Sys) : Sys :=
  with_cache (if own then Cl.addr_cache_ (cl s') else ∅) (ex_search (rmem (wld s'))).

Lemma ex_searches own s' :
  kv_insert_sync (F := quiet_fabric) mem_zero 1 ex_insert = Done KV_OPS_SUCCESS s' →
  searches_for ex_insert s' (ex_searcher own s') ex_hash ex_table.
Proof.
  intros E. destruct (ex_insert_cache s' E) as [l El]. unfold ex_searcher. rewrite El.
  set (c := if own then _ else _). set (r := rmem (wld s')).
  assert (∀ key e, c !! key = Some e → e = mkLocalCacheEntry l ex_new_slot 0 1) as Hc.
  { intros key e. unfold c. destruct own; [by intros [_ <-]%lookup_singleton_Some|by rewrite lookup_empty]. }
  destruct (ex_search_same r) as (Ez & Ek & Es & Eu).
  destruct (with_cache_same c (ex_search r)) as (E1 & E2 & E3 & E4 & E5 & E6 & E7).
  split.
  - apply with_cache_ready; [apply ex_search_ready|]. intros key e ->%Hc. apply ex_search_knows. by left.
  - apply ex_search_layout.
  - rewrite E4. destruct (ex_search_fields r) as (_ & -> & _). done.
  - apply ex_search_located.
  - rewrite E2. exact Ez.
  - rewrite E7. exact Ek.
  - intros sid Hs%ex_insert_known. unfold knows_node. rewrite E5. by apply ex_search_knows.
  - rewrite E1. apply rmem_replaced.
  - unfold cache_misses. rewrite E3, E6. unfold c. destruct own; [right|left; by rewrite lookup_empty].
    split_and!; [exact Eu|exact Es|exact (eq_sym El)|]. intros key e He%Hc. subst e. cbn [l_slot_ptr].
    exact ex_new_slot_wf.
Qed.

Example insert_search_roundtrip_witness :
  ∃ s', kv_insert_sync (F := quiet_fabric) mem_zero 1 ex_insert = Done KV_OPS_SUCCESS s' ∧
    let found (own : bool) :=
      ∃ v s3, kv_search_sync (F := quiet_fabric) (ex_searcher own s') = Done v s3 ∧
        load_bytes 2 (lmem (wld s3)) v = [104; 105] in
    found true ∧ found false.
Proof.
  destruct ex_insert_known as [Hkn Hk].
  destruct (insert_search_roundtrip (F := quiet_fabric) mem_zero 1 ex_insert ex_hash ex_table _ _ _
    ex_insertable ex_blocks_fit Hkn) as [_ (s' & E & H)]; [apply Hk; vm_compute; auto|].
  exists s'. split; [exact E|]. intros found. assert (∀ own, found own) as Hf; [|split; apply Hf]. intros own.
  destruct (H (ex_searcher own s') (ex_searches own s' E)) as [_ (v & s3 & E3 & _ & Hv)].
  rewrite ex_insert_value in Hv. exists v, s3. split; [exact E3|exact Hv].
Defined.
