(* ===== verification/IndexModify.v ===== *)
(** * Update and deletion, as the index sees them

    What an update or a deletion with one index replica does to the index that the
    nodes hold, on a fabric without interference and with a cache that does not
    know the key: an update gives the key its new value, a deletion removes the
    slot of the key, and neither changes what other keys are mapped to. *)

From S2P Require Import Prelude Mem KvUtils HashTable ServerMM Server Rdma ClientState Network PostEffects.
From S2P Require Import ClientMM BlockMap ClientIndex ClientConsensus ClientOps IndexView IndexChange IndexInsert.

(** ** The first phase *)

(** The cache was asked in vain. *)
Definition missed (s s1 : Sys) : Prop := use_cache (ctx s) = true → is_local_cache_hit (ctx s1) = false.

Lemma entry_ready_probed s s1 cur next rest b :
  entry_ready s s1 cur next rest →
  entry_ready s (s1 <| ctx ::= λ c, c <| is_local_cache_hit := b |> |>) cur next rest.
Proof.
  intros [H1 H2 H3 H4 H5 H6 H7]. split; try done. clear -H3. unfold insert_frame in *.
  change (ctx (s1 <| ctx ::= _ |>)) with ((ctx s1) <| is_finished := false |>) in H3.
  change (ctx (_ <| ctx ::= _ |>)) with ((ctx s1) <| is_local_cache_hit := b |> <| is_finished := false |>).
  destruct (ctx s1), (ctx s). cbn in *. injection H3. intros. by subst.
Qed.

(** An update has written its entry and asked the cache. *)
Lemma update_entry_run `{F : Fabric} (P : Posting) junk s cur next rest :
  insert_ready s cur next rest → cache_misses s →
  ∃ s0, (prepare_request ;; kv_update_write_with junk P) s =
          (_ ← post_batch P (insert_requests s0); mret true) s0 ∧
    entry_ready s s0 cur next rest ∧ missed s s0.
Proof.
  intros Hs Hsl. unfold mbind at 1, M_bind.
  destruct (prepare_request_run s (ir_root _ _ _ _ Hs)) as (h & t & Ep & Hprep).
  rewrite Ep. set (s0 := set_field ctx _ s).
  destruct (log_entry_run junk KV_OP_UPDATE (log_tail s) (entry_size s) s0 cur next rest) as (s1 & E & He);
    [by apply insert_block_ready in Hs as []|apply Hs|].
  unfold kv_update_write_with, kv_entry_layout, rd16, rd32, get_lmem, get_ctx. unM.
  change (u32 _) with (entry_size s). change (_ + load32 _ _) with (log_tail s). rewrite E.
  assert (use_cache (ctx s1) = use_cache (ctx s) ∧ key_str (ctx s1) = key_str (ctx s)) as [Eu Ek]
    by (by rewrite (el_ctx _ _ _ _ _ _ He)).
  destruct (cache_probe_miss s1) as (b & -> & Hb).
  { rewrite Eu, Ek, (proj1 (proj2 (el_block _ _ _ _ _ _ He))). exact Hsl. }
  eexists. split; [reflexivity|]. split.
  - apply entry_ready_probed. by eapply entry_ready_intro.
  - intros Hu. apply Hb. by rewrite Eu.
Qed.

Section first_phases.
Context {F : Fabric} {HF : QuietFabric F} (junk : mem).
Context (s : Sys) (cur next : SubblockInfo) (rest : list SubblockInfo) (h : KVHashInfo) (t : KVTableAddrInfo).
Context (Hs : insert_ready s cur next rest) (Hsl : cache_misses s) (Hloc : located s h t).
Context (Hlay : insert_layout s t cur) (Hrep : 1 <= Cl.num_idx_rep_ (cl s)).

Lemma update_posted (P : Posting) {HP : PostingOk P} s0 :
  entry_ready s s0 cur next rest → missed s s0 →
  ∃ s1, (_ ← post_batch P (insert_requests s0); unfinished) s0 = Done tt s1 ∧ missed s s1 ∧
    first_phase s s1 h t cur next rest (Cmm.subblock_sz_ (mm s)) (log_tail s).
Proof.
  intros He Hm.
  destruct (insert_requests_posted P s s0 cur next rest He) as (s1 & -> & Hid & Hb & Hf & Ec & Ew).
  exists s1. split; [done|]. split; [intros Hu; rewrite Ec; exact (Hm Hu)|].
  exact (insert_first_phase s s0 s1 cur next rest h t Hs He Hloc Hlay Hrep Hid Hb Hf Ec Ew).
Qed.

Lemma update_phase_sync :
  ∃ s1, (prepare_request ;; kv_update_read_buckets_and_write_kv_sync junk) s = Done tt s1 ∧ missed s s1 ∧
    first_phase s s1 h t cur next rest (Cmm.subblock_sz_ (mm s)) (log_tail s).
Proof.
  destruct (update_entry_run sync_posting junk s cur next rest Hs Hsl) as (s0 & E & He & Hm).
  destruct (update_posted sync_posting s0 He Hm) as (s1 & E1 & H1). exists s1. split; [|done].
  rewrite <- E1. revert E. unfold kv_update_read_buckets_and_write_kv_sync. unM.
  rewrite (Hloc : prepare_request s = _). intros ->. destruct (post_batch _ _ _); done.
Qed.

(** For fibers, while they are not told to stop. *)
Lemma update_phase :
  should_stop (ctx s) = Some false →
  ∃ s1, (prepare_request ;; kv_update_read_buckets_and_write_kv junk) s = Done tt s1 ∧ missed s s1 ∧
    first_phase s s1 h t cur next rest (Cmm.subblock_sz_ (mm s)) (log_tail s).
Proof.
  intros Hstop. destruct (update_entry_run fiber_posting junk s cur next rest Hs Hsl) as (s0 & E & He & Hm).
  destruct (update_posted fiber_posting s0 He Hm) as (s1 & E1 & H1). exists s1. split; [|done].
  rewrite <- E1. revert E. unfold kv_update_read_buckets_and_write_kv. unM.
  rewrite (Hloc : prepare_request s = _). intros ->.
  rewrite post_batch_ok by (apply insert_requests_plain || apply He). unfold get_ctx. unM.
  pose proof (posted_client_side (concat (insert_requests s0)) s0) as Ec.
  generalize dependent (posted (concat (insert_requests s0)) s0). intros s3 [= _ _ Ectx].
  assert (should_stop (ctx s0) = Some false) as Hst.
  { change (should_stop ((ctx s0) <| is_finished := false |>) = Some false).
    change ((ctx s0) <| is_finished := false |>) with (ctx (s0 <| ctx ::= λ c, c <| is_finished := false |> |>)).
    by rewrite (er_ctx _ _ _ _ _ He). }
  by rewrite Ectx, Hst.
Qed.

(** The state in which a deletion starts its entry: the key is located, and the
    tail may have been cleared. *)
Record delete_start (s0 : Sys) (tail : Z) : Prop := {
  ds_idle : idle s0;
  ds_mm : mm s0 = mm s;
  ds_cl : cl s0 = cl s;
  ds_ctx : ctx s0 = (ctx s) <| hash_info := h |> <| tbl_addr_info := t |>;
  ds_rmem : rmem (wld s0) = rmem (wld s);
  ds_lmem x : ¬ (tail <= x < tail + sizeof_KVLogTail) → lmem (wld s0) x = lmem (wld s) x }.

Lemma delete_frame (c c1 : KVReqCtx) b :
  c1 = (c <| hash_info := h |> <| tbl_addr_info := t |>) <| mm_alloc_ctx := mm_alloc_ctx c1 |>
    <| log_commit_addr_list := log_commit_addr_list c1 |>
    <| write_unused_addr_list := write_unused_addr_list c1 |> →
  let c2 := c1 <| is_local_cache_hit := b |> <| is_finished := false |> in
  c2 = c <| hash_info := hash_info c2 |> <| tbl_addr_info := tbl_addr_info c2 |>
    <| mm_alloc_ctx := mm_alloc_ctx c2 |> <| log_commit_addr_list := log_commit_addr_list c2 |>
    <| write_unused_addr_list := write_unused_addr_list c2 |>
    <| is_local_cache_hit := is_local_cache_hit c2 |> <| is_finished := false |>.
Proof. destruct c, c1. cbn. injection 1. intros. by subst. Qed.

Lemma delete_posted (P : Posting) {HP : PostingOk P} s0 tail size :
  delete_start s0 tail → 0 < size <= Cmm.subblock_sz_ (mm s) →
  let len := u32 (sizeof_KVLogHeader + sizeof_KVLogTail + key_len (kv_info (ctx s))) in
  len <= Cmm.subblock_sz_ (mm s) →
  ∃ s1, kv_delete_write_with junk P tail size s0 = Done tt s1 ∧ missed s s1 ∧
    first_phase s s1 h t cur next rest len tail.
Proof.
  intros [Hid Hm Hcl Hctx Hr Hl] Hsize len Hlen. pose proof (insert_block_ready _ _ _ _ Hs) as Hbr.
  destruct (log_entry_run junk KV_OP_DELETE tail size s0 cur next rest) as (s1 & E & He).
  { destruct Hbr. by split; rewrite ?Hm, ?Hcl, ?Hctx. } { by rewrite Hm. }
  pose proof He as [Hid1 (Hm1 & Hcl1 & c0 & Hc0) Hc1 Hr1 Hl1]. specialize (Hid1 Hid).
  rewrite Hctx in Hc1. rewrite Hm in Hm1, Hc0. rewrite Hcl in Hcl1, Hc0.
  assert (use_cache (ctx s1) = use_cache (ctx s) ∧ key_str (ctx s1) = key_str (ctx s) ∧
    kv_info (ctx s1) = kv_info (ctx s) ∧ local_bucket_addr (ctx s1) = local_bucket_addr (ctx s) ∧
    hash_info (ctx s1) = h ∧ tbl_addr_info (ctx s1) = t) as (Eu & Ek & Eki & Eb & Eh & Et) by (by rewrite Hc1).
  assert (holds_block s s1 cur next rest) as Hb1 by (split; [done|]; split; [done|]; by exists c0).
  destruct (cache_probe_miss s1) as (b & Ep & Hmiss); [rewrite Eu, Ek, Hcl1; exact Hsl|].
  unfold kv_delete_write_with, get_ctx, gen_write_del_log_sr_lists. unM. rewrite E. unfold get. rewrite Ep.
  set (ls := [gen_read_bucket_sr_lists (ctx s1); _]). set (s2 := set_field ctx _ s1).
  assert (prepared (cl s) h t) as Hprep by (apply located_prepared; [apply Hs|done]).
  assert (Forall plain_list (concat ls)) as Hpl.
  { cbn [concat ls]. apply Forall_app. split; [repeat constructor; done|]. rewrite app_nil_r.
    unfold replica_writes. apply Forall_fmap, Forall_true. intros i. split; [done|]. by repeat constructor. }
  rewrite post_batch_ok by done. unfold unfinished, set_ctx. unM.
  assert (first_phase_effect s t cur len (wld s1) (run_ops (ops_of (concat ls)) (wld s1))) as Hfx.
  { rewrite <- Et. apply first_ops_effect; rewrite ?Et; try done.
    - intros q. eapply first_ops; [apply Hs|done|]. intros l. cbn [concat ls]. rewrite app_nil_r, elem_of_app, Eki.
      unfold len. tauto.
    - split; [apply Z.mod_pos_bound; lia|done].
    - destruct Hprep as (_ & _ & _ & H). apply H. lia. }
  eexists. split; [reflexivity|].
  apply (weq_effect s t cur len (wld s1) (wld (posted (concat ls) s2)) _ (posted_effect (concat ls) s2)) in Hfx.
  assert (idle (posted (concat ls) s2)) as Hid2 by (by apply posted_idle).
  pose proof (posted_client_side (concat ls) s2) as Ec.
  generalize dependent (posted (concat ls) s2). intros s3 Hfx Hid3 [= Em Ecl Ectx]. split.
  { intros Hu. cbn [ctx set_field eta_Sys]. rewrite Ectx. apply Hmiss. by rewrite Eu. }
  apply (first_phase_intro s s1 _); try done.
  - apply Hs.
  - split_and!; [by rewrite <- Hm1|by rewrite <- Hcl1|]. cbn [ctx set_field eta_Sys]. rewrite Ectx. eauto.
  - unfold insert_frame. cbn [ctx set_field eta_Sys]. rewrite Ectx. by apply delete_frame.
  - cbn [ctx set_field eta_Sys]. by rewrite Ectx.
  - cbn [ctx set_field eta_Sys]. by rewrite Ectx.
  - by rewrite Hr1.
  - intros x Hx Ht. rewrite Hl1, Hl; [done|done|by rewrite Hctx|done].
Qed.

(** The synchronous deletion puts the tail after the value, that of fibers after
    the key. *)
Lemma delete_phase_sync :
  let len := u32 (sizeof_KVLogHeader + sizeof_KVLogTail + key_len (kv_info (ctx s))) in
  len <= Cmm.subblock_sz_ (mm s) →
  ∃ s1, (prepare_request ;; kv_delete_read_buckets_write_log_sync junk) s = Done tt s1 ∧ missed s s1 ∧
    first_phase s s1 h t cur next rest len (log_tail s).
Proof.
  intros len Hlen. unfold kv_delete_read_buckets_write_log_sync, kv_entry_layout, rd16, rd32, get_lmem, get_ctx. unM.
  rewrite (Hloc : prepare_request s = _). set (s0 := set_field ctx _ s).
  change (u32 (_ + sizeof_KVLogTail)) with (entry_size s). change (_ + load32 _ _) with (log_tail s).
  apply (delete_posted sync_posting); [|apply Hs|done]. split; try done. apply Hs.
Qed.

Definition key_tail : Z := l_addr (kv_info (ctx s)) + sizeof_KVLogHeader + key_len (kv_info (ctx s)).

Lemma delete_phase :
  let len := u32 (sizeof_KVLogHeader + sizeof_KVLogTail + key_len (kv_info (ctx s))) in
  len <= Cmm.subblock_sz_ (mm s) →
  ∃ s1, (prepare_request ;; kv_delete_read_buckets_write_log junk) s = Done tt s1 ∧ missed s s1 ∧
    first_phase s s1 h t cur next rest len key_tail.
Proof.
  intros len Hlen. unfold kv_delete_read_buckets_write_log, rd16, wr_bytes, get_lmem, set_lmem, get_ctx. unM.
  rewrite (Hloc : prepare_request s = _). set (s0 := set_field ctx _ s).
  change (load16 (lmem (wld s0)) (l_addr (kv_info (ctx s0)) + off_key_length))
    with (load16 (lmem (wld s)) (l_addr (kv_info (ctx s)) + off_key_length)).
  rewrite (il_header _ _ _ Hlay). apply (delete_posted fiber_posting); [|split|done].
  - split; try done; [apply Hs|]. intros x Hx. cbn. apply store_bytes_outside. rewrite length_replicate.
    unfold key_tail, sizeof_KVLogTail in *. cbn in Hx. lia.
  - pose proof (load_range 2 (lmem (wld s)) (l_addr (kv_info (ctx s)) + off_key_length)) as Hk.
    change (load 2) with load16 in Hk. rewrite (il_header _ _ _ Hlay) in Hk.
    unfold u32, sizeof_KVLogHeader, sizeof_KVLogTail. rewrite Z.mod_small by lia. lia.
  - unfold len in Hlen. by replace (sizeof_KVLogHeader + key_len _ + sizeof_KVLogTail)
      with (sizeof_KVLogHeader + sizeof_KVLogTail + key_len (kv_info (ctx s))) by lia.
Qed.
End first_phases.

(** ** The candidates *)

Section candidates.
Context {F : Fabric} {HF : QuietFabric F}.
Context (s s1 : Sys) (cur next : SubblockInfo) (rest : list SubblockInfo) (h : KVHashInfo) (t : KVTableAddrInfo).
Context (len tail : Z) (H1 : first_phase s s1 h t cur next rest len tail).
Context (Hsr : search_ready s) (Hsl : search_layout s) (Hlay : insert_layout s t cur).
Context (Hiso : isolated s cur t h t) (Htail : key_tail s <= tail) (Hmiss : missed s s1).

Lemma phase_fields :
  mm s1 = (mm s) <| Cmm.subblock_free_queue_ := next :: rest |> <| Cmm.last_allocated_info_ := cur |> ∧
  cl s1 = cl s ∧ kv_info (ctx s1) = kv_info (ctx s) ∧ local_kv_addr (ctx s1) = local_kv_addr (ctx s) ∧
  local_bucket_addr (ctx s1) = local_bucket_addr (ctx s) ∧ use_cache (ctx s1) = use_cache (ctx s) ∧
  is_finished (ctx s1) = false ∧ Cmm.subblock_sz_ (mm s1) = Cmm.subblock_sz_ (mm s).
Proof.
  destruct (f1_block _ _ _ _ _ _ _ _ _ H1) as (Hm & Hcl & _). pose proof (f1_frame _ _ _ _ _ _ _ _ _ H1) as Hf.
  split_and!; try done; [by rewrite Hf..|by rewrite Hm].
Qed.

Lemma phase_key : request_key s1 = request_key s.
Proof.
  destruct phase_fields as (_ & _ & Eki & _). unfold request_key. rewrite Eki.
  apply load_bytes_ext. intros i Hi. f_equal. unfold key_tail, get_key in *.
  apply (f1_local _ _ _ _ _ _ _ _ _ H1); [apply (sl_buckets _ Hsl); unfold in_key| |];
    unfold get_key, sizeof_KVLogHeader in *; lia.
Qed.

Lemma phase_here : buckets_here s1 h t.
Proof.
  split; [apply H1|]. intros p Hp. destruct phase_fields as (_ & _ & _ & _ & -> & _).
  rewrite (f1_slots _ _ _ _ _ _ _ _ _ H1 p Hp). symmetry.
  eapply kept_slot; [apply (f1_rest _ _ _ _ _ _ _ _ _ H1)|exact Hiso|done].
Qed.

Lemma phase_after : after_buckets s1.
Proof.
  destruct phase_fields as (Hm & Hcl & Eki & Ekv & Eb & Eu & Ef & Esz).
  split; rewrite ?Hcl, ?Eki, ?Ekv, ?Esz; try apply Hsr; [apply H1| |done].
  intros Hu Hhit. rewrite Hmiss in Hhit; [done|]. by rewrite <- Eu.
Qed.

Lemma phase_missed : cached_block_ok s1 = false.
Proof.
  destruct phase_fields as (_ & _ & _ & _ & _ & Eu & _). unfold cached_block_ok.
  destruct (use_cache (ctx s1)) eqn:E; [|done]. rewrite Hmiss; [done|]. by rewrite <- Eu.
Qed.

Lemma phase_candidates (P : Posting) {HP : PostingOk P} new_slot :
  blocks_fit (rmem (wld s)) h t (Cmm.subblock_sz_ (mm s)) → index_known (cl s) (rmem (wld s)) h t →
  let s2 := s1 <| ctx ::= λ c, c <| is_cache_hit := false |> |> in
  ∃ s3, kv_modify_read_kv_with P new_slot s1 = Done tt s3 ∧ candidates_here s2 s3 h t ∧
    request_key s3 = request_key s ∧
    ∃ r, find_match_kv_idx s3 = Done r s3 ∧
      match head (hits (rmem (wld s)) h t (request_key s)) with
      | None => r = -1
      | Some p => 0 <= r ∧ kv_idx_list (ctx s3) !! Z.to_nat r = Some p
      end.
Proof.
  intros Hfit Hkn s2. pose proof phase_after as Hab. pose proof phase_here as Hbh.
  destruct phase_fields as (Hm & Hcl & Eki & Ekv & Eb & Eu & Ef & Esz).
  assert (after_buckets s2) as Hab2 by (by destruct Hab). assert (buckets_here s2 h t) as Hbh2 by (by destruct Hbh).
  destruct (candidates_arrive P s2 h t Hab2 Hbh2) as (s3 & E & Hc).
  { change (blocks_fit (rmem (wld s1)) h t (Cmm.subblock_sz_ (mm s1))). rewrite Esz.
    eapply kept_fit; [apply (f1_rest _ _ _ _ _ _ _ _ _ H1)|exact Hiso|done]. }
  { change (index_known (cl s1) (rmem (wld s1)) h t). rewrite Hcl. unfold index_known.
    erewrite kept_candidates; [exact Hkn|apply (f1_rest _ _ _ _ _ _ _ _ _ H1)|exact Hiso]. }
  assert (key_kept s2) as Hkk.
  { unfold key_kept. change (kv_info (ctx s2)) with (kv_info (ctx s1)).
    change (local_kv_addr (ctx s2)) with (local_kv_addr (ctx s1)). change (mm s2) with (mm s1).
    rewrite Eki, Ekv, Esz. apply Hsl. }
  exists s3. split_and!; [| |rewrite (candidates_key _ _ _ _ Hc Hkk); exact phase_key|].
  - unfold kv_modify_read_kv_with, set_ctx. unM. unfold get. rewrite phase_missed. exact E.
  - done.
  - destruct (match_is_hit s2 s3 h t Hbh2 Hc Hkk) as (r & Er & Hr).
    { change (0 <= key_len (kv_info (ctx s1))). rewrite Eki. apply Hsr. }
    exists r. split; [done|]. change (request_key s2) with (request_key s1) in Hr.
    change (rmem (wld s2)) with (rmem (wld s1)) in Hr. rewrite phase_key in Hr.
    erewrite kept_hits in Hr; [done|apply (f1_rest _ _ _ _ _ _ _ _ _ H1)|exact Hiso].
Qed.
End candidates.

(** ** The swap *)

(** [new_slot] leaves the new value of the slot in its buffer. *)
Definition writes_slot (new_slot : M Sys unit) (s : Sys) (new : RaceHashSlot) : Prop :=
  ∃ bs, length bs = 8%nat ∧ (∀ m a, slot_at (store_bytes m a bs) a = new) ∧
    new_slot s = Done tt (s <| wld ::= λ w, w <| lmem ::= λ m,
                               store_bytes m (local_cas_target_value_addr (ctx s)) bs |> |>).

Lemma new_slot_update_writes s0 s cur next rest :
  1 <= Cl.num_replication_ (cl s0) → sb_wf (Cl.num_replication_ (cl s0)) cur →
  0 <= hash_fp (hash_info (ctx s)) < 256 → holds_block s0 s cur next rest →
  writes_slot new_slot_update s (block_slot (hash_info (ctx s)) cur).
Proof.
  intros HR Hcur Hh (_ & _ & c & Hc). unfold writes_slot, new_slot_update, get_ctx. unM.
  rewrite Hc, fill_slot_run by done. eexists. split_and!; [|intros m a; by eapply slot_at_store_bytes, block_slot_wf|reflexivity].
  cbn [length pointer block_slot]. by destruct (HashIndexConvert64To40Bits_wf (aget (sb_addr_list cur) 0)) as [-> _].
Qed.

Definition empty_slot : RaceHashSlot := mkSlot 0 0 0 (replicate 5 0).

Lemma new_slot_delete_writes s : writes_slot new_slot_delete s empty_slot.
Proof.
  exists (replicate 8 0). split_and!; [done| |reflexivity]. intros m a.
  change (replicate 8 0) with (fp empty_slot :: kv_len empty_slot :: slot_server_id empty_slot :: pointer empty_slot).
  apply slot_at_store_bytes. by unfold slot_wf, in_u8; split_and!; repeat constructor.
Qed.

(** The swap of slot [p], whose value is [old], and the invalidation of its block. *)
Record swap_prepared (s s5 : Sys) (p : Z * Z) (old new : RaceHashSlot) (pr : KVCASAddr) : Prop := {
  sp_idle : idle s5;
  sp_mm : mm s5 = mm s;
  sp_cl : cl s5 = cl s;
  sp_rmem : rmem (wld s5) = rmem (wld s);
  sp_ctx : ctx s5 = (ctx s) <| kv_modify_pr_cas_list := [pr] |> <| kv_invalid_addr := kv_invalid_addr (ctx s5) |>
             <| consensus_state := KV_CONSENSUS_WIN_ALL |>;
  sp_dead : rw_server_id (kv_invalid_addr (ctx s5)) = slot_server_id old ∧
            rw_r_kv_addr (kv_invalid_addr (ctx s5)) = block_addr old;
  sp_pr : ∃ rk, pr = mkKVCASAddr (index_node (tbl_addr_info (ctx s))) (remote_slot (tbl_addr_info (ctx s)) 0 p.1 p.2)
            (local_cas_return_value_addr (ctx s)) rk (ctx_lkey (ctx s)) (ConvertSlotToInt old) (ConvertSlotToInt new) }.

Lemma modify_prepares (P : Posting) ty new_slot new missing s p r :
  let old := slot_at (lmem (wld s)) (local_slot s p.1 p.2) in
  idle s → knows_node (cl s) (index_node (tbl_addr_info (ctx s))) → knows_node (cl s) (slot_server_id old) →
  single_index ty s → is_cache_hit (ctx s) = false →
  0 <= index_node (tbl_addr_info (ctx s)) < 256 → p ∈ slot_indices →
  f_com_bucket (ctx s) = local_bucket_addr (ctx s) →
  s_com_bucket (ctx s) = local_bucket_addr (ctx s) + 2 * sizeof_RaceHashBucket →
  find_match_kv_idx s = Done r s → 0 <= r → kv_idx_list (ctx s) !! Z.to_nat r = Some p →
  writes_slot new_slot s new →
  ∃ s5 pr, kv_modify_backup_consensus_0_with P new_slot missing s = Done tt s5 ∧
    swap_prepared s s5 p old new pr.
Proof.
  intros old Hid Hk Hk2 [_ Hn [x Hpr] Hbk Hbuf] Hhit Hnode Hp Hf Hsb Er Hr Hidx (bs & Hlen & Hnew & Enew).
  apply elem_of_slot_indices in Hp as [Hb Hi].
  unfold kv_modify_backup_consensus_0_with, get_ctx. unM. rewrite Hhit, andb_false_r, Er.
  rewrite (proj2 (Z.eqb_neq r (-1))) by lia. rewrite Hidx, Enew. set (s4 := set_field wld _ s).
  destruct (swap_slot_run1 s4 p.1 p.2 x) as (rk & ->); try done.
  assert (∀ k, 0 <= k < 8 → lmem (wld s4) (local_slot s4 p.1 p.2 + k) = lmem (wld s) (local_slot s p.1 p.2 + k)) as Hkeep.
  { intros k Hk8. cbn [wld lmem set_field eta_Sys eta_world s4]. apply store_bytes_outside. rewrite Hlen.
    change (local_slot s4 p.1 p.2) with (local_slot s p.1 p.2).
    unfold local_slot, bucket_slot in *. unfold sizeof_RaceHashBucket, sizeof_RaceHashSlot in *. lia. }
  assert (slot_at (lmem (wld s4)) (local_slot s4 p.1 p.2) = old) as -> by (by apply slot_at_ext).
  unfold fill_invalid_addr. unM. set (s5 := set_field ctx _ s4).
  destruct (server_rkey_run (slot_server_id old) s5) as [rk2 ->]; [done|].
  unfold swap_backups, set_ctx. unM. unfold get. change (cl (_ <| ctx ::= _ |>)) with (cl s). rewrite Hn.
  cbn [Z.eqb Pos.eqb]. eexists _, _. split; [reflexivity|]. split; try done.
  exists rk. unfold single_swap. f_equal.
  - change (load64 (lmem (wld s4)) (local_slot s4 p.1 p.2) = ConvertSlotToInt old). unfold old.
    rewrite ConvertSlotToInt_at. apply load_ext. intros k Hk8. f_equal. apply Hkeep. lia.
  - f_equal. apply Hnew.
Qed.

(** ** Publication *)

(** The release of the block of slot [sl] has a defined result: blocks have a
    size, and the shift that marks the subblock in the bitmap, and its word of the
    bitmap, are in range. *)
Definition releasable (m : Cmm.t) (sl : RaceHashSlot) : Prop :=
  let offset := block_addr sl mod Cmm.mm_block_sz_ m in
  let id := u32 (offset / Cmm.subblock_sz_ m) in
  let start := u64 (block_addr sl - offset) in
  0 < Cmm.mm_block_sz_ m ∧ id mod 64 < 32 ∧
  u64 (start + u64 (id / 64 * 8)) <= u64 (start + u64 (Cmm.subblock_sz_ m * Cmm.bmap_block_num_ m)).

Lemma mm_free_run s sl :
  slot_wf sl → releasable (mm s) sl → ∃ m, mm_free (ConvertSlotToInt sl) s = Done tt (s <| mm := m |>).
Proof.
  intros Hwf (_ & Hid & Hb). unfold mm_free. unM. unfold get. rewrite slot_at_store64 by done.
  fold (block_addr sl). unfold int_bit.
  assert (∃ v, (if u32 (block_addr sl mod Cmm.mm_block_sz_ (mm s) / Cmm.subblock_sz_ (mm s)) mod 64 <? 31
     then Some (2 ^ (u32 (block_addr sl mod Cmm.mm_block_sz_ (mm s) / Cmm.subblock_sz_ (mm s)) mod 64))
     else if u32 (block_addr sl mod Cmm.mm_block_sz_ (mm s) / Cmm.subblock_sz_ (mm s)) mod 64 =? 31
     then Some (u64 (- 2 ^ 31)) else None) = Some v) as [v ->].
  { destruct (_ <? 31) eqn:E1; [eauto|]. destruct (_ =? 31) eqn:E2; [eauto|]. zify_bool. lia. }
  rewrite (proj2 (Z.ltb_ge _ _)) by done. eexists. unfold set_mm. unM. destruct s. reflexivity.
Qed.

(** After the swap an update or a deletion releases the old block, and records
    its success and the new slot in the cache. *)
Lemma primary_modified_modify `{F : Fabric} s pr old :
  kv_modify_pr_cas_list (ctx s) = [pr] → is_update_or_delete (req_type (ctx s)) = true →
  Cl.num_idx_rep_ (cl s) = Z.of_nat (length (kv_modify_bk_0_cas_list (ctx s))) + 1 →
  slot_wf old → orig_value pr = ConvertSlotToInt old → releasable (mm s) old →
  ∃ s', primary_modified s = Done tt s' ∧ ret_val (ctx s') = KV_OPS_SUCCESS ∧ wld s' = wld s.
Proof.
  intros Hpr Hreq Hn Hwf Ho Hrel. unfold primary_modified, set_ctx, get_ctx, pr_cas. unM.
  set (s2 := s <| ctx ::= _ |>).
  assert (ctx s2 = (ctx s) <| is_finished := true |> <| ret_val := KV_OPS_SUCCESS |>) as Hc2 by done.
  change (kv_modify_pr_cas_list (ctx s2)) with (kv_modify_pr_cas_list (ctx s)). rewrite Hpr.
  cbn [lookup list_lookup]. change (req_type (ctx s2)) with (req_type (ctx s)). rewrite Hreq, Ho. unfold whenm.
  destruct (mm_free_run s2 old Hwf Hrel) as [m ->]. set (s3 := s2 <| mm := m |>).
  destruct (use_cache (ctx s2)); [|by exists s3].
  case_bool_decide.
  - unfold remove_cache, set_cl. unM. eexists. split; [reflexivity|]. done.
  - unfold get. destruct (slot_addrs_ok (Cl.num_idx_rep_ (cl s3)) (ctx s2) pr Hpr Hn) as [l ->].
    destruct (update_cache_run (key_str (ctx s2)) (slot_at (store64 mem_zero 0 (swap_value pr)) 0) l s3)
      as (e & -> & _). eexists. split; [reflexivity|]. done.
Qed.

(** The byte that the invalidation of a block clears. *)
Definition flag_of (sl : RaceHashSlot) (n y : Z) : Prop := n = slot_server_id sl ∧ y = block_addr sl.

Lemma swap_effect n a e v la lk rk id w :
  load64 (rmem w n) a = e → 0 <= v < 2 ^ 64 →
  let wr := mkWr id (Sge la 8 lk) IBV_WR_ATOMIC_CMP_AND_SWP false a rk e v in
  load64 (lmem (apply_op n wr w)) la = e ∧ load64 (rmem (apply_op n wr w) n) a = v.
Proof.
  intros He Hv wr. pose proof (load_range 8 (rmem w n) a) as Hr. change (load 8 (rmem w n) a) with (load64 (rmem w n) a) in Hr.
  unfold apply_op, wr. cbn [opcode sg remote_addr compare_add swap lmem rmem set_field eta_world].
  rewrite He, Z.eqb_refl. unfold upd_rmem. rewrite Z.eqb_refl, !load64_store64_eq.
  unfold u64. rewrite !Z.mod_small by lia. done.
Qed.

(** The swap of a slot and the invalidation of its old block, in whichever order
    the nodes perform them. *)
Lemma swap_invalidate_effect t p old new wr inv la lk rk id1 id2 rk2 w n2 :
  wr = mkWr id1 (Sge la 8 lk) IBV_WR_ATOMIC_CMP_AND_SWP false (slot_addr t p) rk (ConvertSlotToInt old) (ConvertSlotToInt new) →
  inv = mkWr id2 (SgeInline [0]) IBV_WR_RDMA_WRITE false (block_addr old) rk2 0 0 →
  0 <= index_node t < 256 → n2 = slot_server_id old → 0 <= n2 < 256 →
  index_slot (rmem w) t p = old → slot_wf new → ¬ on_slot t p n2 (block_addr old) →
  let w' := run_ops (ops_of [mkSrList [wr] (index_node t); mkSrList [inv] n2]) w in
  load64 (lmem w') la = ConvertSlotToInt old ∧ republished t p new (flag_of old) (rmem w) (rmem w').
Proof.
  intros Hwr Hinv Hn -> Hn2 Hold Hwf Hdead w'. set (n := index_node t) in *. set (n2 := slot_server_id old) in *.
  assert (u8 n = n ∧ u8 n2 = n2) as [En En2] by (split; apply Z.mod_small; done).
  assert (0 <= ConvertSlotToInt new < 2 ^ 64) as Hv.
  { rewrite <- (slot_at_store64 mem_zero 0 new Hwf), ConvertSlotToInt_at. apply (load_range 8). }
  assert (∀ w0, load64 (rmem (apply_op n2 inv w0) n) (slot_addr t p) = load64 (rmem w0 n) (slot_addr t p)) as Hkeep.
  { intros w0. apply load_ext. intros k Hk. f_equal. apply apply_op_rframe. intros E. rewrite Hinv. unfold rwrites. cbn.
    intros Hy. apply Hdead. split; [done|lia]. }
  assert (∀ w0, lmem (apply_op n2 inv w0) = lmem w0) as Hl by (intros w0; by rewrite Hinv).
  assert (load64 (rmem w n) (slot_addr t p) = ConvertSlotToInt old) as Ho.
  { rewrite <- Hold. unfold index_slot. by rewrite ConvertSlotToInt_at. }
  assert (load64 (lmem w') la = ConvertSlotToInt old ∧ load64 (rmem w' n) (slot_addr t p) = ConvertSlotToInt new) as [Hla Hra].
  { unfold w'. destruct (ops_of_two wr inv n n2) as [->|[_ ->]]; rewrite En, En2; cbn [run_ops foldl].
    - rewrite Hl, Hkeep, Hwr. by apply swap_effect.
    - rewrite Hwr. apply swap_effect; [by rewrite Hkeep|done]. }
  split; [done|]. split.
  - apply ConvertSlotToInt_inj; [apply slot_at_wf|done|]. unfold index_slot. by rewrite ConvertSlotToInt_at.
  - intros m y Hy Hf. apply run_ops_rframe. intros q Hq Hm.
    assert (q = (n, wr) ∨ q = (n2, inv)) as [-> | ->].
    { destruct (ops_of_two wr inv n n2) as [E|[_ E]]; rewrite E, En, En2 in Hq; set_solver. }
    + cbn in Hm. subst m. rewrite Hwr. unfold rwrites. cbn. intros H. apply Hy. split; [done|lia].
    + cbn in Hm. subst m. rewrite Hinv. unfold rwrites. cbn. intros H. apply Hf. split; [done|lia].
Qed.

Lemma modify_publishes `{F : Fabric} `{HF : !QuietFabric F} (P : Posting) `{HP : !PostingOk P} strict ty
    s s5 t p old new pr :
  swap_prepared s s5 p old new pr → tbl_addr_info (ctx s) = t → single_index ty s →
  is_update_or_delete ty = true → remote_slot t 0 p.1 p.2 = slot_addr t p → 0 <= index_node t < 256 →
  index_slot (rmem (wld s)) t p = old → slot_wf new →
  ¬ on_slot t p (slot_server_id old) (block_addr old) → releasable (mm s) old →
  ∃ s', modify_primary_idx_with P strict s5 = Done tt s' ∧ ret_val (ctx s') = KV_OPS_SUCCESS ∧
    republished t p new (flag_of old) (rmem (wld s)) (rmem (wld s')).
Proof.
  intros [Hid Hm Hcl Hr Hctx [Hd1 Hd2] [rk ->]] Et [Hreq Hn _ Hbk _] Hty Erem Hnode Hold Hwf Hdead Hrel.
  rewrite Et, Erem in Hctx. set (pr := mkKVCASAddr _ _ _ _ _ _ _) in Hctx.
  assert (slot_wf old) as Hwo by (rewrite <- Hold; apply slot_at_wf).
  assert (req_type (ctx s5) = ty ∧ kv_modify_pr_cas_list (ctx s5) = [pr] ∧ kv_modify_bk_0_cas_list (ctx s5) = [] ∧
    consensus_state (ctx s5) = KV_CONSENSUS_WIN_ALL) as (Ereq & Epr & Ebk & Ecs) by (rewrite Hctx, <- Hreq, <- Hbk; done).
  unfold modify_primary_idx_with, get_ctx, pr_cas. unM. rewrite Ecs, bool_decide_eq_false_2 by done.
  unfold primary_batch. rewrite Ereq, Hty, Epr.
  set (ls := [gen_cas_sr_lists _ _; gen_invalid_sr_lists _ _ _]).
  rewrite (post_batch_ok ls s5); [|repeat constructor; done|done]. cbn [lookup list_lookup].
  destruct (posted_effect (concat ls) s5) as [El Er]. pose proof (posted_client_side (concat ls) s5) as Ec.
  set (inv := mkWr (ib_gen_wr_id (coro_id (ctx s5)) (rw_server_id (kv_invalid_addr (ctx s5))) INVALID_ST_WRID 1)
    (SgeInline [0]) IBV_WR_RDMA_WRITE false (block_addr old) (rw_rkey (kv_invalid_addr (ctx s5))) 0 0).
  assert (concat ls = [mkSrList [primary_swap s5 pr] (index_node t); mkSrList [inv] (slot_server_id old)]) as Els.
  { unfold ls, inv, gen_invalid_sr_lists. rewrite Hd1, Hd2. reflexivity. }
  destruct (swap_invalidate_effect t p old new (primary_swap s5 pr) inv _ _ _ _ _ _ (wld s5) _
    eq_refl eq_refl Hnode eq_refl (proj1 (proj2 (proj2 Hwo)))) as [Hla Hpub];
    [by rewrite Hr|done|done|].
  rewrite <- Els, <- El in Hla. rewrite <- Els, <- Er, Hr in Hpub. clear El Er Els.
  generalize dependent (posted (concat ls) s5). intros s6 [= Em6 Ecl6 Ectx6] Hla Hpub.
  unfold rd64, get_lmem. unM. unfold get. rewrite Hla.
  change (orig_value pr) with (ConvertSlotToInt old) at 1. rewrite Z.eqb_refl.
  destruct (primary_modified_modify s6 pr old) as (s' & -> & Hret & Hw);
    [by rewrite Ectx6|by rewrite Ectx6, Ereq|by rewrite Ecl6, Ectx6, Ebk, Hcl, Hn|done|done|by rewrite Em6, Hm|].
  exists s'. by rewrite Hw.
Qed.

(** ** A whole modification *)

(** What an update or a deletion finds: the client is ready, and its buffers, its
    new block and the buckets and blocks of the key are apart. *)
Record modifiable (ty : KVRequestType) (s : Sys) (h : KVHashInfo) (t : KVTableAddrInfo)
    (cur next : SubblockInfo) (rest : list SubblockInfo) : Prop := {
  mo_ready : insert_ready s cur next rest;
  mo_search : search_ready s;
  mo_single : single_index ty s;
  mo_located : located s h t;
  mo_layout : insert_layout s t cur;
  mo_slayout : search_layout s;
  mo_miss : cache_misses s;
  mo_known : index_known (cl s) (rmem (wld s)) h t;
  mo_isolated : isolated s cur t h t;
  mo_fit : blocks_fit (rmem (wld s)) h t (Cmm.subblock_sz_ (mm s));
  mo_buffers : local_bucket_addr (ctx s) + 4 * sizeof_RaceHashBucket <= local_kv_addr (ctx s) }.

(** What such a request writes: its block, and the flag of the old block. *)
Definition touched (s : Sys) (cur : SubblockInfo) (old : RaceHashSlot) (n y : Z) : Prop :=
  own_block s cur n y ∨ flag_of old n y.

(** The old block of the key may be invalidated and released: its flag is no byte
    of the new block, of the buckets or of what their other blocks hold. *)
Record replaceable (s : Sys) (h : KVHashInfo) (t : KVTableAddrInfo) (cur : SubblockInfo)
    (old : RaceHashSlot) : Prop := {
  rl_free : releasable (mm s) old;
  rl_block n y : flag_of old n y → ¬ own_block s cur n y;
  rl_apart : undisturbed (rmem (wld s)) (touched s cur old) t h t }.

Section modification.
Context {F : Fabric} {HF : QuietFabric F} (P : Posting) {HP : PostingOk P} (strict : bool).
Context (ty : KVRequestType) (s s1 : Sys) (cur next : SubblockInfo) (rest : list SubblockInfo).
Context (h : KVHashInfo) (t : KVTableAddrInfo) (len tail : Z) (new_slot : M Sys unit) (missing : Z).
Context (Hmo : modifiable ty s h t cur next rest) (H1 : first_phase s s1 h t cur next rest len tail).
Context (Htail : key_tail s <= tail) (Hmiss : missed s s1).

(** The candidates are read; [s3] afterwards. *)
Record candidates_read (s3 : Sys) : Prop := {
  cr_run : kv_modify_read_kv_with P new_slot s1 = Done tt s3;
  cr_idle : idle s3;
  cr_mm : mm s3 = mm s1;
  cr_cl : cl s3 = cl s;
  cr_hash : hash_info (ctx s3) = h;
  cr_tbl : tbl_addr_info (ctx s3) = t;
  cr_block : holds_block s s3 cur next rest;
  cr_single : single_index ty s3;
  cr_flags : is_finished (ctx s3) = false ∧ is_cache_hit (ctx s3) = false ∧ should_stop (ctx s3) = should_stop (ctx s);
  cr_buckets : f_com_bucket (ctx s3) = local_bucket_addr (ctx s3) ∧
    s_com_bucket (ctx s3) = local_bucket_addr (ctx s3) + 2 * sizeof_RaceHashBucket;
  cr_rmem : rmem (wld s3) = rmem (wld s1);
  cr_slot p : p ∈ slot_indices →
    slot_at (lmem (wld s3)) (local_slot s3 p.1 p.2) = index_slot (rmem (wld s)) t p;
  cr_match : ∃ r, find_match_kv_idx s3 = Done r s3 ∧
    match head (hits (rmem (wld s)) h t (request_key s)) with
    | None => r = -1
    | Some p => 0 <= r ∧ kv_idx_list (ctx s3) !! Z.to_nat r = Some p
    end }.

Lemma modify_reads : ∃ s3, candidates_read s3.
Proof.
  destruct Hmo as [Hs Hsr Hsi Hloc Hlay Hsl _ Hkn Hiso Hfit Hbuf].
  destruct (phase_candidates s s1 cur next rest h t len tail H1 Hsr Hsl Hiso Htail Hmiss P new_slot Hfit Hkn)
    as (s3 & E & Hc & _ & Hmatch).
  destruct (phase_fields s s1 cur next rest h t len tail H1) as (_ & Hcl & Eki & Ekv & Eb & Eu & Ef & Esz).
  pose proof Hc as [Hid Hm3 Hcl3 Hctx3 _ Hr3 Hfr3 _].
  change (mm (s1 <| ctx ::= _ |>)) with (mm s1) in *. change (cl (s1 <| ctx ::= _ |>)) with (cl s1) in *.
  change (wld (s1 <| ctx ::= _ |>)) with (wld s1) in *.
  change (local_kv_addr (ctx (s1 <| ctx ::= _ |>))) with (local_kv_addr (ctx s1)) in *.
  pose proof (f1_block _ _ _ _ _ _ _ _ _ H1) as (Hm1 & _ & c & Hc1).
  pose proof (f1_frame _ _ _ _ _ _ _ _ _ H1) as Hf1.
  assert (local_bucket_addr (ctx s3) = local_bucket_addr (ctx s1)) as Eb3 by (by rewrite Hctx3).
  exists s3. split; try done.
  - by rewrite Hcl3.
  - rewrite Hctx3. apply H1.
  - rewrite Hctx3. apply H1.
  - split; [by rewrite Hm3|]. split; [by rewrite Hcl3|]. exists c. rewrite <- Hc1. by rewrite Hctx3.
  - assert (single_index ty s1) as [A1 A2 A3 A4 A5] by (by eapply single_index_frame).
    split; try (rewrite Hctx3; done). by rewrite Hcl3.
  - rewrite Hctx3. split_and!; [done|done|]. change (should_stop (ctx s1) = should_stop (ctx s)). by rewrite Hf1.
  - rewrite Hctx3. done.
  - intros p Hp. rewrite <- (f1_slots _ _ _ _ _ _ _ _ _ H1 p Hp). unfold slot_of.
    apply elem_of_slot_indices in Hp as [Hb Hi]. rewrite local_slot_addr by done.
    apply slot_at_ext. intros k Hk. unfold local_slot, bucket_slot. rewrite Eb3, Eb, Hfr3; [f_equal; lia|].
    rewrite Ekv. unfold sizeof_RaceHashBucket, sizeof_RaceHashSlot in *. lia.
Qed.

(** A key that is not in the index: the request ends with [missing]. *)
Lemma modify_missing :
  head (hits (rmem (wld s)) h t (request_key s)) = None →
  ∃ s3 s5, candidates_read s3 ∧ kv_modify_backup_consensus_0_with P new_slot missing s3 = Done tt s5 ∧
    is_finished (ctx s5) = true ∧ ret_val (ctx s5) = missing ∧ rmem (wld s5) = rmem (wld s1) ∧ mm s5 = mm s1.
Proof.
  intros Hnone. destruct modify_reads as [s3 H3]. pose proof (cr_match _ H3) as (r & Er & Hr).
  rewrite Hnone in Hr. destruct (cr_flags _ H3) as (_ & Hh & _).
  exists s3. unfold kv_modify_backup_consensus_0_with, get_ctx. unM. rewrite Hh, andb_false_r, Er, Hr.
  cbn [Z.eqb Pos.eqb]. unfold finish, set_ctx. unM. eexists. split_and!; [done|reflexivity|done|done|apply H3|apply H3].
Qed.

(** A key whose first slot is [p]. *)
Lemma modify_found p new :
  let old := index_slot (rmem (wld s)) t p in
  head (hits (rmem (wld s)) h t (request_key s)) = Some p → is_update_or_delete ty = true →
  replaceable s h t cur old → slot_wf new →
  (∀ s3, holds_block s s3 cur next rest → hash_info (ctx s3) = h → writes_slot new_slot s3 new) →
  ∃ s3 s5 s', candidates_read s3 ∧ kv_modify_backup_consensus_0_with P new_slot missing s3 = Done tt s5 ∧
    is_finished (ctx s5) = false ∧ should_stop (ctx s5) = should_stop (ctx s) ∧ Cl.num_idx_rep_ (cl s5) = 1 ∧
    modify_primary_idx_with P strict s5 = Done tt s' ∧ ret_val (ctx s') = KV_OPS_SUCCESS ∧
    republished t p new (flag_of old) (rmem (wld s1)) (rmem (wld s')).
Proof.
  intros old Hp Hty [Hfree Hbl Hap] Hwf Hnew. pose proof Hmo as [Hs Hsr Hsi Hloc Hlay _ _ Hkn Hiso _ _].
  destruct modify_reads as [s3 H3]. pose proof (cr_match _ H3) as (r & Er & Hr). rewrite Hp in Hr.
  destruct (cr_flags _ H3) as (Hf & Hh & Hst).
  apply head_elem, elem_of_hits in Hp as [Hp [Hpm _]].
  assert (knows_node (cl s) (slot_server_id old)) as Hko.
  { apply Hkn, list_elem_of_filter. split; [done|by apply list_elem_of_fmap_2]. }
  assert (prepared (cl s) h t) as Hprep by apply H1.
  assert (0 <= index_node t < 256 ∧ knows_node (cl s) (index_node t)) as [Hnode Hki].
  { destruct Hprep as (_ & _ & _ & H). apply H. rewrite (si_rep _ _ Hsi). lia. }
  destruct (modify_prepares P ty new_slot new missing s3 p r) as (s5 & pr & E5 & H5); try apply H3; try done.
  { by rewrite (cr_cl _ H3), (cr_tbl _ H3). }
  { by rewrite (cr_cl _ H3), (cr_slot _ H3 p Hp). }
  { by rewrite (cr_tbl _ H3). } { apply Hr. } { apply Hr. } { apply Hnew; apply H3. }
  rewrite (cr_slot _ H3 p Hp) in H5. fold old in H5.
  destruct (modify_publishes P strict ty s3 s5 t p old new pr) as (s' & E' & Hret & Hpub); try done; try apply H3.
  { destruct p as [b i]. apply remote_slot_addr, (il_addrs _ _ _ Hlay). done. }
  { rewrite (cr_rmem _ H3). eapply kept_slot; [apply (f1_rest _ _ _ _ _ _ _ _ _ H1)|exact Hiso|done]. }
  { intros Hy. pose proof Hy as [En _]. rewrite En in Hy.
    apply (ud_slots _ _ _ _ _ Hap p _ Hp Hy). right. by rewrite <- En. }
  { rewrite (cr_mm _ H3). by destruct (f1_block _ _ _ _ _ _ _ _ _ H1) as (-> & _). }
  exists s3, s5, s'. split_and!; try done.
  - by rewrite (sp_ctx _ _ _ _ _ _ H5).
  - rewrite (sp_ctx _ _ _ _ _ _ H5). exact Hst.
  - rewrite (sp_cl _ _ _ _ _ _ H5), (cr_cl _ H3). apply Hsi.
  - by rewrite <- (cr_rmem _ H3).
Qed.
End modification.

(** ** The operations *)

(** [op] consists of its first phase and the phases above; [ok] is what it asks of
    the flag that tells a fiber to stop. *)
Record made_of (op : M Sys Z) (first : M Sys unit) (P : Posting) `{F : Fabric} (strict : bool)
    (new_slot : M Sys unit) (missing : Z) (ok : option bool → Prop) : Prop := {
  md_missing s s1 s3 s5 :
    first s = Done tt s1 → is_finished (ctx s1) = false → ok (should_stop (ctx s1)) →
    kv_modify_read_kv_with P new_slot s1 = Done tt s3 → is_finished (ctx s3) = false → ok (should_stop (ctx s3)) →
    kv_modify_backup_consensus_0_with P new_slot missing s3 = Done tt s5 → is_finished (ctx s5) = true →
    op s = Done (ret_val (ctx s5)) s5;
  md_found s s1 s3 s5 s' :
    first s = Done tt s1 → is_finished (ctx s1) = false → ok (should_stop (ctx s1)) →
    kv_modify_read_kv_with P new_slot s1 = Done tt s3 → is_finished (ctx s3) = false → ok (should_stop (ctx s3)) →
    kv_modify_backup_consensus_0_with P new_slot missing s3 = Done tt s5 → is_finished (ctx s5) = false →
    ok (should_stop (ctx s5)) → Cl.num_idx_rep_ (cl s5) = 1 →
    modify_primary_idx_with P strict s5 = Done tt s' → op s = Done (ret_val (ctx s')) s' }.

Ltac follow_phases :=
  repeat match goal with
  | H : ?x = Done tt _ |- context [?x] => rewrite H
  | H : ?x = true |- context [?x] => rewrite H
  | H : ?x = false |- context [?x] => rewrite H
  | H : ?x = Some _ |- context [?x] => rewrite H
  | H : Cl.num_idx_rep_ _ = 1 |- _ => rewrite H
  | _ => progress cbn [Z.ltb Z.compare Pos.compare Pos.compare_cont orb whenm]
  | _ => progress cbv beta iota
  end.

Ltac open_phases :=
  split; intros; match goal with H : (prepare_request ;; _) _ = _ |- _ => revert H end;
  unfold kv_update, kv_update_sync, kv_delete, kv_delete_sync, or_return, with_backups, kv_update_read_kv,
    kv_update_read_kv_sync, kv_update_backup_consensus_0, kv_update_backup_consensus_0_sync,
    kv_update_cas_primary, kv_update_cas_primary_sync, kv_delete_read_kv, kv_delete_read_kv_sync,
    kv_delete_backup_consensus_0, kv_delete_backup_consensus_0_sync, kv_delete_cas_primary,
    kv_delete_cas_primary_sync, modify_primary_idx, modify_primary_idx_sync, unless_stopped, ret, get_ctx, get; unM;
  (destruct (prepare_request _) as [[] ?|]; [|done]); intros ->; follow_phases; try done.

Lemma kv_update_sync_made `{F : Fabric} junk spin :
  made_of (kv_update_sync junk spin) (prepare_request ;; kv_update_read_buckets_and_write_kv_sync junk)
    sync_posting false new_slot_update KV_OPS_FAIL_RETURN (λ _, True).
Proof. open_phases. Qed.

Lemma kv_update_made `{F : Fabric} junk spin :
  made_of (kv_update junk spin) (prepare_request ;; kv_update_read_buckets_and_write_kv junk)
    fiber_posting true new_slot_update KV_OPS_FAIL_RETURN (λ o, o = Some false).
Proof. open_phases. Qed.

Lemma kv_delete_sync_made `{F : Fabric} junk spin :
  made_of (kv_delete_sync junk spin) (prepare_request ;; kv_delete_read_buckets_write_log_sync junk)
    sync_posting false new_slot_delete KV_OPS_SUCCESS (λ _, True).
Proof. open_phases. Qed.

Lemma kv_delete_made `{F : Fabric} junk spin :
  made_of (kv_delete junk spin) (prepare_request ;; kv_delete_read_buckets_write_log junk)
    fiber_posting true new_slot_delete KV_OPS_SUCCESS (λ _, True).
Proof. open_phases. Qed.

(** How an operation ends, by the first slot of its key: [s1] after its first
    phase. *)
Lemma modification_ends `{F : Fabric} `{HF : !QuietFabric F} (P : Posting) `{HP : !PostingOk P} op first strict
    new_slot missing ok ty s s1 cur next rest h t len tail new :
  made_of op first P strict new_slot missing ok → modifiable ty s h t cur next rest →
  is_update_or_delete ty = true → ok (should_stop (ctx s)) →
  first s = Done tt s1 → missed s s1 → first_phase s s1 h t cur next rest len tail → key_tail s <= tail →
  slot_wf new →
  (∀ s3, holds_block s s3 cur next rest → hash_info (ctx s3) = h → writes_slot new_slot s3 new) →
  match head (hits (rmem (wld s)) h t (request_key s)) with
  | None => ∃ s', op s = Done missing s' ∧ rmem (wld s') = rmem (wld s1) ∧ mm s' = mm s1
  | Some p =>
      let old := index_slot (rmem (wld s)) t p in
      replaceable s h t cur old →
      ∃ s', op s = Done KV_OPS_SUCCESS s' ∧ republished t p new (flag_of old) (rmem (wld s1)) (rmem (wld s'))
  end.
Proof.
  intros Hop Hmo Hty Hok E1 Hmiss H1 Htail Hwf Hnew.
  assert (is_finished (ctx s1) = false ∧ should_stop (ctx s1) = should_stop (ctx s)) as [Hf1 Hst1]
    by (by rewrite (f1_frame _ _ _ _ _ _ _ _ _ H1)).
  destruct (head _) as [p|] eqn:Ep.
  - intros old Hrl.
    destruct (modify_found P strict ty s s1 cur next rest h t len tail new_slot missing Hmo H1 Htail Hmiss p new
      Ep Hty Hrl Hwf Hnew) as (s3 & s5 & s' & H3 & E5 & Hf5 & Hst5 & Hn5 & E' & Hret & Hpub).
    destruct (cr_flags _ _ _ _ _ _ _ _ _ _ _ H3) as (Hf3 & _ & Hst3).
    exists s'. split; [|done]. rewrite <- Hret.
    eapply (md_found _ _ _ _ _ _ _ Hop); eauto; try congruence; try apply H3.
  - destruct (modify_missing P ty s s1 cur next rest h t len tail new_slot missing Hmo H1 Htail Hmiss Ep)
      as (s3 & s5 & H3 & E5 & Hf5 & Hret & Hr5 & Hm5).
    destruct (cr_flags _ _ _ _ _ _ _ _ _ _ _ H3) as (Hf3 & _ & Hst3).
    exists s5. split; [|done]. rewrite <- Hret.
    eapply (md_missing _ _ _ _ _ _ _ Hop); eauto; try congruence; try apply H3.
Qed.

(** The index after a modification. *)
Section modified.
Context (s s1 : Sys) (cur next : SubblockInfo) (rest : list SubblockInfo) (h : KVHashInfo) (t : KVTableAddrInfo).
Context (len tail : Z) (p : Z * Z) (new : RaceHashSlot) (r' : Z → mem).
Let old := index_slot (rmem (wld s)) t p.
Context (H1 : first_phase s s1 h t cur next rest len tail).
Context (Hp : head (hits (rmem (wld s)) h t (request_key s)) = Some p).
Context (Hpub : republished t p new (flag_of old) (rmem (wld s1)) r').

Lemma modified_changed : changed (rmem (wld s)) r' t p new (touched s cur old).
Proof.
  apply head_elem, elem_of_hits in Hp as [Hpos _].
  exact (first_phase_changed s s1 h t cur next rest len tail p new (flag_of old) r' H1 Hpos Hpub).
Qed.

Lemma modified_other h2 t2 key :
  undisturbed (rmem (wld s)) (touched s cur old) t h2 t2 → key ≠ request_key s → ¬ is_hit r' h2 key new →
  index_lookup r' h2 t2 key = index_lookup (rmem (wld s)) h2 t2 key.
Proof.
  intros Hud Hkey Hnew. eapply lookup_unchanged; [exact modified_changed|exact Hud| |exact Hnew].
  apply head_elem, elem_of_hits in Hp as [_ [_ Hk]]. intros [_ Hk2]. congruence.
Qed.
End modified.

Lemma unmodified_lookup s s1 cur next rest h t len tail h2 t2 key :
  first_phase s s1 h t cur next rest len tail → isolated s cur t h2 t2 →
  index_lookup (rmem (wld s1)) h2 t2 key = index_lookup (rmem (wld s)) h2 t2 key.
Proof. intros H1 His. eapply kept_lookup; [apply (f1_rest _ _ _ _ _ _ _ _ _ H1)|exact His]. Qed.

Lemma key_tail_le s t cur : insert_layout s t cur → key_tail s <= log_tail s.
Proof.
  intros Hlay. unfold key_tail, log_tail. rewrite (il_header _ _ _ Hlay).
  pose proof (load_range 4 (lmem (wld s)) (l_addr (kv_info (ctx s)) + off_value_length)) as Hv.
  change (load 4) with load32 in Hv. lia.
Qed.

(** What an update leaves: [r] before it, [s'] after it. *)
Definition updated (s : Sys) (h : KVHashInfo) (t : KVTableAddrInfo) (cur : SubblockInfo) (op : M Sys Z) : Prop :=
  let r := rmem (wld s) in
  match head (hits r h t (request_key s)) with
  | None =>
      ∃ s', op s = Done KV_OPS_FAIL_RETURN s' ∧ Cmm.last_allocated_info_ (mm s') = cur ∧
        ∀ h2 t2 key, isolated s cur t h2 t2 →
          index_lookup (rmem (wld s')) h2 t2 key = index_lookup r h2 t2 key
  | Some p =>
      let old := index_slot r t p in
      replaceable s h t cur old →
      ∃ s', op s = Done KV_OPS_SUCCESS s' ∧
        index_lookup (rmem (wld s')) h t (request_key s) = Some (request_value s) ∧
        ∀ h2 t2 key, undisturbed r (touched s cur old) t h2 t2 → key ≠ request_key s →
          index_lookup (rmem (wld s')) h2 t2 key = index_lookup r h2 t2 key
  end.

Lemma update_run `{F : Fabric} `{HF : !QuietFabric F} (P : Posting) `{HP : !PostingOk P} op first strict ok
    s s1 cur next rest h t :
  made_of op first P strict new_slot_update KV_OPS_FAIL_RETURN ok →
  modifiable KV_REQ_UPDATE s h t cur next rest → aget (sb_addr_list cur) 0 < 2 ^ 48 → ok (should_stop (ctx s)) →
  first s = Done tt s1 → missed s s1 →
  first_phase s s1 h t cur next rest (Cmm.subblock_sz_ (mm s)) (log_tail s) → updated s h t cur op.
Proof.
  intros Hop Hmo Hlim Hok E1 Hmiss H1. pose proof Hmo as [Hs _ _ _ Hlay _ _ _ _ _ _].
  pose proof (ir_rep _ _ _ _ Hs) as HR. pose proof (ir_cur _ _ _ _ Hs) as Hcur.
  assert (0 <= hash_fp h < 256) as Hfp by apply (f1_prep _ _ _ _ _ _ _ _ _ H1).
  pose proof (modification_ends P op first strict new_slot_update KV_OPS_FAIL_RETURN ok KV_REQ_UPDATE s s1 cur next rest
    h t _ _ (block_slot h cur) Hop Hmo eq_refl Hok E1 Hmiss H1 (key_tail_le _ _ _ Hlay)
    ltac:(by eapply block_slot_wf)) as Hend.
  specialize (Hend ltac:(intros s3 Hb <-; by eapply new_slot_update_writes)).
  unfold updated. cbv zeta. revert Hend. destruct (head _) as [p|] eqn:Ep; intros Hend.
  - intros Hrl. destruct (Hend Hrl) as (s' & E & Hpub). exists s'. split; [done|].
    pose proof (modified_changed s s1 cur next rest h t _ _ p _ _ H1 Ep Hpub) as Hch.
    assert (block_addr (block_slot h cur) = aget (sb_addr_list cur) 0) as Haddr.
    { apply Convert40_exact. destruct (proj2 Hcur 0) as (Hu & Hal & _); [lia|]. unfold in_u64 in Hu. split; [lia|done]. }
    assert (stored s h cur (rmem (wld s'))) as Hst.
    { eapply (first_phase_stored s s1); [exact H1|done|done|apply Hch|apply (rl_block _ _ _ _ _ Hrl)|exact Hpub|done]. }
    split.
    + rewrite <- (proj1 (proj2 (stored_block s h t cur _ Hst Hlay))).
      eapply lookup_replaced; [exact Hch|apply Hrl|done|by eapply stored_hit].
    + intros h2 t2 key Hud Hkey. eapply modified_other; [exact H1|done|exact Hpub|exact Hud|done|].
      intros [_ Hk]. by rewrite (proj1 (stored_block s h t cur _ Hst Hlay)) in Hk.
  - destruct Hend as (s' & E & Hr & Hm). exists s'. split_and!; [done| |].
    { rewrite Hm. by destruct (f1_block _ _ _ _ _ _ _ _ _ H1) as (-> & _). }
    intros h2 t2 key His. rewrite Hr.
    by eapply unmodified_lookup.
Qed.

(** C4. Update with one index replica, on a fabric without interference, in both
    versions, of a key the cache does not know: when the index knows the key, the
    update succeeds, the key has the value of the request, and every other key, in
    whatever buckets it is looked up, has the value it had, as long as its slots
    and blocks are apart from the new block and the flag of the old one.  When the
    index does not know the key, the update fails and changes no value, but its
    block stays allocated.  For fibers the request must not have been told to stop. *)
Theorem kv_update_updates_index `{F : Fabric} `{HF : !QuietFabric F} (junk : mem) (spin : nat) (s : Sys)
    (h : KVHashInfo) (t : KVTableAddrInfo) (cur next : SubblockInfo) (rest : list SubblockInfo) :
  modifiable KV_REQ_UPDATE s h t cur next rest → aget (sb_addr_list cur) 0 < 2 ^ 48 →
  updated s h t cur (kv_update_sync junk spin) ∧
  (should_stop (ctx s) = Some false → updated s h t cur (kv_update junk spin)).
Proof.
  intros Hmo Hlim. pose proof Hmo as [Hs _ Hsi Hloc Hlay _ Hsl _ _ _ _].
  assert (1 <= Cl.num_idx_rep_ (cl s)) as Hrep by (by rewrite (si_rep _ _ Hsi)). split.
  - destruct (update_phase_sync junk s cur next rest h t Hs Hsl Hloc Hlay Hrep) as (s1 & E1 & Hm & H1).
    by eapply (update_run sync_posting); [apply kv_update_sync_made|..].
  - intros Hst. destruct (update_phase junk s cur next rest h t Hs Hsl Hloc Hlay Hrep Hst) as (s1 & E1 & Hm & H1).
    by eapply (update_run fiber_posting); [apply kv_update_made|..].
Qed.

(** What a deletion leaves. *)
Definition deleted (s : Sys) (h : KVHashInfo) (t : KVTableAddrInfo) (cur : SubblockInfo) (op : M Sys Z) : Prop :=
  let r := rmem (wld s) in
  match head (hits r h t (request_key s)) with
  | None =>
      ∃ s', op s = Done KV_OPS_SUCCESS s' ∧
        ∀ h2 t2 key, isolated s cur t h2 t2 →
          index_lookup (rmem (wld s')) h2 t2 key = index_lookup r h2 t2 key
  | Some p =>
      let old := index_slot r t p in
      replaceable s h t cur old →
      ∃ s', op s = Done KV_OPS_SUCCESS s' ∧
        slot_is_free (index_slot (rmem (wld s')) t p) = true ∧
        ((∀ q, q ∈ hits r h t (request_key s) → same_slot t q t p) →
           index_lookup (rmem (wld s')) h t (request_key s) = None) ∧
        ∀ h2 t2 key, undisturbed r (touched s cur old) t h2 t2 → key ≠ request_key s →
          index_lookup (rmem (wld s')) h2 t2 key = index_lookup r h2 t2 key
  end.

Lemma empty_no_hit r h key : ¬ is_hit r h key empty_slot.
Proof. intros [Hm _]. by rewrite (free_no_match h empty_slot) in Hm. Qed.

Lemma delete_run `{F : Fabric} `{HF : !QuietFabric F} (P : Posting) `{HP : !PostingOk P} op first strict
    s s1 cur next rest h t len tail :
  made_of op first P strict new_slot_delete KV_OPS_SUCCESS (λ _, True) →
  modifiable KV_REQ_DELETE s h t cur next rest →
  first s = Done tt s1 → missed s s1 → first_phase s s1 h t cur next rest len tail → key_tail s <= tail →
  deleted s h t cur op.
Proof.
  intros Hop Hmo E1 Hmiss H1 Htail.
  pose proof (modification_ends P op first strict new_slot_delete KV_OPS_SUCCESS _ KV_REQ_DELETE s s1 cur next rest
    h t _ _ empty_slot Hop Hmo eq_refl I E1 Hmiss H1 Htail) as Hend.
  specialize (Hend ltac:(by unfold slot_wf, in_u8; split_and!; repeat constructor)
    ltac:(intros; apply new_slot_delete_writes)).
  unfold deleted. cbv zeta. revert Hend. destruct (head _) as [p|] eqn:Ep; intros Hend.
  - intros Hrl. destruct (Hend Hrl) as (s' & E & Hpub). exists s'. split; [done|].
    pose proof (modified_changed s s1 cur next rest h t _ _ p _ _ H1 Ep Hpub) as Hch. split_and!.
    + by rewrite (cg_slot _ _ _ _ _ _ Hch).
    + intros Hsole. eapply lookup_removed; [exact Hch|apply Hrl|done|apply empty_no_hit].
    + intros h2 t2 key Hud Hkey. eapply modified_other; [exact H1|done|exact Hpub|exact Hud|done|apply empty_no_hit].
  - destruct Hend as (s' & E & Hr & _). exists s'. split; [done|]. intros h2 t2 key His. rewrite Hr.
    by eapply unmodified_lookup.
Qed.

(** C5. Deletion with one index replica, in the same situation and in both
    versions: it succeeds; when the index knows the key, its first slot is free
    afterwards, the key is absent if no other slot referred to it, and every other
    key has the value it had; when the index does not know the key, no value
    changes. *)
Theorem kv_delete_updates_index `{F : Fabric} `{HF : !QuietFabric F} (junk : mem) (spin : nat) (s : Sys)
    (h : KVHashInfo) (t : KVTableAddrInfo) (cur next : SubblockInfo) (rest : list SubblockInfo) :
  modifiable KV_REQ_DELETE s h t cur next rest →
  deleted s h t cur (kv_delete junk spin) ∧ deleted s h t cur (kv_delete_sync junk spin).
Proof.
  intros Hmo. pose proof Hmo as [Hs _ Hsi Hloc Hlay _ Hsl _ _ _ _].
  assert (1 <= Cl.num_idx_rep_ (cl s)) as Hrep by (by rewrite (si_rep _ _ Hsi)).
  pose proof (key_tail_le _ _ _ Hlay) as Htail. pose proof (il_size _ _ _ Hlay) as Hsize.
  assert (u32 (sizeof_KVLogHeader + sizeof_KVLogTail + key_len (kv_info (ctx s))) <= Cmm.subblock_sz_ (mm s)) as Hlen.
  { unfold key_tail, sizeof_KVLogHeader, sizeof_KVLogTail in *. pose proof (sr_key _ (mo_search _ _ _ _ _ _ _ Hmo)).
    pose proof (ir_sz _ _ _ _ Hs). unfold u32. rewrite Z.mod_small; lia. }
  split.
  - destruct (delete_phase junk s cur next rest h t Hs Hsl Hloc Hlay Hrep Hlen) as (s1 & E1 & Hm & H1).
    by eapply (delete_run fiber_posting); [apply kv_delete_made|..].
  - destruct (delete_phase_sync junk s cur next rest h t Hs Hsl Hloc Hlay Hrep Hlen) as (s1 & E1 & Hm & H1).
    by eapply (delete_run sync_posting); [apply kv_delete_sync_made|..].
Qed.

(** ** Examples *)

(** An update or a deletion of the key "file", which node 1 holds in the block at
    4096, by the client of two nodes with one index replica. *)
Definition ex_modify (op : string) (value : list Z) : Sys :=
  (started op value 1) <| wld ::= λ w, w <| rmem := ex_memories |> |>
  <| mm ::= λ m, m <| Cmm.mm_block_sz_ := 65536 |> <| Cmm.bmap_block_num_ := 1 |> |>.

Lemma ex_touched s n y :
  Cl.num_replication_ (cl s) = 2 → Cmm.subblock_sz_ (mm s) = 256 → touched s (example_sb 4096) ex_slot n y →
  (n = 0 ∧ 4096 <= y < 4352) ∨ (n = 1 ∧ 69632 <= y < 69888) ∨ (n = 1 ∧ y = 4096).
Proof.
  intros ER Es [(i & Hi & Hn & Hy)|[Hn Hy]].
  - rewrite ER in Hi. rewrite Es in Hy. assert (i = 0 ∨ i = 1) as [-> | ->] by lia.
    + change (aget (sb_server_id_list (example_sb 4096)) 0) with 0 in Hn.
      change (aget (sb_addr_list (example_sb 4096)) 0) with 4096 in Hy. lia.
    + change (aget (sb_server_id_list (example_sb 4096)) 1) with 1 in Hn.
      change (aget (sb_addr_list (example_sb 4096)) 1) with 69632 in Hy. lia.
  - change (slot_server_id ex_slot) with 1 in Hn. change (block_addr ex_slot) with 4096 in Hy. lia.
Qed.

Lemma ex_block :
  sizeof_KVLogHeader + block_key_len ex_memories ex_slot + block_value_len ex_memories ex_slot = 14.
Proof. vm_compute. reflexivity. Qed.

Lemma ex_undisturbed s :
  rmem (wld s) = ex_memories → Cl.num_replication_ (cl s) = 2 → Cmm.subblock_sz_ (mm s) = 256 →
  undisturbed (rmem (wld s)) (touched s (example_sb 4096) ex_slot) ex_table ex_hash ex_table.
Proof.
  intros -> ER Es. split.
  - intros p y Hp [_ Hy] Ht%ex_touched; [|done..]. destruct (ex_slots p p Hp Hp). lia.
  - intros p q Hp Hq _. by apply ex_slots.
  - intros sl k Hsl Hk. rewrite ex_memories_candidates, list_elem_of_singleton in Hsl. subst sl.
    rewrite ex_block in Hk. change (slot_server_id ex_slot) with 1. change (block_addr ex_slot) with 4096.
    unfold off_key_length in Hk. split.
    + intros Ht%ex_touched; [lia|done..].
    + intros q Hq [_ Hy]. destruct (ex_slots q q Hq Hq). lia.
Qed.

(** Its buffers and its entry. *)
Lemma ex_layout s kv :
  cl s = cl (example_client 1) → Cmm.subblock_sz_ (mm s) = 256 → local_bucket_addr (ctx s) = 300000 →
  kv_info (ctx s) = kv → l_addr kv = 2000 → key_len kv = 4 →
  load16 (lmem (wld s)) 2002 = 4 → log_tail s + sizeof_KVLogTail <= 2256 → 300256 <= local_kv_addr (ctx s) →
  300256 <= local_cache_addr (ctx s) →
  insert_layout s ex_table (example_sb 4096) ∧ search_layout s.
Proof.
  intros Hcl Es Eb Eki Ea Ek Eh Et Ekv Eca. split.
  - split; rewrite ?Eki, ?Ea, ?Ek, ?Es, ?Eb, ?Hcl; try done.
    + intros x. unfold sizeof_RaceHashBucket. lia.
    + change (Cl.num_replication_ (cl (example_client 1))) with 2. intros i j Hi Hj.
      assert (i = 0 ∨ i = 1) as [-> | ->] by lia; assert (j = 0 ∨ j = 1) as [-> | ->] by lia; vm_compute; congruence.
    + intros p y Hp Hy Hon. destruct (ex_slots p p Hp Hp).
      destruct (ex_touched s (index_node ex_table) y) as [?|[?|?]]; [by rewrite Hcl|done| |lia..].
      left. unfold own_block. by rewrite Hcl, Es.
    + intros p Hp. destruct (ex_slots p p Hp Hp). lia.
  - split; [intros x..|]; unfold in_key, in_buckets, in_cache_buf, get_key; rewrite ?Eki, ?Ea, ?Ek, ?Eb, ?Es;
      unfold sizeof_KVLogHeader, sizeof_RaceHashBucket; lia.
Qed.

(** A state of the client that differs from the example above in its request. *)
Lemma ex_modifiable s ty :
  mm s = (mm example_queue) <| Cmm.mm_block_sz_ := 65536 |> <| Cmm.bmap_block_num_ := 1 |> →
  cl s = cl (example_client 1) → rmem (wld s) = ex_memories → idle s →
  root_read s → 0 < entry_size s <= 256 →
  length (log_commit_addr_list (ctx s)) = 2%nat ∧ length (write_unused_addr_list (ctx s)) = 2%nat →
  300256 <= local_kv_addr (ctx s) <= 400000 → single_index ty s → 0 <= key_len (kv_info (ctx s)) →
  location s = (ex_hash, ex_table) → insert_layout s ex_table (example_sb 4096) ∧ search_layout s →
  local_bucket_addr (ctx s) = 300000 →
  modifiable ty s ex_hash ex_table (example_sb 4096) (example_sb 4352) [example_sb 4608].
Proof.
  intros Hm Hcl Hr Hid Hroot Hsize [Hlc Hwu] Hkv Hsi Hkey Eloc [Hlay Hsl] Eb.
  assert (Cl.race_root_ (cl s) = 100000 ∧ Cl.num_replication_ (cl s) = 2 ∧ Cl.num_idx_rep_ (cl s) = 1 ∧
    Cl.server_st_addr_ (cl s) = 0 ∧ Cl.server_data_len_ (cl s) = 2 ^ 32 ∧ Cl.addr_cache_ (cl s) = ∅)
    as (Eroot & ER & Ei & Est & Elen & Ecache) by (by rewrite Hcl).
  assert (Cmm.subblock_sz_ (mm s) = 256 ∧ Cmm.num_replication_ (mm s) = 2 ∧
    Cmm.subblock_free_queue_ (mm s) = [example_sb 4096; example_sb 4352; example_sb 4608] ∧
    Cmm.last_allocated_info_ (mm s) = Cmm.last_allocated_info_ (mm example_queue)) as (Es & Emr & Eq & Ela)
    by (by rewrite Hm).
  assert (aget (sb_addr_list (example_sb 4096)) 0 = 4096) as Eaddr by reflexivity.
  split; try done.
  - split; try done; rewrite ?ER, ?Emr, ?Est, ?Elen, ?Es, ?Hlc, ?Hwu, ?Eaddr, ?Ela; try lia;
      apply example_sb_wf; vm_compute; intuition congruence.
  - split; try done; rewrite ?Ei, ?ER, ?Es; try lia.
    intros key e. rewrite Ecache. intros H. by rewrite lookup_empty in H.
  - pose proof (location_located _ Hroot) as H. by rewrite Eloc in H.
  - intros _. rewrite Ecache. apply lookup_empty.
  - rewrite Hr. unfold index_known. rewrite ex_memories_candidates. intros sl ->%list_elem_of_singleton.
    unfold knows_node. rewrite Hcl. by eexists.
  - eapply undisturbed_weaken; [by apply ex_undisturbed|]. intros n y. by left.
  - rewrite Hr, Es. unfold blocks_fit. rewrite ex_memories_candidates. intros sl ->%list_elem_of_singleton.
    rewrite ex_block. done.
  - rewrite Eb. unfold sizeof_RaceHashBucket. lia.
Qed.

Lemma ex_update_modifiable :
  modifiable KV_REQ_UPDATE (ex_modify "UPDATE" [111; 107]) ex_hash ex_table (example_sb 4096) (example_sb 4352)
    [example_sb 4608].
Proof.
  assert (cl (ex_modify "UPDATE" [111; 107]) = cl (example_client 1)) as Hcl by (vm_compute; reflexivity).
  apply ex_modifiable; [vm_compute; reflexivity|exact Hcl|reflexivity|vm_compute; split; reflexivity
    |apply root_known_read; vm_compute; [discriminate|discriminate|reflexivity]|vm_compute; split; [reflexivity|discriminate]|vm_compute; split; reflexivity
    |vm_compute; split; discriminate| |vm_compute; discriminate|vm_compute; reflexivity| |vm_compute; reflexivity].
  - split; [vm_compute; reflexivity|vm_compute; reflexivity|vm_compute; eauto|vm_compute; reflexivity|vm_compute; discriminate].
  - eapply ex_layout; [exact Hcl|vm_compute; reflexivity|vm_compute; reflexivity|reflexivity|vm_compute; reflexivity
      |vm_compute; reflexivity|vm_compute; reflexivity|vm_compute; discriminate|vm_compute; discriminate|vm_compute; discriminate].
Qed.

Lemma ex_delete_modifiable :
  modifiable KV_REQ_DELETE (ex_modify "DELETE" []) ex_hash ex_table (example_sb 4096) (example_sb 4352)
    [example_sb 4608].
Proof.
  assert (cl (ex_modify "DELETE" []) = cl (example_client 1)) as Hcl by (vm_compute; reflexivity).
  apply ex_modifiable; [vm_compute; reflexivity|exact Hcl|reflexivity|vm_compute; split; reflexivity
    |apply root_known_read; vm_compute; [discriminate|discriminate|reflexivity]|vm_compute; split; [reflexivity|discriminate]|vm_compute; split; reflexivity
    |vm_compute; split; discriminate| |vm_compute; discriminate|vm_compute; reflexivity| |vm_compute; reflexivity].
  - split; [vm_compute; reflexivity|vm_compute; reflexivity|vm_compute; eauto|vm_compute; reflexivity|vm_compute; discriminate].
  - eapply ex_layout; [exact Hcl|vm_compute; reflexivity|vm_compute; reflexivity|reflexivity|vm_compute; reflexivity
      |vm_compute; reflexivity|vm_compute; reflexivity|vm_compute; discriminate|vm_compute; discriminate|vm_compute; discriminate].
Qed.

(** The block at 4096 of node 1 may be released by either. *)
Lemma ex_replaceable s :
  mm s = (mm example_queue) <| Cmm.mm_block_sz_ := 65536 |> <| Cmm.bmap_block_num_ := 1 |> →
  cl s = cl (example_client 1) → rmem (wld s) = ex_memories →
  replaceable s ex_hash ex_table (example_sb 4096) ex_slot.
Proof.
  intros Hm Hcl Hr.
  assert (Cl.num_replication_ (cl s) = 2 ∧ Cmm.subblock_sz_ (mm s) = 256) as [ER Es] by (by rewrite Hcl, Hm).
  split.
  - rewrite Hm. vm_compute. intuition congruence.
  - intros n y Hf Hon. destruct (ex_touched s n y ER Es) as [H|[H|H]]; [by left| | |].
    all: destruct Hf as [Hn Hy]; change (slot_server_id ex_slot) with 1 in Hn; change (block_addr ex_slot) with 4096 in Hy.
    1,2: lia. destruct Hon as (i & Hi & Hn' & Hy'). rewrite ER in Hi. rewrite Es in Hy'.
    assert (i = 0 ∨ i = 1) as [-> | ->] by lia.
    + change (aget (sb_server_id_list (example_sb 4096)) 0) with 0 in Hn'. lia.
    + change (aget (sb_addr_list (example_sb 4096)) 1) with 69632 in Hy'. lia.
  - by apply ex_undisturbed.
Qed.

Lemma ex_modify_state op value :
  (op, value) ∈ [("UPDATE"%string, [111; 107]); ("DELETE"%string, [])] →
  let s := ex_modify op value in
  mm s = (mm example_queue) <| Cmm.mm_block_sz_ := 65536 |> <| Cmm.bmap_block_num_ := 1 |> ∧
  cl s = cl (example_client 1) ∧ rmem (wld s) = ex_memories ∧ request_key s = [102; 105; 108; 101].
Proof.
  intros [[= -> ->]|[[= -> ->]|[]%not_elem_of_nil]%elem_of_cons]%elem_of_cons; cbv zeta;
    (split; [vm_compute; reflexivity|]; split; [vm_compute; reflexivity|]; split; [reflexivity|vm_compute; reflexivity]).
Qed.

(** The outcomes for a key whose first slot is [p]. *)
Lemma updated_found s h t cur op p old key value :
  updated s h t cur op → head (hits (rmem (wld s)) h t (request_key s)) = Some p →
  index_slot (rmem (wld s)) t p = old → replaceable s h t cur old →
  request_key s = key → request_value s = value →
  ∃ s', op s = Done KV_OPS_SUCCESS s' ∧ index_lookup (rmem (wld s')) h t key = Some value.
Proof.
  unfold updated. intros H Ep Eo Hrl <- <-. cbv zeta in H. rewrite Ep in H. rewrite <- Eo in Hrl.
  destruct (H Hrl) as (s' & E & Hl & _). eauto.
Qed.

Lemma deleted_found s h t cur op p old key :
  deleted s h t cur op → hits (rmem (wld s)) h t (request_key s) = [p] →
  index_slot (rmem (wld s)) t p = old → replaceable s h t cur old → request_key s = key →
  ∃ s', op s = Done KV_OPS_SUCCESS s' ∧ index_lookup (rmem (wld s')) h t key = None.
Proof.
  unfold deleted. intros H Eh Eo Hrl <-. cbv zeta in H. rewrite Eh in H. cbn [head] in H. rewrite <- Eo in Hrl.
  destruct (H Hrl) as (s' & E & _ & Hl & _). exists s'. split; [done|]. apply Hl.
  intros q Hq. apply list_elem_of_singleton in Hq as ->. done.
Qed.

Lemma ex_modify_hit op value :
  (op, value) ∈ [("UPDATE"%string, [111; 107]); ("DELETE"%string, [])] →
  let s := ex_modify op value in
  hits (rmem (wld s)) ex_hash ex_table (request_key s) = [(0, 0)] ∧
  index_slot (rmem (wld s)) ex_table (0, 0) = ex_slot ∧
  replaceable s ex_hash ex_table (example_sb 4096) ex_slot ∧ request_key s = [102; 105; 108; 101].
Proof.
  intros Hop s. destruct (ex_modify_state op value Hop) as (Hm & Hcl & Hr & Ek). fold s in Hm, Hcl, Hr, Ek.
  rewrite Ek. split_and!; [rewrite Hr; vm_compute; reflexivity|rewrite Hr; vm_compute; reflexivity| |done].
  by apply ex_replaceable.
Qed.

Lemma ex_update_value :
  request_value (ex_modify "UPDATE" [111; 107]) = [111; 107] ∧
  aget (sb_addr_list (example_sb 4096)) 0 < 2 ^ 48.
Proof. vm_compute. auto. Qed.

Lemma hits_head (l : list (Z * Z)) p : l = [p] → head l = Some p.
Proof. by intros ->. Qed.

Example kv_update_updates_index_witness :
  ∃ s', kv_update_sync (F := quiet_fabric) mem_zero 1 (ex_modify "UPDATE" [111; 107]) = Done KV_OPS_SUCCESS s' ∧
    index_lookup (rmem (wld s')) ex_hash ex_table [102; 105; 108; 101] = Some [111; 107].
Proof.
  destruct (ex_modify_hit "UPDATE" [111; 107]) as (Eh & Eo & Hrl & Ek); [by left|].
  destruct (kv_update_updates_index (F := quiet_fabric) mem_zero 1 _ ex_hash ex_table _ _ _
    ex_update_modifiable (proj2 ex_update_value)) as [H _].
  exact (updated_found _ _ _ _ _ _ _ _ _ H (hits_head _ _ Eh) Eo Hrl Ek (proj1 ex_update_value)).
Defined.

Example kv_delete_updates_index_witness :
  ∃ s', kv_delete (F := quiet_fabric) mem_zero 1 (ex_modify "DELETE" []) = Done KV_OPS_SUCCESS s' ∧
    index_lookup (rmem (wld s')) ex_hash ex_table [102; 105; 108; 101] = None.
Proof.
  destruct (ex_modify_hit "DELETE" []) as (Eh & Eo & Hrl & Ek); [by right; left|].
  destruct (kv_delete_updates_index (F := quiet_fabric) mem_zero 1 _ ex_hash ex_table _ _ _
    ex_delete_modifiable) as [H _].
  exact (deleted_found _ _ _ _ _ _ _ _ H Eh Eo Hrl Ek).
Defined.
