(* ===== verification/Recovery.v ===== *)
(** * Recovery of a crashed client ([src/src/client.cc], [src/src/client_mm.cc])

    A client that restarts reads its log, rebuilds its allocator ([ClientMM]) and
    finishes its last operation, from the log entry: an operation whose entry is
    committed lacks at most the swap of the primary, any other is done again.
    The examples crash an insertion and an update at every crash point of the
    source and recover them. *)

From S2P Require Import Prelude Mem KvUtils HashTable ServerMM Server Rdma ClientState Network ClientMM.
From S2P Require Import BlockMap ClientIndex ClientConsensus ClientOps.

Section recovery.
Context {F : Fabric} (spin : nat).
(** The request context on the stack, whose fields are not initialised, the
    address of the local slot variable of [check_recover_need_cas_pr]. *)
Context (stack_ctx : KVReqCtx) (stack : Z).

(** ** The context *)

(** The tail of the log entry in the buffer of the request. *)
Definition entry_tail (k : KVInfo) : M Sys Z :=
  key_length ← rd16 (l_addr k + off_key_length);
  value_length ← rd32 (l_addr k + off_value_length);
  mret (l_addr k + sizeof_KVLogHeader + key_length + value_length).

Definition init_recover_req_ctx (k : KVInfo) : M Sys unit :=
  tail ← entry_tail k;
  s ← get;
  let n := Cl.num_idx_rep_ (cl s) in
  let R := Z.to_nat (Cl.num_replication_ (cl s)) in
  let m := lmem (wld s) in
  whenm (n <? 1) (stopm Exited) ;;
  set_ctx (λ c, c
    <| req_type := if log_is_committed m tail then KV_REQ_RECOVER_COMMITTED
                   else KV_REQ_RECOVER_UNCOMMITTED |>
    <| kv_info := k |> <| ctx_lkey := Cl.local_buf_lkey (cl s) |>
    <| kv_modify_pr_cas_list ::= vresize 1 KVCASAddr_zero |>
    <| kv_modify_bk_0_cas_list ::= vresize (Z.to_nat (n - 1)) KVCASAddr_zero |>
    <| kv_modify_bk_1_cas_list ::= vresize (Z.to_nat (n - 1)) KVCASAddr_zero |>
    <| log_commit_addr_list ::= vresize R KVRWAddr_zero |>
    <| write_unused_addr_list ::= vresize R KVRWAddr_zero |>) ;;
  if log_is_insert m tail then init_kv_insert_space (Cl.local_buf_ (cl s))
  else init_kv_update_space (Cl.local_buf_ (cl s)).

(** ** Reading the buckets *)

Definition kv_recover_read_all_buckets : M Sys unit :=
  prepare_log_commit_addrs ;;
  c ← get_ctx;
  ls ← gen_read_all_bucket_sr_lists c;
  _ ← rdma_post_sr_lists_sync ls;
  unfinished.
Definition kv_recover_insert_read_all_buckets : M Sys unit := kv_recover_read_all_buckets.
Definition kv_recover_update_read_all_buckets : M Sys unit := kv_recover_read_all_buckets.

Definition is_committed (c : KVReqCtx) : bool :=
  bool_decide (req_type c = KV_REQ_RECOVER_COMMITTED).

(** The swaps of the given slot for the location of the block of the entry.  A
    negative index is outside of the buckets. *)
Definition swap_for_entry (b j : Z) : M Sys RaceHashSlot :=
  c ← get_ctx;
  fill_slot (mm_alloc_ctx c) (hash_info c) (local_cas_target_value_addr c) ;;
  if b <? 0 then stopm Undefined else swap_slot b j.

(** Also with a single index replica, where the list is empty. *)
Definition recover_swap_backups : M Sys unit :=
  c ← get_ctx;
  _ ← rdma_post_sr_lists_sync (gen_cas_sr_lists (coro_id c) (kv_modify_bk_0_cas_list c)); skip.

(** ** Insertion *)

Definition kv_recover_insert_backup_consensus_0 : M Sys unit :=
  c ← get_ctx;
  if is_committed c then check_recover_need_cas_pr stack
  else
    get_local_bucket_info ;;
    (if has_modified_bk_idx c then recover_modified_slots else find_empty_slot) ;;
    c ← get_ctx;
    _ ← swap_for_entry (bucket_idx c) (slot_idx c);
    recover_swap_backups.

Definition recovered_win : M Sys unit :=
  set_ctx (λ c, c <| consensus_state := KV_CONSENSUS_WIN_ALL |> <| is_finished := false |>).

Definition kv_recover_insert_backup_consensus_1 : M Sys unit :=
  c ← get_ctx;
  if is_committed c then recovered_win else modify_backup_idx_consensus_1_sync spin.

Definition kv_recover_insert_commit_log : M Sys unit :=
  c ← get_ctx;
  if is_committed c then unfinished else kv_log_commit_sync.

Definition recover_update_gen_cas_pr_addr : M Sys unit :=
  get_local_bucket_info ;;
  c ← get_ctx;
  p ← of_option (recover_match_idx_list c !! 0%nat);
  old ← swap_for_entry p.1 p.2;
  fill_invalid_addr old.

Definition kv_recover_insert_cas_primary : M Sys unit :=
  c ← get_ctx;
  if is_committed c && negb (committed_need_cas_pr c) then
    set_ctx (λ c, c <| ret_val := KV_OPS_SUCCESS |>)
  else
    whenm (is_committed c) recover_update_gen_cas_pr_addr ;;
    modify_primary_idx_sync.

(** ** Update and deletion *)

Definition kv_recover_update_read_kv : M Sys unit :=
  c ← get_ctx;
  if is_committed c then check_recover_need_cas_pr stack
  else
    find_kv_in_buckets ;;
    c ← get_ctx;
    if existsb (λ r, rw_r_kv_addr r =? aget (addr_list (mm_alloc_ctx c)) 0) (kv_read_addr_list c)
    then finish KV_OPS_SUCCESS
    else read_candidates sync_posting.

Definition kv_recover_update_backup_consensus_0 : M Sys unit :=
  c ← get_ctx;
  if is_committed c then skip
  else
    match_idx ← find_match_kv_idx;
    if match_idx =? -1 then finish KV_OPS_FAIL_RETURN
    else
      p ← of_option (kv_idx_list c !! Z.to_nat match_idx);
      old ← swap_for_entry p.1 p.2;
      fill_invalid_addr old ;;
      recover_swap_backups.

(** The version for fibers, here. *)
Definition kv_recover_update_backup_consensus_1 : M Sys unit :=
  c ← get_ctx;
  if is_committed c then recovered_win else modify_backup_idx_consensus_1 spin.
Definition kv_recover_update_commit_log : M Sys unit := kv_recover_insert_commit_log.
Definition kv_recover_update_cas_primary : M Sys unit := kv_recover_insert_cas_primary.

(** ** The operation *)

Definition kv_recover_insert : M Sys Z :=
  prepare_request ;;
  kv_recover_insert_read_all_buckets ;;
  kv_recover_insert_backup_consensus_0 ;;
  with_backups (kv_recover_insert_backup_consensus_1 ;; kv_recover_insert_commit_log) ;;
  kv_recover_insert_cas_primary ;;
  ret.

Definition kv_recover_update : M Sys Z :=
  prepare_request ;;
  kv_recover_update_read_all_buckets ;;
  kv_recover_update_read_kv ;;
  kv_recover_update_backup_consensus_0 ;;
  with_backups (kv_recover_update_backup_consensus_1 ;; kv_recover_update_commit_log) ;;
  kv_recover_update_cas_primary ;;
  ret.

Definition kv_recover : M Sys Z :=
  set_ctx (λ c, c <| coro_id := 0 |>) ;;
  c ← get_ctx;
  tail ← entry_tail (kv_info c);
  m ← get_lmem;
  _ ← (if log_is_insert m tail then kv_recover_insert else kv_recover_update);
  mret 0.

(** The last entry of the log is read and its operation is finished. *)
Definition client_recovery : M Sys Z :=
  s ← get;
  let r := get_last_log_recover_info (mm s) in
  let input := Cl.input_buf_ (cl s) in
  let total_len := u32 (sizeof_KVLogHeader + rl_key_len r + rl_val_len r + sizeof_KVLogTail) in
  rk ← server_rkey (rl_server_id r);
  _ ← nm_rdma_read_from_sid input (Cl.input_buf_lkey (cl s)) total_len (rl_remote_addr r) rk
        (rl_server_id r);
  modify (λ s, s <| ctx := constructed stack_ctx |>) ;;
  a ← mm_alloc_log_info r (mm_alloc_ctx stack_ctx);
  set_ctx (λ c, c <| mm_alloc_ctx := a |>) ;;
  init_recover_req_ctx (mkKVInfo input (Cl.input_buf_lkey (cl s)) (u32 (rl_key_len r))
                                 (u32 (rl_val_len r))) ;;
  _ ← kv_recover;
  free_recover_buf ;;
  mret 0.
End recovery.

(** ** Examples: a crash at every crash point

    A client inserts a key, or updates it, and stops at a crash point; it
    restarts with an empty cache and with its last log entry, and recovers.  The
    values in the slots of the candidate buckets, on the primary and on the
    backup index, show what became of the operation. *)

Definition state_of {A} (o : outcome Sys A) : Sys := match o with Done _ s | Stopped _ s => s end.

Definition restarted (s : Sys) : Sys :=
  let b := Cmm.last_allocated_info_ (mm s) in
  let e := mkRecoverLogInfo 500000 4 2 (aget (sb_addr_list b) 0) (aget (sb_server_id_list b) 0) in
  s <| cl ::= λ k, k <| Cl.input_buf_ := 2000 |> <| Cl.local_buf_ := 400000 |>
                     <| Cl.addr_cache_ := ∅ |> |>
    <| mm ::= λ m, m <| Cmm.recover_log_info_list_ := [e; e] |> |>.

Definition insert_crashed (p : KVOpsCrashPoint) : Sys :=
  state_of ((example_request "INSERT" [104; 105] ;;
             kv_insert_w_crash (F := quiet_fabric) mem_zero 1 (Some p)) (example_client 2)).
Definition update_crashed (p : KVOpsCrashPoint) : Sys :=
  state_of ((_ ← run_insert [104; 105]; example_request "UPDATE" [111; 107] ;;
             kv_update_w_crash (F := quiet_fabric) mem_zero 1 (Some p)) (example_client 2)).

Definition recovered (s : Sys) : outcome Sys Z :=
  client_recovery (F := quiet_fabric) 1 KVReqCtx_zero 600000 (restarted s).

(** The values of the slots that are in use, on index replica [r]. *)
Definition used_slots (r : Z) (s : Sys) : list Z :=
  let t := tbl_addr_info (ctx s) in
  let at_ (p : Z * Z) := load64 (rmem (wld s) (aget (server_id_list t) r))
    (bucket_slot (if p.1 <? 2 then aget (f_bucket_addr t) r + p.1 * sizeof_RaceHashBucket
                  else aget (s_bucket_addr t) r + (p.1 - 2) * sizeof_RaceHashBucket) p.2) in
  filter (λ v, v ≠ 0) (at_ <$> slot_indices).
Definition index_of (s : Sys) : list Z * list Z := (used_slots 0 s, used_slots 1 s).

(** Before the primary was swapped, an insertion is completed: the primary gets
    the value the backup has, and the key is found. *)
Example unfinished_insert_recovered :
  (λ p, let s := insert_crashed p in
        let o := recovered s in
        (used_slots 0 s, bool_decide (used_slots 0 (state_of o) = used_slots 1 s),
         bool_decide (used_slots 1 (state_of o) = used_slots 1 s),
         answer o, answer (run_search false (state_of o)))) <$>
    [KV_CRASH_UNCOMMITTED_BK_CONSENSUS_0; KV_CRASH_UNCOMMITTED_BK_CONSENSUS_1;
     KV_CRASH_COMMITTED_PR_CAS] =
  replicate 3 ([], true, true, inl 0, inl (300524, [104; 105])).
Proof. by vm_compute. Qed.

(** An update is completed at every crash point. *)
Example update_recovered :
  (λ p, let o := recovered (update_crashed p) in
        (bool_decide (used_slots 0 (state_of o) = used_slots 1 (state_of o)),
         length (used_slots 0 (state_of o)),
         answer o, answer (run_search false (state_of o)))) <$>
    [KV_CRASH_UNCOMMITTED_BK_CONSENSUS_0; KV_CRASH_UNCOMMITTED_BK_CONSENSUS_1;
     KV_CRASH_COMMITTED_PR_CAS; KV_CRASH_COMMITTED_ALL_FINISH] =
  replicate 4 (true, 1%nat, inl 0, inl (300524, [111; 107])).
Proof. by vm_compute. Qed.

(** The entry of an insertion records the old value of the slot, which is 0, and
    an entry with old value 0 is not recognised as committed: an insertion that
    was finished is done again, and its block is in the index twice. *)
Example finished_insert_done_twice :
  let s := insert_crashed KV_CRASH_COMMITTED_ALL_FINISH in
  let s' := state_of (recovered s) in
  (length (used_slots 0 s), length (used_slots 0 s'), length (used_slots 1 s')) = (1, 2, 2)%nat ∧
  used_slots 0 s' = used_slots 0 s ++ used_slots 0 s.
Proof. vm_compute. split; reflexivity. Qed.
