(* ===== verification/StartUp.v ===== *)
(** * Start of a client ([src/src/client.cc], [src/src/nm.cc])

    A client connects to every memory node over UDP, builds its allocator, and
    then either records its log in its meta area and waits for the index (the
    first client creates it), or recovers its last operation.  The creation of
    queue pairs and memory regions by the verbs library is an argument: the end
    of each new queue pair and the address and key of each buffer. *)

From S2P Require Import Prelude Mem KvUtils HashTable ServerMM Server Rdma ClientState Network ClientMM.
From S2P Require Import BlockMap ClientIndex ClientConsensus ClientOps Recovery.

Section start_up.
Context {F : Fabric} (junk : mem) (spin : nat).
(** The local end of the queue pair made for each node. *)
Context (new_qp : Z → QpInfo).
(** The elements of the reserved storage of [mr_info_list_], the buffers and
    their keys. *)
Context (reserved : MrInfo) (recover_base recover_lkey : Z).
Context (local_buf local_lkey race_root race_lkey input_buf input_lkey : Z).
Context (stack_ctx : KVReqCtx) (stack : Z).

(** ** Connections *)

(** [mr_info_list_] is reserved, not resized: its elements are written in the
    reserved storage. *)
Definition UDPCMInitClient (conf : GlobalConfig) : M Sys Z :=
  set_nm (λ n, n <| Nm.num_server_ := memory_num conf |>
                 <| Nm.mr_info_list_ := replicate (Z.to_nat (memory_num conf)) reserved |>) ;;
  mret 0.

Definition client_connect_one_rc_qp (server_id : Z) : M Sys MrInfo :=
  my_id ← get_server_id;
  let request := mkKVMsg REQ_CONNECT (u16 my_id)
                   (conn_info (mkConnInfo (new_qp server_id) (mkMrInfo 0 0))) in
  request ← of_option (serialize_kvmsg request);
  _ ← nm_send_udp_msg_to_server request server_id;
  reply ← nm_recv_udp_msg;
  reply ← of_option (deserialize_kvmsg reply);
  match msg_body reply with
  | conn_info c =>
      s ← get;
      l ← of_option (vset (Z.to_nat server_id) (gc_info c) (Nm.mr_info_list_ (nm s)));
      set_nm (λ n, n <| Nm.mr_info_list_ := l |>) ;;
      mret (gc_info c)
  | mr_info _ => stopm Undefined
  end.

Definition client_connect_all_rc_qp : M Sys Z :=
  n ← get_num_servers;
  forM (zrange 0 n) (λ i, _ ← client_connect_one_rc_qp i; skip) ;;
  mret 0.

Definition connect_ib_qps : M Sys Z :=
  n ← get_num_servers;
  forM (zrange 0 n) (λ i,
    gc_info ← client_connect_one_rc_qp i;
    set_cl (λ k, k <| Cl.server_mr_info_map_ ::= <[i := gc_info]> |>)) ;;
  mret 0.

(** ** The constructor *)

Fixpoint wait_init (fuel : nat) : M Sys unit :=
  match fuel with
  | O => stopm Diverges
  | S fuel' => b ← init_is_finished; if b : bool then skip else wait_init fuel'
  end.

Definition client_fields (conf : GlobalConfig) (k : Cl.t) : Cl.t :=
  let base := server_base_addr conf in
  let idx := u32 (server_id conf - memory_num conf + 1) in
  k <| Cl.num_idx_rep_ := num_idx_rep conf |> <| Cl.num_replication_ := num_replication conf |>
    <| Cl.remote_global_meta_addr_ := base |>
    <| Cl.remote_meta_addr_ := u64 (base + u32 (CLIENT_META_LEN * idx)) |>
    <| Cl.remote_gc_addr_ := u64 (base + META_AREA_LEN + u32 (CLIENT_GC_LEN * idx)) |>
    <| Cl.remote_root_addr_ := u64 (base + META_AREA_LEN + GC_AREA_LEN) |>
    <| Cl.my_server_id_ := server_id conf |> <| Cl.num_memory_ := memory_num conf |>
    <| Cl.miss_rate_threash_ := miss_rate_threash conf |>
    <| Cl.server_st_addr_ := base |> <| Cl.server_data_len_ := server_data_len conf |>.

Definition Client (conf : GlobalConfig) : M Sys unit :=
  set_cl (client_fields conf) ;;
  set_nm (λ n, n <| Nm.server_id_ := server_id conf |>) ;;
  _ ← UDPCMInitClient conf;
  _ ← connect_ib_qps;
  ClientMM.ClientMM junk recover_base recover_lkey conf ;;
  set_cl (λ k, k <| Cl.local_buf_ := local_buf |> <| Cl.local_buf_lkey := local_lkey |>
                 <| Cl.race_root_ := race_root |> <| Cl.race_root_lkey := race_lkey |>
                 <| Cl.input_buf_ := input_buf |> <| Cl.input_buf_lkey := input_lkey |>) ;;
  if is_recovery conf =? 0 then
    s ← get;
    let '(sid, head) := get_log_head (mm s) in
    set_cl (λ k, k <| Cl.pr_log_server_id_ := sid |> <| Cl.pr_log_head_ := head |>
                   <| Cl.pr_log_tail_ := head |>) ;;
    _ ← write_client_meta_info junk;
    _ ← get_race_root;
    if server_id conf =? memory_num conf then
      _ ← init_hash_table junk;
      _ ← sync_init_finish;
      _ ← get_race_root; skip
    else
      wait_init spin ;;
      _ ← get_race_root; skip
  else
    _ ← get_race_root;
    _ ← client_recovery spin stack_ctx stack; skip.
End start_up.

(** ** Connecting, end to end *)

Section connect.
Context (new_qp : Z → QpInfo).

(** The region of a node, as it travels. *)
Definition region (srv : Srv.t) : MrInfo := Smm.get_mr_info (Srv.mm_ srv).

(** The node has recorded the connection of client [id]. *)
Definition knows_client (id : Z) (q : QpInfo) (srv : Srv.t) : Prop :=
  ∃ local, Srv.rc_qp_list_ srv !! id = Some (local, Some q).

Definition qp_wf (q : QpInfo) : Prop := in_u32 (qp_num q) ∧ in_u16 (lid q).

Lemma connect_one_run (s : Sys) (i : Z) (srv : Srv.t) :
  servers s !! i = Some srv → udp_inbox s = [] →
  (Z.to_nat i < length (Nm.mr_info_list_ (nm s)))%nat →
  mr_wf (region srv) → qp_wf (new_qp i) →
  ∃ srv', client_connect_one_rc_qp new_qp i s =
      Done (region srv) (s <| servers := <[i := srv']> (servers s) |>
        <| nm := (nm s) <| Nm.mr_info_list_ := <[Z.to_nat i := region srv]> (Nm.mr_info_list_ (nm s)) |> |>) ∧
    Srv.mm_ srv' = Srv.mm_ srv ∧ knows_client (u16 (Nm.server_id_ (nm s))) (new_qp i) srv'.
Proof.
  intros Hs Hin Hlen Hmr Hqp.
  set (req := mkKVMsg REQ_CONNECT (u16 (Nm.server_id_ (nm s)))
                (conn_info (mkConnInfo (new_qp i) (mkMrInfo 0 0)))).
  assert (kvmsg_wf req) as Hreq.
  { split; [done|split; [apply Z.mod_pos_bound; lia|]]. split; [|done]. destruct Hqp. by split_and!. }
  destruct (serialize_deserialize req Hreq) as (wire & Hw & _).
  destruct (Srv.serve_connect no_qp (srv <| Srv.sent := [] |>) req wire
    (mkConnInfo (new_qp i) (mkMrInfo 0 0)) (Nm.server_id_ (nm s)) Hreq eq_refl eq_refl Hw)
    as (reply & srv' & E1 & M1 & S1 & Q1 & D1).
  { split; [done|]. split; [done|]. exact Hmr. }
  exists srv'. split; [|split; [exact M1|by eexists]].
  unfold client_connect_one_rc_qp, get_server_id, nm_send_udp_msg_to_server, nm_recv_udp_msg,
    vset, set_nm. unM. fold req. rewrite Hw, Hs, E1, S1.
  destruct s as [w n m k c sv u]. cbn [udp_inbox nm servers] in *. subst u. cbn [fmap list_fmap app].
  change (udp_inbox (_ <| udp_inbox ::= _ |>)) with ([reply] : list KVMsg). cbv iota.
  rewrite D1. cbn [msg_body gc_info]. cbv iota.
  change (Nm.mr_info_list_ (nm (_ <| udp_inbox := [] |>))) with (Nm.mr_info_list_ n).
  rewrite (proj2 (Nat.ltb_lt _ _) Hlen). reflexivity.
Qed.

(** C32. Connecting to the memory nodes, end to end: over the serialised messages
    and the request loops of the nodes, [connect_ib_qps] ends with both tables
    of the client holding, for every node, the address and key of the region of
    that node's memory manager; every node has recorded the client's end of the
    connection, no node's memory manager changed, and no message is left over. *)
Theorem connect_ib_qps_correct (s : Sys) (srv : Z → Srv.t) :
  let n := Nm.num_server_ (nm s) in
  0 <= n → length (Nm.mr_info_list_ (nm s)) = Z.to_nat n → udp_inbox s = [] →
  (∀ i, 0 <= i < n → servers s !! i = Some (srv i) ∧ mr_wf (region (srv i)) ∧ qp_wf (new_qp i)) →
  ∃ s', connect_ib_qps new_qp s = Done 0 s' ∧ udp_inbox s' = [] ∧ wld s' = wld s ∧
    ∀ i, 0 <= i < n →
      Cl.server_mr_info_map_ (cl s') !! i = Some (region (srv i)) ∧
      Nm.mr_info_list_ (nm s') !! Z.to_nat i = Some (region (srv i)) ∧
      ∃ srv', servers s' !! i = Some srv' ∧ Srv.mm_ srv' = Srv.mm_ (srv i) ∧
              knows_client (u16 (Nm.server_id_ (nm s))) (new_qp i) srv'.
Proof.
  intros n Hn Hlen Hin Hsrv. set (id := u16 (Nm.server_id_ (nm s))).
  set (I := λ (j : Z) (s' : Sys),
    udp_inbox s' = [] ∧ wld s' = wld s ∧ Nm.server_id_ (nm s') = Nm.server_id_ (nm s) ∧
    length (Nm.mr_info_list_ (nm s')) = Z.to_nat n ∧
    (∀ i, j <= i < n → servers s' !! i = Some (srv i)) ∧
    (∀ i, 0 <= i < j →
      Cl.server_mr_info_map_ (cl s') !! i = Some (region (srv i)) ∧
      Nm.mr_info_list_ (nm s') !! Z.to_nat i = Some (region (srv i)) ∧
      ∃ srv', servers s' !! i = Some srv' ∧ Srv.mm_ srv' = Srv.mm_ (srv i) ∧
              knows_client id (new_qp i) srv')).
  destruct (forM_zrange_inv I 0 n (λ i, gc_info ← client_connect_one_rc_qp new_qp i;
    set_cl (λ k, k <| Cl.server_mr_info_map_ ::= <[i := gc_info]> |>)) s) as (s' & E1 & HI); [done| | |].
  - repeat split; try done; try (intros; lia). intros i Hi. by apply Hsrv.
  - intros i s1 Hi (H1 & H2 & H3 & H4 & H5 & H6).
    destruct (connect_one_run s1 i (srv i)) as (srv' & E1 & M1 & K1);
      [apply H5; lia|done|lia|by apply Hsrv..|].
    eexists. unfold set_cl. unM. rewrite E1. split; [reflexivity|].
    split; [done|]. split; [done|]. split; [done|].
    split; [cbn; by rewrite length_insert|]. split.
    + intros j Hj. cbn. rewrite lookup_insert_ne by lia. apply H5. lia.
    + intros j Hj. cbn. rewrite H3 in K1. destruct (decide (j = i)) as [->|Hne].
      * rewrite !lookup_insert_eq, list_lookup_insert_eq by lia.
        split; [done|]. split; [done|]. by exists srv'.
      * rewrite !lookup_insert_ne by lia. rewrite list_lookup_insert_ne by lia. apply H6. lia.
  - exists s'. unfold connect_ib_qps, get_num_servers. unM. fold n. rewrite E1.
    destruct HI as (H1 & H2 & _ & _ & _ & H6). done.
Qed.
End connect.

(** ** Example: two nodes *)

Definition example_cluster : Sys :=
  blank_sys <| nm ::= λ n, n <| Nm.mr_info_list_ := replicate 2 (mkMrInfo 0 0) |> |>
    <| servers := {[ 0 := Srv.example_server; 1 := Srv.example_server ]} |>.

Definition no_end (i : Z) : QpInfo := mkQpInfo (100 + i) 7 1 [] 0.

Example connect_ib_qps_correct_witness :
  ∃ s', connect_ib_qps no_end example_cluster = Done 0 s' ∧
    Cl.server_mr_info_map_ (cl s') !! 1 = Some (mkMrInfo 0 77).
Proof.
  destruct (connect_ib_qps_correct no_end example_cluster (λ _, Srv.example_server))
    as (s' & E1 & _ & _ & H).
  - done.
  - done.
  - done.
  - intros i Hi. change (0 <= i < 2) in Hi. assert (i = 0 ∨ i = 1) as [-> | ->] by lia;
      repeat split; by vm_compute.
  - exists s'. split; [exact E1|]. apply (H 1). by vm_compute.
Defined.
