(* ===== verification/ClientCR.v ===== *)
(** * The baseline client ([src/src/client_cr.h], [src/src/client_cr.cc])

    [ClientCR] is the client the SNAPSHOT protocol is compared with: it modifies
    the index replicas one after the other, each by a compare-and-swap that is
    repeated with the value found until it succeeds ([iteratively_cas_sync] and
    [iteratively_cas_async]).  The class has the members of [Client], so the model
    works on the same state [Sys].  Members whose text is the one of [client.cc],
    in themselves and in what they call, are the definitions of [ClientIndex] and
    [ClientOps]; the others are written out here. *)

From S2P Require Import Prelude Mem KvUtils HashTable ServerMM Server Rdma ClientState Network ClientMM.
From S2P Require Import BlockMap ClientIndex ClientConsensus ClientOps Recovery StartUp.

Module CR.

(** ** Members that are those of [Client] *)

Section same.
Context {F : Fabric}.

Definition write_race_root : M Sys Z := ClientIndex.write_race_root.
Definition get_key : KVInfo → Z := ClientIndex.get_key.
Definition get_value : KVInfo → Z := ClientIndex.get_value.
Definition get_header : KVInfo → Z := ClientIndex.get_header.
Definition update_cache := ClientIndex.update_cache.
Definition check_cache := ClientIndex.check_cache.
Definition remove_cache := ClientIndex.remove_cache.
Definition poll_completion := Network.poll_completion.
Definition post_sr_lists_and_yield_wait := Network.post_sr_lists_and_yield_wait.
Definition post_sr_list_batch_and_yield_wait := Network.post_sr_list_batch_and_yield_wait.

Definition connect_ib_qps := StartUp.connect_ib_qps.
Definition write_client_meta_info := ClientIndex.write_client_meta_info.
Definition init_hash_table := ClientIndex.init_hash_table.
Definition sync_init_finish := ClientIndex.sync_init_finish.
Definition init_is_finished := ClientIndex.init_is_finished.

Definition get_kv_hash_info := ClientIndex.get_kv_hash_info.
Definition get_kv_addr_info := ClientIndex.get_kv_addr_info.
Definition prepare_request := ClientIndex.prepare_request.
Definition gen_read_bucket_sr_lists := ClientIndex.gen_read_bucket_sr_lists.
Definition gen_read_bucket_sr_lists_on_crash := ClientIndex.gen_read_bucket_sr_lists_on_crash.
Definition gen_read_all_bucket_sr_lists := ClientIndex.gen_read_all_bucket_sr_lists.
Definition gen_write_kv_sr_lists := ClientIndex.gen_write_kv_sr_lists.
Definition gen_write_del_log_sr_lists := ClientIndex.gen_write_del_log_sr_lists.
Definition gen_read_kv_sr_lists := ClientIndex.gen_read_kv_sr_lists.
Definition gen_cas_sr_lists := ClientIndex.gen_cas_sr_lists.
Definition gen_read_cache_kv_sr_lists := ClientIndex.gen_read_cache_kv_sr_lists.
Definition gen_invalid_sr_lists := ClientIndex.gen_invalid_sr_lists.
Definition gen_log_commit_sr_lists := ClientIndex.gen_log_commit_sr_lists.
Definition fill_slot := ClientIndex.fill_slot.
Definition fill_cas_addr := ClientIndex.fill_cas_addr.
Definition fill_invalid_addr := ClientIndex.fill_invalid_addr.

Definition get_local_bucket_info := ClientIndex.get_local_bucket_info.
Definition find_kv_in_buckets := ClientIndex.find_kv_in_buckets.
(** The choice [win_it = begin()] is the one [client.cc] makes, whose
    [min_addr] never changes. *)
Definition find_kv_in_buckets_on_crash := ClientIndex.find_kv_in_buckets_on_crash.
Definition find_empty_slot := ClientIndex.find_empty_slot.
Definition find_match_kv_idx := ClientIndex.find_match_kv_idx.
Definition recover_modified_slots := ClientIndex.recover_modified_slots.
Definition check_failed_index := ClientIndex.check_failed_index.
Definition check_failed_data := ClientIndex.check_failed_data.
Definition find_healthy_idx := ClientIndex.find_healthy_idx.
Definition find_corresponding_addr_info := ClientIndex.find_corresponding_addr_info.
Definition check_recover_need_cas_pr := ClientConsensus.check_recover_need_cas_pr.
Definition crash_server := ClientIndex.crash_server.

Definition kv_search_read_buckets := ClientOps.kv_search_read_buckets.
Definition kv_search_read_buckets_sync := ClientOps.kv_search_read_buckets_sync.
Definition kv_search_read_kv := ClientOps.kv_search_read_kv.
Definition kv_search_read_kv_sync := ClientOps.kv_search_read_kv_sync.
Definition kv_search_check_kv := ClientOps.kv_search_check_kv.
Definition kv_search_read_failed_kv := ClientOps.kv_search_read_failed_kv.
Definition kv_search := ClientOps.kv_search.
Definition kv_search_sync := ClientOps.kv_search_sync.
Definition kv_search_w_cache := ClientOps.kv_search_w_cache.
Definition kv_search_kv := ClientOps.kv_search_kv.
Definition init_kv_search_space := ClientOps.init_kv_search_space.
End same.

(** ** Small differences *)

Section differences.
Context {F : Fabric}.

(** Without the assertion of [client.h]. *)
Definition get_race_root : M Sys Z :=
  s ← get;
  rk ← server_rkey 0;
  _ ← nm_rdma_read_from_sid (Cl.race_root_ (cl s)) (Cl.race_root_lkey (cl s))
        sizeof_RaceHashRoot (Cl.remote_root_addr_ (cl s)) rk 0;
  mret 0.

Definition fill_heartbeat_addr (server_id : Z) : M Sys KVRWAddr :=
  s ← get;
  rk ← server_rkey server_id;
  mret (mkKVRWAddr server_id (Cl.remote_global_meta_addr_ (cl s)) (Cl.local_buf_ (cl s)) rk
          (Cl.local_buf_lkey (cl s)) 0).

(** [delete_cache]: was the key in the cache?  A key that fills the buffer of 256
    bytes, or overflows it, is not a string. *)
Definition delete_cache (k : KVInfo) : M Sys bool :=
  s ← get;
  let key := load_bytes (key_len k) (lmem (wld s)) (get_key k) in
  whenm ((256 <? key_len k) || ((key_len k =? 256) && forallb (λ b, negb (b =? 0)) key))
    (stopm Undefined) ;;
  set_cl (λ k, k <| Cl.addr_cache_ ::= delete (c_string key) |>) ;;
  mret (bool_decide (is_Some (Cl.addr_cache_ (cl s) !! c_string key))).

(** The comparison uses the size of a pointer where the size of the header is
    meant; both are 8. *)
Definition check_key (s : Sys) (log_header : Z) (k : KVInfo) : bool :=
  CheckKey (lmem (wld s)) (log_header + 8) (load16 (lmem (wld s)) (log_header + off_key_length))
    (get_key k) (key_len k).

(** The links of the log entry, without the node of the neighbours. *)
Definition update_log_tail (tail : Z) (a : ClientMMAllocCtx) : M Sys unit :=
  wr_bytes (tail + off_next_addr) (HashIndexConvert64To40Bits (aget (next_addr_list a) 0)) ;;
  wr_bytes (tail + off_prev_addr) (HashIndexConvert64To40Bits (aget (prev_addr_list a) 0)).

Definition prepare_log_commit_addrs : M Sys unit :=
  s ← get;
  let c := ctx s in
  let a := mm_alloc_ctx c in
  let header := l_addr (kv_info c) in
  key_length ← rd16 (header + off_key_length);
  value_length ← rd32 (header + off_value_length);
  let tail_offset := u32 (sizeof_KVLogHeader + key_length + value_length) in
  let commit_offset := u32 (tail_offset + off_old_value) in
  let n := Cl.num_replication_ (cl s) in
  commit ← of_option (mapM (λ i : Z,
    o ← log_commit_addr_list c !! Z.to_nat i;
    Some (mkKVRWAddr (aget (ac_server_id_list a) i) (u64 (aget (addr_list a) i + commit_offset))
            (rw_l_kv_addr o) (aget (rkey_list a) i) (rw_lkey o) (rw_length o))) (zrange 0 n));
  set_ctx (λ c, c <| log_commit_addr_list ::= λ l, commit ++ drop (Z.to_nat n) l |>).

(** The commit word is followed by a checksum of [0xF].  The code stores that
    byte as a 64-bit word at the end of an allocation of nine bytes; the seven
    bytes past its end are zero and nobody reads them. *)
Definition kv_log_commit_with (P : Posting) : M Sys unit :=
  c ← get_ctx;
  pr ← pr_cas c;
  ls ← gen_log_commit_sr_lists (coro_id c) (le_bytes 8 (orig_value pr) ++ [0xF])
         (log_commit_addr_list c);
  _ ← post_lists P ls;
  set_ctx (λ c, c <| is_finished := false |>).
Definition kv_log_commit : M Sys unit := kv_log_commit_with fiber_posting.
Definition kv_log_commit_sync : M Sys unit := kv_log_commit_with sync_posting.

(** The slot to read instead of a cached one on a crashed node, by the address
    translation table; a block that is not in the table is a null pointer. *)
Definition check_failed_cache (e : LocalCacheEntry) : M Sys (option RaceHashSlot) :=
  s ← get;
  let cached := l_slot_ptr e in
  if is_crashed s (slot_server_id cached) then
    let target_addr := HashIndexConvert40To64Bits (pointer cached) in
    info ← of_option (find_corresponding_addr_info s (slot_server_id cached) target_addr);
    h ← of_option (find_healthy_idx s (slot_server_id cached) target_addr);
    let new_addr := u64 (aget (ma_addr_list info) h + (target_addr - aget (ma_addr_list info) 0)) in
    mret (Some (mkSlot (fp cached) (kv_len cached) (aget (ma_server_id_list info) h)
                  (HashIndexConvert64To40Bits new_addr)))
  else mret (Some cached).

(** The entries of a meta area, from [addr] to the first one without a type; the
    fuel is the number of entries in the area, past which the code reads what the
    buffer held before. *)
Fixpoint scan_meta (fuel : nat) (addr : Z) : M Sys unit :=
  match fuel with
  | O => stopm Undefined
  | S fuel' =>
      m ← get_lmem;
      let ty := load8 m addr in
      if ty =? 0 then skip
      else
        whenm (ty =? TYPE_KVBLOCK)
          (set_cl (λ k, k <| Cl.meta_addr_info_ ::= λ l, l ++
            [mkMetaAddrInfo ty (load_bytes MAX_REP_NUM m (addr + 1))
               ((λ i, load64 m (addr + 16 + 8 * i)) <$> zrange 0 MAX_REP_NUM)] |>)) ;;
        scan_meta fuel' (addr + sizeof_ClientMetaAddrInfo)
  end.

(** The first node of the meta area that has not crashed, or the number of
    replicas. *)
Definition healthy_meta_server (s : Sys) : Z :=
  match list_find (λ i, is_crashed s i = false) (zrange 0 (Cl.num_replication_ (cl s))) with
  | Some (_, i) => i
  | None => Z.max 0 (Cl.num_replication_ (cl s))
  end.

Definition get_addr_translate_table (server_ids : list Z) : M Sys unit :=
  forM (imap (λ (i : nat) sid, (Z.of_nat i, sid)) server_ids) (λ '(i, sid),
    s ← get;
    let local_addr := Cl.local_buf_ (cl s) + i * CLIENT_META_LEN in
    let remote_addr := u64 (Cl.remote_global_meta_addr_ (cl s)
                            + u32 (CLIENT_META_LEN * u32 (sid - Cl.num_memory_ (cl s) + 1))) in
    let h := healthy_meta_server s in
    rk ← server_rkey h;
    _ ← nm_rdma_read_from_sid_sync local_addr (Cl.local_buf_lkey (cl s)) CLIENT_META_LEN
          remote_addr rk h;
    scan_meta (Z.to_nat (CLIENT_META_LEN / sizeof_ClientMetaAddrInfo))
      (local_addr + sizeof_ClientLogMetaInfo)).

(** *** Request contexts *)

(** The list for the unused log entries is not sized. *)
Definition init_kv_req_ctx (k : KVInfo) (operation : string) : M Sys unit :=
  s ← get;
  let n := Cl.num_idx_rep_ (cl s) in
  let R := Z.to_nat (Cl.num_replication_ (cl s)) in
  whenm (n <? 1) (stopm Exited) ;;
  let key := load_bytes (key_len k) (lmem (wld s)) (get_key k) in
  whenm ((128 <? key_len k) || ((key_len k =? 128) && forallb (λ b, negb (b =? 0)) key))
    (stopm Undefined) ;;
  set_ctx (λ c, c <| kv_info := k |> <| ctx_lkey := Cl.local_buf_lkey (cl s) |>
    <| kv_modify_pr_cas_list ::= vresize 1 KVCASAddr_zero |>
    <| kv_modify_bk_0_cas_list ::= vresize (Z.to_nat (n - 1)) KVCASAddr_zero |>
    <| kv_modify_bk_1_cas_list ::= vresize (Z.to_nat (n - 1)) KVCASAddr_zero |>
    <| log_commit_addr_list ::= vresize R KVRWAddr_zero |>
    <| key_str := c_string key |> <| req_type := req_type_of operation |>).

Definition init_kv_insert_space (coro_local_addr : Z) : M Sys unit :=
  let target := coro_local_addr + 4 * sizeof_RaceHashBucket in
  set_ctx (λ c, c <| use_cache := true |> <| local_bucket_addr := coro_local_addr |>
    <| local_cas_target_value_addr := target |> <| local_cas_return_value_addr := target + 8 |>).

Definition init_kv_update_space (coro_local_addr : Z) : M Sys unit :=
  s ← get;
  let target := coro_local_addr + 16 * sizeof_RaceHashBucket in
  set_ctx (λ c, c <| use_cache := true |> <| local_bucket_addr := coro_local_addr |>
    <| local_kv_addr := target |> <| local_cas_target_value_addr := target |>
    <| local_cas_return_value_addr := target + 8 |>
    <| local_cache_addr := target + 8 * Cl.num_replication_ (cl s) |>).

Definition init_kv_delete_space (coro_local_addr : Z) : M Sys unit :=
  let target := coro_local_addr + 4 * sizeof_RaceHashBucket in
  set_ctx (λ c, c <| use_cache := true |> <| local_bucket_addr := coro_local_addr |>
    <| local_cache_addr := target |> <| local_kv_addr := target |>
    <| local_cas_target_value_addr := target |> <| local_cas_return_value_addr := target + 8 |>).

Definition init_kvreq_space (coro coro_local_addr : Z) : M Sys unit :=
  set_ctx (λ c, c <| coro_id := coro |>) ;;
  c ← get_ctx;
  match req_type c with
  | KV_REQ_INSERT => init_kv_insert_space coro_local_addr
  | KV_REQ_SEARCH => init_kv_search_space coro_local_addr
  | KV_REQ_UPDATE => init_kv_update_space coro_local_addr
  | KV_REQ_DELETE => init_kv_delete_space coro_local_addr
  | _ => set_ctx (λ c, c <| req_type := KV_REQ_SEARCH |>) ;; init_kv_search_space coro_local_addr
  end.
End differences.

(** ** Repeated compare-and-swap *)

Section operations.
Context {F : Fabric} (junk : mem).
(** How many rounds of a repeated swap are followed; a swap that has not
    succeeded by then is [Diverges]. *)
Context (retries : nat).

(** Where a request puts the value it swapped out. *)
Definition swap_back_addr (wr : ibv_send_wr) : option Z :=
  match sg wr with Sge a _ _ => Some a | SgeInline _ => None end.

(** The only request of a list. *)
Definition single_wr (l : IbvSrList) : M Sys ibv_send_wr :=
  assertm (num_sr l =? 1) ;; of_option (head (sr_list l)).

(** The loop on one request: it is posted until the value at [swap_back] is the
    expected one, which becomes the value found. *)
Fixpoint cas_until (P : Posting) (fuel : nat) (sid swap_back : Z) (wr : ibv_send_wr) : M Sys unit :=
  match fuel with
  | O => stopm Diverges
  | S fuel' =>
      ret ← post_lists P [mkSrList [wr] sid];
      assertm (ret =? 0) ;;
      v ← rd64 swap_back;
      if v =? compare_add wr then skip
      else cas_until P fuel' sid swap_back (wr <| compare_add := v |>)
  end.

Definition iteratively_cas_sync (sr_lists : list IbvSrList) : M Sys unit :=
  forM sr_lists (λ l,
    wr ← single_wr l;
    swap_back ← of_option (swap_back_addr wr);
    cas_until sync_posting retries (sr_server_id l) swap_back wr).

(** The version for fibers looks at the value swapped out by the first list,
    whichever list it is at. *)
Definition iteratively_cas_async (sr_lists : list IbvSrList) : M Sys unit :=
  forM sr_lists (λ l,
    wr ← single_wr l;
    first ← of_option (head sr_lists ≫= λ l0, head (sr_list l0));
    swap_back ← of_option (swap_back_addr first);
    cas_until fiber_posting retries (sr_server_id l) swap_back wr).

(** ** Publication *)

(** After a swap of the primary whose first round succeeded. *)
Definition primary_modified : M Sys unit :=
  set_ctx (λ c, c <| is_finished := true |> <| ret_val := KV_OPS_SUCCESS |>) ;;
  c ← get_ctx;
  pr ← pr_cas c;
  if use_cache c then
    if bool_decide (req_type c = KV_REQ_DELETE) then remove_cache (key_str c)
    else
      s ← get;
      addrs ← of_option (slot_addrs (Cl.num_idx_rep_ (cl s)) c);
      update_cache (key_str c) (slot_at (store64 mem_zero 0 (swap_value pr)) 0) addrs
  else skip.

(** After one that had to be repeated. *)
Definition primary_repeated : M Sys unit :=
  c ← get_ctx;
  s ← get;
  match req_type c with
  | KV_REQ_INSERT =>
      set_ctx (λ c, c <| ret_val := KV_OPS_FAIL_REDO |> <| is_finished := true |>) ;;
      mm_free_cur (mm_alloc_ctx c)
  | KV_REQ_UPDATE =>
      set_ctx (λ c, c <| ret_val := KV_OPS_SUCCESS |> <| is_finished := true |>) ;;
      whenm (Cl.num_idx_rep_ (cl s) =? 1) (mm_free_cur (mm_alloc_ctx c))
  | KV_REQ_DELETE =>
      set_ctx (λ c, c <| ret_val := KV_OPS_SUCCESS |> <| is_finished := true |>)
  | _ => skip
  end.

Definition modify_primary_idx_with (P : Posting) (cas : list IbvSrList → M Sys unit) : M Sys unit :=
  c ← get_ctx;
  if bool_decide (consensus_state c = KV_CONSENSUS_FAIL) then
    if bool_decide (req_type c = KV_REQ_INSERT) then
      set_ctx (λ c, c <| ret_val := KV_OPS_FAIL_REDO |>) ;; mm_free_cur (mm_alloc_ctx c)
    else skip
  else
    cas (gen_cas_sr_lists (coro_id c) (kv_modify_pr_cas_list c)) ;;
    _ ← post_batch P (if is_update_or_delete (req_type c)
                      then [gen_invalid_sr_lists (coro_id c) (kv_invalid_addr c) 0] else []);
    pr ← pr_cas c;
    v ← rd64 (cas_l_kv_addr pr);
    if v =? orig_value pr then primary_modified else primary_repeated.

Definition modify_primary_idx : M Sys unit :=
  modify_primary_idx_with fiber_posting iteratively_cas_async.
Definition modify_primary_idx_sync : M Sys unit :=
  modify_primary_idx_with sync_posting iteratively_cas_sync.

(** The backups, one after the other. *)
Definition swap_backups (cas : list IbvSrList → M Sys unit) : M Sys unit :=
  s ← get;
  if Cl.num_idx_rep_ (cl s) =? 1 then
    set_ctx (λ c, c <| consensus_state := KV_CONSENSUS_WIN_ALL |>)
  else cas (gen_cas_sr_lists (coro_id (ctx s)) (kv_modify_bk_0_cas_list (ctx s))).

(** ** Search with crashed nodes *)

Definition cache_probe_on_crash : M Sys (list (list IbvSrList)) :=
  c ← get_ctx;
  if use_cache c then
    hit ← check_cache (key_str c);
    set_ctx (λ c, c <| is_local_cache_hit := bool_decide (is_Some hit) |>) ;;
    match hit with
    | None => mret []
    | Some key =>
        e ← cache_entry_of (Some key);
        healthy ← check_failed_cache e;
        slot ← of_option healthy;
        set_cl (λ k, k <| Cl.addr_cache_ ::=
          <[key := mkLocalCacheEntry (r_slot_addr e) slot (miss_cnt e) (acc_cnt e)]> |>) ;;
        l ← gen_read_cache_kv_sr_lists (coro_id c) slot (local_cache_addr c);
        set_ctx (λ c, c <| cache_entry := Some key |>) ;;
        mret [l]
    end
  else mret [].

Definition kv_search_read_all_healthy_index : M Sys unit :=
  kv_search_read_with fiber_posting gen_read_bucket_sr_lists_on_crash cache_probe_on_crash.

Definition kv_search_on_crash : M Sys Z :=
  prepare_request ;;
  check_failed_index ;;
  c ← get_ctx;
  (if failed_pr_index c then kv_search_read_all_healthy_index else kv_search_read_buckets) ;;
  kv_search_read_failed_kv ;;
  kv_search_check_kv ;;
  ret.

(** ** Log entries *)

(** The header and the tail of the entry are marked (two different bytes), a
    block is allocated for it, and the entry is linked into the log. *)
Definition log_entry (op : KVLogOp) (tail size : Z) : M Sys bool :=
  c ← get_ctx;
  wr8 (l_addr (kv_info c) + off_is_valid) 1 ;;
  wr8 (tail + off_op) (KVLogOp_val op) ;;
  a ← mm_alloc junk size (mm_alloc_ctx c);
  set_ctx (λ c, c <| mm_alloc_ctx := a |>) ;;
  s ← get;
  let addr := aget (addr_list a) 0 in
  let st := Cl.server_st_addr_ (cl s) in
  if (addr <? st) || (u64 (st + Cl.server_data_len_ (cl s)) <=? addr) then
    finish KV_OPS_FAIL_RETURN ;; mret false
  else
    update_log_tail tail a ;;
    prepare_log_commit_addrs ;;
    mret true.

(** The tail of the entry and its size, with or without the tail. *)
Definition entry_layout (with_tail : bool) : M Sys (Z * Z) :=
  c ← get_ctx;
  let h := l_addr (kv_info c) in
  key_length ← rd16 (h + off_key_length);
  value_length ← rd32 (h + off_value_length);
  mret (h + sizeof_KVLogHeader + key_length + value_length,
        u32 (key_length + value_length + sizeof_KVLogHeader
             + (if with_tail then sizeof_KVLogTail else 0))).

(** ** Insertion *)

Definition kv_insert_write_with (P : Posting) (with_tail : bool) : M Sys unit :=
  '(tail, kv_block_size) ← entry_layout with_tail;
  ok ← log_entry KV_OP_INSERT tail kv_block_size;
  if ok : bool then
    c ← get_ctx;
    w ← gen_write_kv_sr_lists c (kv_info c) (mm_alloc_ctx c);
    _ ← post_batch P [w; gen_read_bucket_sr_lists c];
    unfinished
  else skip.

(** Only the synchronous version allocates room for the tail. *)
Definition kv_insert_read_buckets_and_write_kv : M Sys unit :=
  kv_insert_write_with fiber_posting false.
Definition kv_insert_read_buckets_and_write_kv_sync : M Sys unit :=
  kv_insert_write_with sync_posting true.

Definition kv_insert_backup_consensus_0_with (cas : list IbvSrList → M Sys unit) : M Sys unit :=
  find_empty_slot ;;
  c ← get_ctx;
  if bucket_idx c =? -1 then finish KV_OPS_FAIL_RETURN ;; mm_free_cur (mm_alloc_ctx c)
  else
    fill_slot (mm_alloc_ctx c) (hash_info c) (local_cas_target_value_addr c) ;;
    _ ← swap_slot (bucket_idx c) (slot_idx c);
    swap_backups cas.

Definition kv_insert_backup_consensus_0 : M Sys unit :=
  kv_insert_backup_consensus_0_with iteratively_cas_async.
Definition kv_insert_backup_consensus_0_sync : M Sys unit :=
  unless_finished (kv_insert_backup_consensus_0_with iteratively_cas_sync).
Definition kv_insert_commit_log : M Sys unit := unless_finished kv_log_commit.
Definition kv_insert_commit_log_sync : M Sys unit := unless_finished_or_stopped kv_log_commit_sync.
Definition kv_insert_cas_primary : M Sys unit := unless_finished modify_primary_idx.
Definition kv_insert_cas_primary_sync : M Sys unit := unless_finished modify_primary_idx_sync.

(** ** Update and deletion *)

Definition kv_update_write_with (P : Posting) : M Sys unit :=
  '(tail, kv_block_size) ← entry_layout false;
  ok ← log_entry KV_OP_UPDATE tail kv_block_size;
  if ok : bool then
    cached ← cache_probe;
    c ← get_ctx;
    w ← gen_write_kv_sr_lists c (kv_info c) (mm_alloc_ctx c);
    _ ← post_batch P (w :: gen_read_bucket_sr_lists c :: cached);
    unfinished
  else skip.

Definition kv_update_read_buckets_and_write_kv : M Sys unit := kv_update_write_with fiber_posting.
Definition kv_update_read_buckets_and_write_kv_sync : M Sys unit := kv_update_write_with sync_posting.

(** Both versions place the tail of a deletion after the key, and clear it. *)
Definition kv_delete_write_with (P : Posting) : M Sys unit :=
  c ← get_ctx;
  let h := l_addr (kv_info c) in
  key_length ← rd16 (h + off_key_length);
  let tail := h + sizeof_KVLogHeader + key_length in
  wr_bytes tail (replicate (Z.to_nat sizeof_KVLogTail) 0) ;;
  ok ← log_entry KV_OP_DELETE tail (u32 (sizeof_KVLogHeader + key_length + sizeof_KVLogTail));
  if ok : bool then
    c ← get_ctx;
    w ← gen_write_del_log_sr_lists c (kv_info c) (mm_alloc_ctx c);
    cached ← cache_probe;
    _ ← post_batch P (gen_read_bucket_sr_lists c :: w :: cached);
    unfinished
  else skip.

Definition kv_delete_read_buckets_write_log : M Sys unit := kv_delete_write_with fiber_posting.
Definition kv_delete_read_buckets_write_log_sync : M Sys unit := kv_delete_write_with sync_posting.

Definition kv_update_read_kv : M Sys unit := ClientOps.kv_update_read_kv.
Definition kv_update_read_kv_sync : M Sys unit := ClientOps.kv_update_read_kv_sync.
Definition kv_delete_read_kv : M Sys unit := ClientOps.kv_delete_read_kv.
Definition kv_delete_read_kv_sync : M Sys unit := ClientOps.kv_delete_read_kv_sync.

Definition kv_modify_backup_consensus_0_with (cas : list IbvSrList → M Sys unit)
    (new_slot : M Sys unit) (missing : Z) : M Sys unit :=
  c ← get_ctx;
  if use_cache c && is_cache_hit c then swap_backups cas
  else
    match_idx ← find_match_kv_idx;
    if match_idx =? -1 then finish missing
    else
      p ← of_option (kv_idx_list c !! Z.to_nat match_idx);
      new_slot ;;
      old ← swap_slot p.1 p.2;
      fill_invalid_addr old ;;
      swap_backups cas.

Definition kv_update_backup_consensus_0 : M Sys unit :=
  unless_stopped (kv_modify_backup_consensus_0_with iteratively_cas_async new_slot_update
                    KV_OPS_FAIL_RETURN).
Definition kv_update_backup_consensus_0_sync : M Sys unit :=
  kv_modify_backup_consensus_0_with iteratively_cas_sync new_slot_update KV_OPS_FAIL_RETURN.
Definition kv_delete_backup_consensus_0 : M Sys unit :=
  kv_modify_backup_consensus_0_with iteratively_cas_async new_slot_delete KV_OPS_SUCCESS.
Definition kv_delete_backup_consensus_0_sync : M Sys unit :=
  kv_modify_backup_consensus_0_with iteratively_cas_sync new_slot_delete KV_OPS_SUCCESS.

Definition kv_update_commit_log : M Sys unit := unless_stopped kv_log_commit.
Definition kv_update_commit_log_sync : M Sys unit := kv_log_commit_sync.
Definition kv_update_cas_primary : M Sys unit := unless_stopped modify_primary_idx.
Definition kv_update_cas_primary_sync : M Sys unit := modify_primary_idx_sync.
Definition kv_delete_commit_log : M Sys unit := unless_stopped kv_log_commit.
Definition kv_delete_commit_log_sync : M Sys unit := kv_log_commit_sync.
Definition kv_delete_cas_primary : M Sys unit := modify_primary_idx.
Definition kv_delete_cas_primary_sync : M Sys unit := modify_primary_idx_sync.

(** ** Operations *)

Definition kv_insert : M Sys Z :=
  prepare_request ;;
  kv_insert_read_buckets_and_write_kv ;;
  or_return (
    kv_insert_backup_consensus_0 ;;
    or_return (
      with_backups kv_insert_commit_log ;;
      kv_insert_cas_primary ;;
      ret)).

Definition kv_insert_sync : M Sys Z :=
  prepare_request ;;
  kv_insert_read_buckets_and_write_kv_sync ;;
  or_return (
    kv_insert_backup_consensus_0_sync ;;
    with_backups kv_insert_commit_log_sync ;;
    kv_insert_cas_primary_sync ;;
    ret).

(** A crash point ends the process. *)
Definition exit_at (crash_point : option KVOpsCrashPoint) (p : KVOpsCrashPoint) : M Sys unit :=
  whenm (bool_decide (crash_point = Some p)) (stopm Exited).

Definition kv_insert_w_crash (crash_point : option KVOpsCrashPoint) : M Sys Z :=
  prepare_request ;;
  kv_insert_read_buckets_and_write_kv ;;
  kv_insert_backup_consensus_0 ;;
  exit_at crash_point KV_CRASH_UNCOMMITTED_BK_CONSENSUS_0 ;;
  kv_insert_commit_log ;;
  exit_at crash_point KV_CRASH_COMMITTED_PR_CAS ;;
  kv_insert_cas_primary ;;
  exit_at crash_point KV_CRASH_COMMITTED_ALL_FINISH ;;
  ret.

Definition kv_update : M Sys Z :=
  prepare_request ;;
  kv_update_read_buckets_and_write_kv ;;
  or_return (
    kv_update_read_kv ;;
    kv_update_backup_consensus_0 ;;
    or_return (
      with_backups kv_update_commit_log ;;
      kv_update_cas_primary ;;
      ret)).

Definition kv_update_sync : M Sys Z :=
  prepare_request ;;
  kv_update_read_buckets_and_write_kv_sync ;;
  or_return (
    kv_update_read_kv_sync ;;
    kv_update_backup_consensus_0_sync ;;
    or_return (
      with_backups kv_update_commit_log_sync ;;
      kv_update_cas_primary_sync ;;
      ret)).

Definition kv_update_w_crash (crash_point : option KVOpsCrashPoint) : M Sys Z :=
  prepare_request ;;
  kv_update_read_buckets_and_write_kv ;;
  kv_update_read_kv ;;
  kv_update_backup_consensus_0 ;;
  or_return (
    exit_at crash_point KV_CRASH_UNCOMMITTED_BK_CONSENSUS_0 ;;
    exit_at crash_point KV_CRASH_UNCOMMITTED_BK_CONSENSUS_1 ;;
    kv_update_commit_log ;;
    exit_at crash_point KV_CRASH_COMMITTED_PR_CAS ;;
    kv_update_cas_primary ;;
    exit_at crash_point KV_CRASH_COMMITTED_ALL_FINISH ;;
    ret).

Definition kv_delete : M Sys Z :=
  prepare_request ;;
  kv_delete_read_buckets_write_log ;;
  kv_delete_read_kv ;;
  or_return (
    kv_delete_backup_consensus_0 ;;
    or_return (
      with_backups kv_delete_commit_log ;;
      kv_delete_cas_primary ;;
      ret)).

Definition kv_delete_sync : M Sys Z :=
  prepare_request ;;
  kv_delete_read_buckets_write_log_sync ;;
  kv_delete_read_kv_sync ;;
  or_return (
    kv_delete_backup_consensus_0_sync ;;
    or_return (
      with_backups kv_delete_commit_log_sync ;;
      kv_delete_cas_primary_sync ;;
      ret)).

(** *** On a context of their own *)

Definition insert_phases : M Sys Z :=
  prepare_request ;;
  kv_insert_read_buckets_and_write_kv ;;
  kv_insert_backup_consensus_0 ;;
  with_backups kv_insert_commit_log ;;
  kv_insert_cas_primary ;;
  ret.
Definition kv_insert_w_cache (kv : KVInfo) : M Sys Z :=
  local_ctx (insert_ctx true kv) ;; insert_phases.
Definition kv_insert_kv (kv : KVInfo) : M Sys Z :=
  local_ctx (insert_ctx false kv) ;; insert_phases.

Definition update_phases : M Sys Z :=
  prepare_request ;;
  kv_update_read_buckets_and_write_kv ;;
  kv_update_read_kv ;;
  kv_update_backup_consensus_0 ;;
  with_backups kv_update_commit_log ;;
  kv_update_cas_primary ;;
  ret.
Definition kv_update_w_cache (kv : KVInfo) : M Sys Z :=
  local_ctx (λ k c, c <| req_type := KV_REQ_UPDATE |> <| use_cache := true |> <| kv_info := kv |>
    <| local_bucket_addr := Cl.local_buf_ k |> <| local_kv_addr := bucket_space k |>
    <| local_cas_target_value_addr := bucket_space k |>
    <| local_cas_return_value_addr := bucket_space k + 8 |>
    <| local_cache_addr := bucket_space k + 8 * Cl.num_replication_ k |>
    <| ctx_lkey := Cl.local_buf_lkey k |>) ;;
  update_phases.
Definition kv_update_kv (kv : KVInfo) : M Sys Z :=
  local_ctx (λ k c, c <| req_type := KV_REQ_UPDATE |> <| use_cache := false |> <| kv_info := kv |>
    <| local_bucket_addr := Cl.local_buf_ k |> <| local_kv_addr := bucket_space k |>
    <| local_cas_target_value_addr := bucket_space k |>
    <| local_cas_return_value_addr := bucket_space k + 8 |> <| ctx_lkey := Cl.local_buf_lkey k |>) ;;
  update_phases.

Definition delete_phases : M Sys Z :=
  prepare_request ;;
  kv_delete_read_buckets_write_log ;;
  kv_delete_read_kv ;;
  kv_delete_backup_consensus_0 ;;
  with_backups kv_delete_commit_log ;;
  kv_delete_cas_primary ;;
  ret.
Definition kv_delete_w_cache (kv : KVInfo) : M Sys Z :=
  local_ctx (λ k c, c <| req_type := KV_REQ_DELETE |> <| use_cache := true |> <| kv_info := kv |>
    <| local_bucket_addr := Cl.local_buf_ k |> <| local_cache_addr := bucket_space k |>
    <| local_kv_addr := bucket_space k + 256 |>
    <| local_cas_target_value_addr := bucket_space k |>
    <| local_cas_return_value_addr := bucket_space k + 8 |> <| ctx_lkey := Cl.local_buf_lkey k |>) ;;
  delete_phases.
Definition kv_delete_kv (kv : KVInfo) : M Sys Z :=
  local_ctx (λ k c, c <| req_type := KV_REQ_DELETE |> <| use_cache := false |> <| kv_info := kv |>
    <| local_bucket_addr := Cl.local_buf_ k |> <| local_kv_addr := bucket_space k |>
    <| local_cas_target_value_addr := bucket_space k |>
    <| local_cas_return_value_addr := bucket_space k + 8 |> <| ctx_lkey := Cl.local_buf_lkey k |>) ;;
  delete_phases.
End operations.

(** ** Recovery and construction *)

Section start.
Context {F : Fabric} (junk : mem) (spin : nat) (stack_ctx : KVReqCtx).

(** The vectors of the context are not sized. *)
Definition init_recover_req_ctx (k : KVInfo) : M Sys unit :=
  tail ← entry_tail k;
  s ← get;
  let m := lmem (wld s) in
  set_ctx (λ c, c <| req_type := if log_is_committed m tail then KV_REQ_RECOVER_COMMITTED
                                 else KV_REQ_RECOVER_UNCOMMITTED |>) ;;
  (if log_is_insert m tail then init_kv_insert_space (Cl.local_buf_ (cl s))
   else init_kv_update_space (Cl.local_buf_ (cl s))) ;;
  set_ctx (λ c, c <| kv_info := k |> <| ctx_lkey := Cl.local_buf_lkey (cl s) |>
                  <| is_cache_hit := false |>).

(** The last entry is read, without its tail, and a context is prepared for it;
    the operation is not run. *)
Definition client_recovery : M Sys Z :=
  s ← get;
  let r := get_last_log_recover_info (mm s) in
  let input := Cl.input_buf_ (cl s) in
  let total_len := u32 (sizeof_KVLogHeader + rl_key_len r + rl_val_len r) in
  rk ← server_rkey (rl_server_id r);
  _ ← nm_rdma_read_from_sid input (Cl.input_buf_lkey (cl s)) total_len (rl_remote_addr r) rk
        (rl_server_id r);
  modify (λ s, s <| ctx := constructed stack_ctx |>) ;;
  a ← mm_alloc_log_info r (mm_alloc_ctx stack_ctx);
  set_ctx (λ c, c <| mm_alloc_ctx := a |>) ;;
  init_recover_req_ctx (mkKVInfo input (Cl.input_buf_lkey (cl s)) (u32 (rl_key_len r))
                                 (u32 (rl_val_len r))) ;;
  free_recover_buf ;;
  mret 0.

Context (new_qp : Z → QpInfo) (reserved : MrInfo) (recover_base recover_lkey : Z).
Context (local_buf local_lkey race_root race_lkey input_buf input_lkey : Z).

Definition ClientCR (conf : GlobalConfig) : M Sys unit :=
  set_cl (client_fields conf) ;;
  set_nm (λ n, n <| Nm.server_id_ := server_id conf |>) ;;
  _ ← UDPCMInitClient reserved conf;
  _ ← connect_ib_qps new_qp;
  ClientMM.ClientMM junk recover_base recover_lkey conf ;;
  set_cl (λ k, k <| Cl.local_buf_ := local_buf |> <| Cl.local_buf_lkey := local_lkey |>
                 <| Cl.race_root_ := race_root |> <| Cl.race_root_lkey := race_lkey |>
                 <| Cl.input_buf_ := input_buf |> <| Cl.input_buf_lkey := input_lkey |>) ;;
  if is_recovery conf =? 0 then
    s ← get;
    let '(sid, head) := get_log_head (mm s) in
    set_cl (λ k, k <| Cl.pr_log_server_id_ := sid |> <| Cl.pr_log_head_ := head |>
                   <| Cl.pr_log_tail_ := head |>) ;;
    _ ← write_client_meta_info junk;
    _ ← get_race_root;
    if server_id conf =? memory_num conf then
      _ ← init_hash_table junk;
      _ ← sync_init_finish;
      _ ← get_race_root; skip
    else
      wait_init spin ;;
      _ ← get_race_root; skip
  else
    _ ← get_race_root;
    _ ← client_recovery; skip.
End start.
End CR.
