(* ===== verification/ClientCRSpec.v ===== *)
(** * Repeated swaps

    The CR client replaces the voting of the replication protocol by swaps that
    are repeated until they succeed.  The lemmas give the effect of one swap, of
    the loop around it and of the loops over the replicas of a slot, in both
    versions; the theorems say when the replicas agree afterwards and what an
    insertion that used such a loop reports. *)

From S2P Require Import Prelude Mem KvUtils HashTable ServerMM Server Rdma ClientState Network ClientMM.
From S2P Require Import BlockMap ClientIndex ClientConsensus ClientOps Recovery StartUp ClientCR.

Lemma post_cas_run `{F : Fabric} `{HF : !ReliableFabric F} (P : Posting) `{HP : !PostingOk P} id a e s :
  idle s →
  ∃ r s', post_lists P [mkSrList [cas_wr id a e] (cas_server_id a)] s = Done 0 s' ∧
    after_cas s a e r s'.
Proof.
  intros Hid. rewrite post_lists_ok by (apply cas_plain || done).
  destruct (posted_swap_run id a e s Hid) as [r Hac]. eauto.
Qed.

Lemma post_cas_quiet `{F : Fabric} `{HF : !QuietFabric F} (P : Posting) `{HP : !PostingOk P} id a e s :
  idle s →
  ∃ s', post_lists P [mkSrList [cas_wr id a e] (cas_server_id a)] s = Done 0 s' ∧
    after_cas s a e (rmem (wld s)) s'.
Proof.
  intros Hid. rewrite post_lists_ok by (apply cas_plain || done).
  eexists _. split; [reflexivity|]. by apply posted_swap_quiet.
Qed.

(** ** Repeated swaps *)

(** Whatever other clients do, a repeated swap that ends has replaced the value
    it found last, in memories [r], and leaves that value in its buffer. *)
Lemma cas_until_run `{F : Fabric} `{HF : !ReliableFabric F} (P : Posting) `{HP : !PostingOk P}
    fuel id a e s :
  idle s →
  match CR.cas_until P fuel (cas_server_id a) (cas_l_kv_addr a) (cas_wr id a e) s with
  | Done _ s' => ∃ r, after_cas s a (slot_word r a) r s'
  | Stopped err _ => err = Diverges
  end.
Proof.
  revert e s. induction fuel as [|fuel IH]; intros e s Hid; cbn [CR.cas_until]; [done|].
  destruct (post_cas_run P id a e s Hid) as (r & s1 & E1 & Hac). unM. rewrite E1. cbn [Z.eqb].
  unfold rd64, get_lmem. unM. rewrite (after_cas_word _ _ _ _ _ Hac).
  change (compare_add (cas_wr id a e)) with e.
  destruct (slot_word r a =? e) eqn:Ee.
  - apply Z.eqb_eq in Ee. exists r. by rewrite Ee.
  - change ((cas_wr id a e) <| compare_add := slot_word r a |>) with (cas_wr id a (slot_word r a)).
    destruct Hac as (Hid1 & Hcs1 & Hl1 & _). specialize (IH (slot_word r a) s1 Hid1).
    destruct (CR.cas_until P fuel _ _ _ s1) as [[] s'|]; [|done].
    destruct IH as (r' & Hid' & Hcs' & Hl' & Hr'). exists r'.
    split_and!; [done|congruence| |done]. intros x. rewrite Hl'. eapply store64_over; exact Hl1.
Qed.

(** Alone it needs two rounds, and the slot holds the new value. *)
Lemma cas_until_quiet `{F : Fabric} `{HF : !QuietFabric F} (P : Posting) `{HP : !PostingOk P}
    fuel id a e s :
  idle s → (2 <= fuel)%nat →
  ∃ s', CR.cas_until P fuel (cas_server_id a) (cas_l_kv_addr a) (cas_wr id a e) s = Done tt s' ∧
    after_cas s a (slot_word (rmem (wld s)) a) (rmem (wld s)) s'.
Proof.
  intros Hid Hf. destruct fuel as [|[|fuel]]; [lia..|]. cbn [CR.cas_until].
  destruct (post_cas_quiet P id a e s Hid) as (s1 & E1 & Hac). unM. rewrite E1. cbn [Z.eqb].
  unfold rd64, get_lmem. unM. rewrite (after_cas_word _ _ _ _ _ Hac).
  change (compare_add (cas_wr id a e)) with e. set (v := slot_word (rmem (wld s)) a) in *.
  destruct (v =? e) eqn:Ee.
  - apply Z.eqb_eq in Ee. subst e. eauto.
  - change ((cas_wr id a e) <| compare_add := v |>) with (cas_wr id a v).
    destruct Hac as (Hid1 & Hcs1 & Hl1 & Hr1). unfold cas_slot in Hr1. fold v in Hr1. rewrite Ee in Hr1.
    destruct (post_cas_quiet P id a v s1 Hid1) as (s2 & E2 & Hac2). unM. rewrite E2. cbn [Z.eqb].
    rewrite (after_cas_word _ _ _ _ _ Hac2), Hr1. fold v.
    change (compare_add (cas_wr id a v)) with v. rewrite Z.eqb_refl.
    exists s2. split; [done|]. destruct Hac2 as (Hid2 & Hcs2 & Hl2 & Hr2). rewrite Hr1 in Hl2, Hr2.
    split_and!; [done|congruence| |done]. intros x. rewrite Hl2. eapply store64_over; exact Hl1.
Qed.

(** ** Lists of swaps *)

(** The replicas of a slot: on different nodes, with separate words for the
    values swapped out. *)
Record replicas (as_ : list KVCASAddr) : Prop := {
  rep_nodes : NoDup (cas_node <$> as_);
  rep_words i j a b : as_ !! i = Some a → as_ !! j = Some b → i ≠ j →
    cas_l_kv_addr a + 8 <= cas_l_kv_addr b ∨ cas_l_kv_addr b + 8 <= cas_l_kv_addr a }.

Lemma replicas_tail a as_ : replicas (a :: as_) → replicas as_.
Proof.
  intros [Hn Hw]. split; [by inversion Hn|]. intros i j b c Hi Hj Hij.
  apply (Hw (S i) (S j)); [done|done|lia].
Qed.

Lemma upd_rmem_other r sid m n : n ≠ sid → upd_rmem r sid m n = r n.
Proof. intros H. unfold upd_rmem. by rewrite (proj2 (Z.eqb_neq _ _) H). Qed.

Lemma write_slot_other a r n : n ≠ cas_node a → write_slot a r n = r n.
Proof. apply upd_rmem_other. Qed.

(** What became of the slot of [a]: [new] on its node at its address, everything
    else there as in [r]. *)
Definition slot_set (r r' : Z → mem) (a : KVCASAddr) : Prop :=
  r' (cas_node a) = store64 (r (cas_node a)) (cas_r_kv_addr a) (swap_value a).

Lemma slot_set_word r r' a :
  slot_set r r' a → in_u64 (swap_value a) → slot_word r' a = swap_value a.
Proof. intros H Hs. unfold slot_word. rewrite H, load64_store64_eq. by apply Z.mod_small. Qed.

(** The list of requests for the swaps [as_], numbered from [k]. *)
Definition cas_lists (coro : Z) (k : nat) (as_ : list KVCASAddr) : list IbvSrList :=
  imap (λ i a, mkSrList [cas_wr (ib_gen_wr_id coro (cas_server_id a) CAS_ST_WRID (Z.of_nat (k + i) + 1))
                            a (orig_value a)] (cas_server_id a)) as_.

Lemma gen_cas_lists coro as_ : gen_cas_sr_lists coro as_ = cas_lists coro 0 as_.
Proof. done. Qed.

Lemma cas_lists_cons coro k a as_ :
  cas_lists coro k (a :: as_) =
  mkSrList [cas_wr (ib_gen_wr_id coro (cas_server_id a) CAS_ST_WRID (Z.of_nat k + 1)) a (orig_value a)]
    (cas_server_id a) :: cas_lists coro (S k) as_.
Proof.
  unfold cas_lists. rewrite imap_cons, Nat.add_0_r. f_equal. apply imap_ext. intros i x _.
  cbn [compose]. do 5 f_equal. by rewrite Nat.add_succ_r.
Qed.

Lemma iteratively_cas_sync_cons `{F : Fabric} retries id a e ls s :
  CR.iteratively_cas_sync retries (mkSrList [cas_wr id a e] (cas_server_id a) :: ls) s =
  (CR.cas_until sync_posting retries (cas_server_id a) (cas_l_kv_addr a) (cas_wr id a e) ;;
   CR.iteratively_cas_sync retries ls) s.
Proof. done. Qed.

Section lists.
Context {F : Fabric} {HF : QuietFabric F}.

Lemma iteratively_cas_sync_run retries coro as_ : ∀ k s,
  idle s → (2 <= retries)%nat → replicas as_ →
  ∃ s', CR.iteratively_cas_sync retries (cas_lists coro k as_) s = Done tt s' ∧
    idle s' ∧ client_side s' = client_side s ∧
    Forall (slot_set (rmem (wld s)) (rmem (wld s'))) as_ ∧
    (∀ n, n ∉ cas_node <$> as_ → rmem (wld s') n = rmem (wld s) n) ∧
    Forall (λ a, load64 (lmem (wld s')) (cas_l_kv_addr a) = slot_word (rmem (wld s)) a) as_ ∧
    ∀ x, Forall (λ a, x < cas_l_kv_addr a ∨ cas_l_kv_addr a + 8 <= x) as_ →
      lmem (wld s') x = lmem (wld s) x.
Proof.
  induction as_ as [|a as_ IH]; intros k s Hid Hf Hrep; [by exists s|].
  rewrite cas_lists_cons, iteratively_cas_sync_cons. unfold mbind, M_bind.
  destruct (cas_until_quiet sync_posting retries
    (ib_gen_wr_id coro (cas_server_id a) CAS_ST_WRID (Z.of_nat k + 1)) a (orig_value a) s Hid Hf)
    as (s1 & -> & Hac). pose proof (after_cas_word _ _ _ _ _ Hac) as Hw1.
  destruct Hac as (Hid1 & Hcs1 & Hl1 & Hr1).
  unfold cas_slot in Hr1. rewrite Z.eqb_refl in Hr1.
  destruct (IH (S k) s1 Hid1 Hf (replicas_tail _ _ Hrep))
    as (s' & -> & Hid' & Hcs' & Hset & Hoth & Hw & Hfr).
  assert (cas_node a ∉ cas_node <$> as_) as Hna by (destruct Hrep as [Hn _]; by inversion Hn).
  assert (∀ b, b ∈ as_ → rmem (wld s1) (cas_node b) = rmem (wld s) (cas_node b)) as Hs1.
  { intros b Hb. rewrite Hr1. apply write_slot_other. intros E. apply Hna. rewrite <- E.
    apply list_elem_of_fmap. eauto. }
  exists s'. split_and!; [done|done|congruence|constructor|..].
  - unfold slot_set. rewrite Hoth by done. rewrite Hr1. unfold write_slot, upd_rmem.
    by rewrite Z.eqb_refl.
  - rewrite Forall_forall in Hset |- *. intros b Hb. specialize (Hset b Hb). unfold slot_set in *.
    by rewrite Hset, Hs1.
  - intros n Hn. rewrite fmap_cons, not_elem_of_cons in Hn. destruct Hn. rewrite Hoth by done.
    rewrite Hr1. by apply write_slot_other.
  - constructor.
    + rewrite <- Hw1. apply load_ext. intros i Hi. rewrite Hfr; [done|].
      apply Forall_forall. intros b [j Hj]%list_elem_of_lookup.
      destruct (rep_words _ Hrep 0%nat (S j) a b); [done|done|lia|lia|lia].
    + rewrite Forall_forall in Hw |- *. intros b Hb. rewrite (Hw b Hb). unfold slot_word. by rewrite Hs1.
  - intros x Hx. inversion_clear Hx as [|? ? Ha Hx']. rewrite Hfr by done. rewrite Hl1.
    unfold store64, store. destruct (_ && _) eqn:E; [|done]. zify_bool. lia.
Qed.

(** *** The version for fibers *)

(** The word of a slot after the swap of [a] for an expected value, and after a
    second one for [w]. *)
Lemma cas_slot_word e a r :
  in_u64 (swap_value a) →
  slot_word (cas_slot e a r) a = if slot_word r a =? e then swap_value a else slot_word r a.
Proof.
  intros Hs. unfold cas_slot. destruct (slot_word r a =? e); [|done].
  apply (slot_set_word r); [|done]. unfold slot_set, write_slot, upd_rmem. by rewrite Z.eqb_refl.
Qed.

Lemma cas_slot_frame e a r n x :
  n ≠ cas_node a ∨ x < cas_r_kv_addr a ∨ cas_r_kv_addr a + 8 <= x → cas_slot e a r n x = r n x.
Proof.
  intros H. unfold cas_slot, write_slot, upd_rmem. destruct (slot_word r a =? e); [|done].
  destruct (n =? cas_node a) eqn:E; [|done]. zify_bool. subst n. unfold store64, store.
  destruct (_ && _) eqn:E; [|done]. zify_bool. destruct H; [done|lia].
Qed.

(** The swap of [a] as the fiber version does it, when the first replica swapped
    out [w]. *)
Definition shortcut (w : Z) (a : KVCASAddr) (r : Z → mem) : Z → mem :=
  if w =? orig_value a then cas_slot (orig_value a) a r
  else cas_slot w a (cas_slot (orig_value a) a r).

Lemma shortcut_word w a r :
  in_u64 (swap_value a) →
  slot_word (shortcut w a r) a =
    if (slot_word r a =? orig_value a) || (slot_word r a =? w) then swap_value a else slot_word r a.
Proof.
  intros Hs. unfold shortcut. destruct (w =? orig_value a) eqn:Ew.
  - zify_bool. subst w. rewrite cas_slot_word by done. by rewrite orb_diag.
  - rewrite !cas_slot_word by done. destruct (slot_word r a =? orig_value a) eqn:E; cbn [orb]; [|done].
    by destruct (swap_value a =? w).
Qed.

Lemma shortcut_frame w a r n x :
  n ≠ cas_node a ∨ x < cas_r_kv_addr a ∨ cas_r_kv_addr a + 8 <= x → shortcut w a r n x = r n x.
Proof. intros H. unfold shortcut. destruct (_ =? _); by rewrite ?cas_slot_frame. Qed.

(** A swap whose outcome is read from a word it does not write. *)
Lemma cas_until_elsewhere (P : Posting) `{HP : !PostingOk P} fuel id a back s :
  idle s → (2 <= fuel)%nat →
  back + 8 <= cas_l_kv_addr a ∨ cas_l_kv_addr a + 8 <= back →
  ∃ s', CR.cas_until P fuel (cas_server_id a) back (cas_wr id a (orig_value a)) s = Done tt s' ∧
    idle s' ∧ client_side s' = client_side s ∧
    rmem (wld s') = shortcut (load64 (lmem (wld s)) back) a (rmem (wld s)) ∧
    ∀ x, x < cas_l_kv_addr a ∨ cas_l_kv_addr a + 8 <= x → lmem (wld s') x = lmem (wld s) x.
Proof.
  intros Hid Hf Hb. destruct fuel as [|[|fuel]]; [lia..|]. cbn [CR.cas_until].
  assert (∀ m m' v x, (∀ y, m' y = store64 m (cas_l_kv_addr a) v y) →
    x < cas_l_kv_addr a ∨ cas_l_kv_addr a + 8 <= x → m' x = m x) as Hout.
  { intros m m' v x E Hx. rewrite E. unfold store64, store. destruct (_ && _) eqn:E'; [|done].
    zify_bool. lia. }
  assert (∀ m m' v, (∀ y, m' y = store64 m (cas_l_kv_addr a) v y) → load64 m' back = load64 m back)
    as Hback by (intros m m' v E; apply load_ext; intros i Hi; rewrite (Hout m m' v _ E); [done|lia]).
  set (w := load64 (lmem (wld s)) back).
  destruct (post_cas_quiet P id a (orig_value a) s Hid) as (s1 & E1 & Hid1 & Hcs1 & Hl1 & Hr1).
  unM. rewrite E1. cbn [Z.eqb]. unfold rd64, get_lmem. unM. rewrite (Hback _ _ _ Hl1). fold w.
  change (compare_add (cas_wr id a (orig_value a))) with (orig_value a). unfold shortcut.
  destruct (w =? orig_value a) eqn:Ew.
  - exists s1. split_and!; try done. intros x Hx. by apply (Hout _ _ _ _ Hl1).
  - change ((cas_wr id a (orig_value a)) <| compare_add := w |>) with (cas_wr id a w).
    destruct (post_cas_quiet P id a w s1 Hid1) as (s2 & E2 & Hid2 & Hcs2 & Hl2 & Hr2).
    unM. rewrite E2. cbn [Z.eqb]. rewrite (Hback _ _ _ Hl2), (Hback _ _ _ Hl1). fold w.
    change (compare_add (cas_wr id a w)) with w. rewrite Z.eqb_refl. exists s2.
    split_and!; [done|done|congruence|by rewrite Hr2, Hr1|].
    intros x Hx. rewrite (Hout _ _ _ _ Hl2), (Hout _ _ _ _ Hl1); done.
Qed.

(** The lists after the first one. *)
Definition cas_elsewhere (retries : nat) (back : Z) (ls : list IbvSrList) : M Sys unit :=
  forM ls (λ l, wr ← CR.single_wr l;
                CR.cas_until fiber_posting retries (sr_server_id l) back wr).

Lemma iteratively_cas_async_cons retries id a e ls s :
  CR.iteratively_cas_async retries (mkSrList [cas_wr id a e] (cas_server_id a) :: ls) s =
  (CR.cas_until fiber_posting retries (cas_server_id a) (cas_l_kv_addr a) (cas_wr id a e) ;;
   cas_elsewhere retries (cas_l_kv_addr a) ls) s.
Proof. done. Qed.

Lemma cas_slot_other e a r n : n ≠ cas_node a → cas_slot e a r n = r n.
Proof. intros H. unfold cas_slot. destruct (_ =? _); [by apply write_slot_other|done]. Qed.
Lemma shortcut_other w a r n : n ≠ cas_node a → shortcut w a r n = r n.
Proof. intros H. unfold shortcut. destruct (_ =? _); by rewrite ?cas_slot_other. Qed.

Lemma cas_slot_local e a r r' :
  r (cas_node a) = r' (cas_node a) → cas_slot e a r (cas_node a) = cas_slot e a r' (cas_node a).
Proof.
  intros H. unfold cas_slot, slot_word, write_slot, upd_rmem. rewrite H.
  destruct (_ =? e); [by rewrite Z.eqb_refl|done].
Qed.
Lemma shortcut_local w a r r' :
  r (cas_node a) = r' (cas_node a) → shortcut w a r (cas_node a) = shortcut w a r' (cas_node a).
Proof.
  intros H. unfold shortcut. destruct (_ =? _); repeat apply cas_slot_local; done.
Qed.

Lemma cas_elsewhere_run retries coro back as_ : ∀ k s,
  idle s → (2 <= retries)%nat → NoDup (cas_node <$> as_) →
  Forall (λ a, back + 8 <= cas_l_kv_addr a ∨ cas_l_kv_addr a + 8 <= back) as_ →
  ∃ s', cas_elsewhere retries back (cas_lists coro k as_) s = Done tt s' ∧
    idle s' ∧ client_side s' = client_side s ∧ load64 (lmem (wld s')) back = load64 (lmem (wld s)) back ∧
    Forall (λ a, rmem (wld s') (cas_node a) =
                 shortcut (load64 (lmem (wld s)) back) a (rmem (wld s)) (cas_node a)) as_ ∧
    (∀ n, n ∉ cas_node <$> as_ → rmem (wld s') n = rmem (wld s) n).
Proof.
  induction as_ as [|a as_ IH]; intros k s Hid Hf Hnd Hsep; [by exists s|].
  inversion_clear Hnd as [|? ? Hna Hnd']. inversion_clear Hsep as [|? ? Ha Hsep'].
  rewrite cas_lists_cons.
  destruct (cas_until_elsewhere fiber_posting retries
    (ib_gen_wr_id coro (cas_server_id a) CAS_ST_WRID (Z.of_nat k + 1)) a back s Hid Hf Ha)
    as (s1 & E1 & Hid1 & Hcs1 & Hr1 & Hl1).
  assert (load64 (lmem (wld s1)) back = load64 (lmem (wld s)) back) as Hb1.
  { apply load_ext. intros i Hi. rewrite Hl1; [done|lia]. }
  destruct (IH (S k) s1 Hid1 Hf Hnd' Hsep') as (s' & E' & Hid' & Hcs' & Hb' & Hset & Hoth).
  exists s'. split_and!; [|done|congruence|congruence|constructor|].
  - transitivity ((CR.cas_until fiber_posting retries (cas_server_id a) back
      (cas_wr (ib_gen_wr_id coro (cas_server_id a) CAS_ST_WRID (Z.of_nat k + 1)) a (orig_value a)) ;;
      cas_elsewhere retries back (cas_lists coro (S k) as_)) s); [done|].
    unfold mbind, M_bind. by rewrite E1.
  - rewrite Hoth by done. by rewrite Hr1.
  - rewrite Forall_forall in Hset |- *. intros b Hb. rewrite (Hset b Hb), Hb1. apply shortcut_local.
    rewrite Hr1. apply shortcut_other. intros E. apply Hna. rewrite <- E. apply list_elem_of_fmap. eauto.
  - intros n Hn. rewrite fmap_cons, not_elem_of_cons in Hn. destruct Hn. rewrite Hoth by done.
    rewrite Hr1. by apply shortcut_other.
Qed.
End lists.

(** C13. Repeated swaps, synchronous, on replicas of a slot on different nodes and
    without other clients: the loops end after at most two rounds per replica;
    every replica then holds the new value, whatever it held before, every word
    for a value swapped out has the value its replica held, and nothing else
    changed on the nodes or in the state of the client. *)
Theorem iteratively_cas_sync_correct `{F : Fabric} `{HF : !QuietFabric F} (retries : nat) (coro : Z)
    (as_ : list KVCASAddr) (s : Sys) :
  idle s → (2 <= retries)%nat → replicas as_ → Forall (λ a, in_u64 (swap_value a)) as_ →
  ∃ s', CR.iteratively_cas_sync retries (CR.gen_cas_sr_lists coro as_) s = Done tt s' ∧
    idle s' ∧ client_side s' = client_side s ∧
    (∀ a, a ∈ as_ →
       slot_word (rmem (wld s')) a = swap_value a ∧
       load64 (lmem (wld s')) (cas_l_kv_addr a) = slot_word (rmem (wld s)) a ∧
       ∀ x, x < cas_r_kv_addr a ∨ cas_r_kv_addr a + 8 <= x →
         rmem (wld s') (cas_node a) x = rmem (wld s) (cas_node a) x) ∧
    (∀ n, n ∉ cas_node <$> as_ → rmem (wld s') n = rmem (wld s) n).
Proof.
  intros Hid Hf Hrep Hsw. destruct (iteratively_cas_sync_run retries coro as_ 0 s Hid Hf Hrep)
    as (s' & E & Hid' & Hcs & Hset & Hoth & Hw & _).
  exists s'. split_and!; try done. rewrite Forall_forall in Hset, Hw, Hsw. intros a Ha.
  split_and!; [by eapply slot_set_word; auto|auto|]. intros x Hx. rewrite (Hset a Ha).
  unfold store64, store. destruct (_ && _) eqn:E'; [|done]. zify_bool. lia.
Qed.

(** C14. Repeated swaps for fibers, in the same situation: the loops end, and the
    first replica holds the new value.  But the loops of the others look at the
    value [w] that the first one held: another replica holds the new value only
    if it held its expected value or [w], and otherwise keeps what it had,
    although the client goes on as if it had been set. *)
Theorem iteratively_cas_async_skips `{F : Fabric} `{HF : !QuietFabric F} (retries : nat) (coro : Z)
    (first : KVCASAddr) (as_ : list KVCASAddr) (s : Sys) :
  idle s → (2 <= retries)%nat → replicas (first :: as_) →
  Forall (λ a, in_u64 (swap_value a)) (first :: as_) →
  let w := slot_word (rmem (wld s)) first in
  ∃ s', CR.iteratively_cas_async retries (CR.gen_cas_sr_lists coro (first :: as_)) s = Done tt s' ∧
    idle s' ∧ client_side s' = client_side s ∧
    slot_word (rmem (wld s')) first = swap_value first ∧
    ∀ a, a ∈ as_ →
      slot_word (rmem (wld s')) a =
        (let old := slot_word (rmem (wld s)) a in
         if (old =? orig_value a) || (old =? w) then swap_value a else old).
Proof.
  intros Hid Hf Hrep Hsw w. change CR.gen_cas_sr_lists with gen_cas_sr_lists.
  rewrite gen_cas_lists, cas_lists_cons.
  inversion_clear Hsw as [|? ? Hs0 Hs]. destruct Hrep as [Hnd Hwords].
  inversion_clear Hnd as [|? ? Hna Hnd'].
  destruct (cas_until_quiet fiber_posting retries
    (ib_gen_wr_id coro (cas_server_id first) CAS_ST_WRID (Z.of_nat 0 + 1)) first (orig_value first) s
    Hid Hf) as (s1 & E1 & Hac).
  pose proof (after_cas_word _ _ _ _ _ Hac) as Hw1. destruct Hac as (Hid1 & Hcs1 & Hl1 & Hr1).
  fold w in Hw1, Hr1. unfold cas_slot in Hr1. rewrite Z.eqb_refl in Hr1.
  destruct (cas_elsewhere_run retries coro (cas_l_kv_addr first) as_ 1 s1 Hid1 Hf Hnd')
    as (s' & E' & Hid' & Hcs' & _ & Hset & Hoth).
  { apply Forall_forall. intros b [j Hj]%list_elem_of_lookup.
    destruct (Hwords 0%nat (S j) first b); [done|done|lia|lia|lia]. }
  exists s'. split_and!; [|done|congruence| |].
  - rewrite iteratively_cas_async_cons. unfold mbind, M_bind. by rewrite E1.
  - apply (slot_set_word (rmem (wld s))); [|done]. unfold slot_set. rewrite Hoth, Hr1 by done.
    unfold write_slot, upd_rmem. by rewrite Z.eqb_refl.
  - intros a Ha. rewrite Forall_forall in Hset, Hs.
    assert (cas_node a ≠ cas_node first) as Hne.
    { intros E. apply Hna. rewrite <- E. apply list_elem_of_fmap. eauto. }
    assert (slot_word (rmem (wld s1)) a = slot_word (rmem (wld s)) a) as Eold
      by (unfold slot_word; by rewrite Hr1, write_slot_other).
    transitivity (slot_word (shortcut w a (rmem (wld s1))) a).
    { unfold slot_word. by rewrite (Hset a Ha), Hw1. }
    rewrite shortcut_word by auto. by rewrite Eold.
Qed.

(** ** Publication *)

(** The swap of a single primary slot, in both versions. *)
Lemma single_cas `{F : Fabric} retries coro pr s :
  CR.iteratively_cas_sync retries (gen_cas_sr_lists coro [pr]) s =
    (CR.cas_until sync_posting retries (cas_server_id pr) (cas_l_kv_addr pr)
       (cas_wr (ib_gen_wr_id coro (cas_server_id pr) CAS_ST_WRID (Z.of_nat 0 + 1)) pr (orig_value pr)) ;;
     skip) s ∧
  CR.iteratively_cas_async retries (gen_cas_sr_lists coro [pr]) s =
    (CR.cas_until fiber_posting retries (cas_server_id pr) (cas_l_kv_addr pr)
       (cas_wr (ib_gen_wr_id coro (cas_server_id pr) CAS_ST_WRID (Z.of_nat 0 + 1)) pr (orig_value pr)) ;;
     skip) s.
Proof. done. Qed.

Lemma primary_modified_same `{F : Fabric} s :
  req_type (ctx s) = KV_REQ_INSERT → CR.primary_modified s = primary_modified s.
Proof.
  intros H. unfold CR.primary_modified, primary_modified, set_ctx, get_ctx, pr_cas. unM.
  cbn [req_type set_field eta_KVReqCtx ctx eta_Sys]. rewrite H. done.
Qed.

Lemma modify_primary_insert_repeated `{F : Fabric} `{HF : !ReliableFabric F} (P : Posting)
    `{HP : !PostingOk P} (retries : nat) (cas : list IbvSrList → M Sys unit) (s : Sys) (pr : KVCASAddr) :
  let id := ib_gen_wr_id (coro_id (ctx s)) (cas_server_id pr) CAS_ST_WRID (Z.of_nat 0 + 1) in
  cas (gen_cas_sr_lists (coro_id (ctx s)) [pr]) s =
    (CR.cas_until P retries (cas_server_id pr) (cas_l_kv_addr pr) (cas_wr id pr (orig_value pr)) ;; skip) s →
  idle s → kv_modify_pr_cas_list (ctx s) = [pr] → req_type (ctx s) = KV_REQ_INSERT →
  consensus_state (ctx s) ≠ KV_CONSENSUS_FAIL → in_u64 (swap_value pr) →
  Cl.num_idx_rep_ (cl s) = Z.of_nat (length (kv_modify_bk_0_cas_list (ctx s))) + 1 →
  match CR.modify_primary_idx_with P cas s with
  | Done _ s' =>
      ∃ r : Z → mem,
        rmem (wld s') = write_slot pr r ∧ is_finished (ctx s') = true ∧
        ((slot_word r pr = orig_value pr ∧ ret_val (ctx s') = KV_OPS_SUCCESS ∧ mm s' = mm s ∧
          (use_cache (ctx s) = true →
             ∃ e, Cl.addr_cache_ (cl s') !! key_str (ctx s) = Some e ∧
                  ConvertSlotToInt (l_slot_ptr e) = swap_value pr)) ∨
         (slot_word r pr ≠ orig_value pr ∧ ret_val (ctx s') = KV_OPS_FAIL_REDO ∧
          ∃ s1, mm s1 = mm s ∧ mm_free_cur (mm_alloc_ctx (ctx s)) s1 = Done tt s'))
  | Stopped e _ => e = Diverges
  end.
Proof.
  intros id Hcas Hid Hpr Hreq Hst Hsw Hn. unfold CR.modify_primary_idx_with, get_ctx. unM.
  rewrite bool_decide_eq_false_2 by done. rewrite Hpr, Hreq. cbn [is_update_or_delete].
  change CR.gen_cas_sr_lists with gen_cas_sr_lists. rewrite Hcas. unM.
  pose proof (cas_until_run P retries id pr (orig_value pr) s Hid) as H.
  destruct (CR.cas_until _ _ _ _ _ s) as [[] s1|e s1]; [|done]. destruct H as [r Hac]. unM.
  pose proof (after_cas_word _ _ _ _ _ Hac) as Hw. destruct Hac as (Hid1 & Hcs & _ & Hr).
  unfold cas_slot in Hr. rewrite Z.eqb_refl in Hr.
  rewrite (post_batch_ok [] s1); [|done..].
  assert (client_side (posted (concat []) s1) = client_side s1 ∧
    lmem (wld (posted (concat []) s1)) = lmem (wld s1) ∧
    rmem (wld (posted (concat []) s1)) = rmem (wld s1)) as (Hcs2 & Hw2 & Hr2) by done.
  set (s2 := posted _ s1) in *. rewrite Hcs in Hcs2. clearbody s2.
  unfold client_side in Hcs. injection Hcs2 as Hm2 Hl2 Hc2.
  unfold pr_cas. unM. rewrite Hpr. cbn [lookup list_lookup]. unfold rd64, get_lmem. unM. rewrite Hw2, Hw.
  destruct (slot_word r pr =? orig_value pr) eqn:Eo; zify_bool.
  - rewrite primary_modified_same by (by rewrite Hc2).
    destruct (primary_modified_insert s2 pr) as (s' & -> & Hf & Hrv & Hm & Hwld & Hc);
      [by rewrite Hc2|by rewrite Hc2|done|by rewrite Hl2, Hc2|].
    exists r. rewrite Hc2 in Hc. rewrite Hwld, Hr2, Hr. split_and!; [done|done|].
    left. split_and!; [done|done|congruence|done].
  - unfold CR.primary_repeated, get_ctx, set_ctx. unM. rewrite Hc2, Hreq. cbv beta iota.
    set (s3 := s2 <| ctx ::= _ |>).
    destruct (mm_free_cur_ends (mm_alloc_ctx (ctx s)) s3) as (m' & E). rewrite E.
    exists r. split_and!; [by rewrite <- Hr, <- Hr2|done|]. right. split_and!; [done|done|].
    exists s3. split; [exact Hm2|done].
Qed.

(** C15. Publication of an insertion by the repeated swap, in both versions and
    under any interference: unless it is repeated for ever, the primary slot ends
    with the new value, in the memories [r] in which the last swap found it.  The
    request succeeds, with its block kept and its slot in the cache, when the value
    replaced was the expected one; otherwise it demands to be redone and gives its
    block back, although the slot now refers to it. *)
Theorem cr_insert_always_publishes `{F : Fabric} `{HF : !ReliableFabric F} (retries : nat) (s : Sys)
    (pr : KVCASAddr) :
  idle s → kv_modify_pr_cas_list (ctx s) = [pr] → req_type (ctx s) = KV_REQ_INSERT →
  consensus_state (ctx s) ≠ KV_CONSENSUS_FAIL → in_u64 (swap_value pr) →
  Cl.num_idx_rep_ (cl s) = Z.of_nat (length (kv_modify_bk_0_cas_list (ctx s))) + 1 →
  let outcome (op : M Sys unit) :=
    match op s with
    | Done _ s' =>
        ∃ r : Z → mem,
          rmem (wld s') = write_slot pr r ∧ slot_word (rmem (wld s')) pr = swap_value pr ∧
          is_finished (ctx s') = true ∧
          ((slot_word r pr = orig_value pr ∧ ret_val (ctx s') = KV_OPS_SUCCESS ∧ mm s' = mm s ∧
            (use_cache (ctx s) = true →
               ∃ e, Cl.addr_cache_ (cl s') !! key_str (ctx s) = Some e ∧
                    ConvertSlotToInt (l_slot_ptr e) = swap_value pr)) ∨
           (slot_word r pr ≠ orig_value pr ∧ ret_val (ctx s') = KV_OPS_FAIL_REDO ∧
            ∃ s1, mm s1 = mm s ∧ mm_free_cur (mm_alloc_ctx (ctx s)) s1 = Done tt s'))
    | Stopped e _ => e = Diverges
    end in
  outcome (CR.modify_primary_idx retries) ∧ outcome (CR.modify_primary_idx_sync retries).
Proof.
  intros Hid Hpr Hreq Hst Hsw Hn outcome. unfold outcome, CR.modify_primary_idx, CR.modify_primary_idx_sync.
  assert (∀ r, slot_word (write_slot pr r) pr = swap_value pr) as Hword.
  { intros r. apply (slot_set_word r); [|done]. unfold slot_set, write_slot, upd_rmem. by rewrite Z.eqb_refl. }
  split; [pose proof (modify_primary_insert_repeated fiber_posting retries
            (CR.iteratively_cas_async retries) s pr (proj2 (single_cas _ _ _ _)) Hid Hpr Hreq Hst Hsw Hn) as H
         |pose proof (modify_primary_insert_repeated sync_posting retries
            (CR.iteratively_cas_sync retries) s pr (proj1 (single_cas _ _ _ _)) Hid Hpr Hreq Hst Hsw Hn) as H];
    (destruct (CR.modify_primary_idx_with _ _ s) as [[] s'|e s']; [|done]);
    destruct H as (r & Er & Hf & H); exists r; (split_and!; [done|by rewrite Er|done|done]).
Qed.

(** ** Examples *)

(** Two replicas of a slot, on the nodes 0 and 1, that hold other values than the
    client expects: 5 and 6 instead of 0. *)
Definition example_slots : list KVCASAddr :=
  [mkKVCASAddr 0 64 92 0 0 0 77; mkKVCASAddr 1 64 100 0 0 0 77].
Definition example_diverged : Sys :=
  blank_sys <| wld ::= λ w, w <| rmem := λ n, store64 mem_zero 64 (5 + n) |> |>.

Lemma example_slots_replicas : replicas example_slots.
Proof.
  split; [by apply (bool_decide_unpack _); vm_compute|]. intros i j a b Hi Hj Hij.
  destruct i as [|[|i]], j as [|[|j]]; cbn in Hi, Hj; simplify_eq; cbn; try lia; try done.
Qed.

Lemma example_slots_swaps : Forall (λ a, in_u64 (swap_value a)) example_slots.
Proof. repeat constructor; vm_compute; congruence. Qed.

Lemma example_diverged_words :
  slot_word (rmem (wld example_diverged)) (mkKVCASAddr 0 64 92 0 0 0 77) = 5 ∧
  slot_word (rmem (wld example_diverged)) (mkKVCASAddr 1 64 100 0 0 0 77) = 6.
Proof. by vm_compute. Qed.

Example iteratively_cas_sync_correct_witness :
  ∃ s', CR.iteratively_cas_sync (F := quiet_fabric) 2 (CR.gen_cas_sr_lists 0 example_slots)
          example_diverged = Done tt s' ∧
    ∀ a, a ∈ example_slots → slot_word (rmem (wld s')) a = 77.
Proof.
  destruct (iteratively_cas_sync_correct (F := quiet_fabric) 2 0 example_slots example_diverged)
    as (s' & E & _ & _ & H & _);
    [split; reflexivity|lia|exact example_slots_replicas|exact example_slots_swaps|].
  exists s'. split; [exact E|]. intros a Ha. rewrite (proj1 (H a Ha)).
  unfold example_slots in Ha. set_unfold in Ha. destruct Ha as [->|[->|[]]]; reflexivity.
Defined.

Example iteratively_cas_async_skips_witness :
  ∃ s', CR.iteratively_cas_async (F := quiet_fabric) 2 (CR.gen_cas_sr_lists 0 example_slots)
          example_diverged = Done tt s' ∧
    slot_word (rmem (wld s')) (mkKVCASAddr 0 64 92 0 0 0 77) = 77 ∧
    slot_word (rmem (wld s')) (mkKVCASAddr 1 64 100 0 0 0 77) = 6.
Proof.
  destruct (iteratively_cas_async_skips (F := quiet_fabric) 2 0 (mkKVCASAddr 0 64 92 0 0 0 77)
    [mkKVCASAddr 1 64 100 0 0 0 77] example_diverged) as (s' & E & _ & _ & H1 & H2);
    [split; reflexivity|lia|exact example_slots_replicas|exact example_slots_swaps|].
  exists s'. split; [exact E|]. split; [exact H1|].
  rewrite (H2 (mkKVCASAddr 1 64 100 0 0 0 77)) by (apply list_elem_of_here).
  destruct example_diverged_words as [-> ->]. reflexivity.
Defined.

(** An insertion that expects the slot of [example_diverged] to be free. *)
Definition example_late_insert : Sys :=
  example_diverged <| ctx ::= λ c, c <| req_type := KV_REQ_INSERT |>
    <| kv_modify_pr_cas_list := [mkKVCASAddr 0 64 92 0 0 0 77] |> |>.

Lemma example_late_insert_ends :
  match CR.modify_primary_idx_sync (F := quiet_fabric) 2 example_late_insert with
  | Done _ s' => ret_val (ctx s') = KV_OPS_FAIL_REDO
  | Stopped _ _ => False
  end.
Proof. by vm_compute. Qed.

Example cr_insert_always_publishes_witness :
  match CR.modify_primary_idx_sync (F := quiet_fabric) 2 example_late_insert with
  | Done _ s' => ret_val (ctx s') = KV_OPS_FAIL_REDO ∧
      slot_word (rmem (wld s')) (mkKVCASAddr 0 64 92 0 0 0 77) = 77
  | Stopped _ _ => False
  end.
Proof.
  assert (in_u64 77) as H77 by (vm_compute; intuition congruence).
  assert (idle example_late_insert) as Hid by (split; reflexivity).
  assert (KV_CONSENSUS_WIN_ALL ≠ KV_CONSENSUS_FAIL) as Hst by discriminate.
  pose proof (cr_insert_always_publishes (F := quiet_fabric) 2 example_late_insert
    (mkKVCASAddr 0 64 92 0 0 0 77) Hid eq_refl eq_refl Hst H77 eq_refl) as [_ H].
  pose proof example_late_insert_ends as E.
  destruct (CR.modify_primary_idx_sync _ _) as [[] s'|e s']; [|exact E].
  destruct H as (r & _ & H & _). exact (conj E H).
Defined.
