(* ===== verification/RequestFrame.v ===== *)
(** * Requests keep their description

    No operation changes what describes its request: the type, the address and
    lengths of key and value, the text of the key, the fiber and the flag are the
    same after [kv_search], [kv_insert], [kv_update] or [kv_delete], of either client
    ([client.cc], [client_cr.cc]), whatever the other clients do meanwhile.  The
    bytes of the entry are not part of it: the deletion of fibers clears a tail over
    the value.  The counters of the fibers ([Fibers]) rest on these lemmas. *)

From S2P Require Import Prelude Mem KvUtils HashTable ServerMM Server Rdma ClientState Network.
From S2P Require Import ClientMM BlockMap ClientIndex ClientConsensus ClientOps ClientCR.

Definition identity (c : KVReqCtx) : KVRequestType * KVInfo * string * Z * option bool :=
  (req_type c, kv_info c, key_str c, coro_id c, should_stop c).

(** What is asked of the request at hand. *)
Definition asked (s : Sys) : KVRequestType * KVInfo * string * Z * option bool := identity (ctx s).

(** ** Loops and primitives *)

Ltac head_of t := match t with ?f _ => head_of f | _ => t end.
Lemma keeps_mapMS {A B C} (f : Sys → C) (g : A → M Sys B) (l : list A) :
  (∀ x, keeps f (g x)) → keeps f (mapMS g l).
Proof. intros H. induction l as [|x l IH]; cbn [mapMS]; solve_keeps; auto. Qed.

Lemma keeps_foldl {A B C} (f : Sys → C) (g : M Sys B → A → M Sys B) m (l : list A) :
  (∀ m x, keeps f m → keeps f (g m x)) → keeps f m → keeps f (foldl g m l).
Proof. intros H. revert m. induction l as [|x l IH]; intros m Hm; [done|]. by apply IH, H. Qed.

(** Follows an operation through the definitions it calls. *)
Ltac follow := repeat first
  [ progress solve_keeps
  | progress cbn zeta
  | assumption
  | apply keeps_mapMS; intros ?
  | apply keeps_foldl; [intros ? ? ?|]
  | match goal with |- keeps _ ?c => let h := head_of c in progress unfold h; cbn beta zeta end ].

Lemma identity_of_client_side {A} (c : M Sys A) : keeps client_side c → keeps asked c.
Proof. apply (keeps_weaken c (λ p, identity p.2)). Qed.

Section primitives.
Context {F : Fabric}.

Lemma identity_poll_cq n : keeps asked (poll_cq n).
Proof. auto using identity_of_client_side, poll_cq_keeps. Qed.
Lemma identity_check_completion wait : keeps asked (nm_check_completion wait).
Proof. auto using identity_of_client_side, check_completion_keeps. Qed.
Lemma identity_wait_loop fuel wait : keeps asked (wait_loop fuel wait).
Proof. auto using identity_of_client_side, wait_loop_keeps. Qed.
Lemma identity_send_udp k sid : keeps asked (nm_send_udp_msg_to_server k sid).
Proof. auto using identity_of_client_side, send_udp_keeps. Qed.
Lemma identity_recv_udp : keeps asked nm_recv_udp_msg.
Proof. auto using identity_of_client_side, recv_udp_keeps. Qed.
End primitives.
#[export] Hint Resolve identity_poll_cq identity_check_completion identity_wait_loop identity_send_udp
  identity_recv_udp : frame.

Section loops.
Context {F : Fabric}.

Lemma identity_poll_until fuel n comp : keeps asked (poll_until fuel n comp).
Proof. revert n comp. induction fuel as [|fuel IH]; intros n comp; cbn [poll_until]; follow; auto. Qed.
End loops.
#[export] Hint Resolve identity_poll_until : frame.

Section more_loops.
Context {F : Fabric}.
Lemma identity_post_lists P ls : P = sync_posting ∨ P = fiber_posting → keeps asked (post_lists P ls).
Proof. intros [->| ->]; cbn [post_lists]; follow. Qed.
Lemma identity_wait_primary fuel : keeps asked (wait_primary fuel).
Proof. induction fuel as [|fuel IH]; cbn [wait_primary]; follow; auto. Qed.
Lemma identity_wait_primary_sync fuel : keeps asked (wait_primary_sync fuel).
Proof. induction fuel as [|fuel IH]; cbn [wait_primary_sync]; follow; auto. Qed.
Lemma identity_find_kv idxs buf : keeps asked (find_kv_loop idxs buf).
Proof. revert buf. induction idxs as [|[? ?] idxs IH]; intros buf; cbn [find_kv_loop]; follow; auto. Qed.
Lemma identity_find_kv_on_crash idxs buf : keeps asked (find_kv_on_crash_loop idxs buf).
Proof. revert buf. induction idxs as [|[? ?] idxs IH]; intros buf; cbn [find_kv_on_crash_loop]; follow; auto. Qed.
Lemma identity_cas_until P fuel sid a wr :
  (∀ ls, keeps asked (post_lists P ls)) → keeps asked (CR.cas_until P fuel sid a wr).
Proof. intros HP. revert wr. induction fuel as [|fuel IH]; intros wr; cbn [CR.cas_until]; follow; auto. Qed.
Lemma identity_iteratively_cas retries ls :
  keeps asked (CR.iteratively_cas_sync retries ls) ∧ keeps asked (CR.iteratively_cas_async retries ls).
Proof.
  split; unfold CR.iteratively_cas_sync, CR.iteratively_cas_async, CR.single_wr; solve_keeps;
    apply identity_cas_until; intros ls'; apply identity_post_lists; auto.
Qed.
End more_loops.
#[export] Hint Resolve identity_wait_primary identity_wait_primary_sync identity_find_kv
  identity_find_kv_on_crash : frame.
#[export] Hint Extern 2 (keeps asked (CR.iteratively_cas_sync _ _)) => apply identity_iteratively_cas : frame.
#[export] Hint Extern 2 (keeps asked (CR.iteratively_cas_async _ _)) => apply identity_iteratively_cas : frame.

(** ** The operations *)

Definition client_operations {F : Fabric} (junk : mem) (spin : nat) : list (M Sys Z) :=
  [kv_search; kv_search_sync; kv_search_on_crash; kv_insert junk spin; kv_insert_sync junk spin;
   kv_update junk spin; kv_update_sync junk spin; kv_delete junk spin; kv_delete_sync junk spin].

Definition cr_operations {F : Fabric} (junk : mem) (retries : nat) : list (M Sys Z) :=
  [CR.kv_search; CR.kv_search_on_crash; CR.kv_insert junk retries; CR.kv_insert_sync junk retries;
   CR.kv_update junk retries; CR.kv_update_sync junk retries;
   CR.kv_delete junk retries; CR.kv_delete_sync junk retries].

Lemma client_operations_keep {F : Fabric} junk spin : Forall (keeps asked) (client_operations junk spin).
Proof. repeat constructor; follow. Qed.

Lemma cr_operations_keep {F : Fabric} junk retries : Forall (keeps asked) (cr_operations junk retries).
Proof. repeat constructor; follow. Qed.
