(* ===== verification/Workload.v ===== *)
(** * Workloads

    The requests that a client is given before it runs ([load_seq_kv_requests] and
    [load_kv_requests] of [client.cc] and [client_cr.cc]): generated ones, or those
    of a file, as log entries one after the other in the input buffer with a context
    for each.  The two clients differ in few places, which are arguments of the
    shared definitions.  The contexts that [load_kv_requests] clears with [memset]
    are taken as constructed. *)

From S2P Require Import Prelude Mem KvUtils HashTable ServerMM Server Rdma ClientState.
From S2P Require Import ClientIndex ClientOps ClientCR.
From stdpp Require Import pretty.

#[local] Open Scope Z_scope.

(** Where the list of contexts comes from: [NULL], [malloc] or [new []]. *)
Inductive Allocation := Unallocated | Malloced | Newed.
#[global] Instance Allocation_eq_dec : EqDecision Allocation.
Proof. solve_decision. Defined.

Module Wl.
Record t := mk {
  sys : Sys; kv_info_list_ : list KVInfo; kv_req_ctx_list_ : list KVReqCtx;
  num_total_operations_ : Z; num_local_operations_ : Z; coro_local_addr_list_ : list Z;
  ctx_list_alloc : Allocation }.
#[global] Instance eta_t : Eta t := λ w,
  mk (sys w) (kv_info_list_ w) (kv_req_ctx_list_ w) (num_total_operations_ w)
    (num_local_operations_ w) (coro_local_addr_list_ w) (ctx_list_alloc w).
End Wl.

(** ** Access to the lists *)

(** An operation on the context [i] of the list. *)
Definition on_ctx {A} (i : Z) (m : M Sys A) : M Wl.t A := λ w,
  match Wl.kv_req_ctx_list_ w !! Z.to_nat i with
  | None => Stopped Undefined w
  | Some c =>
      let back s := w <| Wl.sys := s |> <| Wl.kv_req_ctx_list_ ::= <[Z.to_nat i := ctx s]> |> in
      match m ((Wl.sys w) <| ctx := c |>) with
      | Done a s => Done a (back s)
      | Stopped e s => Stopped e (back s)
      end
  end.

Definition on_sys {A} (m : M Sys A) : M Wl.t A := λ w,
  match m (Wl.sys w) with
  | Done a s => Done a (w <| Wl.sys := s |>)
  | Stopped e s => Stopped e (w <| Wl.sys := s |>)
  end.

Definition set_kv_info (i : Z) (k : KVInfo) : M Wl.t unit := λ w,
  if (Z.to_nat i <? length (Wl.kv_info_list_ w))%nat
  then Done tt (w <| Wl.kv_info_list_ ::= <[Z.to_nat i := k]> |>)
  else Stopped Undefined w.

(** ** Loading *)

Definition bytes_of (s : string) : list Z := (λ c, Z.of_N (Ascii.N_of_ascii c)) <$> String.list_ascii_of_string s.

(** [%d] of an [int], and [%3d]. *)
Definition fmt_d (v : Z) : string :=
  pretty (let v := u32 v in if v <? 2 ^ 31 then v else v - 2 ^ 32)%Z.
Definition fmt_3d (v : Z) : string :=
  String.string_of_list_ascii (replicate (3 - String.length (fmt_d v)) (Ascii.ascii_of_N 32)) +:+ fmt_d v.

(** The size of the input buffer. *)
Definition CLINET_INPUT_BUF_LEN : Z := 512 * 1024 * 1024.

(** The entry of a request at [ptr]: key, value, header, and the operation in its
    tail; the baseline client sets the flag of the header, and leaves the tail of
    generated requests alone.  Nothing keeps it from writing past the buffer, which
    has no defined result. *)
Definition load_entry (valid op : bool) (ptr : Z) (key value : list Z) : M Sys KVInfo :=
  s ← get;
  let klen := Z.of_nat (length key) in
  let vlen := Z.of_nat (length value) in
  let last := ptr + sizeof_KVLogHeader + klen + vlen + (if op then off_op + 1 else 0) in
  whenm (Cl.input_buf_ (cl s) + CLINET_INPUT_BUF_LEN <? last) (stopm Undefined) ;;
  wr_bytes (ptr + sizeof_KVLogHeader) key ;;
  wr_bytes (ptr + sizeof_KVLogHeader + klen) value ;;
  whenm valid (wr8 (ptr + off_is_valid) 1) ;;
  set_lmem (λ m, store16 m (ptr + off_key_length) klen) ;;
  set_lmem (λ m, store32 m (ptr + off_value_length) vlen) ;;
  key_length ← rd16 (ptr + off_key_length);
  value_length ← rd32 (ptr + off_value_length);
  whenm op (wr8 (ptr + sizeof_KVLogHeader + key_length + value_length + off_op) (KVLogOp_val KV_OP_INSERT)) ;;
  mret (mkKVInfo ptr (Cl.input_buf_lkey (cl s)) klen vlen).

(** The length of the entry. *)
Definition all_len (key value : list Z) : Z :=
  sizeof_KVLogHeader + Z.of_nat (length key) + Z.of_nat (length value) + sizeof_KVLogTail.

Definition seq_key (my_server_id i : Z) : list Z := bytes_of (fmt_3d my_server_id +:+ "-" +:+ fmt_d i).
Definition initial_value (i : Z) : list Z := bytes_of ("initial-value-" +:+ fmt_d i).

Section loading.
(** What distinguishes the two clients: the flags of [load_entry], whether
    [load_seq_kv_requests] deletes the old list of contexts, the initialisation of a
    context, and the position of request [i] in the lists. *)
Context (valid seq_op frees : bool) (init : KVInfo → string → M Sys unit) (slot : Z → Z → Z).
(** The contents of the memory of new contexts. *)
Context (heap_ctx : Z → KVReqCtx).

(** The loop over [i]; [ptr] is [input_buf_ptr]. *)
Definition seq_one (op_type : string) (i ptr : Z) : M Wl.t Z :=
  whenm (2 ^ 31 <=? i) (stopm Undefined) ;;
  s ← gets Wl.sys;
  let key := seq_key (Cl.my_server_id_ (cl s)) i in
  let value := initial_value i in
  k ← on_sys (load_entry valid seq_op ptr key value);
  set_kv_info i k ;;
  on_ctx i (init k op_type) ;;
  mret (u64 (ptr + all_len key value)).

Fixpoint seq_loop (n : nat) (i ptr : Z) (op_type : string) : M Wl.t unit :=
  match n with
  | O => skip
  | S n' => ptr' ← seq_one op_type i ptr; seq_loop n' (i + 1) ptr' op_type
  end.

(** [delete []] of a list that [malloc] gave, and [free] of one that [new] gave,
    have no defined result. *)
Definition released_by (wrong : Allocation) : M Wl.t unit :=
  a ← gets Wl.ctx_list_alloc; whenm (bool_decide (a = wrong)) (stopm Undefined).

Definition load_seq_kv_requests (num_keys : Z) (op_type : string) : M Wl.t Z :=
  let n := Z.to_nat num_keys in
  whenm frees (released_by Malloced) ;;
  modify (λ w, w <| Wl.num_total_operations_ := num_keys |> <| Wl.num_local_operations_ := num_keys |>
    <| Wl.kv_info_list_ := replicate n (mkKVInfo 0 0 0 0) |>
    <| Wl.kv_req_ctx_list_ := (λ i, constructed (heap_ctx i)) <$> zrange 0 num_keys |>
    <| Wl.ctx_list_alloc := Newed |>) ;;
  s ← gets Wl.sys;
  seq_loop n 0 (Cl.input_buf_ (cl s)) op_type ;;
  mret 0.

(** [fscanf(workload_file, "%s %s %s", operation_buf, table_buf, key_buf)] on the
    words that are left: [None] is [EOF]; a word that does not fit its buffer is
    written out of bounds. *)
Definition bufs : Type := string * string * string.
Definition fscanf3 (b : bufs) (words : list string) : option (bufs * list string) :=
  match words with
  | [] => None
  | [o] => Some ((o, b.1.2, b.2), [])
  | [o; t] => Some ((o, t, b.2), [])
  | o :: t :: k :: rest => Some ((o, t, k), rest)
  end.
Definition bufs_fit (b : bufs) : bool :=
  (String.length b.1.1 <? 16)%nat && (String.length b.1.2 <? 16)%nat && (String.length b.2 <? 64)%nat.

(** The operations of the file; [fuel] is its number of words. *)
Fixpoint count_operations (fuel : nat) (b : bufs) (words : list string) (total : Z) : M Wl.t Z :=
  match fscanf3 b words with
  | None => mret total
  | Some (b', rest) =>
      if bufs_fit b' then
        match fuel with
        | O => mret total
        | S fuel' => count_operations fuel' b' rest (u32 (total + 1))
        end
      else stopm Undefined
  end.

Fixpoint load_loop (n : nat) (i st_idx ptr : Z) (b : bufs) (words : list string) : M Wl.t unit :=
  match n with
  | O => skip
  | S n' =>
      whenm (2 ^ 31 <=? i) (stopm Undefined) ;;
      let '(b', rest) := default (b, []) (fscanf3 b words) in
      if i <? st_idx then load_loop n' (i + 1) st_idx ptr b' rest
      else
        let key := bytes_of b'.2 in
        let value := initial_value i in
        k ← on_sys (load_entry valid true ptr key value);
        set_kv_info (slot st_idx i) k ;;
        on_ctx (slot st_idx i) (init k b'.1.1) ;;
        load_loop n' (i + 1) st_idx (u64 (ptr + all_len key value)) b' rest
  end.

(** [file] is the workload file, as words; [can_alloc] whether so many contexts
    can be allocated; [stack] what the buffers hold at first. *)
Definition load_kv_requests (can_alloc : Z → bool) (stack : bufs) (file : option (list string))
    (st_idx num_ops : Z) : M Wl.t Z :=
  match file with
  | None => mret (-1)
  | Some words =>
      old ← gets Wl.num_total_operations_;
      whenm (negb (old =? 0))
        (released_by Newed ;;
         modify (λ w, w <| Wl.num_total_operations_ := 0 |> <| Wl.num_local_operations_ := 0 |>)) ;;
      total ← count_operations (length words) stack words 0;
      let local :=
        if num_ops =? -1 then total
        else if total <? u32 (st_idx + num_ops) then u32 (total - st_idx) else u32 num_ops in
      modify (λ w, w <| Wl.num_total_operations_ := total |> <| Wl.num_local_operations_ := local |>) ;;
      if can_alloc local then
        modify (λ w, w <| Wl.kv_info_list_ := replicate (Z.to_nat local) (mkKVInfo 0 0 0 0) |>
                       <| Wl.kv_req_ctx_list_ := replicate (Z.to_nat local) KVReqCtx_zero |>
                       <| Wl.ctx_list_alloc := Malloced |>) ;;
        s ← gets Wl.sys;
        load_loop (Z.to_nat (u32 (st_idx + local))) 0 st_idx (Cl.input_buf_ (cl s)) stack words ;;
        mret 0
      else stopm Exited
  end.
End loading.

(** The two clients.  The baseline client addresses its lists by the position in
    the file, although they have room for the requests it loads only. *)
Definition client_load_seq := load_seq_kv_requests false true true init_kv_req_ctx.
Definition client_load := load_kv_requests false init_kv_req_ctx (λ st i, i - st).
Definition cr_load_seq := load_seq_kv_requests true false false CR.init_kv_req_ctx.
Definition cr_load := load_kv_requests true CR.init_kv_req_ctx (λ _ i, i).

(** ** Formatted text *)

Definition plain (s : string) : Prop := c_string (bytes_of s) = s.
Lemma bytes_of_app s t : bytes_of (s +:+ t) = bytes_of s ++ bytes_of t.
Proof.
  unfold bytes_of. rewrite <- fmap_app. f_equal.
  induction s as [|c s IH]; [done|]. exact (f_equal (cons c) IH).
Qed.

Lemma bytes_of_byte s : Forall is_byte (bytes_of s).
Proof.
  apply Forall_fmap, Forall_forall. intros c _. unfold is_byte, compose.
  pose proof (Ascii.N_ascii_bounded c). lia.
Qed.

Lemma plain_cons c s : plain (String c s) ↔ Ascii.N_of_ascii c ≠ 0%N ∧ plain s.
Proof.
  unfold plain, bytes_of. cbn [String.list_ascii_of_string fmap list_fmap c_string].
  rewrite N2Z.id, Ascii.ascii_N_embedding.
  destruct (Z.eqb_spec (Z.of_N (Ascii.N_of_ascii c)) 0); split; [done|lia|intros [= ?]; split; [lia|done]|].
  intros [_ H]. by f_equal.
Qed.

Lemma plain_app s t : plain s → plain t → plain (s +:+ t).
Proof.
  intros Hs Ht. induction s as [|c s IH]; [done|].
  apply plain_cons in Hs as [Hc Hs]. change (String c s +:+ t) with (String c (s +:+ t)).
  apply plain_cons. auto.
Qed.

Lemma digit_plain x s : plain s → plain (String (pretty_N_char x) s).
Proof.
  intros Hs. apply plain_cons. split; [|done]. unfold pretty_N_char. by repeat case_match.
Qed.

Lemma pretty_N_go_plain x s : plain s → plain (pretty_N_go x s).
Proof.
  revert s. induction (N.lt_wf_0 x) as [x _ IH]; intros s Hs.
  destruct (decide (x = 0%N)) as [->|Hx]; [done|].
  rewrite pretty_N_go_step by lia. apply IH, digit_plain, Hs. apply N.div_lt; lia.
Qed.

Lemma pretty_plain (x : Z) : plain (pretty x).
Proof.
  destruct x as [|x|x]; [done|apply (pretty_N_go_plain (N.pos x)); done|].
  apply (plain_app "-"); [done|]. by apply (pretty_N_go_plain (N.pos x)).
Qed.

Lemma pretty_N_go_length (k : nat) x s :
  (x < 10 ^ N.of_nat k)%N → (String.length (pretty_N_go x s) <= k + String.length s)%nat.
Proof.
  revert x s. induction k as [|k IH]; intros x s Hx.
  - change (10 ^ N.of_nat 0)%N with 1%N in Hx. by replace x with 0%N by lia.
  - destruct (decide (x = 0%N)) as [->|Hn]; [rewrite pretty_N_go_0; lia|].
    rewrite pretty_N_go_step by lia. etrans; [apply IH|cbn; lia].
    apply N.Div0.div_lt_upper_bound. rewrite Nat2N.inj_succ, N.pow_succ_r' in Hx. lia.
Qed.

Lemma pretty_length (x : Z) : Z.abs x < 10 ^ 10 → (String.length (pretty x) <= 11)%nat.
Proof.
  intros Hx. assert (∀ p, Z.pos p < 10 ^ 10 → (String.length (pretty_N_go (N.pos p) "") <= 10)%nat) as Hp.
  { intros p Hp. etrans; [apply (pretty_N_go_length 10); cbn; lia|done]. }
  destruct x as [|x|x]; [cbn; lia| |].
  - change (String.length (pretty_N_go (N.pos x) "") <= 11)%nat. specialize (Hp x). lia.
  - change (S (String.length (pretty_N_go (N.pos x) "")) <= 11)%nat. specialize (Hp x). lia.
Qed.

Lemma fmt_d_arg v : Z.abs (let v := u32 v in if v <? 2 ^ 31 then v else v - 2 ^ 32) < 10 ^ 10.
Proof. pose proof (Z.mod_pos_bound v (2 ^ 32)). cbn zeta. change (u32 v) with (v mod 2 ^ 32). case_match; lia. Qed.

Lemma fmt_d_plain v : plain (fmt_d v).
Proof. apply pretty_plain. Qed.

Lemma fmt_d_length v : (String.length (fmt_d v) <= 11)%nat.
Proof. apply pretty_length, fmt_d_arg. Qed.

Lemma fmt_d_inj i j : 0 <= i < 2 ^ 31 → 0 <= j < 2 ^ 31 → fmt_d i = fmt_d j → i = j.
Proof.
  intros Hi Hj E. unfold fmt_d in E. apply (inj pretty) in E.
  unfold u32 in E. rewrite !Z.mod_small in E by lia.
  rewrite !(proj2 (Z.ltb_lt _ _)) in E by lia. done.
Qed.

Lemma length_string_app (s t : string) : String.length (s +:+ t) = (String.length s + String.length t)%nat.
Proof. induction s as [|c s IH]; [done|]. exact (f_equal S IH). Qed.

Lemma bytes_of_length s : length (bytes_of s) = String.length s.
Proof. unfold bytes_of. rewrite length_fmap. induction s as [|c s IH]; [done|]. exact (f_equal S IH). Qed.

Lemma spaces_plain n :
  let s := String.string_of_list_ascii (replicate n (Ascii.ascii_of_N 32)) in
  plain s ∧ String.length s = n.
Proof. induction n as [|n [IH1 IH2]]; [done|]. split; [by apply plain_cons|exact (f_equal S IH2)]. Qed.

Lemma seq_text id i :
  plain (fmt_3d id +:+ "-" +:+ fmt_d i) ∧ (String.length (fmt_3d id +:+ "-" +:+ fmt_d i) <= 26)%nat.
Proof.
  destruct (spaces_plain (3 - String.length (fmt_d id))) as [Hp Hl].
  pose proof (fmt_d_length id). pose proof (fmt_d_length i). split.
  - unfold fmt_3d. repeat apply plain_app; [done|apply fmt_d_plain|done|apply fmt_d_plain].
  - unfold fmt_3d. rewrite !length_string_app, Hl. cbn [String.length]. lia.
Qed.

(** The keys of two requests differ, and each is read back as it was written. *)
Lemma seq_key_inj id i j : 0 <= i < 2 ^ 31 → 0 <= j < 2 ^ 31 → seq_key id i = seq_key id j → i = j.
Proof.
  intros Hi Hj E. apply (f_equal c_string) in E. unfold seq_key in E.
  rewrite !(proj1 (seq_text id _)) in E. apply (inj (String.append (fmt_3d id))) in E.
  injection E as E. by apply fmt_d_inj.
Qed.

Lemma seq_key_length id i : Z.of_nat (length (seq_key id i)) <= 26.
Proof. unfold seq_key. rewrite bytes_of_length. pose proof (proj2 (seq_text id i)). lia. Qed.

Lemma initial_value_length i : Z.of_nat (length (initial_value i)) <= 25.
Proof.
  unfold initial_value. rewrite bytes_of_length, length_string_app. pose proof (fmt_d_length i). cbn. lia.
Qed.

(** ** A loaded entry *)

Ltac layout :=
  unfold all_len, sizeof_KVLogHeader, sizeof_KVLogTail, off_is_valid, off_key_length, off_value_length,
    off_op in *; lia.

Record entry_in (valid op : bool) (m : mem) (a : Z) (key value : list Z) : Prop := {
  ei_key_length : load16 m (a + off_key_length) = Z.of_nat (length key);
  ei_value_length : load32 m (a + off_value_length) = Z.of_nat (length value);
  ei_key : load_bytes (Z.of_nat (length key)) m (a + sizeof_KVLogHeader) = key;
  ei_value : load_bytes (Z.of_nat (length value)) m
               (a + sizeof_KVLogHeader + Z.of_nat (length key)) = value;
  ei_valid : valid = true → load8 m (a + off_is_valid) = 1;
  ei_op : op = true →
    load8 m (a + sizeof_KVLogHeader + Z.of_nat (length key) + Z.of_nat (length value) + off_op)
    = KVLogOp_val KV_OP_INSERT }.

Lemma entry_in_ext valid op m m' a key value :
  (∀ x, a <= x < a + all_len key value → m' x = m x) →
  entry_in valid op m a key value → entry_in valid op m' a key value.
Proof.
  intros Hm [H1 H2 H3 H4 H5 H6].
  split; [etrans; [|exact H1]|etrans; [|exact H2]|etrans; [|exact H3]|etrans; [|exact H4]
         |intros Hv; etrans; [|exact (H5 Hv)]|intros Ho; etrans; [|exact (H6 Ho)]];
    (apply load_ext || apply load_bytes_ext); intros i Hi; (rewrite Hm; [done|layout]).
Qed.

Definition entry_stored (valid op : bool) (m : mem) (a : Z) (key value : list Z) : mem :=
  let m := store_bytes m (a + sizeof_KVLogHeader) key in
  let m := store_bytes m (a + sizeof_KVLogHeader + Z.of_nat (length key)) value in
  let m := if valid then store8 m (a + off_is_valid) 1 else m in
  let m := store16 m (a + off_key_length) (Z.of_nat (length key)) in
  let m := store32 m (a + off_value_length) (Z.of_nat (length value)) in
  if op then store8 m (a + sizeof_KVLogHeader + Z.of_nat (length key) + Z.of_nat (length value) + off_op)
               (KVLogOp_val KV_OP_INSERT) else m.

Lemma entry_stored_outside valid op m a key value x :
  ¬ (a <= x < a + all_len key value) → entry_stored valid op m a key value x = m x.
Proof.
  intros Hx. unfold entry_stored, store8, store16, store32.
  destruct valid, op; rewrite ?store_outside, ?store_bytes_outside by layout; done.
Qed.

Lemma entry_stored_in valid op m a key value :
  Forall is_byte key → Forall is_byte value →
  Z.of_nat (length key) < 2 ^ 16 → Z.of_nat (length value) < 2 ^ 32 →
  entry_in valid op (entry_stored valid op m a key value) a key value.
Proof.
  intros Hk Hv Hkl Hvl. unfold entry_stored, store8, store16, store32. split; unfold load8, load16, load32.
  - destruct op; rewrite !load_store_ne, load_store_eq by layout; apply Z.mod_small; lia.
  - destruct op; rewrite ?load_store_ne, load_store_eq by layout; apply Z.mod_small; lia.
  - etrans; [|exact (load_bytes_store_bytes m (a + sizeof_KVLogHeader) key Hk)].
    apply load_bytes_ext. intros i Hi.
    destruct valid, op; rewrite !store_outside, store_bytes_outside by layout; done.
  - etrans; [|exact (load_bytes_store_bytes (store_bytes m (a + sizeof_KVLogHeader) key)
                       (a + sizeof_KVLogHeader + Z.of_nat (length key)) value Hv)].
    apply load_bytes_ext. intros i Hi. destruct valid, op; rewrite !store_outside by layout; done.
  - intros ->. destruct op; rewrite !load_store_ne, load_store_eq by layout; done.
  - intros ->. by rewrite load_store_eq.
Qed.

Lemma load_entry_run valid op ptr key value s :
  Forall is_byte key → Forall is_byte value →
  Z.of_nat (length key) < 2 ^ 16 → Z.of_nat (length value) < 2 ^ 32 →
  ptr + all_len key value <= Cl.input_buf_ (cl s) + CLINET_INPUT_BUF_LEN →
  load_entry valid op ptr key value s =
    Done (mkKVInfo ptr (Cl.input_buf_lkey (cl s)) (Z.of_nat (length key)) (Z.of_nat (length value)))
      (s <| wld ::= λ w, w <| lmem ::= λ m, entry_stored valid op m ptr key value |> |>).
Proof.
  intros Hk Hv Hkl Hvl Hfit. unfold load_entry. unM. unfold get.
  rewrite (proj2 (Z.ltb_ge _ _)) by (clear -Hfit; destruct op; layout).
  unfold wr_bytes, wr8, set_lmem, rd16, rd32, get_lmem. unM.
  destruct (entry_stored_in valid false (lmem (wld s)) ptr key value Hk Hv Hkl Hvl) as [H1 H2 _ _ _ _].
  unfold entry_stored in H1, H2.
  destruct valid, op; unfold whenm, skip; unM; cbn -[load16 load32] in *; rewrite ?H1, ?H2;
    by destruct s as [[]].
Qed.

(** ** A loaded request list *)

(** What the initialisation of a context has to provide. *)
Definition initialises (init : KVInfo → string → M Sys unit) : Prop :=
  ∀ k op s, 1 <= Cl.num_idx_rep_ (cl s) → 0 <= key_len k < 128 →
  ∃ c, init k op s = Done tt (s <| ctx := c |>) ∧
    kv_info c = k ∧ req_type c = req_type_of op ∧ ctx_lkey c = Cl.local_buf_lkey (cl s) ∧
    key_str c = c_string (load_bytes (key_len k) (lmem (wld s)) (get_key k)) ∧
    length (kv_modify_pr_cas_list c) = 1%nat ∧
    length (kv_modify_bk_0_cas_list c) = Z.to_nat (Cl.num_idx_rep_ (cl s) - 1) ∧
    length (kv_modify_bk_1_cas_list c) = Z.to_nat (Cl.num_idx_rep_ (cl s) - 1) ∧
    length (log_commit_addr_list c) = Z.to_nat (Cl.num_replication_ (cl s)).

Lemma vresize_length {A} n (z : A) l : length (vresize n z l) = n.
Proof. unfold vresize. rewrite length_app, length_take, length_replicate. lia. Qed.

Lemma client_initialises : initialises init_kv_req_ctx.
Proof.
  intros k op s Hn Hk. unfold init_kv_req_ctx. unM. unfold get.
  rewrite (proj2 (Z.ltb_ge _ _)) by lia. unfold whenm, skip. unM.
  rewrite (proj2 (Z.ltb_ge 128 _)), (proj2 (Z.eqb_neq _ 128)) by lia. cbn [orb andb].
  unfold set_ctx. unM. match goal with |- context [Done tt ?s'] => exists (ctx s') end.
  split; [by destruct s|].
  cbn -[vresize]. by rewrite !vresize_length.
Qed.

Lemma cr_initialises : initialises CR.init_kv_req_ctx.
Proof.
  intros k op s Hn Hk. unfold CR.init_kv_req_ctx. unM. unfold get.
  rewrite (proj2 (Z.ltb_ge _ _)) by lia. unfold whenm, skip. unM.
  rewrite (proj2 (Z.ltb_ge 128 _)), (proj2 (Z.eqb_neq _ 128)) by lia. cbn [orb andb].
  unfold set_ctx. unM. match goal with |- context [Done tt ?s'] => exists (ctx s') end.
  split; [by destruct s|].
  cbn -[vresize]. by rewrite !vresize_length.
Qed.

(** The length of the entries of the [n] requests from [i] on. *)
Fixpoint entries_len (id i : Z) (n : nat) : Z :=
  match n with
  | O => 0
  | S n' => all_len (seq_key id i) (initial_value i) + entries_len id (i + 1) n'
  end.

(** Request [i] of the list, with its entry at [a]. *)
Definition loaded_at (valid op : bool) (ty : string) (w : Wl.t) (i : Z) (a : Z) : Prop :=
  let s := Wl.sys w in
  let key := seq_key (Cl.my_server_id_ (cl s)) i in
  let info := mkKVInfo a (Cl.input_buf_lkey (cl s)) (Z.of_nat (length key))
                (Z.of_nat (length (initial_value i))) in
  entry_in valid op (lmem (wld s)) a key (initial_value i) ∧
  Wl.kv_info_list_ w !! Z.to_nat i = Some info ∧
  ∃ c, Wl.kv_req_ctx_list_ w !! Z.to_nat i = Some c ∧
    kv_info c = info ∧ req_type c = req_type_of ty ∧ ctx_lkey c = Cl.local_buf_lkey (cl s) ∧
    bytes_of (key_str c) = key ∧ length (kv_modify_pr_cas_list c) = 1%nat ∧
    length (kv_modify_bk_0_cas_list c) = Z.to_nat (Cl.num_idx_rep_ (cl s) - 1) ∧
    length (kv_modify_bk_1_cas_list c) = Z.to_nat (Cl.num_idx_rep_ (cl s) - 1) ∧
    length (log_commit_addr_list c) = Z.to_nat (Cl.num_replication_ (cl s)).

(** [w'] is [w] with requests [i], [i+1], ... loaded, their entries from [ptr] to
    [stop]. *)
Record loads (valid op : bool) (ty : string) (w w' : Wl.t) (i : Z) (n : nat) (ptr : Z) : Prop := {
  ld_at (k : nat) : (k < n)%nat →
    loaded_at valid op ty w' (i + Z.of_nat k) (ptr + entries_len (Cl.my_server_id_ (cl (Wl.sys w))) i k);
  ld_lists : length (Wl.kv_info_list_ w') = length (Wl.kv_info_list_ w) ∧
             length (Wl.kv_req_ctx_list_ w') = length (Wl.kv_req_ctx_list_ w);
  ld_before j : 0 <= j < i → Wl.kv_info_list_ w' !! Z.to_nat j = Wl.kv_info_list_ w !! Z.to_nat j ∧
    Wl.kv_req_ctx_list_ w' !! Z.to_nat j = Wl.kv_req_ctx_list_ w !! Z.to_nat j;
  ld_mem x : ¬ (ptr <= x < ptr + entries_len (Cl.my_server_id_ (cl (Wl.sys w))) i n) →
    lmem (wld (Wl.sys w')) x = lmem (wld (Wl.sys w)) x;
  ld_sys : ∃ m c, Wl.sys w' = (Wl.sys w) <| wld ::= λ v, v <| lmem := m |> |> <| ctx := c |>;
  ld_rest : Wl.num_total_operations_ w' = Wl.num_total_operations_ w ∧
    Wl.num_local_operations_ w' = Wl.num_local_operations_ w ∧
    Wl.coro_local_addr_list_ w' = Wl.coro_local_addr_list_ w }.

Lemma all_len_range id i : 40 <= all_len (seq_key id i) (initial_value i) <= 91.
Proof. pose proof (seq_key_length id i). pose proof (initial_value_length i). layout. Qed.

Lemma entries_len_range id i n : 0 <= entries_len id i n <= 91 * Z.of_nat n.
Proof.
  revert i. induction n as [|n IH]; intros i; cbn [entries_len]; [lia|].
  pose proof (IH (i + 1)). pose proof (all_len_range id i). lia.
Qed.

Lemma loads_cons valid op ty w w1 w2 i n ptr len :
  0 <= i → len = all_len (seq_key (Cl.my_server_id_ (cl (Wl.sys w))) i) (initial_value i) →
  loads valid op ty w w1 i 1 ptr → loads valid op ty w1 w2 (i + 1) n (ptr + len) →
  loads valid op ty w w2 i (S n) ptr.
Proof.
  intros Hi -> [A1 [L1 L1'] B1 M1 (m1 & c1 & S1) R1] [A2 [L2 L2'] B2 M2 (m2 & c2 & S2) R2].
  set (id := Cl.my_server_id_ (cl (Wl.sys w))) in *.
  assert (cl (Wl.sys w1) = cl (Wl.sys w) ∧ cl (Wl.sys w2) = cl (Wl.sys w)) as [C1 C2].
  { rewrite S2, S1. split; reflexivity. }
  rewrite C1 in A2, M2. change (Cl.my_server_id_ (cl (Wl.sys w))) with id in A2, M2.
  pose proof (entries_len_range id (i + 1) n). pose proof (all_len_range id i).
  split.
  - intros [|k] Hk.
    + specialize (A1 0%nat ltac:(lia)). cbn [entries_len] in *. rewrite !Z.add_0_r in *.
      destruct A1 as (E & I & c & Ec & Hc). unfold loaded_at. rewrite C2.
      rewrite C1 in E, I, Hc. fold id in E, I, Hc |- *.
      destruct (B2 i ltac:(lia)) as [-> ->].
      split; [|eauto]. revert E. apply entry_in_ext. intros x Hx. apply M2. lia.
    + specialize (A2 k ltac:(lia)). cbn [entries_len].
      replace (i + Z.of_nat (S k)) with (i + 1 + Z.of_nat k) by lia. by rewrite Z.add_assoc.
  - by rewrite L2, L2'.
  - intros j Hj. destruct (B2 j ltac:(lia)) as [-> ->]. by apply B1.
  - intros x Hx. fold id in Hx. cbn [entries_len] in *. rewrite M2 by lia. apply M1. lia.
  - exists m2, c2. rewrite S2, S1. by destruct (Wl.sys w) as [[]].
  - destruct R1 as (<- & <- & <-). exact R2.
Qed.

Lemma set_kv_info_run i k w :
  0 <= i → (Z.to_nat i < length (Wl.kv_info_list_ w))%nat →
  set_kv_info i k w = Done tt (w <| Wl.kv_info_list_ ::= <[Z.to_nat i := k]> |>).
Proof. intros Hi Hl. unfold set_kv_info. by rewrite (proj2 (Nat.ltb_lt _ _)). Qed.

Section load_correct.
Context (valid op : bool) (init : KVInfo → string → M Sys unit) (Hinit : initialises init).

(** One request. *)
Lemma seq_one_run ty w i ptr :
  0 <= i < 2 ^ 31 → 1 <= Cl.num_idx_rep_ (cl (Wl.sys w)) →
  (Z.to_nat i < length (Wl.kv_info_list_ w))%nat →
  (Z.to_nat i < length (Wl.kv_req_ctx_list_ w))%nat →
  0 <= ptr → Cl.input_buf_ (cl (Wl.sys w)) + CLINET_INPUT_BUF_LEN < 2 ^ 64 →
  ptr + all_len (seq_key (Cl.my_server_id_ (cl (Wl.sys w))) i) (initial_value i)
    <= Cl.input_buf_ (cl (Wl.sys w)) + CLINET_INPUT_BUF_LEN →
  ∃ w', seq_one valid op init ty i ptr w =
          Done (ptr + all_len (seq_key (Cl.my_server_id_ (cl (Wl.sys w))) i) (initial_value i)) w' ∧
        loads valid op ty w w' i 1 ptr.
Proof.
  intros Hi Hn Hl1 Hl2 Hp Hp' Hfit. unfold seq_one. unM.
  rewrite (proj2 (Z.leb_gt _ _)) by lia. unfold whenm, skip, on_sys. unM.
  set (id := Cl.my_server_id_ (cl (Wl.sys w))) in *.
  pose proof (seq_key_length id i). pose proof (initial_value_length i). pose proof (all_len_range id i).
  rewrite load_entry_run by (apply bytes_of_byte || exact Hfit || lia).
  set (k := mkKVInfo _ _ _ _). set (s1 := set_field wld _ _).
  rewrite set_kv_info_run by (done || lia). unfold on_ctx.
  destruct (lookup_lt_is_Some_2 (Wl.kv_req_ctx_list_ w) (Z.to_nat i) Hl2) as [c Ec].
  set (w1 := set_field Wl.kv_info_list_ _ _). change (Wl.kv_req_ctx_list_ w1) with (Wl.kv_req_ctx_list_ w).
  rewrite Ec. change (Wl.sys w1) with s1.
  destruct (Hinit k ty (s1 <| ctx := c |>)) as (c' & E & Hk & Hty & Hlk & Hkey & Hcas); [done|cbn; lia|].
  rewrite E. eexists. split; [f_equal; unfold u64; rewrite Z.mod_small by lia; done|].
  assert (entry_in valid op (lmem (wld s1)) ptr (seq_key id i) (initial_value i)) as Hin
    by (apply entry_stored_in; (apply bytes_of_byte || lia)).
  assert (bytes_of (key_str c') = seq_key id i) as Hks.
  { rewrite Hkey. etrans; [apply f_equal, f_equal, (ei_key _ _ _ _ _ _ Hin)|].
    unfold seq_key. by rewrite (proj1 (seq_text id i)). }
  split; [| | | |by exists (lmem (wld s1)), c'; subst s1; destruct (Wl.sys w) as [[]]|done].
  - intros k0 Hk0. replace k0 with 0%nat by lia. cbn [entries_len]. rewrite !Z.add_0_r.
    split; [exact Hin|]. split; [by apply list_lookup_insert_eq|].
    exists c'. split; [by apply list_lookup_insert_eq|]. split; [done|]. by rewrite Hty.
  - cbn. by rewrite !length_insert.
  - intros j Hj. cbn. rewrite !list_lookup_insert_ne by lia. done.
  - intros x Hx. cbn [entries_len] in Hx. apply entry_stored_outside. fold id in Hx. lia.
Qed.

(** The loop. *)
Lemma seq_loop_run ty n w i ptr :
  0 <= i → i + Z.of_nat n <= 2 ^ 31 → 1 <= Cl.num_idx_rep_ (cl (Wl.sys w)) →
  (Z.to_nat i + n <= length (Wl.kv_info_list_ w))%nat →
  (Z.to_nat i + n <= length (Wl.kv_req_ctx_list_ w))%nat →
  0 <= ptr → Cl.input_buf_ (cl (Wl.sys w)) + CLINET_INPUT_BUF_LEN < 2 ^ 64 →
  ptr + entries_len (Cl.my_server_id_ (cl (Wl.sys w))) i n
    <= Cl.input_buf_ (cl (Wl.sys w)) + CLINET_INPUT_BUF_LEN →
  ∃ w', seq_loop valid op init n i ptr ty w = Done tt w' ∧ loads valid op ty w w' i n ptr.
Proof.
  revert w i ptr. induction n as [|n IH]; intros w i ptr Hi Hn Hr Hl1 Hl2 Hp Hp' Hfit.
  - exists w. split; [done|]. split; try done; [lia|].
    exists (lmem (wld (Wl.sys w))), (ctx (Wl.sys w)). by destruct (Wl.sys w) as [[]].
  - cbn [entries_len] in Hfit. pose proof (entries_len_range (Cl.my_server_id_ (cl (Wl.sys w))) (i + 1) n).
    destruct (seq_one_run ty w i ptr) as (w1 & E1 & L1); [lia..|].
    pose proof (all_len_range (Cl.my_server_id_ (cl (Wl.sys w))) i).
    destruct L1 as [A1 [I1 I2] B1 M1 (m1 & c1 & S1) R1] eqn:EL. clear EL.
    destruct (IH w1 (i + 1) (ptr + all_len (seq_key (Cl.my_server_id_ (cl (Wl.sys w))) i) (initial_value i)))
      as (w2 & E2 & L2); [lia|lia|by rewrite S1|lia|lia|lia| | |].
    { by rewrite S1. } { rewrite S1. change (cl _) with (cl (Wl.sys w)). lia. }
    exists w2. split; [cbn [seq_loop]; unM; by rewrite E1|]. by eapply loads_cons.
Qed.
End load_correct.

(** ** Generated requests *)

(** [w'] is [w] with [n] generated requests of type [ty]. *)
Record seq_loaded (valid op : bool) (ty : string) (n : Z) (w w' : Wl.t) : Prop := {
  sl_at i : 0 <= i < n →
    loaded_at valid op ty w' i
      (Cl.input_buf_ (cl (Wl.sys w)) + entries_len (Cl.my_server_id_ (cl (Wl.sys w))) 0 (Z.to_nat i));
  sl_count : Z.of_nat (length (Wl.kv_info_list_ w')) = n ∧
             Z.of_nat (length (Wl.kv_req_ctx_list_ w')) = n ∧
             Wl.num_total_operations_ w' = n ∧ Wl.num_local_operations_ w' = n;
  sl_distinct : NoDup (key_str <$> Wl.kv_req_ctx_list_ w');
  sl_mem x : let base := Cl.input_buf_ (cl (Wl.sys w)) in
    ¬ (base <= x < base + entries_len (Cl.my_server_id_ (cl (Wl.sys w))) 0 (Z.to_nat n)) →
    lmem (wld (Wl.sys w')) x = lmem (wld (Wl.sys w)) x;
  sl_sys : ∃ m c, Wl.sys w' = (Wl.sys w) <| wld ::= λ v, v <| lmem := m |> |> <| ctx := c |> }.

Lemma loaded_distinct valid op ty w n (f : Z → Z) :
  n <= 2 ^ 31 → Z.of_nat (length (Wl.kv_req_ctx_list_ w)) = n →
  (∀ i, 0 <= i < n → loaded_at valid op ty w i (f i)) →
  NoDup (key_str <$> Wl.kv_req_ctx_list_ w).
Proof.
  intros Hn Hlen Hat.
  assert (∀ k x, (key_str <$> Wl.kv_req_ctx_list_ w) !! k = Some x →
            Z.of_nat k < n ∧ bytes_of x = seq_key (Cl.my_server_id_ (cl (Wl.sys w))) (Z.of_nat k)) as Hkey.
  { intros k x Hx. apply list_lookup_fmap_Some in Hx as (c & -> & Hc).
    pose proof (lookup_lt_Some _ _ _ Hc). split; [lia|].
    destruct (Hat (Z.of_nat k) ltac:(lia)) as (_ & _ & c' & Ec & _ & _ & _ & Hb & _).
    rewrite Nat2Z.id, Hc in Ec. by injection Ec as ->. }
  apply NoDup_alt. intros j k x Hj Hk. apply Hkey in Hj as [Hj Ej], Hk as [Hk Ek].
  apply Nat2Z.inj. eapply seq_key_inj; [lia..|]. by rewrite <- Ej.
Qed.

(** What the loading of [n] generated requests needs: the entries fit in the input
    buffer, which is a range of addresses. *)
Record loadable (n : Z) (w : Wl.t) : Prop := {
  lo_count : 0 <= n <= 2 ^ 31;
  lo_rep : 1 <= Cl.num_idx_rep_ (cl (Wl.sys w));
  lo_buf : 0 <= Cl.input_buf_ (cl (Wl.sys w)) ∧ Cl.input_buf_ (cl (Wl.sys w)) + CLINET_INPUT_BUF_LEN < 2 ^ 64;
  lo_fit : entries_len (Cl.my_server_id_ (cl (Wl.sys w))) 0 (Z.to_nat n) <= CLINET_INPUT_BUF_LEN }.

Lemma load_seq_run valid op frees init heap ty n w :
  initialises init → loadable n w → (frees = true → Wl.ctx_list_alloc w ≠ Malloced) →
  ∃ w', load_seq_kv_requests valid op frees init heap n ty w = Done 0 w' ∧ seq_loaded valid op ty n w w'.
Proof.
  intros Hinit [Hn Hr [Hb Hb'] Hfit] Hal. unfold load_seq_kv_requests.
  assert (whenm frees (released_by Malloced) w = Done tt w) as Hrel.
  { destruct frees; [|done]. unfold released_by, gets, get, whenm. unM. by rewrite bool_decide_eq_false_2 by auto. }
  unfold mbind at 1, M_bind. rewrite Hrel. unM.
  set (w0 := w <| Wl.num_total_operations_ := n |> <| Wl.num_local_operations_ := n |>
    <| Wl.kv_info_list_ := _ |> <| Wl.kv_req_ctx_list_ := _ |> <| Wl.ctx_list_alloc := _ |>).
  change (Wl.sys w0) with (Wl.sys w).
  assert (length (Wl.kv_info_list_ w0) = Z.to_nat n ∧ length (Wl.kv_req_ctx_list_ w0) = Z.to_nat n) as [L1 L2].
  { subst w0. cbn. rewrite length_replicate, length_fmap, zrange_length. split; [done|f_equal; lia]. }
  destruct (seq_loop_run valid op init Hinit ty (Z.to_nat n) w0 0 (Cl.input_buf_ (cl (Wl.sys w))))
    as (w' & E & L); [lia|lia|exact Hr|lia|lia|exact Hb|exact Hb'|change (Wl.sys w0) with (Wl.sys w); lia|].
  rewrite E. exists w'. split; [done|].
  destruct L as [A [I1 I2] _ Mm S (R1 & R2 & _)].
  assert (∀ i, 0 <= i < n → loaded_at valid op ty w' i (Cl.input_buf_ (cl (Wl.sys w)) +
            entries_len (Cl.my_server_id_ (cl (Wl.sys w))) 0 (Z.to_nat i))) as Hat.
  { intros i Hi. specialize (A (Z.to_nat i) ltac:(lia)). by rewrite Z2Nat.id, Z.add_0_l in A by lia. }
  split; [exact Hat| |eapply loaded_distinct, Hat; lia|exact Mm|exact S].
  split_and!; [lia|lia|done|done].
Qed.

(** C30. Generated requests are loaded correctly, by either client: when their
    entries fit in the input buffer of 512 MB, [load_seq_kv_requests] returns 0, and
    then the lists hold exactly the given number of requests; the entries lie one
    after the other in the input buffer, each with its lengths, its key
    ["<server>-<i>"] and its value ["initial-value-<i>"]; each context describes its
    entry, has the requested type and lists of the right sizes; no two requests have
    the same key; and nothing but these entries, the lists and the scratch context
    changes.  [Client] deletes the old list of contexts, which must not be one that
    [load_kv_requests] took from [malloc]; with such a list the call has no defined
    result. *)
Theorem load_seq_kv_requests_correct heap ty n w :
  loadable n w →
  (if decide (Wl.ctx_list_alloc w = Malloced) then client_load_seq heap n ty w = Stopped Undefined w
   else ∃ w', client_load_seq heap n ty w = Done 0 w' ∧ seq_loaded false true ty n w w') ∧
  (∃ w', cr_load_seq heap n ty w = Done 0 w' ∧ seq_loaded true false ty n w w').
Proof.
  intros Hl. split; [case_decide as Ha|].
  - unfold client_load_seq, load_seq_kv_requests, released_by, gets, get, whenm. unM.
    by rewrite bool_decide_eq_true_2.
  - by apply load_seq_run; [apply client_initialises|..].
  - by apply load_seq_run; [apply cr_initialises|..].
Qed.

Definition ex_wl : Wl.t := Wl.mk blank_sys [] [] 0 0 [4096] Unallocated.

Lemma ex_loadable : loadable 3 ex_wl.
Proof. split; [split; discriminate|discriminate|split; [discriminate|reflexivity]|vm_compute; discriminate]. Qed.

Lemma load_seq_kv_requests_correct_witness :
  (∃ w', client_load_seq (λ _, KVReqCtx_zero) 3 "UPDATE" ex_wl = Done 0 w' ∧
     seq_loaded false true "UPDATE" 3 ex_wl w') ∧
  (∃ w', cr_load_seq (λ _, KVReqCtx_zero) 3 "UPDATE" ex_wl = Done 0 w' ∧
     seq_loaded true false "UPDATE" 3 ex_wl w').
Proof. exact (load_seq_kv_requests_correct (λ _, KVReqCtx_zero) "UPDATE" 3 ex_wl ex_loadable). Defined.

(** The third key of client 2, as bytes, is ["  2-2"]. *)
Example seq_key_text : seq_key 2 2 = [32; 32; 50; 45; 50].
Proof. reflexivity. Qed.

(** ** Requests of a file *)

Definition ex_file : list string :=
  ["INSERT"; "usertable"; "user1"; "READ"; "usertable"; "user2"; "UPDATE"; "usertable"; "user3"]%string.

Definition keys_of {A} (o : outcome Wl.t A) : option (list (string * KVRequestType)) :=
  match o with
  | Done _ w => Some ((λ c, (key_str c, req_type c)) <$> Wl.kv_req_ctx_list_ w)
  | Stopped _ _ => None
  end.

(** The second and the third line of a file of three: the client takes them, the
    baseline client writes past the end of its lists. *)
Example load_kv_requests_part :
  keys_of (client_load (λ _, true) ("", "", "")%string (Some ex_file) 1 2 ex_wl) =
    Some [("user2"%string, KV_REQ_SEARCH); ("user3"%string, KV_REQ_UPDATE)].
Proof. vm_compute. reflexivity. Qed.

Example cr_load_kv_requests_out_of_range :
  match cr_load (λ _, true) ("", "", "")%string (Some ex_file) 1 2 ex_wl with
  | Stopped Undefined _ => true
  | _ => false
  end = true.
Proof. vm_compute. reflexivity. Qed.
