(* ===== verification/Fibers.v ===== *)
(** * Fibers

    The functions that run a list of requests ([client_ops_fb_cnt_time],
    [_cnt_ops], [_lat], [_cnt_ops_micro], [_cnt_ops_on_crash] and [_cnt_ops_cont] of
    [client.cc], their copies for [ClientCR] in [client_cr.cc]) and the way
    [load_workload] of [ycsb_test.cc] and [client_main] divide the requests among
    fibers.  The clock, the barrier and
    the files of measured latencies are left out.

    A fiber stops when another thread raises [should_stop].  The argument [rounds]
    has one entry for each time the loop finds the flag down: what the operation of
    that round reads of the flag.  [redo] bounds the repetitions followed of an
    insertion that demands to be redone. *)

From S2P Require Import Prelude Mem KvUtils HashTable ServerMM Server Rdma ClientState.
From S2P Require Import Network ClientOps ClientCR RequestFrame Workload.

(** ** Data *)

Record FiberArgs := mkFiberArgs {
  ops_st_idx : Z; ops_num : Z; fiber_coro_id : Z; fiber_num_failed : Z; ops_cnt : Z }.

(** What the fibers need of a client. *)
Record Ops := mkOps {
  o_init_space : Z → Z → M Sys unit;
  o_search : M Sys Z; o_search_on_crash : M Sys Z;
  o_insert : M Sys Z; o_update : M Sys Z; o_delete : M Sys Z }.

Definition client_ops {F : Fabric} (junk : mem) (spin : nat) : Ops :=
  mkOps init_kvreq_space kv_search kv_search_on_crash
    (kv_insert junk spin) (kv_update junk spin) (kv_delete junk spin).

Definition cr_ops {F : Fabric} (junk : mem) (retries : nat) : Ops :=
  mkOps CR.init_kvreq_space CR.kv_search CR.kv_search_on_crash
    (CR.kv_insert junk retries) (CR.kv_update junk retries) (CR.kv_delete junk retries).

(** The variables of a fiber. *)
Record Local := mkLocal {
  num_failed : Z; cnt : Z; fret : Z;
  inserted_key_map : gset string; deleted_key_map : gset string }.
#[global] Instance eta_Local : Eta Local := λ l,
  mkLocal (num_failed l) (cnt l) (fret l) (inserted_key_map l) (deleted_key_map l).

Definition failed (b : bool) (l : Local) : Local :=
  if b then l <| num_failed ::= λ n, u32 (n + 1) |> else l.

(** ** Keys that were used before *)

Definition next_char (c : Ascii.ascii) : Ascii.ascii :=
  Ascii.ascii_of_N ((Ascii.N_of_ascii c + 1) mod 256).

(** [modify[pos] ++; ctx->key_str[pos] ++;] on a key shorter than [pos] is out of
    bounds. *)
Definition next_key (pos : nat) : M Sys unit :=
  c ← get_ctx;
  let a := l_addr (kv_info c) + sizeof_KVLogHeader + Z.of_nat pos in
  b ← rd8 a;
  wr8 a (b + 1) ;;
  if (pos <? String.length (key_str c))%nat
  then set_ctx (λ c, c <| key_str ::= λ s,
         String.string_of_list_ascii (alter next_char pos (String.list_ascii_of_string s)) |>)
  else stopm Undefined.

(** [if (map[ctx->key_str] == true) { ... }] *)
Definition fresh_key (pos : nat) (used : gset string) : M Sys unit :=
  c ← get_ctx; whenm (bool_decide (key_str c ∈ used)) (next_key pos).

(** [do { ret = kv_insert(ctx); } while (ret == KV_OPS_FAIL_REDO);] *)
Fixpoint insert_redo (redo : nat) (insert : M Sys Z) : M Sys Z :=
  match redo with
  | O => stopm Diverges
  | S redo' =>
      r ← insert;
      if r =? KV_OPS_FAIL_REDO then insert_redo redo' insert else mret r
  end.

(** ** One request

    The [switch] of each fiber, on the context of the request. *)

Definition search_case (search : M Sys Z) (l : Local) : M Sys Local :=
  a ← search; mret (failed (a =? 0) l).
Definition ignoring {A} (c : M Sys Z) (a : A) : M Sys A := _ ← c; mret a.

Definition switch_cnt_time (o : Ops) (l : Local) : M Sys Local :=
  c ← get_ctx;
  match req_type c with
  | KV_REQ_SEARCH => search_case (o_search o) l
  | KV_REQ_INSERT =>
      r ← o_insert o;
      mret (failed ((r =? KV_OPS_FAIL_REDO) || (r =? KV_OPS_FAIL_RETURN)) (l <| fret := r |>))
  | KV_REQ_UPDATE => ignoring (o_update o) l
  | KV_REQ_DELETE => ignoring (o_delete o) l
  | _ => ignoring (o_search o) l
  end.

(** The loops that count operations; [assigned] tells whether the result of an
    update is stored in [ret] before [ret] is looked at. *)
Definition switch_cnt_ops (assigned : bool) (search : M Sys Z) (o : Ops) (l : Local) : M Sys Local :=
  c ← get_ctx;
  match req_type c with
  | KV_REQ_SEARCH => search_case search l
  | KV_REQ_INSERT =>
      fresh_key 4 (inserted_key_map l) ;;
      r ← o_insert o;
      c ← get_ctx;
      mret (failed (r =? KV_OPS_FAIL_RETURN) (l <| fret := r |>)
              <| inserted_key_map ::= λ m, {[key_str c]} ∪ m |>)
  | KV_REQ_UPDATE =>
      r ← o_update o;
      let l := if assigned then l <| fret := r |> else l in
      mret (failed (fret l =? KV_OPS_FAIL_RETURN) l)
  | KV_REQ_DELETE => ignoring (o_delete o) l
  | _ => ignoring search l
  end.

Section redo.
Context (redo : nat).

Definition insert_until_done (o : Ops) (l : Local) : M Sys Local :=
  r ← insert_redo redo (o_insert o);
  c ← get_ctx;
  mret (if r =? KV_OPS_FAIL_RETURN then failed true (l <| fret := r |>)
        else l <| fret := r |> <| inserted_key_map ::= λ m, {[key_str c]} ∪ m |>).

Definition update_case (o : Ops) (l : Local) : M Sys Local :=
  r ← o_update o; mret (failed (r =? KV_OPS_FAIL_RETURN) (l <| fret := r |>)).

Definition switch_lat (o : Ops) (l : Local) : M Sys Local :=
  c ← get_ctx;
  match req_type c with
  | KV_REQ_SEARCH => search_case (o_search o) l
  | KV_REQ_INSERT => fresh_key 4 (inserted_key_map l) ;; insert_until_done o l
  | KV_REQ_UPDATE => update_case o l
  | KV_REQ_DELETE => ignoring (o_delete o) l
  | _ => stopm Exited
  end.

Definition switch_micro (o : Ops) (l : Local) : M Sys Local :=
  c ← get_ctx;
  match req_type c with
  | KV_REQ_SEARCH => search_case (o_search o) l
  | KV_REQ_INSERT => fresh_key 2 (inserted_key_map l) ;; insert_until_done o l
  | KV_REQ_UPDATE => update_case o l
  | KV_REQ_DELETE =>
      fresh_key 2 (deleted_key_map l) ;;
      r ← o_delete o;
      c ← get_ctx;
      mret (failed (r =? KV_OPS_FAIL_RETURN) (l <| fret := r |>)
              <| deleted_key_map ::= λ m, {[key_str c]} ∪ m |>)
  | _ => ignoring (o_search o) l
  end.

(** ** The loops *)

(** The context of the request at position [k] of the fiber's part of the list. *)
Definition at_request {A} (a : FiberArgs) (k : Z) (stop : bool) (m : M Sys A) : M Wl.t A :=
  on_ctx (u32 (k + ops_st_idx a))
    (set_ctx (λ c, c <| coro_id := fiber_coro_id a |> <| should_stop := Some stop |>) ;; m).

Definition init_space (o : Ops) (a : FiberArgs) : M Wl.t unit :=
  addrs ← gets Wl.coro_local_addr_list_;
  addr ← of_option (addrs !! Z.to_nat (fiber_coro_id a));
  forM (zrange 0 (ops_num a)) (λ i,
    on_ctx (u32 (ops_st_idx a + i)) (o_init_space o (fiber_coro_id a) addr)).

Definition local_start : Local := mkLocal 0 0 0 ∅ ∅.
Definition count (l : Local) : Local := l <| cnt ::= λ n, u32 (n + 1) |>.
(** [if (ret == KV_OPS_FAIL_REDO) { cnt --; } cnt ++;] *)
Definition count_redo (l : Local) : Local :=
  count (if fret l =? KV_OPS_FAIL_REDO then l <| cnt ::= λ n, u32 (n - 1) |> else l).

(** One round per entry of [rounds]; no request, no round. *)
Fixpoint ops_loop (a : FiberArgs) (counted : Local → Local) (switch : Local → M Sys Local)
    (rounds : list bool) (l : Local) : M Wl.t Local :=
  match rounds with
  | [] => mret l
  | stop :: rest =>
      if ops_num a =? 0 then mret l
      else
        l' ← at_request a (cnt l `mod` ops_num a) stop (switch l);
        ops_loop a counted switch rest (counted l')
  end.

(** [for (int i = 0; i < ops_num; i ++)]; [flags] is what the operations read of the
    flag. *)
Fixpoint time_loop (o : Ops) (flags : Z → bool) (a : FiberArgs) (idx : list Z) (l : Local)
    : M Wl.t Local :=
  match idx with
  | [] => mret l
  | i :: idx' =>
      whenm (2 ^ 31 <=? i) (stopm Undefined) ;;
      l' ← at_request a i (flags i) (switch_cnt_time o l);
      time_loop o flags a idx' l'
  end.

Definition fb_cnt_time (o : Ops) (flags : Z → bool) (a : FiberArgs) : M Wl.t FiberArgs :=
  init_space o a ;;
  l ← time_loop o flags a (zrange 0 (ops_num a)) local_start;
  mret (mkFiberArgs (ops_st_idx a) (ops_num a) (fiber_coro_id a) (num_failed l) (ops_cnt a)).

Definition reported (a : FiberArgs) (l : Local) : FiberArgs :=
  mkFiberArgs (ops_st_idx a) (ops_num a) (fiber_coro_id a) (num_failed l) (cnt l).

Definition fb_cnt_ops (assigned : bool) (o : Ops) (rounds : list bool) (a : FiberArgs) : M Wl.t FiberArgs :=
  init_space o a ;;
  l ← ops_loop a count_redo (switch_cnt_ops assigned (o_search o) o) rounds local_start;
  mret (reported a l).

(** The fibers that go on where an earlier one stopped. *)
Definition resumed (a : FiberArgs) : Local := mkLocal (fiber_num_failed a) (ops_cnt a) 0 ∅ ∅.

Definition fb_cnt_ops_cont (o : Ops) (rounds : list bool) (a : FiberArgs) : M Wl.t FiberArgs :=
  whenm (ops_cnt a =? 0) (init_space o a) ;;
  l ← ops_loop a count_redo (switch_cnt_ops true (o_search o) o) rounds (resumed a);
  mret (reported a l).

Definition fb_cnt_ops_on_crash (counted : Local → Local) (o : Ops) (rounds : list bool) (a : FiberArgs)
    : M Wl.t FiberArgs :=
  whenm (ops_cnt a =? 0) (init_space o a) ;;
  l ← ops_loop a counted (switch_cnt_ops false (o_search_on_crash o) o) rounds (resumed a);
  mret (reported a l).

(** The fiber that measures latencies ends after the last request. *)
Fixpoint lat_loop (o : Ops) (a : FiberArgs) (rounds : list bool) (l : Local) : M Wl.t Local :=
  match rounds with
  | [] => mret l
  | stop :: rest =>
      if ops_num a =? 0 then mret l
      else
        l' ← at_request a (cnt l `mod` ops_num a) stop (switch_lat o l);
        let l' := count l' in
        if cnt l' =? ops_num a then mret l' else lat_loop o a rest l'
  end.

Definition fb_lat (o : Ops) (rounds : list bool) (a : FiberArgs) : M Wl.t FiberArgs :=
  init_space o a ;;
  l ← lat_loop o a rounds local_start;
  mret (mkFiberArgs (ops_st_idx a) (ops_num a) (fiber_coro_id a) (num_failed l) (ops_cnt a)).

(** The insertions that are left when the flag is raised are still made; [n] bounds
    their number. *)
Fixpoint micro_rest (n : nat) (o : Ops) (a : FiberArgs) (l : Local) : M Wl.t unit :=
  match n with
  | O => skip
  | S n' =>
      if cnt l <? ops_num a then
        l' ← at_request a (cnt l `mod` ops_num a) false (
          c ← get_ctx;
          match req_type c with
          | KV_REQ_INSERT => l' ← insert_until_done o l; mret (Some l')
          | _ => mret None
          end);
        match l' with
        | None => skip
        | Some l' => micro_rest n' o a (count l')
        end
      else skip
  end.

Definition fb_cnt_ops_micro (o : Ops) (rounds : list bool) (a : FiberArgs) : M Wl.t FiberArgs :=
  init_space o a ;;
  l ← ops_loop a count (switch_micro o) rounds local_start;
  micro_rest (Z.to_nat (ops_num a - cnt l)) o a l ;;
  mret (reported a l).
End redo.

(** The fibers of the two clients. *)
Section clients.
Context {F : Fabric} (junk : mem) (spin redo : nat).

Definition client_ops_fb_cnt_time := fb_cnt_time (client_ops junk spin).
Definition client_ops_fb_cnt_ops := fb_cnt_ops true (client_ops junk spin).
Definition client_ops_fb_lat := fb_lat redo (client_ops junk spin).
Definition client_ops_fb_cnt_ops_micro := fb_cnt_ops_micro redo (client_ops junk spin).
Definition client_ops_fb_cnt_ops_on_crash := fb_cnt_ops_on_crash count_redo (client_ops junk spin).
Definition client_ops_fb_cnt_ops_cont := fb_cnt_ops_cont (client_ops junk spin).

Definition client_cr_ops_fb_cnt_time := fb_cnt_time (cr_ops junk spin).
Definition client_cr_ops_fb_cnt_ops := fb_cnt_ops false (cr_ops junk spin).
Definition client_cr_ops_fb_cnt_ops_micro := fb_cnt_ops_micro redo (cr_ops junk spin).
Definition client_cr_ops_fb_cnt_ops_on_crash := fb_cnt_ops_on_crash count (cr_ops junk spin).
End clients.

(** ** The division of the requests

    [total] operations for [n] fibers, the remainder for the last, in an array of
    [bytes] bytes that holds [heap]; a write past the array has no defined result. *)
Definition sizeof_ClientFiberArgs : Z := 72.
Definition divide_workload (bytes : Z) (heap : Z → FiberArgs) (total n : Z) : option (list FiberArgs) :=
  if (n =? 0) || (bytes <? sizeof_ClientFiberArgs * n) then None
  else
    let q := total / n in
    Some ((λ i, mkFiberArgs (u32 (q * i)) (if i =? n - 1 then u32 (q + total `mod` n) else q) i
                  (fiber_num_failed (heap i)) (ops_cnt (heap i)))
            <$> zrange 0 n).

(** [load_workload] of [ycsb_test.cc] allocates the array it fills, and clears
    [num_failed]. *)
Definition split_workload (heap : Z → FiberArgs) (total n : Z) : option (list FiberArgs) :=
  divide_workload (sizeof_ClientFiberArgs * n)
    (λ i, mkFiberArgs (ops_st_idx (heap i)) (ops_num (heap i)) (fiber_coro_id (heap i)) 0 (ops_cnt (heap i)))
    total n.
(** [client_main] asks for four bytes for each fiber. *)
Definition client_main_split (heap : Z → FiberArgs) (total n : Z) : option (list FiberArgs) :=
  divide_workload (4 * n) heap total n.

(** ** A fiber works on its own requests *)

Definition owns (a : FiberArgs) (j : Z) : Prop := ops_st_idx a <= j < ops_st_idx a + ops_num a.

(** [w'] differs from [w] in the contexts of [P] and in what the operations change. *)
Record same_but (P : Z → Prop) (w w' : Wl.t) : Prop := {
  sb_length : length (Wl.kv_req_ctx_list_ w') = length (Wl.kv_req_ctx_list_ w);
  sb_ctx j : 0 <= j → ¬ P j → Wl.kv_req_ctx_list_ w' !! Z.to_nat j = Wl.kv_req_ctx_list_ w !! Z.to_nat j;
  sb_info : Wl.kv_info_list_ w' = Wl.kv_info_list_ w;
  sb_total : Wl.num_total_operations_ w' = Wl.num_total_operations_ w ∧
             Wl.num_local_operations_ w' = Wl.num_local_operations_ w;
  sb_addrs : Wl.coro_local_addr_list_ w' = Wl.coro_local_addr_list_ w }.

#[global] Instance same_but_preorder P : PreOrder (same_but P).
Proof.
  split; [by split|].
  intros w1 w2 w3 [L1 C1 I1 [T1 U1] A1] [L2 C2 I2 [T2 U2] A2].
  split; [by rewrite L2| |by rewrite I2|by rewrite T2, U2|by rewrite A2].
  intros j Hj HP. by rewrite C2, C1.
Qed.

(** However it ends, [m] touches the contexts of [P] only. *)
Definition touches {A} (P : Z → Prop) (m : M Wl.t A) : Prop :=
  ∀ w, match m w with Done _ w' | Stopped _ w' => same_but P w w' end.

Create HintDb fiber discriminated.

Lemma same_but_refl P w : same_but P w w.
Proof. reflexivity. Qed.
Lemma touches_ret {A} P (a : A) : touches P (mret a).
Proof. exact (same_but_refl P). Qed.
Lemma touches_stop {A} P e : touches P (stopm e : M Wl.t A).
Proof. exact (same_but_refl P). Qed.
Lemma touches_bind {A B} P (m : M Wl.t A) (k : A → M Wl.t B) :
  touches P m → (∀ w a w', m w = Done a w' → touches P (k a)) → touches P (m ≫= k).
Proof.
  intros Hm Hk w. unM. specialize (Hm w). destruct (m w) as [a w1|e w1] eqn:E; [|done].
  specialize (Hk w a w1 E w1). destruct (k a w1); by etrans.
Qed.
Lemma touches_gets {A} P (f : Wl.t → A) : touches P (gets f).
Proof. exact (same_but_refl P). Qed.
Lemma touches_option {A} P (o : option A) : touches P (of_option o).
Proof. intros w. unfold of_option. destruct o; apply same_but_refl. Qed.
Lemma touches_when P b (m : M Wl.t unit) : touches P m → touches P (whenm b m).
Proof. intros H. destruct b; [done|apply touches_ret]. Qed.
Lemma touches_for {A} P (l : list A) body :
  (∀ x, x ∈ l → touches P (body x)) → touches P (forM l body).
Proof.
  induction l as [|x l IH]; intros H; [apply touches_ret|].
  apply touches_bind; [apply H; set_solver|]. intros _ [] _ _. apply IH. set_solver.
Qed.
Lemma touches_on_ctx {A} (P : Z → Prop) i (m : M Sys A) : 0 <= i → P i → touches P (on_ctx i m).
Proof.
  intros Hi HP w. unfold on_ctx. destruct (Wl.kv_req_ctx_list_ w !! Z.to_nat i); [|apply same_but_refl].
  destruct (m _); split; try done; cbn; rewrite ?length_insert; try done.
  all: intros j Hj HPj; apply list_lookup_insert_ne; intros E; apply Z2Nat.inj in E; [by subst|lia..].
Qed.
#[export] Hint Resolve touches_ret touches_stop touches_bind touches_gets touches_option touches_when
  touches_on_ctx : fiber.

Section ownership.
Context (a : FiberArgs) (Hst : 0 <= ops_st_idx a) (Hnum : 0 <= ops_num a)
  (Hend : ops_st_idx a + ops_num a <= 2 ^ 32).

Lemma touches_request {A} k stop (m : M Sys A) :
  0 <= k < ops_num a → touches (owns a) (at_request a k stop m).
Proof.
  intros Hk. unfold at_request, u32, owns. rewrite Z.mod_small by lia. apply touches_on_ctx; lia.
Qed.

Lemma touches_init o : touches (owns a) (init_space o a).
Proof.
  unfold init_space. apply touches_bind; [apply touches_gets|]. intros _ addrs _ _.
  apply touches_bind; [apply touches_option|]. intros _ addr _ _. apply touches_for.
  intros i Hi%elem_of_zrange. unfold u32. rewrite Z.mod_small by lia.
  apply touches_on_ctx; unfold owns; lia.
Qed.

Lemma touches_ops_loop counted switch rounds l : touches (owns a) (ops_loop a counted switch rounds l).
Proof.
  revert l. induction rounds as [|stop rounds IH]; intros l; cbn [ops_loop]; [auto with fiber|].
  destruct (Z.eqb_spec (ops_num a) 0); [auto with fiber|].
  apply touches_bind; [|auto]. apply touches_request, Z.mod_pos_bound. lia.
Qed.

Lemma touches_time_loop o flags idx l :
  (∀ i, i ∈ idx → 0 <= i < ops_num a) → touches (owns a) (time_loop o flags a idx l).
Proof.
  revert l. induction idx as [|i idx IH]; intros l H; cbn [time_loop]; [auto with fiber|].
  apply touches_bind; [auto with fiber|]. intros _ [] _ _.
  apply touches_bind; [apply touches_request, H; set_solver|].
  intros _ l' _ _. apply IH. set_solver.
Qed.

Lemma touches_lat_loop redo o rounds l : touches (owns a) (lat_loop redo o a rounds l).
Proof.
  revert l. induction rounds as [|stop rounds IH]; intros l; cbn [lat_loop]; [auto with fiber|].
  destruct (Z.eqb_spec (ops_num a) 0); [auto with fiber|].
  apply touches_bind; [apply touches_request, Z.mod_pos_bound; lia|].
  intros _ l' _ _. case_match; auto with fiber.
Qed.

Lemma count_nonneg l : 0 <= cnt (count l).
Proof. apply (Z.mod_pos_bound _ (2 ^ 32)). lia. Qed.

Lemma ops_loop_nonneg switch rounds l w l' w' :
  0 <= cnt l → ops_loop a count switch rounds l w = Done l' w' → 0 <= cnt l'.
Proof.
  revert l w. induction rounds as [|stop rounds IH]; intros l w Hl; cbn [ops_loop].
  - intros [= <- _]. done.
  - destruct (_ =? 0); [by intros [= <- _]|]. unM. destruct (at_request _ _ _ _ _) as [l1 w1|]; [|done].
    apply IH, count_nonneg.
Qed.

Lemma touches_micro_rest redo n o l : 0 <= cnt l → touches (owns a) (micro_rest redo n o a l).
Proof.
  revert l. induction n as [|n IH]; intros l Hl; cbn [micro_rest]; [apply touches_ret|].
  destruct (Z.ltb_spec (cnt l) (ops_num a)); [|apply touches_ret].
  apply touches_bind; [apply touches_request, Z.mod_pos_bound; lia|].
  intros _ [l'|] _ _; [|apply touches_ret]. apply IH, count_nonneg.
Qed.

(** Every fiber. *)
Lemma fibers_touch_own o redo assigned counted flags rounds :
  touches (owns a) (fb_cnt_time o flags a) ∧
  touches (owns a) (fb_cnt_ops assigned o rounds a) ∧
  touches (owns a) (fb_cnt_ops_cont o rounds a) ∧
  touches (owns a) (fb_cnt_ops_on_crash counted o rounds a) ∧
  touches (owns a) (fb_lat redo o rounds a) ∧
  touches (owns a) (fb_cnt_ops_micro redo o rounds a).
Proof.
  assert (∀ b, touches (owns a) (whenm b (init_space o a))) as Hi by auto using touches_when, touches_init.
  split_and!.
  - apply touches_bind; [apply touches_init|]. intros _ [] _ _.
    apply touches_bind; [|auto with fiber]. apply touches_time_loop. by intros i ?%elem_of_zrange.
  - apply touches_bind; [apply touches_init|]. intros _ [] _ _.
    apply touches_bind; [apply touches_ops_loop|auto with fiber].
  - apply touches_bind; [apply Hi|]. intros _ [] _ _.
    apply touches_bind; [apply touches_ops_loop|auto with fiber].
  - apply touches_bind; [apply Hi|]. intros _ [] _ _.
    apply touches_bind; [apply touches_ops_loop|auto with fiber].
  - apply touches_bind; [apply touches_init|]. intros _ [] _ _.
    apply touches_bind; [apply touches_lat_loop|auto with fiber].
  - apply touches_bind; [apply touches_init|]. intros _ [] _ _.
    apply touches_bind; [apply touches_ops_loop|]. intros w l w' El%ops_loop_nonneg; [|done].
    apply touches_bind; [by apply touches_micro_rest|auto with fiber].
Qed.
End ownership.

(** ** The division is a partition *)

Lemma split_workload_owner heap total n l :
  0 <= total < 2 ^ 32 → 0 <= n < 2 ^ 31 → split_workload heap total n = Some l →
  (∀ a, a ∈ l → 0 <= ops_st_idx a ∧ 0 <= ops_num a ∧ ops_st_idx a + ops_num a <= total) ∧
  ∀ j, 0 <= j < total → ∃ i a, l !! i = Some a ∧ owns a j ∧
    ∀ i' a', l !! i' = Some a' → owns a' j → i' = i.
Proof.
  intros Ht Hn E. unfold split_workload, divide_workload in E. destruct (Z.eqb_spec n 0) as [|Hz]; [done|].
  rewrite Z.ltb_irrefl in E. cbn [orb] in E. injection E as <-. set (q := total / n).
  pose proof (Z.div_mod total n Hz) as Hdm. pose proof (Z.mod_pos_bound total n ltac:(lia)) as Hr.
  fold q in Hdm. assert (0 <= q) by (apply Z.div_pos; lia).
  set (fib := λ i, mkFiberArgs _ _ _ _ _).
  assert (∀ i, 0 <= i < n → ops_st_idx (fib i) = q * i ∧
            ops_num (fib i) = if i =? n - 1 then q + total mod n else q) as Hfib.
  { intros i Hi. subst fib. cbn [ops_st_idx ops_num]. unfold u32. split; [apply Z.mod_small; nia|].
    case_match; [|done]. apply Z.mod_small. nia. }
  assert (∀ i a, (fib <$> zrange 0 n) !! i = Some a → a = fib (Z.of_nat i) ∧ 0 <= Z.of_nat i < n) as Hl.
  { intros i a Ha. apply list_lookup_fmap_Some in Ha as (k & -> & Hk).
    pose proof (lookup_lt_Some _ _ _ Hk) as Hlt. rewrite zrange_length in Hlt.
    rewrite zrange_lookup in Hk by lia. injection Hk as <-. split; [f_equal; lia|lia]. }
  split.
  - intros a [i Ha]%list_elem_of_lookup. apply Hl in Ha as [-> Hi].
    destruct (Hfib _ Hi) as [-> ->]. destruct (Z.eqb_spec (Z.of_nat i) (n - 1)); nia.
  - intros j Hj.
    assert (∃ i, 0 <= i < n ∧ owns (fib i) j) as (i & Hi & Hown).
    { destruct (decide (j < q * (n - 1))) as [Hlt|Hge].
      - assert (0 < q) by nia. pose proof (Z.div_mod j q ltac:(lia)). pose proof (Z.mod_pos_bound j q ltac:(lia)).
        assert (0 <= j / q < n - 1) by nia. exists (j / q). split; [lia|]. unfold owns.
        destruct (Hfib (j / q) ltac:(lia)) as [-> ->]. rewrite (proj2 (Z.eqb_neq _ _)) by lia. nia.
      - exists (n - 1). split; [lia|]. unfold owns. destruct (Hfib (n - 1) ltac:(lia)) as [-> ->].
        rewrite Z.eqb_refl. nia. }
    assert (∀ i1 i2, 0 <= i1 < i2 → i2 < n → owns (fib i1) j → owns (fib i2) j → False) as Hdis.
    { intros i1 i2 H1 H2. unfold owns. destruct (Hfib i1 ltac:(lia)) as [-> ->], (Hfib i2 ltac:(lia)) as [-> ->].
      rewrite (proj2 (Z.eqb_neq i1 _)) by lia. nia. }
    exists (Z.to_nat i), (fib i). split_and!; [|done|].
    + rewrite list_lookup_fmap, zrange_lookup by lia. cbn [fmap option_fmap option_map]. do 2 f_equal. lia.
    + intros i' a' [-> Hi']%Hl Hown'. destruct (Z.lt_trichotomy (Z.of_nat i') i) as [Hc|[Hc|Hc]]; [|lia|].
      * destruct (Hdis (Z.of_nat i') i); [lia|lia|done|done].
      * destruct (Hdis i (Z.of_nat i')); [lia|lia|done|done].
Qed.

Lemma client_main_split_overruns heap total n : 0 <= n → client_main_split heap total n = None.
Proof.
  intros Hn. unfold client_main_split, divide_workload. destruct (Z.eqb_spec n 0); [done|]. cbn [orb].
  unfold sizeof_ClientFiberArgs. by rewrite (proj2 (Z.ltb_lt _ _)) by lia.
Qed.

(** C29. The fibers of a benchmark share no request.  The division of the loaded
    requests among fewer than 2^31 fibers, as [load_workload] of [ycsb_test.cc] does
    it, gives every request to exactly one fiber, and a fiber of any kind, of either
    client, changes no context outside its own part, however it ends and whatever
    the operations do: neither lists nor counters of the client change either.  The
    same division in [client_main] writes past its array, whatever the number of
    fibers. *)
Theorem fibers_share_nothing {F : Fabric} heap total n l :
  0 <= total < 2 ^ 32 → 0 <= n < 2 ^ 31 → split_workload heap total n = Some l →
  client_main_split heap total n = None ∧
  (∀ j, 0 <= j < total → ∃ i a, l !! i = Some a ∧ owns a j ∧
     ∀ i' a', l !! i' = Some a' → owns a' j → i' = i) ∧
  ∀ a, a ∈ l → ∀ junk spin redo flags rounds,
    touches (owns a) (client_ops_fb_cnt_time junk spin flags a) ∧
    touches (owns a) (client_ops_fb_cnt_ops junk spin rounds a) ∧
    touches (owns a) (client_ops_fb_lat junk spin redo rounds a) ∧
    touches (owns a) (client_ops_fb_cnt_ops_micro junk spin redo rounds a) ∧
    touches (owns a) (client_ops_fb_cnt_ops_on_crash junk spin rounds a) ∧
    touches (owns a) (client_ops_fb_cnt_ops_cont junk spin rounds a) ∧
    touches (owns a) (client_cr_ops_fb_cnt_time junk spin flags a) ∧
    touches (owns a) (client_cr_ops_fb_cnt_ops junk spin rounds a) ∧
    touches (owns a) (client_cr_ops_fb_cnt_ops_micro junk spin redo rounds a) ∧
    touches (owns a) (client_cr_ops_fb_cnt_ops_on_crash junk spin rounds a).
Proof.
  intros Ht Hn E. destruct (split_workload_owner _ _ _ _ Ht Hn E) as [Hb Hp].
  split; [apply client_main_split_overruns; lia|]. split; [exact Hp|].
  intros a Ha junk spin redo flags rounds. destruct (Hb a Ha) as (H1 & H2 & H3).
  assert (ops_st_idx a + ops_num a <= 2 ^ 32) as H4 by lia.
  pose proof (λ o as' c, fibers_touch_own a H1 H2 H4 o redo as' c flags rounds) as H.
  split_and!; by apply (H _ true count_redo) || by apply (H _ false count_redo) || by apply (H _ false count).
Qed.

(** ** What the counters say

    The requests that a fiber makes, without its counters: the type and the
    result of each, in order.  A request that is to be redone is made again. *)

Definition event : Type := KVRequestType * Z.
Definition is_redo (e : event) : bool :=
  match e.1 with
  | KV_REQ_INSERT | KV_REQ_UPDATE => e.2 =? KV_OPS_FAIL_REDO
  | _ => false
  end.
Definition is_failure (e : event) : bool :=
  match e.1 with
  | KV_REQ_SEARCH => e.2 =? 0
  | KV_REQ_INSERT | KV_REQ_UPDATE => e.2 =? KV_OPS_FAIL_RETURN
  | _ => false
  end.
Definition failures (es : list event) : Z := Z.of_nat (length (filter (λ e, is_failure e = true) es)).
Definition completed (es : list event) : Z := Z.of_nat (length (filter (λ e, is_redo e = false) es)).

Definition run_request (o : Ops) (used : gset string) : M Sys (event * gset string) :=
  c ← get_ctx;
  match req_type c with
  | KV_REQ_INSERT =>
      fresh_key 4 used ;; r ← o_insert o; c ← get_ctx;
      mret ((KV_REQ_INSERT, r), {[key_str c]} ∪ used)
  | KV_REQ_UPDATE => r ← o_update o; mret ((KV_REQ_UPDATE, r), used)
  | KV_REQ_DELETE => r ← o_delete o; mret ((KV_REQ_DELETE, r), used)
  | ty => r ← o_search o; mret ((ty, r), used)
  end.

Fixpoint history (o : Ops) (a : FiberArgs) (rounds : list bool) (k : Z) (used : gset string)
    : M Wl.t (list event) :=
  match rounds with
  | [] => mret []
  | stop :: rest =>
      if ops_num a =? 0 then mret []
      else
        '(e, used') ← at_request a (k `mod` ops_num a) stop (run_request o used);
        es ← history o a rest (if is_redo e then k else k + 1) used';
        mret (e :: es)
  end.

(** The effect of an event on the variables. *)
Definition noted (e : event) (used : gset string) (l : Local) : Local :=
  let l := match e.1 with KV_REQ_INSERT | KV_REQ_UPDATE => l <| fret := e.2 |> | _ => l end in
  failed (is_failure e) l <| inserted_key_map := used |>.

Lemma switch_noted o l s :
  switch_cnt_ops true (o_search o) o l s =
  match run_request o (inserted_key_map l) s with
  | Done (e, used) s' => Done (noted e used l) s'
  | Stopped e s' => Stopped e s'
  end.
Proof.
  unfold switch_cnt_ops, run_request, search_case, ignoring, noted, is_failure. unM.
  unfold get_ctx, failed. unM.
  destruct (req_type (ctx s)).
  2: { destruct (fresh_key _ _ s) as [? s1|]; [|done]. destruct (o_insert o s1); [|done].
       cbn [fst snd]. case_match; by destruct l. }
  2: destruct (o_update o s).
  4: destruct (o_delete o s).
  1, 6-7: destruct (o_search o s).
  all: destruct l; cbn [fst snd set_field fret num_failed inserted_key_map]; cbn; try case_match; done.
Qed.

(** Repeating a request does not change its type. *)
Definition keeps_type (m : M Sys Z) : Prop := keeps (λ s, req_type (ctx s)) m.

Lemma fresh_key_type pos used : keeps (λ s, req_type (ctx s)) (fresh_key pos used).
Proof. unfold fresh_key, next_key, rd8, wr8, get_ctx, get_lmem. solve_keeps. Qed.

Lemma run_request_type o used s e used' s' :
  keeps_type (o_insert o) → keeps_type (o_update o) →
  run_request o used s = Done (e, used') s' →
  e.1 = req_type (ctx s) ∧ (is_redo e = true → req_type (ctx s') = req_type (ctx s)).
Proof.
  intros Hi Hu. unfold run_request, get_ctx. unM. destruct (req_type (ctx s)) eqn:Ety.
  2: { destruct (fresh_key 4 used s) as [? s1|] eqn:E1; [|done].
       destruct (o_insert o s1) as [r s2|] eqn:E2; [|done]. intros [= <- _ <-]. split; [done|]. intros _.
       apply (keeps_done _ _ _ _ _ Hi) in E2. apply (keeps_done _ _ _ _ _ (fresh_key_type 4 used)) in E1.
       congruence. }
  2: { destruct (o_update o s) as [r s2|] eqn:E2; [|done]. intros [= <- _ <-]. split; [done|]. intros _.
       apply (keeps_done _ _ _ _ _ Hu) in E2. congruence. }
  2: destruct (o_delete o s).
  1, 4-5: destruct (o_search o s).
  all: by intros [= <- _ <-].
Qed.

(** The request that follows a redo is the same one. *)
Definition redo_ready (a : FiberArgs) (k : Z) (w : Wl.t) (l : Local) : Prop :=
  fret l = KV_OPS_FAIL_REDO → ∃ c,
    Wl.kv_req_ctx_list_ w !! Z.to_nat (u32 (k `mod` ops_num a + ops_st_idx a)) = Some c ∧
    (req_type c = KV_REQ_INSERT ∨ req_type c = KV_REQ_UPDATE).

Lemma is_redo_type e : is_redo e = true → (e.1 = KV_REQ_INSERT ∨ e.1 = KV_REQ_UPDATE) ∧ e.2 = KV_OPS_FAIL_REDO.
Proof. unfold is_redo. destruct e.1; try done; intros ?%Z.eqb_eq; auto. Qed.

Lemma noted_count e used l k :
  cnt l = k → 0 <= k < 2 ^ 32 - 1 → (fret l = KV_OPS_FAIL_REDO → e.1 = KV_REQ_INSERT ∨ e.1 = KV_REQ_UPDATE) →
  cnt (count_redo (noted e used l)) = (if is_redo e then k else k + 1) ∧
  (fret (count_redo (noted e used l)) = KV_OPS_FAIL_REDO → is_redo e = true) ∧
  num_failed (count_redo (noted e used l)) = (if is_failure e then u32 (num_failed l + 1) else num_failed l) ∧
  inserted_key_map (count_redo (noted e used l)) = used.
Proof.
  intros Hk Hr Hty.
  assert (fret (noted e used l) = if is_redo e then KV_OPS_FAIL_REDO else fret (noted e used l)) as Hf.
  { unfold noted, failed. destruct (is_redo e) eqn:E; [|done].
    apply is_redo_type in E as [[Ee|Ee] E2]; rewrite Ee, E2; by destruct (is_failure e). }
  assert (fret (noted e used l) = KV_OPS_FAIL_REDO → is_redo e = true) as Hb.
  { unfold noted, failed, is_redo. intros H.
    assert ((match e.1 with KV_REQ_INSERT | KV_REQ_UPDATE => e.2 | _ => fret l end) = KV_OPS_FAIL_REDO) as H1.
    { revert H. destruct (is_failure e), e.1; exact id. }
    destruct e.1; try (by apply Z.eqb_eq); apply Hty in H1; by destruct H1. }
  assert (cnt (noted e used l) = k) as Hc by (unfold noted, failed; destruct (is_failure e), e.1; exact Hk).
  unfold count_redo, count.
  assert ((fret (noted e used l) =? KV_OPS_FAIL_REDO) = is_redo e) as ->.
  { destruct (is_redo e) eqn:E; [by rewrite Hf|]. apply Z.eqb_neq. intros H%Hb. congruence. }
  split_and!.
  - destruct (is_redo e); cbn; rewrite Hc; unfold u32; rewrite ?Zplus_mod_idemp_l, Z.mod_small by lia; lia.
  - by destruct (is_redo e).
  - unfold noted, failed. destruct (is_redo e), (is_failure e), e.1; reflexivity.
  - unfold noted, failed. destruct (is_redo e), (is_failure e); reflexivity.
Qed.

Lemma at_request_noted o a i stop l w :
  at_request a i stop (switch_cnt_ops true (o_search o) o l) w =
  match at_request a i stop (run_request o (inserted_key_map l)) w with
  | Done (e, used) w' => Done (noted e used l) w'
  | Stopped e w' => Stopped e w'
  end.
Proof.
  unfold at_request, on_ctx. case_match; [|done]. unfold set_ctx. unM. rewrite switch_noted.
  by destruct (run_request _ _ _) as [[]|].
Qed.

Lemma at_request_type o a i stop used w e used' w' :
  keeps_type (o_insert o) → keeps_type (o_update o) →
  at_request a i stop (run_request o used) w = Done (e, used') w' →
  let j := Z.to_nat (u32 (i + ops_st_idx a)) in
  ∃ c, Wl.kv_req_ctx_list_ w !! j = Some c ∧ e.1 = req_type c ∧
    (is_redo e = true → ∃ c', Wl.kv_req_ctx_list_ w' !! j = Some c' ∧ req_type c' = req_type c).
Proof.
  intros Hi Hu E j. unfold at_request, on_ctx in E. fold j in E.
  destruct (Wl.kv_req_ctx_list_ w !! j) as [c|] eqn:Ec; [|done]. unfold set_ctx in E. revert E. unM.
  destruct (run_request o used _) as [[e1 u1] s1|] eqn:Er; [|done]. intros [= -> -> <-].
  apply run_request_type in Er as [Ht Hred]; [|done..]. exists c. split; [done|]. split; [exact Ht|].
  intros Hr. exists (ctx s1). split; [|exact (Hred Hr)].
  apply list_lookup_insert_eq, lookup_lt_Some with c, Ec.
Qed.

Definition counts (l : Local) (o1 : outcome Wl.t Local) (o2 : outcome Wl.t (list event)) : Prop :=
  match o1, o2 with
  | Done l' w1, Done es w2 =>
      w1 = w2 ∧ num_failed l' = num_failed l + failures es ∧ cnt l' = cnt l + completed es
  | Stopped e1 w1, Stopped e2 w2 => e1 = e2 ∧ w1 = w2
  | _, _ => False
  end.

Lemma failures_cons e es : failures (e :: es) = (if is_failure e then 1 else 0) + failures es.
Proof. unfold failures. rewrite filter_cons. destruct (is_failure e); case_decide; cbn [length]; (done || lia). Qed.
Lemma completed_cons e es : completed (e :: es) = (if is_redo e then 0 else 1) + completed es.
Proof. unfold completed. rewrite filter_cons. destruct (is_redo e); case_decide; cbn [length]; (done || lia). Qed.

Lemma ops_loop_history o a rounds l w :
  keeps_type (o_insert o) → keeps_type (o_update o) →
  0 <= cnt l → cnt l + Z.of_nat (length rounds) < 2 ^ 32 →
  0 <= num_failed l → num_failed l + Z.of_nat (length rounds) < 2 ^ 32 →
  redo_ready a (cnt l) w l →
  counts l (ops_loop a count_redo (switch_cnt_ops true (o_search o) o) rounds l w)
           (history o a rounds (cnt l) (inserted_key_map l) w).
Proof.
  intros Hi Hu. revert l w. induction rounds as [|stop rounds IH]; intros l w Hc Hc' Hf Hf' Hr;
    cbn [ops_loop history length] in *; [cbn; rewrite !Z.add_0_r; done|].
  destruct (Z.eqb_spec (ops_num a) 0); [cbn; rewrite !Z.add_0_r; done|].
  unM. rewrite at_request_noted.
  destruct (at_request a _ stop (run_request o _) w) as [[e used] w1|] eqn:E; [|done].
  apply at_request_type in E as (c & Ec & Hty & Hred); [|done..].
  destruct (noted_count e used l (cnt l) eq_refl ltac:(lia)) as (N1 & N2 & N3 & N4).
  { intros H. apply Hr in H as (c' & Ec' & Ht). rewrite Ec in Ec'. injection Ec' as ->. by rewrite Hty. }
  set (l1 := count_redo (noted e used l)) in *.
  assert (num_failed l1 = num_failed l + if is_failure e then 1 else 0) as N5.
  { rewrite N3. destruct (is_failure e); [|lia]. unfold u32. apply Z.mod_small. lia. }
  assert (redo_ready a (cnt l1) w1 l1) as R1.
  { intros H. apply N2 in H. destruct (Hred H) as (c' & Ec' & Ht). exists c'. rewrite N1, H.
    split; [exact Ec'|]. rewrite Ht, <- Hty. by apply is_redo_type in H as [? _]. }
  specialize (IH l1 w1). rewrite N4 in IH. rewrite <- N1.
  destruct (ops_loop a _ _ rounds l1 w1) as [l2 w2|e2 w2], (history _ _ _ _ _ w1) as [es w3|e3 w3];
    cbn [counts] in *; try (apply IH; [..|done]; destruct (is_redo e), (is_failure e); lia).
  destruct IH as (-> & IH1 & IH2); [destruct (is_redo e), (is_failure e); lia..|done|].
  rewrite failures_cons, completed_cons, IH1, IH2, N5, N1.
  split_and!; [done|lia|destruct (is_redo e); lia].
Qed.

Lemma client_ops_type {F : Fabric} junk spin :
  keeps_type (o_insert (client_ops junk spin)) ∧ keeps_type (o_update (client_ops junk spin)).
Proof.
  assert (∀ c : M Sys Z, keeps asked c → keeps_type c) as Hw.
  { intros c H s. specialize (H s). destruct (c s); [|done]. unfold asked, identity in H. congruence. }
  pose proof (client_operations_keep junk spin) as H. unfold client_operations in H.
  repeat (apply Forall_cons in H as [? H]). split; by apply Hw.
Qed.

(** The arguments with which a fiber that made the requests [es] ends. *)
Definition counted_args (a : FiberArgs) (es : list event) : FiberArgs :=
  mkFiberArgs (ops_st_idx a) (ops_num a) (fiber_coro_id a)
    (fiber_num_failed a + failures es) (ops_cnt a + completed es).

Definition reports (a : FiberArgs) (o1 : outcome Wl.t FiberArgs) (o2 : outcome Wl.t (list event)) : Prop :=
  match o1, o2 with
  | Done a' w1, Done es w2 => w1 = w2 ∧ a' = counted_args a es
  | Stopped e1 w1, Stopped e2 w2 => e1 = e2 ∧ w1 = w2
  | _, _ => False
  end.

Lemma counts_reports o a b rounds l w :
  reported a (resumed b) = b → l = resumed b →
  counts l (ops_loop a count_redo (switch_cnt_ops true (o_search o) o) rounds l w)
                         (history o a rounds (cnt l) (inserted_key_map l) w) →
  reports b ((l ← ops_loop a count_redo (switch_cnt_ops true (o_search o) o) rounds l; mret (reported a l)) w)
            (history o a rounds (ops_cnt b) ∅ w).
Proof.
  intros Hb -> H. unM. cbn [resumed cnt inserted_key_map] in H.
  destruct (ops_loop _ _ _ _ _ _), (history _ _ _ _ _ _); try done.
  destruct H as (-> & H1 & H2). split; [done|]. rewrite <- Hb. unfold reported, counted_args. by rewrite H1, H2.
Qed.

(** C28. The counters of a fiber are exact.  [client_ops_fb_cnt_ops] and
    [client_ops_fb_cnt_ops_cont] end like the plain sequence of the requests they
    make, in which a request that is to be redone is made again, in the same state;
    [ops_cnt] has then grown by the number of requests that were not redone, and
    [num_failed] by the number of searches that found nothing and of insertions and
    updates that failed for good. *)
Theorem cnt_ops_counts {F : Fabric} junk spin rounds a w :
  0 <= ops_cnt a → ops_cnt a + Z.of_nat (length rounds) < 2 ^ 32 →
  0 <= fiber_num_failed a → fiber_num_failed a + Z.of_nat (length rounds) < 2 ^ 32 →
  let o := client_ops junk spin in
  let fresh := mkFiberArgs (ops_st_idx a) (ops_num a) (fiber_coro_id a) 0 0 in
  reports fresh (client_ops_fb_cnt_ops junk spin rounds a w)
    ((init_space o a ;; history o a rounds 0 ∅) w) ∧
  reports a (client_ops_fb_cnt_ops_cont junk spin rounds a w)
    ((whenm (ops_cnt a =? 0) (init_space o a) ;; history o a rounds (ops_cnt a) ∅) w).
Proof.
  intros H1 H2 H3 H4 o fresh. destruct (client_ops_type junk spin) as [Hi Hu].
  unfold client_ops_fb_cnt_ops, client_ops_fb_cnt_ops_cont, fb_cnt_ops, fb_cnt_ops_cont. fold o. unM. split.
  - destruct (init_space o a w) as [[] w1|]; [|done].
    apply (counts_reports o a fresh rounds local_start w1); [done|done|].
    apply ops_loop_history; try done; cbn; lia.
  - destruct ((if ops_cnt a =? 0 then init_space o a else λ s, Done tt s) w) as [[] w1|]; [|done].
    apply counts_reports; [by destruct a|done|]. by apply ops_loop_history.
Qed.

(** ** Counters that are not exact *)

Definition ex_ops (insert update : Z) : Ops :=
  mkOps (λ _ _, skip) (mret 1) (mret 1) (mret insert) (mret update) (mret 0).
Definition ex_request (ty : KVRequestType) : Wl.t :=
  Wl.mk blank_sys [] [KVReqCtx_zero <| req_type := ty |> <| key_str := "user1"%string |>] 1 1 [4096] Newed.
Definition ex_args : FiberArgs := mkFiberArgs 0 1 0 0 0.

Definition counters {S} (r : outcome S FiberArgs) : option (Z * Z) :=
  match r with Done a _ => Some (fiber_num_failed a, ops_cnt a) | Stopped _ _ => None end.

(** Three updates that fail: the fiber of the client reports three failures, the
    fiber of the baseline client, which does not store the result of an update,
    none. *)
Example update_failures_uncounted :
  counters (fb_cnt_ops true (ex_ops 0 KV_OPS_FAIL_RETURN) [false; false; false] ex_args
              (ex_request KV_REQ_UPDATE)) = Some (3, 3) ∧
  counters (fb_cnt_ops false (ex_ops 0 KV_OPS_FAIL_RETURN) [false; false; false] ex_args
              (ex_request KV_REQ_UPDATE)) = Some (0, 3).
Proof. vm_compute. split; reflexivity. Qed.

(** An insertion that is to be redone is repeated with another key. *)
Example redo_changes_key :
  match fb_cnt_ops true (ex_ops KV_OPS_FAIL_REDO 0) [false; false] ex_args (ex_request KV_REQ_INSERT) with
  | Done a w => (ops_cnt a, key_str <$> Wl.kv_req_ctx_list_ w)
  | Stopped _ _ => (0, [])
  end = (0, ["user2"%string]).
Proof. vm_compute. reflexivity. Qed.

(** Five requests for two fibers. *)
Lemma fibers_share_nothing_witness :
  let l := [mkFiberArgs 0 2 0 0 0; mkFiberArgs 2 3 1 0 0] in
  split_workload (λ _, ex_args) 5 2 = Some l ∧
  touches (owns (mkFiberArgs 0 2 0 0 0))
    (client_ops_fb_cnt_ops (F := quiet_fabric) mem_zero 1 [false; false] (mkFiberArgs 0 2 0 0 0)).
Proof.
  intros l. split; [reflexivity|].
  pose proof (fibers_share_nothing (F := quiet_fabric) (λ _, ex_args) 5 2 l ltac:(lia) ltac:(lia) eq_refl)
    as (_ & _ & H).
  exact (proj1 (proj2 (H _ (list_elem_of_here _ _) mem_zero 1%nat 0%nat (λ _, false) [false; false]))).
Defined.

(** Two rounds on a list with one search, against an index without the key. *)
Definition ex_search_list : Wl.t :=
  match client_load_seq (λ _, KVReqCtx_zero) 1 "READ"
          (Wl.mk ((example_client 2) <| cl ::= λ k, k <| Cl.input_buf_ := 2000 |> |>) [] [] 0 0 [300000] Unallocated) with
  | Done _ w | Stopped _ w => w
  end.
Definition ex_searches : outcome Wl.t FiberArgs :=
  client_ops_fb_cnt_ops (F := quiet_fabric) mem_zero 1 [false; false] ex_args ex_search_list.

Lemma ex_searches_counters : counters ex_searches = Some (2, 2).
Proof. vm_compute. reflexivity. Qed.

Lemma cnt_ops_counts_witness :
  counters ex_searches = Some (2, 2) ∧
  let o := client_ops (F := quiet_fabric) mem_zero 1 in
  reports ex_args ex_searches ((init_space o ex_args ;; history o ex_args [false; false] 0 ∅) ex_search_list).
Proof.
  split; [exact ex_searches_counters|].
  exact (proj1 (cnt_ops_counts (F := quiet_fabric) mem_zero 1 [false; false] ex_args ex_search_list
                  (Z.le_refl 0) eq_refl (Z.le_refl 0) eq_refl)).
Defined.
