(* ===== verification/Release.v ===== *)
(** * Release of freed blocks

    The additions that [ClientMM::mm_free] has collected are sent to the memory
    nodes by a fiber of their own ([free_batch] and [client_gc_fb] of [client.cc]).
    The map of additions is keyed by text, which is read back here. *)

From S2P Require Import Prelude Mem KvUtils HashTable ServerMM Server Rdma ClientState Network ClientMM ClientOps.
From stdpp Require Import pretty.

#[local] Open Scope Z_scope.

(** ** Release *)

Definition FAA_WRID : Z := 350.

Definition char_code (c : Ascii.ascii) : Z := Z.of_N (Ascii.N_of_ascii c).

(** [%ld] and [%d]: white space, a sign, decimal digits. *)
Fixpoint scan_digits (s : string) (acc : Z) : Z * string :=
  match s with
  | String c s' =>
      let d := char_code c - 48 in
      if (0 <=? d) && (d <=? 9) then scan_digits s' (acc * 10 + d) else (acc, s)
  | EmptyString => (acc, s)
  end.
Definition scan_number (s : string) : option (Z * string) :=
  match s with
  | String c _ =>
      if (0 <=? char_code c - 48) && (char_code c - 48 <=? 9) then Some (scan_digits s 0) else None
  | EmptyString => None
  end.
Fixpoint scan_signed (s : string) : option (Z * string) :=
  match s with
  | String c s' =>
      if (char_code c =? 32) || ((9 <=? char_code c) && (char_code c <=? 13)) then scan_signed s'
      else if char_code c =? 45 then '(v, rest) ← scan_number s'; Some (- v, rest)
      else if char_code c =? 43 then scan_number s'
      else scan_number s
  | EmptyString => None
  end.

(** [target_sid] has one byte and [%d] writes an [int]: what the compiler placed in
    the three bytes behind it. *)
Inductive behind_sid :=
  | Padding       (* nothing *)
  | TargetAddr    (* the variable [target_addr] *)
  | OtherObject.  (* something else, or the return address *)

(** The value of [target_addr] when the [int] [v] has been written over
    [target_sid]: its three lowest bytes may be those of [v]. *)
Definition overrun (frame : behind_sid) (addr v : Z) : option Z :=
  match frame with
  | Padding => Some addr
  | TargetAddr => Some (addr - addr mod 2 ^ 24 + u32 v / 256)
  | OtherObject => None
  end.

(** [sscanf(key, "%ld@%d", &target_addr, &target_sid)]: what is not read keeps its
    value; a write over another object has no defined result. *)
Definition scan_faa_key (frame : behind_sid) (s : string) (old : Z * Z) : option (Z * Z) :=
  match scan_signed s with
  | None => Some old
  | Some (a, String c rest) =>
      if char_code c =? 64 then
        match scan_signed rest with
        | None => Some (u64 a, old.2)
        | Some (sid, _) => (λ addr, (addr, u8 sid)) <$> overrun frame (u64 a) sid
        end
      else Some (u64 a, old.2)
  | Some (a, EmptyString) => Some (u64 a, old.2)
  end.

Section release.
Context {F : Fabric}.
(** The buffer for the values that come back, its key, the layout of the variables
    [target_addr] and [target_sid], and what they hold at first. *)
Context (transient_buf transient_lkey : Z) (frame : behind_sid) (stack : Z * Z).

Definition faa_wr (addr sid add rk : Z) : ibv_send_wr :=
  mkWr (ib_gen_wr_id 2333 sid FAA_WRID 0) (Sge transient_buf 8 transient_lkey)
    IBV_WR_ATOMIC_FETCH_AND_ADD false addr rk add 0.

(** [stop i] is what [stop_gc_] holds after the [i]-th request. *)
Fixpoint free_loop (stop : nat → bool) (i : nat) (l : list (string * Z)) : M Sys unit :=
  match l with
  | [] => skip
  | (key, add) :: l' =>
      '(addr, sid) ← of_option (scan_faa_key frame key stack);
      rk ← get_server_rkey sid;
      _ ← rdma_post_send_batch_async sid [faa_wr addr sid add rk];
      if stop i then skip else free_loop stop (S i) l'
  end.

(** [order] is the order in which the map is traversed. *)
Definition free_batch (order : gmap string Z → list (string * Z)) (stop : nat → bool) : M Sys unit :=
  s ← get;
  let faa_map := Cmm.free_faa_map_ (mm s) in
  set_mm (λ m, m <| Cmm.free_faa_map_ := ∅ |>) ;;
  free_loop stop 0 (order faa_map).

(** One batch for each period of fifteen seconds in which the flag stays down. *)
Fixpoint client_gc_fb (order : gmap string Z → list (string * Z)) (periods : list (nat → bool)) : M Sys unit :=
  match periods with
  | [] => skip
  | stop :: rest => free_batch order stop ;; client_gc_fb order rest
  end.
End release.

(** ** The text of an address is read back *)

Lemma scan_digit x s acc :
  (x < 10)%N → scan_digits (String (pretty_N_char x) s) acc = scan_digits s (acc * 10 + Z.of_N x).
Proof.
  intros Hx. assert (x ∈ [0; 1; 2; 3; 4; 5; 6; 7; 8; 9]%N) as H.
  { destruct (decide (x < 5)%N); repeat (rewrite elem_of_cons); lia. }
  repeat (apply elem_of_cons in H as [->|H]; [done|]). by apply elem_of_nil in H.
Qed.

Lemma scan_digits_go x s acc :
  ∃ k, 0 <= k ∧ scan_digits (pretty_N_go x s) acc = scan_digits s (acc * 10 ^ k + Z.of_N x).
Proof.
  revert s acc. induction (N.lt_wf_0 x) as [x _ IH]; intros s acc.
  destruct (decide (x = 0%N)) as [->|Hx].
  - exists 0. split; [done|]. rewrite pretty_N_go_0, Z.pow_0_r, Z.mul_1_r, Z.add_0_r. done.
  - rewrite pretty_N_go_step by lia.
    destruct (IH (x / 10)%N (N.div_lt x 10 ltac:(lia) eq_refl) (String (pretty_N_char (x mod 10)) s) acc)
      as (k & Hk & E).
    exists (k + 1). split; [lia|]. rewrite E, scan_digit by (apply N.mod_lt; done). f_equal.
    rewrite Z.pow_add_r, Z.pow_1_r by lia. pose proof (N.div_mod x 10 ltac:(done)). nia.
Qed.

(** A decimal number starts with a digit. *)
Definition starts_digit (s : string) : Prop :=
  match s with String c _ => 0 <= char_code c - 48 <= 9 | EmptyString => False end.

Lemma pretty_N_go_digit x s : x ≠ 0%N ∨ starts_digit s → starts_digit (pretty_N_go x s).
Proof.
  revert s. induction (N.lt_wf_0 x) as [x _ IH]; intros s H.
  destruct (decide (x = 0%N)) as [->|Hx]; [by destruct H|].
  rewrite pretty_N_go_step by lia. apply IH; [apply N.div_lt; lia|]. right.
  unfold starts_digit, pretty_N_char. repeat case_match; split; by vm_compute.
Qed.

Lemma pretty_N_go_app x s t : pretty_N_go x s +:+ t = pretty_N_go x (s +:+ t).
Proof.
  revert s. induction (N.lt_wf_0 x) as [x _ IH]; intros s.
  destruct (decide (x = 0%N)) as [->|Hx]; [done|].
  rewrite !(pretty_N_go_step x), IH by (lia || apply N.div_lt; lia). done.
Qed.

Lemma scan_number_N x t :
  match t with String c _ => ¬ (0 <= char_code c - 48 <= 9) | EmptyString => True end →
  scan_number (pretty x +:+ t) = Some (Z.of_N x, t) ∧ starts_digit (pretty x +:+ t).
Proof.
  intros Ht.
  assert (∀ acc, scan_digits t acc = (acc, t)) as Hstop.
  { intros acc. destruct t as [|c t]; [done|]. cbn [scan_digits].
    destruct (_ && _) eqn:E; [|done]. zify_bool. lia. }
  assert (∃ u, pretty x +:+ t = u ∧ starts_digit u ∧ scan_digits u 0 = (Z.of_N x, t)) as (u & -> & Hd & Hs).
  { eexists. split; [done|]. unfold pretty, pretty_N. case_decide as Hx.
    - subst x. split; [split; by vm_compute|]. exact (Hstop 0).
    - rewrite pretty_N_go_app. split; [apply pretty_N_go_digit; auto|].
      destruct (scan_digits_go x ("" +:+ t) 0) as (k & _ & ->). rewrite Z.mul_0_l, Z.add_0_l. apply Hstop. }
  split; [|done]. destruct u as [|c u]; [done|]. unfold scan_number. unfold starts_digit in Hd.
  rewrite (proj2 (Z.leb_le _ _)), (proj2 (Z.leb_le _ 9)) by lia. cbn [andb]. by rewrite Hs.
Qed.

Lemma scan_signed_Z (x : Z) t :
  match t with String c _ => ¬ (0 <= char_code c - 48 <= 9) | EmptyString => True end →
  scan_signed (pretty x +:+ t) = Some (x, t).
Proof.
  intros Ht.
  assert (∀ u, starts_digit u → scan_signed u = scan_number u) as Hu.
  { intros [|c u] Hd; [done|]. unfold starts_digit in Hd. cbn [scan_signed].
    repeat (rewrite (proj2 (Z.eqb_neq _ _)) by lia). rewrite (proj2 (Z.leb_gt _ 13)) by lia.
    by rewrite andb_false_r. }
  destruct x as [|x|x].
  - destruct (scan_number_N 0 t Ht) as [E Hd]. change (pretty 0) with (pretty 0%N). by rewrite Hu, E.
  - destruct (scan_number_N (N.pos x) t Ht) as [E Hd]. change (pretty (Z.pos x)) with (pretty (N.pos x)).
    by rewrite Hu, E.
  - destruct (scan_number_N (N.pos x) t Ht) as [E Hd].
    change (pretty (Z.neg x) +:+ t) with (String (Ascii.ascii_of_N 45) (pretty (N.pos x) +:+ t)).
    change (scan_signed _) with ('(v, rest) ← scan_number (pretty (N.pos x) +:+ t); Some (- v, rest)).
    by rewrite E.
Qed.

(** Where the addition for the word at [a] goes. *)
Definition landing (frame : behind_sid) (a : Z) : Z :=
  match frame with TargetAddr => a - a mod 2 ^ 24 | _ => a end.

Lemma landing_range frame a : in_u64 a → in_u64 (landing frame a).
Proof.
  unfold in_u64, landing. destruct frame; try done. pose proof (Z.mod_pos_bound a (2 ^ 24) ltac:(lia)).
  pose proof (Z.mod_le a (2 ^ 24)). lia.
Qed.

Lemma landing_aligned frame a : (8 | a) → (8 | landing frame a).
Proof.
  intros [x ->]. unfold landing. destruct frame; [by exists x| |by exists x].
  rewrite Z.mod_eq by lia. exists (2 ^ 21 * (x * 8 / 2 ^ 24)). lia.
Qed.

Lemma scan_faa_key_reads frame a sid old :
  in_u64 a → in_u8 sid → frame ≠ OtherObject →
  scan_faa_key frame (faa_key a sid) old = Some (landing frame a, sid).
Proof.
  unfold in_u64, in_u8. intros Ha Hs Hf. unfold scan_faa_key, faa_key.
  rewrite scan_signed_Z by (vm_compute; intros []; congruence).
  change ("@" +:+ pretty sid) with (String (Ascii.ascii_of_N 64) (pretty sid)). cbn iota beta.
  change (char_code (Ascii.ascii_of_N 64) =? 64) with true. cbn iota.
  assert (scan_signed (pretty sid) = Some (sid, ""%string)) as ->.
  { rewrite <- (scan_signed_Z sid ""%string I). f_equal. induction (pretty sid) as [|c t IH]; [done|exact (f_equal (String c) IH)]. }
  assert (u64 (if a <? 2 ^ 63 then a else a - 2 ^ 64) = a) as ->.
  { unfold u64. destruct (Z.ltb_spec a (2 ^ 63)); [by apply Z.mod_small|].
    replace (a - 2 ^ 64) with (a + (-1) * 2 ^ 64) by lia. rewrite Z.mod_add by lia. apply Z.mod_small. lia. }
  assert (u8 sid = sid) as -> by (apply Z.mod_small; lia). destruct frame; [done| |done]. cbn -[Z.pow].
  unfold u32. rewrite (Z.mod_small sid) by lia. rewrite Z.div_small, Z.add_0_r by lia. done.
Qed.

(** ** The batch *)

(** A recorded addition: a word of a known node. *)
Definition faa_target (s : Sys) (key : string) : Prop :=
  ∃ a sid, key = faa_key a sid ∧ in_u64 a ∧ in_u8 sid ∧ (8 | a) ∧
    is_Some (Nm.mr_info_list_ (nm s) !! Z.to_nat sid).

(** The additions of [l] that go to the word [a] of node [sid], and their sum. *)
Fixpoint grown (frame : behind_sid) (l : list (string * Z)) (a sid : Z) : Z :=
  match l with
  | [] => 0
  | (key, add) :: l' =>
      (if bool_decide (scan_faa_key frame key (0, 0) = Some (a, sid)) then add else 0) + grown frame l' a sid
  end.

#[global] Instance grown_perm frame : Proper ((≡ₚ) ==> eq ==> eq ==> eq) (grown frame).
Proof.
  intros l l' Hl a _ <- sid _ <-. induction Hl as [|[k v] l l' _ IH|[k v] [k' v'] l|]; cbn [grown]; lia.
Qed.

Definition faa_added (frame : behind_sid) (r r' : Z → mem) (l : list (string * Z)) : Prop :=
  ∀ a sid, (8 | a) → load64 (r' sid) a = u64 (load64 (r sid) a + grown frame l a sid).

Lemma load64_upd_ne r sid sid' a b v :
  (sid ≠ sid' ∨ a ≠ b) → (8 | a) → (8 | b) →
  load64 (upd_rmem r sid' (store64 (r sid') b v) sid) a = load64 (r sid) a.
Proof.
  intros Hne [x ->] [y ->]. unfold upd_rmem. destruct (Z.eqb_spec sid sid') as [->|]; [|done].
  apply load_store_ne. lia.
Qed.

Section batch.
Context {F : Fabric} {HF : QuietFabric F} (buf lkey : Z) (frame : behind_sid) (stack : Z * Z).

(** What the batch leaves alone. *)
Definition same_but_memory (s s' : Sys) : Prop :=
  nm s' = nm s ∧ mm s' = mm s ∧ cl s' = cl s ∧ ctx s' = ctx s ∧ servers s' = servers s ∧
  udp_inbox s' = udp_inbox s ∧ cq (wld s') = cq (wld s) ∧
  ∀ x, ¬ (buf <= x < buf + 8) → lmem (wld s') x = lmem (wld s) x.

Lemma free_one_run s a sid add :
  in_u64 a → in_u8 sid → is_Some (Nm.mr_info_list_ (nm s) !! Z.to_nat sid) →
  ∃ s', (rk ← get_server_rkey sid; rdma_post_send_batch_async sid [faa_wr buf lkey a sid add rk]) s = Done 0 s' ∧
    same_but_memory s s' ∧
    rmem (wld s') = upd_rmem (rmem (wld s)) sid (store64 (rmem (wld s) sid) a (u64 (load64 (rmem (wld s) sid) a + add))).
Proof.
  intros Ha Hs [i Ei]. unfold get_server_rkey, rdma_post_send_batch_async, post_send. unM. unfold get, of_option.
  unfold u8. rewrite Z.mod_small by exact Hs. rewrite Ei. eexists. split; [reflexivity|].
  unfold same_but_memory. cbn [set_field wld nm mm cl ctx servers udp_inbox].
  change (wld (s <| wld ::= _ |>)) with (ibv_post_send sid [faa_wr buf lkey a sid add (rkey i)] (wld s)).
  rewrite quiet_one. split; [split_and!; try done|done].
  intros x Hx. by apply store_outside.
Qed.

Lemma free_loop_run i l s :
  frame ≠ OtherObject → Forall (faa_target s) l.*1 →
  ∃ s', free_loop buf lkey frame stack (λ _, false) i l s = Done tt s' ∧ same_but_memory s s' ∧
    faa_added frame (rmem (wld s)) (rmem (wld s')) l.
Proof.
  intros Hfr. revert i s. induction l as [|[key add] l IH]; intros i s Ht.
  - exists s. split; [done|]. split; [done|]. intros a sid _. cbn [grown]. rewrite Z.add_0_r.
    symmetry. apply Z.mod_small, load_range.
  - rewrite fmap_cons in Ht. cbn [fst] in Ht.
    apply Forall_cons in Ht as [(a0 & sid0 & -> & Ha & Hs & Hd & Hi) Ht].
    destruct (free_one_run s (landing frame a0) sid0 add (landing_range frame a0 Ha) Hs Hi) as (s1 & E1 & Hsb1 & Hr1).
    destruct (IH (S i) s1) as (s2 & E2 & Hsb2 & Hr2).
    { destruct Hsb1 as [Hn _]. eapply Forall_impl; [exact Ht|]. intros key. unfold faa_target. by rewrite Hn. }
    exists s2. split_and!.
    + cbn [free_loop]. rewrite scan_faa_key_reads by done. revert E1 E2. unM. unfold of_option. intros E1 E2. cbn iota beta.
      destruct (get_server_rkey sid0 s) as [rk s0|]; [|done]. by rewrite E1.
    + destruct Hsb1 as (? & ? & ? & ? & ? & ? & ? & Hm1), Hsb2 as (? & ? & ? & ? & ? & ? & ? & Hm2).
      split_and!; try congruence. intros x Hx. by rewrite Hm2, Hm1.
    + intros a sid Hd'. rewrite (Hr2 a sid Hd'), Hr1. cbn [grown]. rewrite scan_faa_key_reads by done.
      case_bool_decide as Hl.
      * injection Hl as <- <-. unfold upd_rmem. rewrite Z.eqb_refl, load64_store64_eq.
        unfold u64. rewrite Zmod_mod, Zplus_mod_idemp_l. f_equal. lia.
      * rewrite load64_upd_ne; [done| |done|by apply landing_aligned].
        destruct (decide (sid = sid0)); [right|by left]. intros ->. by subst.
Qed.
End batch.

(** ** Release of a list of blocks *)

(** The block behind a slot value, for memory blocks of [bs] and blocks of [ss]
    bytes: its number in its memory block, the word of the bitmap that describes
    it, and the value of its bit as the code computes it. *)
Section geometry.
Context (bs ss : Z).
Definition freed_slot (v : Z) : RaceHashSlot := slot_at (store64 mem_zero 0 v) 0.
Definition freed_id (v : Z) : Z :=
  u32 ((HashIndexConvert40To64Bits (pointer (freed_slot v)) mod bs) / ss).
Definition freed_block (v : Z) : Z :=
  u64 (HashIndexConvert40To64Bits (pointer (freed_slot v))
       - HashIndexConvert40To64Bits (pointer (freed_slot v)) mod bs).
Definition freed_word (v : Z) : Z := u64 (freed_block v + u64 (freed_id v / 64 * 8)).
Definition freed_bit (v : Z) : option Z := int_bit (freed_id v mod 64).

(** The sum of the bits of those of the blocks [vs] whose addition goes to the word
    [a] of node [sid]. *)
Fixpoint bits_at (frame : behind_sid) (vs : list Z) (a sid : Z) : Z :=
  match vs with
  | [] => 0
  | v :: vs' =>
      (if bool_decide (landing frame (freed_word v) = a ∧ slot_server_id (freed_slot v) = sid)
       then default 0 (freed_bit v) else 0) + bits_at frame vs' a sid
  end.

Lemma freed_word_range v : in_u64 (freed_word v).
Proof. unfold in_u64, freed_word, u64 at 1. apply Z.mod_pos_bound. lia. Qed.
End geometry.

(** A block that [mm_free] accepts, of a known node. *)
Record freeable (bs ss bmap : Z) (rkeys : list MrInfo) (v : Z) : Prop := {
  fr_bit : is_Some (freed_bit bs ss v);
  fr_range : freed_word bs ss v <= u64 (freed_block bs v + u64 (ss * bmap));
  fr_node : in_u8 (slot_server_id (freed_slot v)) ∧
    is_Some (rkeys !! Z.to_nat (slot_server_id (freed_slot v)));
  fr_aligned : (8 | freed_word bs ss v) }.

Definition with_faa (s : Sys) (fm : gmap string Z) : Sys :=
  s <| mm ::= λ m, m <| Cmm.free_faa_map_ := fm |> |>.

Lemma with_faa_twice s fm1 fm2 : with_faa (with_faa s fm1) fm2 = with_faa s fm2.
Proof. by destruct s as [? ? [] ? ? ? ?]. Qed.

Lemma with_faa_update s f :
  s <| mm ::= λ m, m <| Cmm.free_faa_map_ ::= f |> |> = with_faa s (f (Cmm.free_faa_map_ (mm s))).
Proof. by destruct s as [? ? [] ? ? ? ?]. Qed.

#[local] Opaque slot_at HashIndexConvert40To64Bits int_bit faa_key store64 slot_server_id pointer scan_faa_key.

Section frees.
Context (bs ss bmap : Z) (rkeys : list MrInfo).

Definition has_geometry (s : Sys) : Prop :=
  Cmm.mm_block_sz_ (mm s) = bs ∧ Cmm.subblock_sz_ (mm s) = ss ∧ Cmm.bmap_block_num_ (mm s) = bmap ∧
  Nm.mr_info_list_ (nm s) = rkeys.

Lemma mm_free_recorded s v b :
  has_geometry s → freeable bs ss bmap rkeys v → freed_bit bs ss v = Some b →
  let key := faa_key (freed_word bs ss v) (slot_server_id (freed_slot v)) in
  let fm := Cmm.free_faa_map_ (mm s) in
  ClientMM.mm_free v s = Done tt (with_faa s (<[key := u64 (default 0 (fm !! key) + b)]> fm)).
Proof.
  intros (G1 & G2 & G3 & _) [_ Hr _ _] Hb key fm. subst key fm. unfold ClientMM.mm_free. unM. unfold get, of_option.
  rewrite G1, G2, G3. unfold freed_word, freed_block, freed_id, freed_bit, freed_slot in *.
  unfold freed_id, freed_slot in *. rewrite Hb, (proj2 (Z.ltb_ge _ _) Hr). unfold set_mm. unM.
  by rewrite with_faa_update.
Qed.

(** One more addition to a key. *)
Lemma grown_insert frame (fm : gmap string Z) key b a sid :
  u64 (grown frame (map_to_list (<[key := u64 (default 0 (fm !! key) + b)]> fm)) a sid) =
  u64 (grown frame (map_to_list fm) a sid
       + (if bool_decide (scan_faa_key frame key (0, 0) = Some (a, sid)) then b else 0)).
Proof.
  set (x := default 0 (fm !! key)).
  assert (∃ rest, grown frame (map_to_list (<[key := u64 (x + b)]> fm)) a sid =
      grown frame ((key, u64 (x + b)) :: rest) a sid ∧
    grown frame (map_to_list fm) a sid = grown frame ((key, x) :: rest) a sid) as (rest & -> & ->).
  { exists (map_to_list (delete key fm)). split.
    - rewrite <- insert_delete_eq, map_to_list_insert by apply lookup_delete_eq. done.
    - unfold x. destruct (fm !! key) as [y|] eqn:E; cbn [default].
      + by rewrite <- (map_to_list_delete fm key y E).
      + rewrite delete_id by done. cbn [grown]. case_bool_decide; lia. }
  cbn [grown]. case_bool_decide; unfold u64; [|by rewrite Z.add_0_r].
  rewrite Zplus_mod_idemp_l. f_equal. lia.
Qed.

Lemma mm_frees_run frame vs s :
  frame ≠ OtherObject → has_geometry s → Forall (freeable bs ss bmap rkeys) vs →
  (∀ key, is_Some (Cmm.free_faa_map_ (mm s) !! key) → faa_target s key) →
  ∃ fm, forM vs ClientMM.mm_free s = Done tt (with_faa s fm) ∧
    (∀ key, is_Some (fm !! key) → faa_target s key) ∧
    ∀ a sid, u64 (grown frame (map_to_list fm) a sid) =
      u64 (grown frame (map_to_list (Cmm.free_faa_map_ (mm s))) a sid + bits_at bs ss frame vs a sid).
Proof.
  intros Hfr. revert s. induction vs as [|v vs IH]; intros s Hg Hf Hk.
  - exists (Cmm.free_faa_map_ (mm s)). split; [by destruct s as [? ? [] ? ? ? ?]|]. split; [done|].
    intros a sid. cbn [bits_at]. by rewrite Z.add_0_r.
  - apply Forall_cons in Hf as [Hv Hf]. pose proof Hv as [[b Hb] _ [Hu8 Hnode] Hal].
    set (key := faa_key (freed_word bs ss v) (slot_server_id (freed_slot v))).
    set (fm1 := <[key := u64 (default 0 (Cmm.free_faa_map_ (mm s) !! key) + b)]> (Cmm.free_faa_map_ (mm s))).
    assert (in_u64 (freed_word bs ss v)) as Hw by apply freed_word_range.
    destruct (IH (with_faa s fm1)) as (fm & E & Hk' & Hsum); [exact Hg|exact Hf| |].
    { intros k. change (Cmm.free_faa_map_ (mm (with_faa s fm1))) with fm1. unfold fm1.
      destruct (decide (k = key)) as [->|Hne]; [|rewrite lookup_insert_ne by done; apply Hk].
      intros _. exists (freed_word bs ss v), (slot_server_id (freed_slot v)).
      split_and!; [reflexivity|exact Hw|exact Hu8|exact Hal|]. destruct Hg as (_ & _ & _ & Hg).
      exact (eq_ind_r (λ l, is_Some (l !! Z.to_nat (slot_server_id (freed_slot v)))) Hnode Hg). }
    exists fm. split_and!.
    + cbn [forM]. unM. rewrite (mm_free_recorded s v b Hg Hv Hb). fold key fm1. by rewrite E, with_faa_twice.
    + exact Hk'.
    + intros a sid. rewrite Hsum. change (Cmm.free_faa_map_ (mm (with_faa s fm1))) with fm1.
      cbn [bits_at]. generalize (bits_at bs ss frame vs a sid). intros rest.
      pose proof (grown_insert frame (Cmm.free_faa_map_ (mm s)) key b a sid) as Hi. fold fm1 in Hi.
      assert (scan_faa_key frame key (0, 0) = Some (landing frame (freed_word bs ss v), slot_server_id (freed_slot v)))
        as Hscan by (by apply scan_faa_key_reads).
      rewrite Hscan in Hi.
      unfold u64 in *. rewrite <- Zplus_mod_idemp_l, Hi, Zplus_mod_idemp_l, Hb. cbn [default from_option]. unfold id.
      f_equal. do 2 case_bool_decide; try lia; exfalso; naive_solver.
Qed.
End frees.

Lemma free_batch_run {F : Fabric} `{!QuietFabric F} buf lkey frame stack order s :
  frame ≠ OtherObject →
  (∀ fm, order fm ≡ₚ map_to_list fm) → (∀ key, is_Some (Cmm.free_faa_map_ (mm s) !! key) → faa_target s key) →
  ∃ s', free_batch buf lkey frame stack order (λ _, false) s = Done tt s' ∧
    same_but_memory buf (with_faa s ∅) s' ∧
    faa_added frame (rmem (wld s)) (rmem (wld s')) (map_to_list (Cmm.free_faa_map_ (mm s))).
Proof.
  intros Hfr Hord Ht. unfold free_batch, set_mm. unM. unfold get. fold (with_faa s ∅).
  set (fm := Cmm.free_faa_map_ (mm s)) in *.
  destruct (free_loop_run buf lkey frame stack 0 (order fm) (with_faa s ∅) Hfr) as (s' & E & Hsb & Hadd).
  { apply Forall_forall. intros key Hk. rewrite (Hord fm) in Hk. apply Ht.
    apply list_elem_of_fmap in Hk as ([k v] & -> & Hk%elem_of_map_to_list). by exists v. }
  exists s'. split; [exact E|]. split; [exact Hsb|]. intros a sid Hd. rewrite (Hadd a sid Hd).
  by rewrite (Hord fm).
Qed.

(** C27. Where the additions for freed blocks go.  On a fabric without
    interference, after [mm_free] of a list of blocks whose release is defined
    ([freeable]: among others, the number of the block modulo 64 is below 32) and one
    [free_batch], which traverses its map in any order, every 64-bit word of every
    node has grown by the sum of the bits of the freed blocks whose addition lands on
    it, and by nothing else; the collected additions are gone, and of the client only
    the eight bytes of the transient buffer differ.  [sscanf] writes an [int] over the
    one byte of [target_sid].  When the compiler left padding behind that byte, the
    additions land on the words that describe the blocks, so that the blocks are
    released exactly once; when [target_addr] is there, its three lowest bytes are
    cleared and the additions land on multiples of 2^24. *)
Theorem freed_blocks_released {F : Fabric} `{!QuietFabric F} buf lkey frame stack order bs ss bmap rkeys vs s :
  frame ≠ OtherObject →
  (∀ fm, order fm ≡ₚ map_to_list fm) → has_geometry bs ss bmap rkeys s →
  Forall (freeable bs ss bmap rkeys) vs → Cmm.free_faa_map_ (mm s) = ∅ →
  ∃ s', (forM vs ClientMM.mm_free ;; free_batch buf lkey frame stack order (λ _, false)) s = Done tt s' ∧
    same_but_memory buf s s' ∧
    ∀ a sid, (8 | a) →
      load64 (rmem (wld s') sid) a = u64 (load64 (rmem (wld s) sid) a + bits_at bs ss frame vs a sid).
Proof.
  intros Hfr Hord Hg Hf Hempty.
  destruct (mm_frees_run bs ss bmap rkeys frame vs s Hfr Hg Hf) as (fm & E & Hk & Hsum).
  { rewrite Hempty. intros key [x Hx]. by rewrite lookup_empty in Hx. }
  destruct (free_batch_run buf lkey frame stack order (with_faa s fm) Hfr Hord Hk) as (s' & E' & Hsb & Hadd).
  exists s'. split_and!.
  - unM. by rewrite E.
  - rewrite with_faa_twice in Hsb. rewrite <- Hempty in Hsb.
    assert (with_faa s (Cmm.free_faa_map_ (mm s)) = s) as Hs by (by destruct s as [? ? [] ? ? ? ?]).
    by rewrite Hs in Hsb.
  - intros a sid Hd. rewrite (Hadd a sid Hd).
    change (Cmm.free_faa_map_ (mm (with_faa s fm))) with fm. change (wld (with_faa s fm)) with (wld s).
    specialize (Hsum a sid). rewrite Hempty, map_to_list_empty in Hsum. cbn [grown] in Hsum. rewrite Z.add_0_l in Hsum.
    unfold u64 in *. rewrite <- Zplus_mod_idemp_r, Hsum, Zplus_mod_idemp_r. done.
Qed.

(** Two blocks of one memory block of node 1. *)
Definition ex_release : Sys :=
  blank_sys <| nm ::= λ n, n <| Nm.mr_info_list_ := [mkMrInfo 0 0; mkMrInfo 0 1] |> |>
    <| mm ::= λ m, m <| Cmm.mm_block_sz_ := 65536 |> <| Cmm.subblock_sz_ := 256 |>
                     <| Cmm.bmap_block_num_ := 1 |> |>.
Definition ex_freed : list Z := [le_val [7; 1; 1; 0; 0; 0; 4; 2]; le_val [7; 1; 1; 0; 0; 0; 4; 3]].

Lemma ex_freeable : Forall (freeable 65536 256 1 [mkMrInfo 0 0; mkMrInfo 0 1]) ex_freed.
Proof.
  repeat constructor.
  all: try (vm_compute; by eexists). all: try (vm_compute; congruence).
  all: try (by apply Z.mod_divide; vm_compute). all: vm_compute; eauto.
Qed.

(** With padding the bits arrive in the word at 262144; otherwise that word is left
    alone and the word at 0 is changed. *)
Lemma freed_blocks_released_witness :
  let grows frame a by_ :=
    ∃ s', (forM ex_freed ClientMM.mm_free ;;
           free_batch (F := quiet_fabric) 8192 5 frame (0, 0) map_to_list (λ _, false)) ex_release = Done tt s' ∧
      load64 (rmem (wld s') 1) a = u64 (load64 (rmem (wld ex_release) 1) a + by_) in
  grows Padding 262144 12 ∧ grows TargetAddr 262144 0 ∧ grows TargetAddr 0 12.
Proof.
  intros grows.
  assert (∀ frame a by_, frame ≠ OtherObject → (8 | a) → bits_at 65536 256 frame ex_freed a 1 = by_ →
    grows frame a by_) as H.
  { intros frame a by_ Hfr Ha <-.
    destruct (freed_blocks_released (F := quiet_fabric) 8192 5 frame (0, 0) map_to_list 65536 256 1
                [mkMrInfo 0 0; mkMrInfo 0 1] ex_freed ex_release Hfr
                (λ fm, Permutation_refl _) (conj eq_refl (conj eq_refl (conj eq_refl eq_refl))) ex_freeable eq_refl)
      as (s' & E & _ & H).
    exists s'. split; [exact E|]. by apply H. }
  split_and!; apply H; try done; [by exists 32768|by exists 32768|by exists 0].
Defined.
