(* ===== verification/CacheDump.v ===== *)
(** * The saved cache

    The cache of slot addresses is written to a file and read back ([dump_cache]
    and [load_cache] of [client.cc], which [client_cr.cc] repeats), byte by byte,
    with the contents of the memory that [malloc] returns as arguments. *)

From S2P Require Import Prelude Mem KvUtils HashTable ServerMM Server Rdma ClientState ClientOps Workload.

#[local] Open Scope Z_scope.

(** ** Layout and operations

    [CacheSaveSlot]: a key of at most 31 characters in 32 bytes, then the entry. *)

Definition sizeof_LocalCacheEntry : Z := 8 * MAX_REP_NUM + 16.
Definition sizeof_CacheSaveSlot : Z := 32 + sizeof_LocalCacheEntry.
Definition CACHE_SLOTS : Z := 100000.

Definition entry_bytes (e : LocalCacheEntry) : list Z :=
  concat (le_bytes 8 <$> r_slot_addr e)
  ++ [fp (l_slot_ptr e); kv_len (l_slot_ptr e); slot_server_id (l_slot_ptr e)] ++ pointer (l_slot_ptr e)
  ++ le_bytes 4 (miss_cnt e) ++ le_bytes 4 (acc_cnt e).

Definition word_at (n : nat) (bs : list Z) (off : Z) : Z := le_val (take n (drop (Z.to_nat off) bs)).

Definition entry_of (bs : list Z) : LocalCacheEntry :=
  let slot := 8 * MAX_REP_NUM in
  mkLocalCacheEntry ((λ i, word_at 8 bs (8 * i)) <$> zrange 0 MAX_REP_NUM)
    (mkSlot (word_at 1 bs slot) (word_at 1 bs (slot + 1)) (word_at 1 bs (slot + 2))
       (take 5 (drop (Z.to_nat (slot + 3)) bs)))
    (word_at 4 bs (slot + 8)) (word_at 4 bs (slot + 12)).

(** [strcpy] of the key and [memcpy] of the entry into a slot that holds [old]. *)
Definition slot_image (key : string) (e : LocalCacheEntry) (old : list Z) : list Z :=
  let text := bytes_of (c_string (bytes_of key)) ++ [0] in
  text ++ drop (length text) (take 32 old) ++ entry_bytes e.

(** The loop over the map, whose entries come in some order; keys of more than 31
    characters are left out.  What is not written keeps what [malloc] returned. *)
Fixpoint save_slots (l : list (string * LocalCacheEntry)) (heap : list Z) : list Z :=
  match l with
  | [] => heap
  | (key, e) :: l' =>
      if (31 <? String.length key)%nat then save_slots l' heap
      else slot_image key e (take (Z.to_nat sizeof_CacheSaveSlot) heap)
           ++ save_slots l' (drop (Z.to_nat sizeof_CacheSaveSlot) heap)
  end.

(** The contents of the file; [fwrite] of no byte returns 0, and the assertion
    fails. *)
Definition dump_cache (order : gmap string LocalCacheEntry → list (string * LocalCacheEntry))
    (heap : Z → list Z) : M Sys (list Z) :=
  s ← get;
  let cache := Cl.addr_cache_ (cl s) in
  let len := sizeof_CacheSaveSlot * Z.of_nat (size cache) in
  let space_len := u32 len in
  let space := save_slots (order cache) (heap len) in
  assertm (negb (space_len =? 0)) ;;
  mret (take (Z.to_nat space_len) space).

Fixpoint load_slots (n : nat) (space : list Z) : M Sys unit :=
  match n with
  | O => skip
  | S n' =>
      set_cl (λ k, k <| Cl.addr_cache_ ::=
        <[c_string space := entry_of (drop 32 space)]> |>) ;;
      load_slots n' (drop (Z.to_nat sizeof_CacheSaveSlot) space)
  end.

(** A file that cannot be opened is read as an empty one. *)
Definition load_cache (heap : Z → list Z) (file : list Z) : M Sys unit :=
  let space_len := sizeof_CacheSaveSlot * CACHE_SLOTS in
  let data := take (Z.to_nat space_len) file in
  load_slots (Z.to_nat CACHE_SLOTS) (data ++ drop (length data) (heap space_len)).

(** The copies of the baseline client, whose cache is an ordered map. *)
Definition cr_dump_cache := dump_cache.
Definition cr_load_cache := load_cache.

(** ** A saved entry is read back *)

Record entry_ok (e : LocalCacheEntry) : Prop := {
  eo_addrs : length (r_slot_addr e) = Z.to_nat MAX_REP_NUM ∧ Forall in_u64 (r_slot_addr e);
  eo_slot : is_byte (fp (l_slot_ptr e)) ∧ is_byte (kv_len (l_slot_ptr e)) ∧
            is_byte (slot_server_id (l_slot_ptr e)) ∧ length (pointer (l_slot_ptr e)) = 5%nat;
  eo_counts : in_u32 (miss_cnt e) ∧ in_u32 (acc_cnt e) }.

Lemma word_at_app n pre bs off k :
  off = Z.of_nat (length pre) + k → 0 <= k → word_at n (pre ++ bs) off = word_at n bs k.
Proof.
  intros -> Hk. unfold word_at. f_equal. f_equal.
  replace (Z.to_nat (Z.of_nat (length pre) + k)) with (length pre + Z.to_nat k)%nat by lia.
  by rewrite <- drop_drop, drop_app_length.
Qed.

Lemma word_at_le_bytes n v bs : 0 <= v < 256 ^ Z.of_nat n → word_at n (le_bytes n v ++ bs) 0 = v.
Proof.
  intros Hv. unfold word_at. change (drop (Z.to_nat 0) ?l) with l.
  rewrite take_app_length' by (by rewrite le_bytes_length). rewrite le_val_bytes. by apply Z.mod_small.
Qed.

Lemma words_length l : length (concat (le_bytes 8 <$> l)) = (8 * length l)%nat.
Proof.
  induction l as [|a l IH]; [done|]. rewrite fmap_cons. cbn [concat length].
  rewrite length_app, le_bytes_length, IH. lia.
Qed.

Lemma words_read l bs :
  Forall in_u64 l →
  (λ i, word_at 8 (concat (le_bytes 8 <$> l) ++ bs) (8 * i)) <$> zrange 0 (Z.of_nat (length l)) = l.
Proof.
  intros Hl. apply list_eq. intros j. destruct (decide (j < length l)%nat) as [Hj|Hj].
  - rewrite list_lookup_fmap, zrange_lookup by lia. cbn [fmap option_fmap option_map]. rewrite Z.add_0_l.
    destruct (lookup_lt_is_Some_2 l j Hj) as [a Ea]. rewrite Ea. f_equal.
    rewrite <- (take_drop_middle l j a Ea), fmap_app, fmap_cons, concat_app. cbn [concat].
    rewrite <- !app_assoc, (word_at_app _ _ _ _ 0); [apply word_at_le_bytes| |lia].
    + rewrite Forall_lookup in Hl. exact (Hl j a Ea).
    + rewrite words_length, length_take. lia.
  - rewrite !(proj2 (lookup_ge_None _ _)); [done|lia|]. rewrite length_fmap, zrange_length. lia.
Qed.

Lemma entry_roundtrip e bs : entry_ok e → entry_of (entry_bytes e ++ bs) = e.
Proof.
  intros [[Hlen Ha] (Hf & Hkl & Hsid & Hp) [Hm Hc]]. destruct e as [addrs [f kl sid ptr] miss acc].
  cbn [r_slot_addr l_slot_ptr fp kv_len slot_server_id pointer miss_cnt acc_cnt] in *.
  unfold entry_of, entry_bytes. cbn [r_slot_addr l_slot_ptr fp kv_len slot_server_id pointer miss_cnt acc_cnt].
  assert (MAX_REP_NUM = Z.of_nat (length addrs)) as Hmax by (rewrite Hlen; reflexivity).
  rewrite <- !app_assoc. set (pre := concat (le_bytes 8 <$> addrs)).
  assert (Z.of_nat (length pre) = 8 * MAX_REP_NUM) as Hpre by (unfold pre; rewrite words_length; lia).
  rewrite Hmax at 1. unfold pre at 1. rewrite words_read by done. fold pre.
  do 5 (destruct ptr as [|? ptr]; [done|]). destruct ptr; [|done].
  set (tail := le_bytes 4 miss ++ le_bytes 4 acc ++ bs).
  assert (∀ k x l, 0 <= k → drop (Z.to_nat k) ([f; kl; sid; z; z0; z1; z2; z3] ++ tail) = x :: l →
            word_at 1 (pre ++ [f; kl; sid] ++ [z; z0; z1; z2; z3] ++ tail) (8 * MAX_REP_NUM + k) = x) as Hbyte.
  { intros k x l Hk E. rewrite (word_at_app _ _ _ _ k) by lia. unfold word_at.
    change ([f; kl; sid] ++ [z; z0; z1; z2; z3] ++ tail) with ([f; kl; sid; z; z0; z1; z2; z3] ++ tail).
    rewrite E. cbn [take le_val]. rewrite take_0. cbn [le_val]. lia. }
  assert (∀ k v rest, 0 <= k → drop (Z.to_nat k) ([f; kl; sid; z; z0; z1; z2; z3] ++ tail) = le_bytes 4 v ++ rest →
            in_u32 v → word_at 4 (pre ++ [f; kl; sid] ++ [z; z0; z1; z2; z3] ++ tail) (8 * MAX_REP_NUM + k) = v) as Hword.
  { intros k v rest Hk E Hv. rewrite (word_at_app _ _ _ _ k) by lia.
    change ([f; kl; sid] ++ [z; z0; z1; z2; z3] ++ tail) with ([f; kl; sid; z; z0; z1; z2; z3] ++ tail).
    unfold word_at. rewrite E. by apply (word_at_le_bytes 4 v rest). }
  f_equal; [f_equal| |].
  - rewrite <- (Z.add_0_r (8 * MAX_REP_NUM)). by eapply Hbyte.
  - by eapply Hbyte.
  - by eapply Hbyte.
  - replace (Z.to_nat (8 * MAX_REP_NUM + 3)) with (length pre + 3)%nat by lia.
    rewrite <- drop_drop, drop_app_length. reflexivity.
  - by eapply Hword.
  - by apply (Hword 12 acc bs).
Qed.

(** ** The cache is restored *)

(** A cached key that the file can hold. *)
Definition saved_ok (p : string * LocalCacheEntry) : Prop :=
  (String.length p.1 <= 31)%nat ∧ plain p.1 ∧ entry_ok p.2.

Lemma c_string_text key bs : plain key → c_string (bytes_of key ++ 0 :: bs) = key.
Proof.
  induction key as [|c key IH]; intros Hp; [done|]. apply plain_cons in Hp as [Hc Hp].
  unfold bytes_of. cbn [String.list_ascii_of_string fmap list_fmap app c_string].
  rewrite (proj2 (Z.eqb_neq _ _)) by lia. rewrite N2Z.id, Ascii.ascii_N_embedding. f_equal. exact (IH Hp).
Qed.

Lemma entry_bytes_length e : entry_ok e → length (entry_bytes e) = Z.to_nat sizeof_LocalCacheEntry.
Proof.
  intros [[Hl _] (_ & _ & _ & Hp) _]. unfold entry_bytes.
  rewrite !length_app, words_length, Hl, Hp, !le_bytes_length. reflexivity.
Qed.

Lemma slot_image_shape key e old :
  saved_ok (key, e) → length old = Z.to_nat sizeof_CacheSaveSlot →
  ∃ pad, slot_image key e old = (bytes_of key ++ 0 :: pad) ++ entry_bytes e ∧
         length (bytes_of key ++ 0 :: pad) = 32%nat.
Proof.
  intros (Hk & Hp & He) Ho. cbn [fst snd] in *. unfold slot_image.
  assert (c_string (bytes_of key) = key) as -> by exact Hp.
  exists (drop (length (bytes_of key ++ [0])) (take 32 old)). rewrite <- !app_assoc. split; [done|].
  rewrite length_app. cbn [length]. rewrite length_drop, length_take, length_app, bytes_of_length, Ho.
  cbn [length]. change (Z.to_nat sizeof_CacheSaveSlot) with 128%nat. lia.
Qed.

Definition with_cache (s : Sys) (m : gmap string LocalCacheEntry) : Sys :=
  s <| cl ::= λ k, k <| Cl.addr_cache_ := m |> |>.

Lemma with_cache_update s f :
  s <| cl ::= λ k, k <| Cl.addr_cache_ ::= f |> |> = with_cache s (f (Cl.addr_cache_ (cl s))).
Proof. by destruct s as [? ? ? [] ? ? ?]. Qed.

Lemma load_slots_saved l heap s :
  Forall saved_ok l → (length l * Z.to_nat sizeof_CacheSaveSlot <= length heap)%nat → NoDup l.*1 →
  load_slots (length l) (save_slots l heap) s =
    Done tt (with_cache s (list_to_map l ∪ Cl.addr_cache_ (cl s))).
Proof.
  revert heap s. induction l as [|[key e] l IH]; intros heap s Hl Hh Hnd.
  - cbn [load_slots length list_to_map foldr]. change (list_to_map []) with (∅ : gmap string LocalCacheEntry).
    rewrite (left_id_L ∅ (∪)). by destruct s as [? ? ? [] ? ? ?].
  - apply Forall_cons in Hl as [Hok Hl]. rewrite fmap_cons in Hnd. apply NoDup_cons in Hnd as [Hk Hnd].
    cbn [length] in *. set (sz := Z.to_nat sizeof_CacheSaveSlot) in *.
    cbn [save_slots]. rewrite (proj2 (Nat.ltb_ge _ _)) by apply Hok.
    destruct (slot_image_shape key e (take sz heap) Hok) as (pad & Ei & Hlen); [rewrite length_take; lia|].
    fold sz. rewrite Ei. destruct Hok as (_ & Hp & He). cbn [fst snd] in *.
    cbn [load_slots]. unfold set_cl. unM. rewrite <- !app_assoc. cbn [app].
    rewrite c_string_text by done.
    assert (∀ X : list Z, bytes_of key ++ 0 :: pad ++ X = (bytes_of key ++ 0 :: pad) ++ X) as Hre
      by (intros X; by rewrite <- app_assoc).
    rewrite !Hre. rewrite (drop_app_length' _ _ 32) by (by rewrite Hlen). rewrite entry_roundtrip by done.
    replace (drop (Z.to_nat sizeof_CacheSaveSlot) _) with (save_slots l (drop sz heap)).
    + rewrite with_cache_update, IH; [|done|rewrite length_drop; lia|done]. f_equal.
      change (Cl.addr_cache_ (cl (with_cache s ?m))) with m. cbn [list_to_map foldr].
      change (list_to_map ((key, e) :: l)) with (<[key := e]> (list_to_map l : gmap string LocalCacheEntry)).
      rewrite <- insert_union_r by (by apply not_elem_of_list_to_map). rewrite insert_union_l.
      by destruct s as [? ? ? [] ? ? ?].
    + rewrite app_assoc. rewrite drop_app_length'; [done|]. fold sz. rewrite length_app, Hlen, entry_bytes_length by done.
      reflexivity.
Qed.

Lemma save_slots_length l heap :
  Forall saved_ok l → (length l * Z.to_nat sizeof_CacheSaveSlot <= length heap)%nat →
  length (save_slots l heap) = length heap.
Proof.
  revert heap. induction l as [|[key e] l IH]; intros heap Hl Hh; [done|].
  apply Forall_cons in Hl as [Hok Hl]. cbn [length] in Hh. set (sz := Z.to_nat sizeof_CacheSaveSlot) in *.
  cbn [save_slots]. rewrite (proj2 (Nat.ltb_ge _ _)) by apply Hok.
  destruct (slot_image_shape key e (take sz heap) Hok) as (pad & Ei & Hlen); [rewrite length_take; lia|].
  fold sz. rewrite Ei, length_app, length_app, Hlen, entry_bytes_length, IH, length_drop;
    [|done|rewrite length_drop; lia|apply Hok].
  assert (sz = 32 + Z.to_nat sizeof_LocalCacheEntry)%nat as -> by reflexivity. lia.
Qed.

(** The entries of a cache, in the order of its traversal. *)
Lemma order_saved order (cache : gmap string LocalCacheEntry) :
  order cache ≡ₚ map_to_list cache → (∀ k e, cache !! k = Some e → saved_ok (k, e)) →
  Forall saved_ok (order cache) ∧ NoDup (order cache).*1 ∧ length (order cache) = size cache ∧
  list_to_map (order cache) = cache.
Proof.
  intros Hord Hok.
  assert ((order cache).*1 ≡ₚ (map_to_list cache).*1) as Hp by apply fmap_Permutation, Hord.
  assert (NoDup (order cache).*1) as Hnd by (rewrite Hp; apply NoDup_fst_map_to_list).
  split_and!.
  - apply Forall_forall. intros [k e] H. rewrite Hord in H. by apply Hok, elem_of_map_to_list.
  - done.
  - by rewrite Hord, length_map_to_list.
  - by rewrite (list_to_map_proper _ _ Hnd Hord), list_to_map_to_list.
Qed.

(** C31. A saved cache is restored.  [dump_cache] of a cache of exactly 100000 entries,
    whose keys have at most 31 characters, writes a file from which [load_cache]
    rebuilds the same cache in a client that has none, whatever the order in which
    the map is traversed and whatever [malloc] returns on either side; nothing else
    of either client changes. *)
Theorem cache_roundtrip order heap heap' s s' :
  let cache := Cl.addr_cache_ (cl s) in
  order cache ≡ₚ map_to_list cache → (∀ n, length (heap n) = Z.to_nat n) → (∀ n, length (heap' n) = Z.to_nat n) →
  (∀ k e, cache !! k = Some e → saved_ok (k, e)) → Z.of_nat (size cache) = CACHE_SLOTS →
  Cl.addr_cache_ (cl s') = ∅ →
  ∃ file, dump_cache order heap s = Done file s ∧
          load_cache heap' file s' = Done tt (with_cache s' cache).
Proof.
  intros cache Hord Hh Hh' Hok Hsize Hempty.
  destruct (order_saved order cache Hord Hok) as (Hl & Hnd & Hlen & Hmap).
  set (len := sizeof_CacheSaveSlot * CACHE_SLOTS).
  assert (u32 len = len) as Hu by reflexivity.
  assert (Z.to_nat len = length (order cache) * Z.to_nat sizeof_CacheSaveSlot)%nat as Hn.
  { unfold len. rewrite Hlen, <- Hsize. rewrite Z2Nat.inj_mul, Nat2Z.id by (lia || discriminate).
    apply Nat.mul_comm. }
  assert (length (save_slots (order cache) (heap len)) = Z.to_nat len) as Hs.
  { rewrite save_slots_length; [apply Hh|done|]. rewrite Hh. lia. }
  exists (save_slots (order cache) (heap len)). split.
  - unfold dump_cache. unM. unfold get. fold cache. rewrite Hsize. fold len. rewrite Hu. unfold assertm.
    change (negb (len =? 0)) with true. cbn iota. by rewrite take_ge by lia.
  - unfold load_cache. fold len. rewrite take_ge, drop_ge, app_nil_r by (rewrite ?Hh'; lia).
    replace (Z.to_nat CACHE_SLOTS) with (length (order cache)) by lia.
    rewrite load_slots_saved; [|done|rewrite Hh; lia|done]. by rewrite Hempty, Hmap, (right_id_L ∅ (∪)).
Qed.

(** A cache of 100000 numbered keys. *)
Definition ex_entry : LocalCacheEntry :=
  mkLocalCacheEntry (replicate (Z.to_nat MAX_REP_NUM) 4096) (mkSlot 7 1 1 [0; 0; 0; 4; 2]) 0 3.
Definition ex_cache : gmap string LocalCacheEntry :=
  list_to_map ((λ i, (fmt_d i, ex_entry)) <$> zrange 0 CACHE_SLOTS).

Lemma ex_entry_ok : entry_ok ex_entry.
Proof. repeat split; try done; repeat constructor; by vm_compute. Qed.

Lemma ex_cache_ok :
  (∀ k e, ex_cache !! k = Some e → saved_ok (k, e)) ∧ Z.of_nat (size ex_cache) = CACHE_SLOTS.
Proof.
  assert (∀ i, i ∈ zrange 0 CACHE_SLOTS → 0 <= i < 2 ^ 31) as Hr.
  { intros i Hi%elem_of_zrange. unfold CACHE_SLOTS in Hi. lia. }
  unfold ex_cache. split.
  - intros k e H%elem_of_list_to_map_2. apply list_elem_of_fmap in H as (i & [= -> ->] & _).
    split_and!; [|apply fmt_d_plain|apply ex_entry_ok].
    cbn [fst]. pose proof (fmt_d_length i). lia.
  - rewrite <- length_map_to_list, map_to_list_to_map.
    + rewrite length_fmap, zrange_length. unfold CACHE_SLOTS. lia.
    + rewrite <- list_fmap_compose. apply NoDup_fmap_2_strong; [|apply NoDup_zrange].
      intros i j Hi Hj E. apply fmt_d_inj; auto.
Qed.

Definition ex_cached (m : gmap string LocalCacheEntry) : Sys := with_cache blank_sys m.

Lemma cache_roundtrip_witness :
  ∃ file, dump_cache map_to_list (λ n, replicate (Z.to_nat n) 170) (ex_cached ex_cache) =
            Done file (ex_cached ex_cache) ∧
          load_cache (λ n, replicate (Z.to_nat n) 85) file blank_sys = Done tt (with_cache blank_sys ex_cache).
Proof.
  generalize ex_cache_ok. generalize ex_cache. intros m [Hok Hsize].
  apply (cache_roundtrip map_to_list (λ n, replicate (Z.to_nat n) 170) (λ n, replicate (Z.to_nat n) 85)
           (ex_cached m) blank_sys);
    [apply Permutation_refl|intros n; apply length_replicate|intros n; apply length_replicate
    |exact Hok|exact Hsize|reflexivity].
Defined.

(** An empty cache cannot be saved; and what is restored from a file with one entry,
    were it read in two slots, has an entry made of what [malloc] returned. *)
Example dump_empty_cache :
  match dump_cache map_to_list (λ _, []) blank_sys with Stopped Exited _ => true | _ => false end = true.
Proof. reflexivity. Qed.

Example load_short_file :
  match (file ← dump_cache map_to_list (λ n, replicate (Z.to_nat n) 0);
         modify (λ s, with_cache s ∅) ;;
         load_slots 2 (file ++ replicate (Z.to_nat sizeof_CacheSaveSlot) 0)) (ex_cached {["a"%string := ex_entry]}) with
  | Done _ s => (size (Cl.addr_cache_ (cl s)), r_slot_addr <$> Cl.addr_cache_ (cl s) !! ""%string)
  | Stopped _ _ => (0%nat, None)
  end = (2%nat, Some (replicate (Z.to_nat MAX_REP_NUM) 0)).
Proof. vm_compute. reflexivity. Qed.
