(* ===== verification/FsCommon.v ===== *)
(** * File-system paths, permissions and the central service
    ([src/fs/common/path.cc], [src/fs/common/meta.cc], [src/fs/common/type.h],
    [src/fs/central/central.cc])

    Paths are split and normalised by hand-written loops over strings; the
    central service grants locks on inodes and groups of inode numbers. *)

From Stdlib Require Import Ascii String.
From stdpp Require Import pretty.
From S2P Require Import Prelude Mem.

(** ** Inodes *)

Definition kInodeIdGroupSize : Z := 1024 * 1024.
Definition kRootInodeId : Z := 0.

(** [struct Inode], packed. *)
Record Inode := mkInode {
  id : Z; size : Z; atime : Z; mtime : Z; ctime : Z; children : Z;
  mode : Z; uid : Z; gid : Z }.
#[global] Instance eta_Inode : Eta Inode := λ i,
  mkInode (id i) (size i) (atime i) (mtime i) (ctime i) (children i) (mode i) (uid i) (gid i).
#[export] Instance Inode_eq : EqDecision Inode.
Proof. solve_decision. Defined.

Definition sizeof_Inode : Z := 60.

(** The bytes of an inode in memory, and back. *)
Definition inode_bytes (i : Inode) : list Z :=
  le_bytes 8 (id i) ++ le_bytes 8 (size i) ++ le_bytes 8 (atime i) ++ le_bytes 8 (mtime i)
  ++ le_bytes 8 (ctime i) ++ le_bytes 8 (children i) ++ le_bytes 4 (mode i)
  ++ le_bytes 4 (uid i) ++ le_bytes 4 (gid i).

Definition bytes_inode (bs : list Z) : Inode :=
  let field off n := le_val (take n (drop off bs)) in
  mkInode (field 0 8)%nat (field 8 8)%nat (field 16 8)%nat (field 24 8)%nat (field 32 8)%nat
          (field 40 8)%nat (field 48 4)%nat (field 52 4)%nat (field 56 4)%nat.

(** ** Modes and permissions ([src/fs/common/meta.cc], with the constants of
    [sys/stat.h]) *)

Definition S_IFMT : Z := 0xF000.
Definition S_IFREG : Z := 0x8000.
Definition S_IFDIR : Z := 0x4000.
Definition S_IRUSR : Z := 0x100.
Definition S_IWUSR : Z := 0x80.
Definition S_IRGRP : Z := 0x20.
Definition S_IWGRP : Z := 0x10.
Definition S_IROTH : Z := 0x4.
Definition S_IWOTH : Z := 0x2.

Definition IsFile (m : Z) : bool := Z.land m S_IFMT =? S_IFREG.
Definition IsDir (m : Z) : bool := Z.land m S_IFMT =? S_IFDIR.

Definition CheckReadPermission (i : Inode) (u g : Z) : bool :=
  if u =? 0 then true
  else if u =? uid i then negb (Z.land (mode i) S_IRUSR =? 0)
  else if g =? gid i then negb (Z.land (mode i) S_IRGRP =? 0)
  else negb (Z.land (mode i) S_IROTH =? 0).

Definition CheckWritePermission (i : Inode) (u g : Z) : bool :=
  if u =? 0 then true
  else if u =? uid i then negb (Z.land (mode i) S_IWUSR =? 0)
  else if g =? gid i then negb (Z.land (mode i) S_IWGRP =? 0)
  else negb (Z.land (mode i) S_IWOTH =? 0).

(** ** Paths ([src/fs/common/path.cc]) *)

Definition slash : ascii := "/"%char.
Definition is_slash (c : ascii) : bool := Ascii.eqb c slash.

(** The loop of [SplitPath]: [cur] is the component being read; an empty one is
    not kept. *)
Fixpoint split_loop (cur : list ascii) (l : list ascii) : list (list ascii) :=
  match l with
  | [] => if Nat.eqb (length cur) 0 then [] else [cur]
  | c :: l' =>
      if is_slash c then
        if Nat.eqb (length cur) 0 then split_loop [] l' else cur :: split_loop [] l'
      else split_loop (cur ++ [c]) l'
  end.

Definition SplitPath (path : string) : list string :=
  string_of_list_ascii <$> split_loop [] (list_ascii_of_string path).

(** [path.find_last_of('/')] cuts the path in two. *)
Fixpoint cut_last (l : list ascii) : option (list ascii * list ascii) :=
  match l with
  | [] => None
  | c :: l' =>
      match cut_last l' with
      | Some (d, n) => Some (c :: d, n)
      | None => if is_slash c then Some ([], l') else None
      end
  end.

Definition SeparateLastComponent (path : string) : string * string :=
  match cut_last (list_ascii_of_string path) with
  | None => (""%string, path)
  | Some (d, n) => (string_of_list_ascii d, string_of_list_ascii n)
  end.

(** The loop that erases repeated slashes, from index [i] on. *)
Fixpoint squeeze (fuel i : nat) (l : list ascii) : list ascii :=
  match fuel with
  | O => l
  | S fuel' =>
      if (i <? length l)%nat then
        if is_slash (nth i l slash) && is_slash (nth (i - 1) l slash) then squeeze fuel' i (delete i l)
        else squeeze fuel' (S i) l
      else l
  end.

Definition format (l : list ascii) : list ascii :=
  match l with
  | [] => []
  | c :: _ =>
      let l := if is_slash c then l else slash :: l in
      let l := if is_slash (List.last l slash) then removelast l else l in
      squeeze (length l) 1 l
  end.

Definition FormatPath (path : string) : string :=
  string_of_list_ascii (format (list_ascii_of_string path)).

(** ** Keys ([src/fs/engine/engine.h]) *)

(** [std::to_string] of an unsigned number. *)
Definition to_string (n : Z) : string := pretty (Z.to_N n).

Definition GetDentryKey (pid : Z) (name : string) : string := to_string pid +:+ "/" +:+ name.
Definition GetInodeKey (i : Z) : string := to_string i.

(** ** The central service *)

Module Central.
Record t := mk { lock_set_ : gset Z; inode_id_group_seq_ : Z }.

(** Response 0 grants the lock, 1 refuses it. *)
Definition LockHandler (i : Z) (c : t) : Z * t :=
  if bool_decide (i ∈ lock_set_ c) then (1, c)
  else (0, mk ({[i]} ∪ lock_set_ c) (inode_id_group_seq_ c)).

Definition UnlockHandler (i : Z) (c : t) : Z * t :=
  (0, mk (lock_set_ c ∖ {[i]}) (inode_id_group_seq_ c)).

Definition GetInodeIdGroupHandler (c : t) : Z * t :=
  (inode_id_group_seq_ c, mk (lock_set_ c) (u64 (inode_id_group_seq_ c + 1))).

(** The event loop serves one request at a time. *)
Inductive request := Lock (who i : Z) | Unlock (who i : Z) | GetInodeIdGroup (who : Z).
Definition serve (r : request) (c : t) : Z * t :=
  match r with
  | Lock _ i => LockHandler i c
  | Unlock _ i => UnlockHandler i c
  | GetInodeIdGroup _ => GetInodeIdGroupHandler c
  end.
End Central.

(** ** Normalising a path keeps its components *)

Lemma split_loop_app cur l1 l2 :
  split_loop cur (l1 ++ slash :: l2) = split_loop cur l1 ++ split_loop [] l2.
Proof.
  revert cur. induction l1 as [|c l1 IH]; intros cur; cbn [split_loop app].
  - cbn [is_slash]. destruct cur; done.
  - repeat case_match; cbn [app]; by rewrite IH.
Qed.

Lemma split_loop_trailing cur l : split_loop cur (l ++ [slash]) = split_loop cur l.
Proof. rewrite split_loop_app. cbn. by rewrite app_nil_r. Qed.

Lemma split_loop_double cur l1 l2 :
  split_loop cur (l1 ++ slash :: slash :: l2) = split_loop cur (l1 ++ slash :: l2).
Proof. by rewrite !split_loop_app. Qed.

Lemma is_slash_eq c : is_slash c = true → c = slash.
Proof. apply Ascii.eqb_eq. Qed.

Lemma nth_slash l i : (i < length l)%nat → nth i l slash = slash → l !! i = Some slash.
Proof.
  intros Hi <-. rewrite nth_lookup. destruct (l !! i) eqn:E; [done|].
  apply lookup_ge_None in E. lia.
Qed.

(** The list around a repeated slash. *)
Lemma around_double (l : list ascii) i :
  (0 < i < length l)%nat → is_slash (nth i l slash) = true → is_slash (nth (i - 1) l slash) = true →
  l = take (i - 1) l ++ slash :: slash :: drop (S i) l ∧
  delete i l = take (i - 1) l ++ slash :: drop (S i) l.
Proof.
  intros Hi H1%is_slash_eq H2%is_slash_eq. destruct i as [|i]; [lia|]. cbn [Nat.sub] in *.
  rewrite Nat.sub_0_r in *.
  assert (l !! i = Some slash) as E1 by (apply nth_slash; [lia|done]).
  assert (l !! S i = Some slash) as E2 by (apply nth_slash; [lia|done]).
  assert (l = take i l ++ slash :: slash :: drop (S (S i)) l) as El.
  { rewrite <- (take_drop_middle l i slash E1) at 1. f_equal. f_equal. by apply drop_S. }
  split; [done|]. rewrite delete_take_drop.
  rewrite (take_S_r _ _ _ E1), <- app_assoc. done.
Qed.

Lemma squeeze_split fuel : ∀ i l cur,
  (0 < i)%nat → split_loop cur (squeeze fuel i l) = split_loop cur l.
Proof.
  induction fuel as [|fuel IH]; intros i l cur Hi; cbn [squeeze]; [done|].
  destruct (i <? length l)%nat eqn:El; [|done]. apply Nat.ltb_lt in El.
  destruct (_ && _) eqn:Ed; [|apply IH; lia]. apply andb_true_iff in Ed as [E1 E2].
  rewrite IH by done. destruct (around_double l i) as [Hl Hd]; [lia|done..|].
  rewrite Hd. rewrite Hl at 3. by rewrite split_loop_double.
Qed.

(** No two slashes in a row before index [i]. *)
Definition single_slashes (i : nat) (l : list ascii) : Prop :=
  ∀ j, (0 < j < i)%nat → (j < length l)%nat →
       ¬ (l !! j = Some slash ∧ l !! (j - 1)%nat = Some slash).

Lemma squeeze_single fuel : ∀ i l,
  (0 < i)%nat → (length l - i < fuel)%nat → single_slashes i l →
  let r := squeeze fuel i l in single_slashes (length r) r.
Proof.
  induction fuel as [|fuel IH]; intros i l Hi Hf Hs; cbn [squeeze]; [lia|].
  destruct (i <? length l)%nat eqn:El.
  2:{ apply Nat.ltb_ge in El. intros j Hj. apply Hs. lia. }
  apply Nat.ltb_lt in El. destruct (_ && _) eqn:Ed.
  - apply IH; [done|rewrite length_delete by (by apply lookup_lt_is_Some_2); lia|].
    intros j Hj Hjl. rewrite !list_lookup_delete_lt by lia. apply Hs; [lia|].
    rewrite length_delete in Hjl by (by apply lookup_lt_is_Some_2). lia.
  - apply IH; [lia|lia|]. intros j Hj Hjl. destruct (decide (j = i)) as [->|Hne]; [|apply Hs; lia].
    intros [E1 E2]. apply andb_false_iff in Ed.
    rewrite (nth_lookup_Some _ _ _ _ E1), (nth_lookup_Some _ _ _ _ E2) in Ed. by destruct Ed.
Qed.

Lemma cut_last_none l : cut_last l = None → Forall (λ c, is_slash c = false) l.
Proof.
  induction l as [|c l IH]; cbn [cut_last]; [constructor|].
  destruct (cut_last l) as [[]|]; [done|]. destruct (is_slash c) eqn:Ec; [done|].
  constructor; [done|auto].
Qed.

Lemma cut_last_some l d n :
  cut_last l = Some (d, n) → l = d ++ slash :: n ∧ Forall (λ c, is_slash c = false) n.
Proof.
  revert d n. induction l as [|c l IH]; intros d n; cbn [cut_last]; [done|].
  destruct (cut_last l) as [[d' n']|] eqn:E.
  - intros [= <- <-]. destruct (IH d' n' eq_refl) as [-> Hn]. done.
  - destruct (is_slash c) eqn:Ec; [|done]. intros [= <- <-].
    apply is_slash_eq in Ec as ->. split; [done|]. by apply cut_last_none.
Qed.

Lemma split_loop_no_slash cur n :
  Forall (λ c, is_slash c = false) n → cur ++ n ≠ [] → split_loop cur n = [cur ++ n].
Proof.
  intros Hn. revert cur. induction Hn as [|c n Hc Hn IH]; intros cur Hne; cbn [split_loop].
  - rewrite app_nil_r in *. by destruct cur.
  - rewrite Hc, IH by (by destruct cur). by rewrite <- app_assoc.
Qed.

Lemma format_split cur l : cur = [] → split_loop cur (format l) = split_loop cur l.
Proof.
  intros ->. unfold format. destruct l as [|c l]; [done|].
  set (l1 := if is_slash c then c :: l else slash :: c :: l).
  assert (split_loop [] l1 = split_loop [] (c :: l)) as H1 by (unfold l1; by destruct (is_slash c)).
  assert (l1 ≠ []) as Hne by (unfold l1; by destruct (is_slash c)).
  rewrite squeeze_split by lia. rewrite <- H1. destruct (is_slash (List.last l1 slash)) eqn:El; [|done].
  rewrite (app_removelast_last slash Hne) at 2. apply is_slash_eq in El. rewrite El.
  by rewrite split_loop_trailing.
Qed.

Lemma format_single l : single_slashes (length (format l)) (format l).
Proof.
  unfold format. destruct l as [|c l]; [intros j Hj; cbn in Hj; lia|].
  set (l1 := if is_slash _ then removelast _ else _).
  destruct l1 as [|c1 l1]; [intros j Hj; cbn in Hj; lia|].
  apply squeeze_single; [lia|cbn; lia|]. intros j Hj. lia.
Qed.

Lemma SplitPath_FormatPath path : SplitPath (FormatPath path) = SplitPath path.
Proof.
  unfold SplitPath, FormatPath. by rewrite list_ascii_of_string_of_list_ascii, format_split.
Qed.

Lemma SplitPath_last path dir name :
  SeparateLastComponent (FormatPath path) = (dir, name) → name ≠ ""%string →
  SplitPath path = SplitPath dir ++ [name].
Proof.
  rewrite <- SplitPath_FormatPath. unfold SeparateLastComponent, SplitPath.
  set (l := list_ascii_of_string (FormatPath path)).
  destruct (cut_last l) as [[d n]|] eqn:E; intros [= <- <-] Hn.
  - destruct (cut_last_some _ _ _ E) as [-> Hns].
    rewrite split_loop_app, list_ascii_of_string_of_list_ascii, fmap_app.
    rewrite (split_loop_no_slash [] n); [done|done|]. destruct n; [by destruct Hn|done].
  - rewrite split_loop_no_slash; [cbn; unfold l; by rewrite string_of_list_ascii_of_string| |].
    + by apply cut_last_none.
    + intros El. apply Hn. rewrite <- (string_of_list_ascii_of_string (FormatPath path)).
      fold l. cbn in El. by rewrite El.
Qed.

(** Normalisation of paths: [FormatPath] keeps the list of components of every
    path, its result has no two slashes in a row, and when the file name that
    [SeparateLastComponent] cuts off is not empty, the components of the path are
    those of the directory part followed by that name. *)
Theorem FormatPath_correct (path : string) :
  SplitPath (FormatPath path) = SplitPath path ∧
  (let l := list_ascii_of_string (FormatPath path) in single_slashes (length l) l) ∧
  (∀ dir name, SeparateLastComponent (FormatPath path) = (dir, name) → name ≠ ""%string →
     SplitPath path = SplitPath dir ++ [name]).
Proof.
  split; [apply SplitPath_FormatPath|]. split; [|apply SplitPath_last].
  unfold FormatPath. rewrite list_ascii_of_string_of_list_ascii. apply format_single.
Qed.

(** ** Keys do not collide *)

Lemma to_string_digits n : Forall (λ c, is_slash c = false) (list_ascii_of_string (to_string n)).
Proof.
  assert (∀ x s, Forall (λ c, is_slash c = false) (list_ascii_of_string s) →
    Forall (λ c, is_slash c = false) (list_ascii_of_string (pretty_N_go x s))) as Hgo.
  { intros x. induction (N.lt_wf_0 x) as [x _ IH]; intros s Hs.
    assert (x = 0 ∨ 0 < x)%N as [->|Hx] by lia; [by rewrite pretty_N_go_0|].
    rewrite pretty_N_go_step by done. apply IH; [by apply N.div_lt|].
    cbn [list_ascii_of_string]. constructor; [|done]. unfold pretty_N_char.
    repeat case_match; reflexivity. }
  unfold to_string, pretty, pretty_N. case_decide; [repeat constructor|]. apply Hgo. constructor.
Qed.

Lemma list_ascii_app s1 s2 :
  list_ascii_of_string (s1 +:+ s2) = list_ascii_of_string s1 ++ list_ascii_of_string s2.
Proof.
  induction s1 as [|c s1 IH]; [done|].
  change (c :: list_ascii_of_string (s1 +:+ s2)
          = c :: (list_ascii_of_string s1 ++ list_ascii_of_string s2)). by rewrite IH.
Qed.

Lemma list_ascii_inj s1 s2 : list_ascii_of_string s1 = list_ascii_of_string s2 → s1 = s2.
Proof.
  intros H. rewrite <- (string_of_list_ascii_of_string s1), H.
  apply string_of_list_ascii_of_string.
Qed.

Lemma first_slash_unique l1 l2 r1 r2 :
  Forall (λ c, is_slash c = false) l1 → Forall (λ c, is_slash c = false) l2 →
  l1 ++ slash :: r1 = l2 ++ slash :: r2 → l1 = l2 ∧ r1 = r2.
Proof.
  intros H1. revert l2. induction H1 as [|c l1 Hc H1 IH]; intros [|c2 l2] H2 E; cbn in E.
  - by injection E.
  - injection E as <- _. by apply Forall_cons_1 in H2 as [? _].
  - by injection E as -> _.
  - injection E as -> E. apply Forall_cons_1 in H2 as [_ H2].
    by destruct (IH l2 H2 E) as [-> ->].
Qed.

Lemma to_string_inj a b : 0 <= a → 0 <= b → to_string a = to_string b → a = b.
Proof. intros Ha Hb E. apply pretty_N_inj in E. lia. Qed.

Lemma GetInodeKey_inj a b : 0 <= a → 0 <= b → GetInodeKey a = GetInodeKey b → a = b.
Proof. apply to_string_inj. Qed.

Lemma GetDentryKey_inj p1 n1 p2 n2 :
  0 <= p1 → 0 <= p2 → GetDentryKey p1 n1 = GetDentryKey p2 n2 → p1 = p2 ∧ n1 = n2.
Proof.
  intros Hp1 Hp2 E. unfold GetDentryKey in E. apply (f_equal list_ascii_of_string) in E.
  rewrite !list_ascii_app in E. apply first_slash_unique in E; [|apply to_string_digits..].
  destruct E as [E1%list_ascii_inj%to_string_inj E2]; [|done..]. cbn in E2.
  by apply list_ascii_inj in E2.
Qed.

Lemma GetDentryKey_not_inode p n i : GetDentryKey p n ≠ GetInodeKey i.
Proof.
  intros E. unfold GetDentryKey, GetInodeKey in E. apply (f_equal list_ascii_of_string) in E.
  rewrite !list_ascii_app in E. pose proof (to_string_digits i) as H. rewrite <- E in H.
  apply Forall_app in H as [_ H]. by apply Forall_cons_1 in H as [? _].
Qed.

(** The keys of the file system in the key-value store: directory entries of
    different directories or names have different keys, whatever characters the
    names contain, so have different inodes, and the key of an entry is never
    the key of an inode. *)
Theorem fs_keys_injective (p1 p2 : Z) (n1 n2 : string) (i : Z) :
  0 <= p1 → 0 <= p2 →
  (GetDentryKey p1 n1 = GetDentryKey p2 n2 ↔ p1 = p2 ∧ n1 = n2) ∧
  (GetInodeKey p1 = GetInodeKey p2 ↔ p1 = p2) ∧
  GetDentryKey p1 n1 ≠ GetInodeKey i.
Proof.
  intros H1 H2. split_and!.
  - split; [by apply GetDentryKey_inj|by intros [-> ->]].
  - split; [by apply GetInodeKey_inj|by intros ->].
  - apply GetDentryKey_not_inode.
Qed.

Example fs_keys_injective_witness :
  GetDentryKey 1 "2/a" = "1/2/a"%string ∧ GetDentryKey 1 "2/a" ≠ GetDentryKey 12 "a".
Proof.
  destruct (fs_keys_injective 1 12 "2/a" "a" 0) as (H & _); [discriminate..|].
  split; [reflexivity|]. intros E. destruct (proj1 H E) as [E1 _]. discriminate E1.
Defined.

(** ** Inodes in memory *)

Definition inode_wf (i : Inode) : Prop :=
  in_u64 (id i) ∧ in_u64 (size i) ∧ in_u64 (atime i) ∧ in_u64 (mtime i) ∧ in_u64 (ctime i) ∧
  in_u64 (children i) ∧ in_u32 (mode i) ∧ in_u32 (uid i) ∧ in_u32 (gid i).

Lemma inode_bytes_length i : length (inode_bytes i) = Z.to_nat sizeof_Inode.
Proof. unfold inode_bytes. by rewrite !length_app, !le_bytes_length. Qed.

Lemma inode_bytes_byte i : Forall is_byte (inode_bytes i).
Proof. unfold inode_bytes. rewrite !Forall_app. split_and!; apply le_bytes_byte. Qed.

Lemma bytes_inode_bytes i : inode_wf i → bytes_inode (inode_bytes i) = i.
Proof.
  intros (H1 & H2 & H3 & H4 & H5 & H6 & H7 & H8 & H9). unfold in_u64, in_u32 in *.
  destruct i as [a b c d e f g h k]. cbn [id size atime mtime ctime children mode uid gid] in *.
  unfold bytes_inode, inode_bytes. cbn [id size atime mtime ctime children mode uid gid].
  repeat (rewrite ?drop_app_ge, ?drop_0, ?take_app_length', ?take_ge
    by (rewrite ?le_bytes_length, ?length_app, ?le_bytes_length; lia); rewrite ?le_bytes_length;
    cbn [Nat.sub]).
  f_equal; rewrite le_val_bytes; apply Z.mod_small; lia.
Qed.

(** ** The central service *)

Section central.
Import Central.

Fixpoint serve_all (rs : list request) (c : t) : t :=
  match rs with
  | [] => c
  | r :: rs' => serve_all rs' (serve r c).2
  end.

Lemma held_until_unlocked i rs c :
  i ∈ lock_set_ c → (∀ who, Unlock who i ∉ rs) → i ∈ lock_set_ (serve_all rs c).
Proof.
  revert c. induction rs as [|r rs IH]; intros c Hi Hno; cbn [serve_all]; [done|].
  apply IH; [|intros who Hw; apply (Hno who); set_solver].
  destruct r as [who j|who j|who]; cbn [serve].
  - unfold LockHandler. case_bool_decide; [done|]. cbn. set_solver.
  - cbn. assert (i ≠ j) by (intros ->; apply (Hno who); set_solver). set_solver.
  - done.
Qed.

(** The central service is a lock: from any state, a lock that was granted is
    refused to everybody, its holder included, however many requests are served
    in between, until an unlock of that inode is served; after an unlock it is
    granted again; and groups of inode numbers are handed out in sequence. *)
Theorem central_lock_exclusive (c : t) (i : Z) (rs : list request) :
  (LockHandler i c).1 = 0 → (∀ w, Unlock w i ∉ rs) →
  let c' := serve_all rs (LockHandler i c).2 in
  LockHandler i c' = (1, c') ∧
  (LockHandler i (UnlockHandler i c').2).1 = 0 ∧
  (GetInodeIdGroupHandler (GetInodeIdGroupHandler c').2).1 = u64 ((GetInodeIdGroupHandler c').1 + 1).
Proof.
  intros H0 Hno c'.
  assert (i ∈ lock_set_ (LockHandler i c).2) as Hi.
  { unfold LockHandler in *. case_bool_decide; [done|]. cbn. set_solver. }
  pose proof (held_until_unlocked i rs _ Hi Hno) as Hh. fold c' in Hh. split_and!.
  - unfold LockHandler. by rewrite bool_decide_eq_true_2.
  - unfold LockHandler. rewrite bool_decide_eq_false_2; [done|]. cbn. set_solver.
  - done.
Qed.

Example central_lock_exclusive_witness :
  let c := mk ∅ 0 in
  let c' := serve_all [Lock 2 8; Unlock 2 8; GetInodeIdGroup 1] (LockHandler 7 c).2 in
  LockHandler 7 c' = (1, c').
Proof.
  intros c c'.
  destruct (central_lock_exclusive c 7 [Lock 2 8; Unlock 2 8; GetInodeIdGroup 1]) as [H _].
  - reflexivity.
  - intros w Hw%list_elem_of_In. cbn in Hw. intuition congruence.
  - exact H.
Defined.
End central.
