(* ===== verification/Engine.v ===== *)
(** * The file-system engine ([src/fs/engine/engine.cc], [src/fs/engine/engine.h])

    Directories and inodes are key-value pairs: an inode under its number, a
    directory entry under the number of its directory and its name.  The engine
    is written against the interface [KvOps] of the key-value store;
    [EngineSpec] states the laws of a store and proves the engine against them,
    [EngineClient] implements the interface with the operations of the client. *)

From Stdlib Require Import Ascii String.
From S2P Require Import Prelude KvUtils HashTable ServerMM Server Rdma ClientState FsCommon.

(** ** Interface to the key-value store *)

Class KvOps (S : Type) := {
  (** the given number of bytes at the address of the value *)
  kv_get : string → Z → M S (option (list Z));
  kv_put : string → list Z → M S Z;      (** insertion *)
  kv_set : string → list Z → M S Z;      (** update *)
  kv_del : string → M S Z                (** deletion *) }.

Definition EIO : Z := 5.
Definition ENOENT : Z := 2.
Definition EACCES : Z := 13.
Definition EEXIST : Z := 17.
Definition ENOTDIR : Z := 20.
Definition EISDIR : Z := 21.
Definition ENOTEMPTY : Z := 39.

Module Eng.
Record t (S : Type) := mk { kv : S; inode_id_group_ : Z; inode_id_seq_in_group_ : Z }.
Arguments mk {S}. Arguments kv {S}. Arguments inode_id_group_ {S}.
Arguments inode_id_seq_in_group_ {S}.
#[global] Instance eta_t S : Eta (t S) := λ e,
  mk (kv e) (inode_id_group_ e) (inode_id_seq_in_group_ e).
End Eng.

Section engine.
Context {S : Type} `{!KvOps S}.
(** The answer of the central service, the clock, and the uninitialised field
    [children] of a new inode. *)
Context (get_group : M S Z) (now junk_children : Z).

Notation E := (Eng.t S).

Definition lift {A} (c : M S A) : M E A := λ e,
  match c (Eng.kv e) with
  | Done a s => Done a (Eng.mk s (Eng.inode_id_group_ e) (Eng.inode_id_seq_in_group_ e))
  | Stopped x s => Stopped x (Eng.mk s (Eng.inode_id_group_ e) (Eng.inode_id_seq_in_group_ e))
  end.

(** [if (ret != 0) return ret;] after a call with an output argument. *)
Definition tryM {A B} (c : M E (Z + A)) (k : A → M E (Z + B)) : M E (Z + B) :=
  r ← c; match r with inl e => mret (inl e) | inr a => k a end.
(** [if (ret != 0) { cleanup; return ret; }] *)
Definition try_or {A B} (c : M E (Z + A)) (cleanup : M E unit) (k : A → M E (Z + B)) : M E (Z + B) :=
  r ← c; match r with inl e => cleanup ;; mret (inl e) | inr a => k a end.
Definition err {A} (e : Z) : M E (Z + A) := mret (inl e).
Definition ok {A} (a : A) : M E (Z + A) := mret (inr a).

(** ** Inode numbers *)

Definition fetch_add_seq : M E Z :=
  e ← get;
  modify (λ e, Eng.mk (Eng.kv e) (Eng.inode_id_group_ e) (u64 (Eng.inode_id_seq_in_group_ e + 1))) ;;
  mret (Eng.inode_id_seq_in_group_ e).

(** The [while] of [GetNewInodeId]; the second test leaves the loop when the
    group is still used up. *)
Fixpoint new_group_loop (fuel : nat) (seq : Z) : M E Z :=
  if kInodeIdGroupSize <=? seq then
    match fuel with
    | O => stopm Diverges
    | Datatypes.S fuel' =>
        seq ← fetch_add_seq;
        if kInodeIdGroupSize <=? seq then mret seq
        else
          group ← lift get_group;
          modify (λ e, Eng.mk (Eng.kv e) group 0) ;;
          seq ← fetch_add_seq;
          new_group_loop fuel' seq
    end
  else mret seq.

Definition GetNewInodeId : M E Z :=
  seq ← fetch_add_seq;
  seq ← new_group_loop 1 seq;
  e ← get;
  mret (u64 (Eng.inode_id_group_ e * kInodeIdGroupSize + seq)).

(** The calls of the lock service are commented out. *)
Definition CentralLockInode (i : Z) : M E unit := skip.
Definition CentralUnlockInode (i : Z) : M E unit := skip.

(** ** Entries and inodes *)

Definition GetInodeById (i : Z) : M E (Z + Inode) :=
  v ← lift (kv_get (GetInodeKey i) sizeof_Inode);
  match v with None => err (- ENOENT) | Some bs => ok (bytes_inode bs) end.

Definition GetDentryByParentIdAndName (pid : Z) (name : string) : M E (Z + Z) :=
  v ← lift (kv_get (GetDentryKey pid name) 8);
  match v with None => err (- ENOENT) | Some bs => ok (le_val bs) end.

(** The loop over the components; the last one is not required to be a
    directory.  The list is not empty. *)
Fixpoint lookup_loop (components : list string) (parent u g : Z) : M E (Z + Z) :=
  match components with
  | [] => ok parent
  | name :: rest =>
      tryM (GetDentryByParentIdAndName parent name) (λ cur,
        match rest with
        | [] => ok cur
        | _ =>
            tryM (GetInodeById cur) (λ inode,
              if negb (CheckReadPermission inode u g) then err (- EACCES)
              else if negb (IsDir (mode inode)) then err (- ENOTDIR)
              else lookup_loop rest cur u g)
        end)
  end.

Definition PathLookupToDentry (path : string) (u g : Z) : M E (Z + Z) :=
  match SplitPath (FormatPath path) with
  | [] => ok kRootInodeId
  | components =>
      tryM (GetInodeById kRootInodeId) (λ inode,
        if negb (CheckReadPermission inode u g) then err (- EACCES)
        else lookup_loop components kRootInodeId u g)
  end.

(** Only one of the two failures of the store is reported. *)
Definition store_code (ret : Z) : Z + unit :=
  if ret =? KV_OPS_FAIL_RETURN then inl (- EIO) else inr tt.

Definition InsertDentry (pid : Z) (name : string) (i : Z) : M E (Z + unit) :=
  ret ← lift (kv_put (GetDentryKey pid name) (le_bytes 8 i)); mret (store_code ret).
Definition DeleteDentry (pid : Z) (name : string) : M E (Z + unit) :=
  ret ← lift (kv_del (GetDentryKey pid name)); mret (store_code ret).
Definition UpdateDentry (pid : Z) (name : string) (i : Z) : M E (Z + unit) :=
  ret ← lift (kv_set (GetDentryKey pid name) (le_bytes 8 i)); mret (store_code ret).
Definition InsertInode (i : Z) (inode : Inode) : M E (Z + unit) :=
  ret ← lift (kv_put (GetInodeKey i) (inode_bytes inode)); mret (store_code ret).
Definition DeleteInode (i : Z) : M E (Z + unit) :=
  ret ← lift (kv_del (GetInodeKey i)); mret (store_code ret).
Definition UpdateInode (i : Z) (inode : Inode) : M E (Z + unit) :=
  ret ← lift (kv_set (GetInodeKey i) (inode_bytes inode)); mret (store_code ret).

(** A call whose result is ignored. *)
Definition ignore (c : M E (Z + unit)) : M E unit := _ ← c; skip.

(** ** Operations *)

(** What [Mkdir] and [Creat] share: everything but the new inode. *)
Definition create_entry (path : string) (u g : Z) (new_inode : Z → Inode) : M E (Z + unit) :=
  let '(parent_path, name) := SeparateLastComponent (FormatPath path) in
  tryM (PathLookupToDentry parent_path u g) (λ pid,
    CentralLockInode pid ;;
    try_or (GetInodeById pid) (CentralUnlockInode pid) (λ parent,
      if negb (IsDir (mode parent)) then CentralUnlockInode pid ;; err (- ENOTDIR)
      else if negb (CheckWritePermission parent u g) then CentralUnlockInode pid ;; err (- EACCES)
      else
        found ← GetDentryByParentIdAndName pid name;
        match found with
        | inr _ => CentralUnlockInode pid ;; err (- EEXIST)
        | inl _ =>
            i ← GetNewInodeId;
            try_or (InsertInode i (new_inode i)) (CentralUnlockInode pid) (λ _,
            try_or (InsertDentry pid name i)
                   (ignore (DeleteInode i) ;; CentralUnlockInode pid) (λ _,
            try_or (UpdateInode pid (parent <| children ::= λ n, u64 (n + 1) |>))
                   (ignore (DeleteInode i) ;; ignore (DeleteDentry pid name) ;;
                    CentralUnlockInode pid) (λ _,
            CentralUnlockInode pid ;;
            ok tt)))
        end)).

Definition Mkdir (path : string) (u g m : Z) : M E (Z + unit) :=
  create_entry path u g (λ i, mkInode i 0 now now now 0 (Z.lor S_IFDIR m) u g).

Definition Creat (path : string) (u g m : Z) : M E (Z + unit) :=
  create_entry path u g (λ i, mkInode i 0 now now now junk_children (Z.lor S_IFREG m) u g).

(** What [Rmdir] and [Unlink] share: everything but the test of the target.  (The
    two also differ in the order of the last two unlocks, and [Unlink] unlocks
    twice when the update of the parent fails.) *)
Definition remove_entry (path : string) (u g : Z) (refuse : Inode → option Z) : M E (Z + unit) :=
  let '(parent_path, name) := SeparateLastComponent (FormatPath path) in
  tryM (PathLookupToDentry parent_path u g) (λ pid,
    CentralLockInode pid ;;
    try_or (GetInodeById pid) (CentralUnlockInode pid) (λ parent,
      if negb (IsDir (mode parent)) then CentralUnlockInode pid ;; err (- ENOTDIR)
      else if negb (CheckWritePermission parent u g) then CentralUnlockInode pid ;; err (- EACCES)
      else
        try_or (GetDentryByParentIdAndName pid name) (CentralUnlockInode pid) (λ target,
          let unlock_both := CentralUnlockInode pid ;; CentralUnlockInode target in
          CentralLockInode target ;;
          try_or (GetInodeById target) unlock_both (λ inode,
            match refuse inode with
            | Some e => unlock_both ;; err (- e)
            | None =>
                try_or (DeleteInode target) unlock_both (λ _,
                try_or (DeleteDentry pid name)
                       (ignore (InsertInode target inode) ;; unlock_both) (λ _,
                try_or (UpdateInode pid (parent <| children ::= λ n, u64 (n - 1) |>))
                       (ignore (InsertInode target inode) ;;
                        ignore (InsertDentry pid name target) ;; unlock_both) (λ _,
                CentralUnlockInode target ;;
                CentralUnlockInode pid ;;
                ok tt)))
            end)))).

Definition Rmdir (path : string) (u g : Z) : M E (Z + unit) :=
  remove_entry path u g (λ inode,
    if negb (IsDir (mode inode)) then Some ENOTDIR
    else if 0 <? children inode then Some ENOTEMPTY else None).

Definition Unlink (path : string) (u g : Z) : M E (Z + unit) :=
  remove_entry path u g (λ inode, if IsDir (mode inode) then Some EISDIR else None).

Definition Stat (path : string) (u g : Z) : M E (Z + Inode) :=
  tryM (PathLookupToDentry path u g) GetInodeById.

(** The root directory, created by the first thread. *)
Definition InitThread (thread_id : Z) : M E unit :=
  if thread_id =? 0 then
    ignore (InsertInode kRootInodeId
      (mkInode kRootInodeId 0 now now now junk_children (Z.lor S_IFDIR 0x1ED) 0 0)) ;;
    modify (λ e, Eng.mk (Eng.kv e) (Eng.inode_id_group_ e) 1)
  else skip.
End engine.
Arguments KvOps S : clear implicits.
