(* ===== verification/EngineSpec.v ===== *)
(** * Specification of the file-system engine ([src/fs/engine/engine.cc])

    [KvLaws] is what the engine needs of the key-value store; [map_kv], a finite
    map whose updates fail on demand, is a store that satisfies it.  The
    specification of the engine is a set of pure functions on abstract file
    systems [fs]: the inodes by number and the entries by directory and name.
    The theorems show that the operations of the engine implement these
    functions on every lawful store and what a failing store can leave behind. *)

From Stdlib Require Import Ascii String.
From S2P Require Import Prelude KvUtils HashTable ServerMM Server Rdma ClientState FsCommon Engine.

(** ** Laws of the store *)

(** An update took place, or failed and changed nothing. *)
Definition applied {S} (view : S → gmap string (list Z)) (m' : gmap string (list Z)) (s : S)
    (o : outcome S Z) : Prop :=
  ∃ r s', o = Done r s' ∧
    ((r = KV_OPS_SUCCESS ∧ view s' = m') ∨ (r = KV_OPS_FAIL_RETURN ∧ view s' = view s)).

Class KvLaws {S : Type} `{KvOps S} (view : S → gmap string (list Z)) := {
  law_get_none k n s : view s !! k = None →
    ∃ s', kv_get k n s = Done None s' ∧ view s' = view s;
  law_get_some k n v s : view s !! k = Some v → Z.of_nat (length v) = n →
    ∃ s', kv_get k n s = Done (Some v) s' ∧ view s' = view s;
  law_put k v s : view s !! k = None → applied view (<[k := v]> (view s)) s (kv_put k v s);
  law_set k v s : is_Some (view s !! k) → applied view (<[k := v]> (view s)) s (kv_set k v s);
  law_del k s : is_Some (view s !! k) → applied view (delete k (view s)) s (kv_del k s) }.

(** ** A store: a map, and which of its next updates fail *)

Record MapStore := mkMapStore { entries : gmap string (list Z); failures : list bool }.

Section map_store.
(** What a failing update answers. *)
Context (refusal : Z).

Definition map_update (f : gmap string (list Z) → gmap string (list Z)) : M MapStore Z := λ s,
  match failures s with
  | true :: fl => Done refusal (mkMapStore (entries s) fl)
  | _ => Done KV_OPS_SUCCESS (mkMapStore (f (entries s)) (tail (failures s)))
  end.

Definition map_kv : KvOps MapStore := {|
  kv_get k n := gets (λ s, entries s !! k);
  kv_put k v := map_update (insert k v);
  kv_set k v := map_update (insert k v);
  kv_del k := map_update (delete k) |}.
End map_store.

Lemma map_update_applied f s : applied entries (f (entries s)) s (map_update KV_OPS_FAIL_RETURN f s).
Proof.
  unfold applied, map_update. destruct (failures s) as [|[] fl]; do 2 eexists; (split; [done|]);
    cbn; tauto.
Qed.

#[export] Instance lawful_kv : KvOps MapStore := map_kv KV_OPS_FAIL_RETURN.
#[export] Instance map_kv_laws : KvLaws entries.
Proof.
  split.
  - intros k n s H. exists s. cbn. unM. by rewrite H.
  - intros k n v s H _. exists s. cbn. unM. by rewrite H.
  - intros k v s _. apply map_update_applied.
  - intros k v s _. apply map_update_applied.
  - intros k s _. apply map_update_applied.
Qed.

(** ** Abstract file systems *)

Record fs := mkfs { inodes : gmap Z Inode; dentries : gmap (Z * string) Z }.
#[global] Instance eta_fs : Eta fs := λ a, mkfs (inodes a) (dentries a).

Definition put_inode (i : Z) (ino : Inode) (a : fs) : fs := a <| inodes ::= insert i ino |>.
Definition del_inode (i : Z) (a : fs) : fs := a <| inodes ::= delete i |>.
Definition put_dentry (p : Z) (n : string) (i : Z) (a : fs) : fs :=
  a <| dentries ::= insert (p, n) i |>.
Definition del_dentry (p : Z) (n : string) (a : fs) : fs := a <| dentries ::= delete (p, n) |>.

Definition ebind {A B} (r : Z + A) (k : A → Z + B) : Z + B :=
  match r with inl e => inl e | inr x => k x end.
Definition or_enoent {A} (o : option A) : Z + A :=
  match o with None => inl (- ENOENT) | Some x => inr x end.

Definition find_inode (a : fs) (i : Z) : Z + Inode := or_enoent (inodes a !! i).
Definition find_dentry (a : fs) (p : Z) (n : string) : Z + Z := or_enoent (dentries a !! (p, n)).

(** A directory on the way must exist and be readable, and, but for the root, be
    a directory. *)
Fixpoint walk (a : fs) (p : Z) (names : list string) (u g : Z) : Z + Z :=
  match names with
  | [] => inr p
  | [n] => find_dentry a p n
  | n :: rest =>
      ebind (find_dentry a p n) (λ c,
      ebind (find_inode a c) (λ ino,
        if negb (CheckReadPermission ino u g) then inl (- EACCES)
        else if negb (IsDir (mode ino)) then inl (- ENOTDIR) else walk a c rest u g))
  end.

Definition resolve (a : fs) (path : string) (u g : Z) : Z + Z :=
  match SplitPath path with
  | [] => inr kRootInodeId
  | names =>
      ebind (find_inode a kRootInodeId) (λ ino,
        if negb (CheckReadPermission ino u g) then inl (- EACCES)
        else walk a kRootInodeId names u g)
  end.

Definition fs_stat (a : fs) (path : string) (u g : Z) : Z + Inode :=
  ebind (resolve a path u g) (find_inode a).

(** The directory that holds the last component of a path, when the user may
    change it. *)
Definition writable_parent (a : fs) (path : string) (u g : Z) : Z + (Z * Inode * string) :=
  let '(dir, name) := SeparateLastComponent (FormatPath path) in
  ebind (resolve a dir u g) (λ pid,
  ebind (find_inode a pid) (λ parent,
    if negb (IsDir (mode parent)) then inl (- ENOTDIR)
    else if negb (CheckWritePermission parent u g) then inl (- EACCES)
    else inr (pid, parent, name))).

Definition bump (d : Z) (ino : Inode) : Inode := ino <| children ::= λ n, u64 (n + d) |>.

(** The three updates of a creation, and of a removal. *)
Definition created (a : fs) (pid : Z) (parent : Inode) (name : string) (i : Z) (ino : Inode) : fs :=
  put_inode pid (bump 1 parent) (put_dentry pid name i (put_inode i ino a)).
Definition removed (a : fs) (pid : Z) (parent : Inode) (name : string) (i : Z) : fs :=
  put_inode pid (bump (-1) parent) (del_dentry pid name (del_inode i a)).

Definition fs_create (a : fs) (path : string) (u g : Z) (i : Z) (ino : Inode) : Z + fs :=
  ebind (writable_parent a path u g) (λ '(pid, parent, name),
    match dentries a !! (pid, name) with
    | Some _ => inl (- EEXIST)
    | None => inr (created a pid parent name i ino)
    end).

Definition fs_remove (a : fs) (path : string) (u g : Z) (refuse : Inode → option Z) : Z + fs :=
  ebind (writable_parent a path u g) (λ '(pid, parent, name),
  ebind (find_dentry a pid name) (λ i,
  ebind (find_inode a i) (λ ino,
    match refuse ino with
    | Some e => inl (- e)
    | None => inr (removed a pid parent name i)
    end))).

(** ** Representation of an abstract file system in a store *)

Definition fs_ok (a : fs) : Prop :=
  (∀ i ino, inodes a !! i = Some ino → in_u64 i ∧ inode_wf ino) ∧
  (∀ p n c, dentries a !! (p, n) = Some c → in_u64 p ∧ in_u64 c ∧ p < c).

Definition repr (m : gmap string (list Z)) (a : fs) : Prop :=
  fs_ok a ∧
  (∀ i, 0 <= i → m !! GetInodeKey i = inode_bytes <$> inodes a !! i) ∧
  (∀ p n, 0 <= p → m !! GetDentryKey p n = le_bytes 8 <$> dentries a !! (p, n)).

Lemma repr_put_inode m a i ino :
  repr m a → in_u64 i → inode_wf ino →
  repr (<[GetInodeKey i := inode_bytes ino]> m) (put_inode i ino a).
Proof.
  intros ([H1 H2] & H3 & H4) Hi Hw. split; [|split].
  - split; [|exact H2]. intros j ino'. cbn. rewrite lookup_insert_Some.
    intros [[<- <-]|[_ Hj]]; [done|by apply H1 in Hj].
  - intros j Hj. cbn. destruct (decide (i = j)) as [<-|Hne].
    + by rewrite !lookup_insert_eq.
    + rewrite !lookup_insert_ne; [by apply H3|done|].
      intros E. apply Hne, GetInodeKey_inj; [apply Hi|done..].
  - intros p n Hp. rewrite lookup_insert_ne; [by apply H4|].
    intros E. by apply (GetDentryKey_not_inode p n i).
Qed.

Lemma repr_del_inode m a i :
  repr m a → in_u64 i → repr (delete (GetInodeKey i) m) (del_inode i a).
Proof.
  intros ([H1 H2] & H3 & H4) Hi. split; [|split].
  - split; [|exact H2]. intros j ino'. cbn. rewrite lookup_delete_Some. intros [_ Hj].
    by apply H1 in Hj.
  - intros j Hj. cbn. destruct (decide (i = j)) as [<-|Hne].
    + by rewrite !lookup_delete_eq.
    + rewrite !lookup_delete_ne; [by apply H3|done|].
      intros E. apply Hne, GetInodeKey_inj; [apply Hi|done..].
  - intros p n Hp. rewrite lookup_delete_ne; [by apply H4|].
    intros E. by apply (GetDentryKey_not_inode p n i).
Qed.

Lemma repr_put_dentry m a p n i :
  repr m a → in_u64 p → in_u64 i → p < i →
  repr (<[GetDentryKey p n := le_bytes 8 i]> m) (put_dentry p n i a).
Proof.
  intros ([H1 H2] & H3 & H4) Hp Hi Hlt. split; [|split].
  - split; [exact H1|]. intros p' n' c. cbn. rewrite lookup_insert_Some.
    intros [[[= <- <-] <-]|[_ Hc]]; [done|by apply H2 in Hc].
  - intros j Hj. rewrite lookup_insert_ne; [by apply H3|]. apply GetDentryKey_not_inode.
  - intros p' n' Hp'. cbn. destruct (decide ((p, n) = (p', n'))) as [[= <- <-]|Hne].
    + by rewrite !lookup_insert_eq.
    + rewrite !lookup_insert_ne; [by apply H4|done|].
      intros E. apply Hne. apply GetDentryKey_inj in E; [|apply Hp|done].
      by destruct E as [-> ->].
Qed.

Lemma repr_del_dentry m a p n :
  repr m a → in_u64 p → repr (delete (GetDentryKey p n) m) (del_dentry p n a).
Proof.
  intros ([H1 H2] & H3 & H4) Hp. split; [|split].
  - split; [exact H1|]. intros p' n' c. cbn. rewrite lookup_delete_Some. intros [_ Hc].
    by apply H2 in Hc.
  - intros j Hj. rewrite lookup_delete_ne; [by apply H3|]. apply GetDentryKey_not_inode.
  - intros p' n' Hp'. cbn. destruct (decide ((p, n) = (p', n'))) as [[= <- <-]|Hne].
    + by rewrite !lookup_delete_eq.
    + rewrite !lookup_delete_ne; [by apply H4|done|].
      intros E. apply Hne. apply GetDentryKey_inj in E; [|apply Hp|done].
      by destruct E as [-> ->].
Qed.

Lemma del_put_inode i ino a : inodes a !! i = None → del_inode i (put_inode i ino a) = a.
Proof.
  destruct a as [im dm]. intros H. change (mkfs (delete i (<[i := ino]> im)) dm = mkfs im dm).
  f_equal. by apply delete_insert_id.
Qed.

Lemma del_put_dentry p n c a : dentries a !! (p, n) = None → del_dentry p n (put_dentry p n c a) = a.
Proof.
  destruct a as [im dm]. intros H. change (mkfs im (delete (p, n) (<[(p, n) := c]> dm)) = mkfs im dm).
  f_equal. by apply delete_insert_id.
Qed.

Lemma put_del_inode i ino a : inodes a !! i = Some ino → put_inode i ino (del_inode i a) = a.
Proof.
  destruct a as [im dm]. intros H. change (mkfs (<[i := ino]> (delete i im)) dm = mkfs im dm).
  f_equal. by apply insert_delete_id.
Qed.

Lemma put_del_dentry p n c a : dentries a !! (p, n) = Some c → put_dentry p n c (del_dentry p n a) = a.
Proof.
  destruct a as [im dm]. intros H. change (mkfs im (<[(p, n) := c]> (delete (p, n) dm)) = mkfs im dm).
  f_equal. by apply insert_delete_id.
Qed.

(** What a failing store can leave of a creation: the new inode, the new entry,
    both or none; and of a removal, which it can take away. *)
Definition create_residue (a : fs) (p : Z) (n : string) (i : Z) (ino : Inode) (a' : fs) : Prop :=
  a' ∈ [a; put_inode i ino a; put_dentry p n i a; put_dentry p n i (put_inode i ino a)].
Definition remove_residue (a : fs) (p : Z) (n : string) (i : Z) (a' : fs) : Prop :=
  a' ∈ [a; del_inode i a; del_dentry p n a; del_dentry p n (del_inode i a)].

Lemma in_u32_lor x y : in_u32 x → in_u32 y → in_u32 (Z.lor x y).
Proof.
  unfold in_u32. intros Hx Hy. split; [apply Z.lor_nonneg; lia|].
  destruct (decide (Z.lor x y = 0)) as [->|]; [lia|].
  apply Z.log2_lt_pow2; [pose proof (Z.lor_nonneg x y); lia|].
  rewrite Z.log2_lor by lia. apply Z.max_lub_lt.
  - destruct (decide (x = 0)) as [->|]; [done|]. apply Z.log2_lt_pow2; lia.
  - destruct (decide (y = 0)) as [->|]; [done|]. apply Z.log2_lt_pow2; lia.
Qed.

Lemma new_inode_wf i now c ty m u g :
  in_u64 i → in_u64 now → in_u64 c → in_u32 ty → in_u32 m → in_u32 u → in_u32 g →
  inode_wf (mkInode i 0 now now now c (Z.lor ty m) u g).
Proof.
  intros. pose proof (in_u32_lor ty m). unfold inode_wf.
  cbn [id size atime mtime ctime children mode uid gid]. assert (in_u64 0) by done. tauto.
Qed.

Lemma bump_wf d ino : inode_wf ino → inode_wf (bump d ino).
Proof.
  intros (H1 & H2 & H3 & H4 & H5 & H6 & H7). repeat split; try apply H1; try apply H2;
    try apply H3; try apply H4; try apply H5; try apply H7; apply Z.mod_pos_bound; lia.
Qed.

(** ** The engine on a lawful store *)

Section refinement.
Context {S : Type} `{HK : !KvOps S} (view : S → gmap string (list Z)) `{HL : !KvLaws view}.
Context (get_group : M S Z) (now junk_children : Z).

Notation E := (Eng.t S).

Definition stored (e : E) (a : fs) : Prop := repr (view (Eng.kv e)) a.
Definition ids (e : E) : Z * Z := (Eng.inode_id_group_ e, Eng.inode_id_seq_in_group_ e).

(** A computation that only reads, and its result on [a]. *)
Definition reads {A} (a : fs) (c : M E A) (r : A) : Prop :=
  ∀ e, stored e a → ∃ e', c e = Done r e' ∧ stored e' a ∧ ids e' = ids e.

Lemma reads_ret {A} a (r : A) : reads a (mret r) r.
Proof. intros e He. by exists e. Qed.

Lemma reads_bind {A B} a (c : M E A) (k : A → M E B) x r :
  reads a c x → reads a (k x) r → reads a (y ← c; k y) r.
Proof.
  intros Hc Hk e He. destruct (Hc e He) as (e1 & E1 & He1 & I1).
  destruct (Hk e1 He1) as (e2 & E2 & He2 & I2). exists e2. unM. rewrite E1.
  by rewrite I2, I1.
Qed.

Lemma reads_try {A B} a (c : M E (Z + A)) (k : A → M E (Z + B)) x f :
  reads a c x → (∀ y, x = inr y → reads a (k y) (f y)) → reads a (tryM c k) (ebind x f).
Proof.
  intros Hc Hk. eapply reads_bind; [exact Hc|]. destruct x as [er|y]; cbn.
  - apply reads_ret.
  - by apply Hk.
Qed.

Lemma lift_run {A} (c : M S A) (e : E) (r : A) (s : S) :
  c (Eng.kv e) = Done r s →
  lift c e = Done r (Eng.mk s (Eng.inode_id_group_ e) (Eng.inode_id_seq_in_group_ e)).
Proof. intros H. unfold lift. by rewrite H. Qed.

Lemma stored_view (e : E) s a :
  view s = view (Eng.kv e) → stored e a → ∀ g q, stored (Eng.mk s g q) a.
Proof. unfold stored. cbn. by intros ->. Qed.

Lemma reads_get {V} a k n (o : option V) (enc : V → list Z) :
  (∀ m, repr m a → m !! k = enc <$> o) → (∀ v, Z.of_nat (length (enc v)) = n) →
  reads a (lift (kv_get k n)) (enc <$> o).
Proof.
  intros Hk Hn e He. pose proof (Hk _ He) as Hv. destruct o as [v|]; cbn in *.
  - destruct (law_get_some k n _ _ Hv (Hn v)) as (s' & E1 & Hs). eexists.
    split; [by apply lift_run|]. split; [|done]. by eapply stored_view.
  - destruct (law_get_none k n _ Hv) as (s' & E1 & Hs). eexists.
    split; [by apply lift_run|]. split; [|done]. by eapply stored_view.
Qed.

Lemma GetInodeById_reads a i : fs_ok a → 0 <= i → reads a (GetInodeById i) (find_inode a i).
Proof.
  intros [Hw _] Hi. unfold GetInodeById. eapply reads_bind.
  - apply (reads_get a _ _ (inodes a !! i) inode_bytes).
    + intros m (_ & H & _). by apply H.
    + intros v. rewrite inode_bytes_length. unfold sizeof_Inode. lia.
  - unfold find_inode. destruct (inodes a !! i) as [ino|] eqn:Ei;
      cbn [fmap option_fmap option_map or_enoent].
    + rewrite bytes_inode_bytes by (by eapply Hw). apply reads_ret.
    + apply reads_ret.
Qed.

Lemma GetDentry_reads a p n :
  fs_ok a → 0 <= p → reads a (GetDentryByParentIdAndName p n) (find_dentry a p n).
Proof.
  intros [_ Hw] Hp. unfold GetDentryByParentIdAndName. eapply reads_bind.
  - apply (reads_get a _ _ (dentries a !! (p, n)) (le_bytes 8)).
    + intros m (_ & _ & H). by apply H.
    + intros v. by rewrite le_bytes_length.
  - unfold find_dentry. destruct (dentries a !! (p, n)) as [c|] eqn:Ec;
      cbn [fmap option_fmap option_map or_enoent].
    + apply Hw in Ec as (_ & Hc & _). rewrite le_val_bytes, Z.mod_small by (unfold in_u64 in Hc; lia).
      apply reads_ret.
    + apply reads_ret.
Qed.

Lemma find_dentry_ok a p n c : fs_ok a → find_dentry a p n = inr c → 0 <= p < c ∧ c < 2 ^ 64.
Proof.
  intros [_ Hw]. unfold find_dentry. destruct (dentries a !! (p, n)) as [c'|] eqn:Ec; [|done].
  intros [= <-]. apply Hw in Ec. unfold in_u64 in Ec. lia.
Qed.

Lemma lookup_loop_reads a names : ∀ p u g,
  fs_ok a → 0 <= p → reads a (lookup_loop names p u g) (walk a p names u g).
Proof.
  induction names as [|n [|n' rest] IH]; intros p u g Ha Hp.
  - apply reads_ret.
  - cbn [lookup_loop walk]. replace (find_dentry a p n) with (ebind (find_dentry a p n) inr)
      by (by destruct (find_dentry a p n)).
    eapply reads_try; [by apply GetDentry_reads|]. intros y _. apply reads_ret.
  - cbn [lookup_loop walk]. eapply reads_try; [by apply GetDentry_reads|]. intros c Hc.
    apply find_dentry_ok in Hc; [|done].
    eapply reads_try; [apply GetInodeById_reads; [done|lia]|]. intros ino _.
    destruct (CheckReadPermission ino u g); cbn [negb]; [|apply reads_ret].
    destruct (IsDir (mode ino)); cbn [negb]; [|apply reads_ret].
    apply IH; [done|lia].
Qed.

Lemma PathLookup_reads a path u g :
  fs_ok a → reads a (PathLookupToDentry path u g) (resolve a path u g).
Proof.
  intros Ha. unfold PathLookupToDentry, resolve. rewrite SplitPath_FormatPath.
  destruct (SplitPath path) as [|n names]; [apply reads_ret|].
  eapply reads_try; [by apply GetInodeById_reads|]. intros ino _.
  destruct (CheckReadPermission ino u g); cbn [negb]; [|apply reads_ret].
  by apply lookup_loop_reads.
Qed.

Lemma walk_ok a names : ∀ p u g i,
  fs_ok a → 0 <= p → walk a p names u g = inr i → 0 <= i.
Proof.
  induction names as [|n [|n' rest] IH]; intros p u g i Ha Hp H.
  - by injection H as <-.
  - apply find_dentry_ok in H; [lia|done].
  - cbn [walk] in H. destruct (find_dentry a p n) as [|c] eqn:Hc; [done|].
    apply find_dentry_ok in Hc; [|done]. cbn [ebind] in H.
    destruct (find_inode a c) as [|ino]; [done|]. cbn [ebind] in H.
    destruct (CheckReadPermission ino u g); [|done].
    destruct (IsDir (mode ino)); [|done]. cbn [negb] in H.
    apply (IH c u g); [done|lia|exact H].
Qed.

Lemma resolve_ok a path u g i : fs_ok a → resolve a path u g = inr i → 0 <= i.
Proof.
  intros Ha. unfold resolve. destruct (SplitPath path); [by intros [= <-]|].
  destruct (find_inode a kRootInodeId) as [|ino]; [done|]. cbn [ebind]. case_match; [done|].
  by apply walk_ok.
Qed.

Lemma Stat_reads a path u g : fs_ok a → reads a (Stat path u g) (fs_stat a path u g).
Proof.
  intros Ha. eapply reads_try; [by apply PathLookup_reads|]. intros i Hi.
  apply GetInodeById_reads; [done|by eapply resolve_ok].
Qed.

(** An update that takes place or fails and changes nothing. *)
Definition writes (a a' : fs) (c : M E (Z + unit)) : Prop :=
  ∀ e, stored e a → ∃ r e', c e = Done r e' ∧ ids e' = ids e ∧
    ((r = inr tt ∧ stored e' a') ∨ (r = inl (- EIO) ∧ stored e' a)).

Lemma writes_applied a a' (op : M S Z) (m' : gmap string (list Z) → gmap string (list Z)) :
  (∀ s, repr (view s) a → applied view (m' (view s)) s (op s) ∧ repr (m' (view s)) a') →
  writes a a' (ret ← lift op; mret (store_code ret)).
Proof.
  intros H e He. destruct (H _ He) as [(r & s' & E1 & Hr) Ha'].
  do 2 eexists. split; [unM; by rewrite (lift_run _ _ _ _ E1)|]. split; [done|].
  destruct Hr as [[-> Hv]|[-> Hv]]; [left|right]; (split; [done|]); unfold stored; cbn;
    rewrite Hv; done.
Qed.

Lemma repr_inode_is_Some m a i : repr m a → 0 <= i → is_Some (inodes a !! i) → is_Some (m !! GetInodeKey i).
Proof. intros (_ & H & _) Hi [ino E1]. rewrite H, E1 by done. by eexists. Qed.

Lemma repr_dentry_is_Some m a p n :
  repr m a → 0 <= p → is_Some (dentries a !! (p, n)) → is_Some (m !! GetDentryKey p n).
Proof. intros (_ & _ & H) Hi [c E1]. rewrite H, E1 by done. by eexists. Qed.

Lemma InsertInode_writes a i ino :
  inodes a !! i = None → in_u64 i → inode_wf ino → writes a (put_inode i ino a) (InsertInode i ino).
Proof.
  intros Hn Hi Hw. apply (writes_applied _ _ _ (insert (GetInodeKey i) (inode_bytes ino))). intros s Hs.
  split; [|by apply repr_put_inode]. apply law_put. destruct Hs as (_ & H & _).
  rewrite H, Hn; [done|apply Hi].
Qed.

Lemma UpdateInode_writes a i ino :
  is_Some (inodes a !! i) → in_u64 i → inode_wf ino → writes a (put_inode i ino a) (UpdateInode i ino).
Proof.
  intros Hn Hi Hw. apply (writes_applied _ _ _ (insert (GetInodeKey i) (inode_bytes ino))). intros s Hs.
  split; [|by apply repr_put_inode]. apply law_set. eapply repr_inode_is_Some; [done|apply Hi|done].
Qed.

Lemma DeleteInode_writes a i :
  is_Some (inodes a !! i) → in_u64 i → writes a (del_inode i a) (DeleteInode i).
Proof.
  intros Hn Hi. apply (writes_applied _ _ _ (delete (GetInodeKey i))). intros s Hs.
  split; [|by apply repr_del_inode]. apply law_del. eapply repr_inode_is_Some; [done|apply Hi|done].
Qed.

Lemma InsertDentry_writes a p n i :
  dentries a !! (p, n) = None → in_u64 p → in_u64 i → p < i →
  writes a (put_dentry p n i a) (InsertDentry p n i).
Proof.
  intros Hn Hp Hi Hlt. apply (writes_applied _ _ _ (insert (GetDentryKey p n) (le_bytes 8 i))). intros s Hs.
  split; [|by apply repr_put_dentry]. apply law_put. destruct Hs as (_ & _ & H).
  rewrite H, Hn; [done|apply Hp].
Qed.

Lemma DeleteDentry_writes a p n :
  is_Some (dentries a !! (p, n)) → in_u64 p → writes a (del_dentry p n a) (DeleteDentry p n).
Proof.
  intros Hn Hp. apply (writes_applied _ _ _ (delete (GetDentryKey p n))). intros s Hs.
  split; [|by apply repr_del_dentry]. apply law_del. eapply repr_dentry_is_Some; [done|apply Hp|done].
Qed.

(** What a computation with failing updates leaves: its result, and a file
    system among those allowed for that result. *)
Definition leaves {A} (a : fs) (c : M E (Z + A)) (P : Z + A → fs → Prop) : Prop :=
  ∀ e, stored e a → ∃ r e' a', c e = Done r e' ∧ ids e' = ids e ∧ stored e' a' ∧ P r a'.

Lemma leaves_ret {A} a (r : Z + A) (P : Z + A → fs → Prop) : P r a → leaves a (mret r) P.
Proof. intros HP e He. by exists r, e, a. Qed.

Lemma leaves_try {A} a a' (c : M E (Z + unit)) (undo : M E unit) (k : unit → M E (Z + A))
    (P : Z + A → fs → Prop) :
  writes a a' c → leaves a' (k tt) P → leaves a (undo ;; mret (inl (- EIO))) P →
  leaves a (try_or c undo k) P.
Proof.
  intros Hc Hk Hu e He. destruct (Hc e He) as (r & e1 & E1 & I1 & Hr).
  rewrite <- I1. unfold try_or. unM. rewrite E1.
  destruct Hr as [[-> H1]|[-> H1]]; [by apply Hk|]. by apply Hu.
Qed.

Lemma leaves_ignore {A} a a' (c : M E (Z + unit)) (k : M E (Z + A)) (P : Z + A → fs → Prop) :
  writes a a' c → leaves a' k P → leaves a k P → leaves a (ignore c ;; k) P.
Proof.
  intros Hc H1 H2 e He. destruct (Hc e He) as (r & e1 & E1 & I1 & Hr).
  assert (∃ r' e' a'', k e1 = Done r' e' ∧ ids e' = ids e1 ∧ stored e' a'' ∧ P r' a'') as Hk
    by (destruct Hr as [[-> ?]|[-> ?]]; [by apply H1|by apply H2]).
  rewrite I1 in Hk. unfold ignore. unM. by rewrite E1.
Qed.

Lemma leaves_assoc {A} a (c1 c2 : M E unit) (k : M E (Z + A)) P :
  leaves a (c1 ;; (c2 ;; k)) P → leaves a ((c1 ;; c2) ;; k) P.
Proof.
  intros H e He. destruct (H e He) as (r & e' & a' & E1 & H'). exists r, e', a'. split; [|done].
  rewrite <- E1. unM. by destruct (c1 e).
Qed.

(** How a run ends. *)
Definition runs {A} (e : E) (c : M E A) (Q : A → E → Prop) : Prop :=
  ∃ r e', c e = Done r e' ∧ Q r e'.

(** Where reading leaves the engine. *)
Definition unchanged (a : fs) (e e' : E) : Prop := stored e' a ∧ ids e' = ids e.

Lemma unchanged_trans a e e1 e2 : unchanged a e e1 → unchanged a e1 e2 → unchanged a e e2.
Proof. intros [H1 H2] [H3 H4]. split; [done|by rewrite H4]. Qed.

Lemma runs_read {A B} a e (c : M E A) x (k : A → M E B) Q :
  stored e a → reads a c x → (∀ e', unchanged a e e' → runs e' (k x) Q) →
  runs e (y ← c; k y) Q.
Proof.
  intros He Hc Hk. destruct (Hc e He) as (e1 & E1 & H1). destruct (Hk e1 H1) as (r & e2 & E2 & H2).
  exists r, e2. unM. by rewrite E1.
Qed.

Lemma find_inode_some a i ino : find_inode a i = inr ino → inodes a !! i = Some ino.
Proof. unfold find_inode. destruct (inodes a !! i); [by intros [= ->]|done]. Qed.

Lemma writable_parent_some a path u g pid parent name :
  fs_ok a → writable_parent a path u g = inr (pid, parent, name) →
  inodes a !! pid = Some parent ∧ in_u64 pid ∧ inode_wf parent ∧ IsDir (mode parent) = true ∧
  name = (SeparateLastComponent (FormatPath path)).2.
Proof.
  intros [Ha _]. unfold writable_parent. destruct (SeparateLastComponent _) as [dir n].
  destruct (resolve a dir u g) as [|p]; [done|]. cbn [ebind].
  destruct (find_inode a p) as [|ino] eqn:Hi; [done|]. apply find_inode_some in Hi. cbn [ebind].
  destruct (IsDir (mode ino)) eqn:Hd; [|done]. destruct (CheckWritePermission ino u g); [|done].
  intros [= <- <- <-]. apply Ha in Hi as Hw. tauto.
Qed.

(** The common beginning of the four operations that change a directory. *)
Lemma parent_runs {B} a e path u g (K : Z → Inode → string → M E (Z + B)) Q :
  stored e a →
  (∀ er e', writable_parent a path u g = inl er → unchanged a e e' → Q (inl er) e') →
  (∀ pid parent name e', writable_parent a path u g = inr (pid, parent, name) →
     unchanged a e e' → runs e' (K pid parent name) Q) →
  runs e (let '(parent_path, name) := SeparateLastComponent (FormatPath path) in
    tryM (PathLookupToDentry parent_path u g) (λ pid,
      CentralLockInode pid ;;
      try_or (GetInodeById pid) (CentralUnlockInode pid) (λ parent,
        if negb (IsDir (mode parent)) then CentralUnlockInode pid ;; err (- ENOTDIR)
        else if negb (CheckWritePermission parent u g)
        then CentralUnlockInode pid ;; err (- EACCES)
        else K pid parent name))) Q.
Proof.
  intros He Her Hok. assert (Ha : fs_ok a) by apply He. unfold writable_parent in *.
  destruct (SeparateLastComponent (FormatPath path)) as [dir name].
  eapply runs_read; [done|by apply PathLookup_reads|]. intros e1 H1.
  destruct (resolve a dir u g) as [er|pid] eqn:Hp; cbn [ebind] in *.
  { exists (inl er), e1. by auto. }
  apply (runs_read a e1 (GetInodeById pid) (find_inode a pid)); [apply H1| |].
  { apply GetInodeById_reads; [done|by eapply resolve_ok]. }
  intros e2 H2. pose proof (unchanged_trans _ _ _ _ H1 H2) as H3.
  destruct (find_inode a pid) as [er|parent]; cbn [ebind] in *.
  { exists (inl er), e2. by auto. }
  destruct (IsDir (mode parent)); cbn [negb] in *; [|exists (inl (- ENOTDIR)), e2; by auto].
  destruct (CheckWritePermission parent u g); cbn [negb] in *; [|exists (inl (- EACCES)), e2; by auto].
  by apply Hok.
Qed.

(** ** Inode numbers *)

Definition next_seq (q : Z) : Z := if q <? kInodeIdGroupSize then q else q + 1.
Definition next_id (e : E) : Z :=
  Eng.inode_id_group_ e * kInodeIdGroupSize + next_seq (Eng.inode_id_seq_in_group_ e).

(** The numbers from [lowest_free] on are not in use, and [k] more can be
    generated. *)
Definition lowest_free (e : E) : Z :=
  Eng.inode_id_group_ e * kInodeIdGroupSize + Eng.inode_id_seq_in_group_ e.
Definition fresh_ids (k : Z) (e : E) (a : fs) : Prop :=
  0 <= Eng.inode_id_group_ e ∧ 0 <= Eng.inode_id_seq_in_group_ e ∧
  lowest_free e + 2 * k < 2 ^ 64 ∧ ∀ i, is_Some (inodes a !! i) → i < lowest_free e.

Lemma fetch_add_seq_run (s : S) (grp q : Z) :
  0 <= q < 2 ^ 64 - 1 → fetch_add_seq (Eng.mk s grp q) = Done q (Eng.mk s grp (q + 1)).
Proof. intros Hq. unfold fetch_add_seq. unM. do 2 f_equal. apply Z.mod_small. lia. Qed.

(** The generator never asks the central service: once the numbers of its group
    are used up it goes on counting. *)
Lemma GetNewInodeId_run (e : E) :
  0 <= Eng.inode_id_group_ e → 0 <= Eng.inode_id_seq_in_group_ e → lowest_free e + 2 < 2 ^ 64 →
  GetNewInodeId get_group e =
  Done (next_id e) (Eng.mk (Eng.kv e) (Eng.inode_id_group_ e) (next_seq (Eng.inode_id_seq_in_group_ e) + 1)).
Proof.
  destruct e as [s grp q]. unfold lowest_free, next_id, next_seq.
  cbn [Eng.kv Eng.inode_id_group_ Eng.inode_id_seq_in_group_].
  assert (HG : kInodeIdGroupSize = 1048576) by reflexivity. intros Hg Hq Hb.
  unfold GetNewInodeId, new_group_loop. unM. rewrite fetch_add_seq_run by lia.
  assert (Hu : ∀ z, 0 <= z < 2 ^ 64 → u64 z = z) by (intros; by apply Z.mod_small).
  destruct (q <? kInodeIdGroupSize) eqn:E1; zify_bool.
  - rewrite (proj2 (Z.leb_gt kInodeIdGroupSize q)) by lia.
    cbn [Eng.inode_id_group_]. by rewrite Hu by lia.
  - rewrite (proj2 (Z.leb_le kInodeIdGroupSize q)), fetch_add_seq_run by lia.
    rewrite (proj2 (Z.leb_le kInodeIdGroupSize (q + 1))) by lia.
    cbn [Eng.inode_id_group_]. by rewrite Hu by lia.
Qed.

(** ** Creation *)

Definition create_outcome (a : fs) (path : string) (u g : Z) (ino : Inode) (k : Z) (e : E)
    (r : Z + unit) (e' : E) : Prop :=
  match fs_create a path u g (next_id e) ino with
  | inl er => r = inl er ∧ unchanged a e e'
  | inr a1 =>
      (r = inr tt ∧ stored e' a1 ∧ fresh_ids (k - 1) e' a1) ∨
      (r = inl (- EIO) ∧ ∃ a2 pid parent name,
         writable_parent a path u g = inr (pid, parent, name) ∧
         create_residue a pid name (next_id e) ino a2 ∧
         stored e' a2 ∧ fresh_ids (k - 1) e' a2)
  end.

Lemma create_updates a pid parent name i ino :
  inodes a !! pid = Some parent → inodes a !! i = None → dentries a !! (pid, name) = None →
  in_u64 pid → in_u64 i → pid < i → inode_wf ino → inode_wf parent →
  leaves a (try_or (InsertInode i ino) (CentralUnlockInode pid) (λ _,
            try_or (InsertDentry pid name i)
                   (ignore (DeleteInode i) ;; CentralUnlockInode pid) (λ _,
            try_or (UpdateInode pid (bump 1 parent))
                   (ignore (DeleteInode i) ;; ignore (DeleteDentry pid name) ;;
                    CentralUnlockInode pid) (λ _,
            CentralUnlockInode pid ;; ok tt))))
    (λ r a', (r = inr tt ∧ a' = created a pid parent name i ino) ∨
             (r = inl (- EIO) ∧ create_residue a pid name i ino a')).
Proof.
  intros Hp Hi Hd Hpid Hid Hlt Hw Hpw. unfold create_residue.
  eapply leaves_try; [by apply InsertInode_writes| |]; last first.
  { apply leaves_ret. right. split; [done|]. by left. }
  eapply leaves_try; [by apply InsertDentry_writes| |]; last first.
  { apply leaves_assoc. eapply leaves_ignore; [apply DeleteInode_writes; [|done]; cbn; by rewrite lookup_insert_eq| |];
      apply leaves_ret; right; (split; [done|]).
    - rewrite del_put_inode by done. by left.
    - by right; left. }
  eapply leaves_try; [apply UpdateInode_writes| |].
  { cbn. rewrite lookup_insert_ne by lia. by eexists. }
  { done. }
  { by apply bump_wf. }
  - apply leaves_ret. by left.
  - assert (E1 : del_inode i (put_dentry pid name i (put_inode i ino a)) = put_dentry pid name i a).
    { transitivity (put_dentry pid name i (del_inode i (put_inode i ino a))); [done|].
      by rewrite del_put_inode. }
    apply leaves_assoc.
    eapply leaves_ignore; [apply DeleteInode_writes; [|done]; cbn; by rewrite lookup_insert_eq| |].
    + rewrite E1. apply leaves_assoc. eapply leaves_ignore;
        [apply DeleteDentry_writes; [|done]; cbn; by rewrite lookup_insert_eq| |];
        apply leaves_ret; right; (split; [done|]); [rewrite del_put_dentry by done|]; set_solver.
    + apply leaves_assoc. eapply leaves_ignore;
        [apply DeleteDentry_writes; [|done]; cbn; by rewrite lookup_insert_eq| |];
        apply leaves_ret; right; (split; [done|]); [rewrite del_put_dentry by done|]; set_solver.
Qed.

Lemma runs_step {A B} e e1 (c : M E A) x (k : A → M E B) Q :
  c e = Done x e1 → runs e1 (k x) Q → runs e (y ← c; k y) Q.
Proof. intros E1 (r & e2 & E2 & H). exists r, e2. unM. by rewrite E1. Qed.

Lemma runs_leaves {A} a e (c : M E (Z + A)) P Q :
  stored e a → leaves a c P →
  (∀ r e' a', ids e' = ids e → stored e' a' → P r a' → Q r e') → runs e c Q.
Proof.
  intros He Hc HQ. destruct (Hc e He) as (r & e' & a' & E1 & H1 & H2 & H3).
  exists r, e'. split; [done|]. by apply (HQ r e' a').
Qed.

Lemma ids_eq (e e' : E) : ids e' = ids e →
  next_id e' = next_id e ∧ lowest_free e' = lowest_free e ∧
  Eng.inode_id_group_ e' = Eng.inode_id_group_ e ∧
  Eng.inode_id_seq_in_group_ e' = Eng.inode_id_seq_in_group_ e.
Proof. intros [= H1 H2]. unfold next_id, lowest_free. by rewrite H1, H2. Qed.

Lemma fresh_ids_unchanged k a (e e' : E) : ids e' = ids e → fresh_ids k e a → fresh_ids k e' a.
Proof. intros (_ & H2 & H3 & H4)%ids_eq. unfold fresh_ids. by rewrite H2, H3, H4. Qed.

Lemma next_id_fresh k a e : fresh_ids k e a → 1 <= k →
  lowest_free e <= next_id e ∧ in_u64 (next_id e) ∧ inodes a !! next_id e = None.
Proof.
  intros (H1 & H2 & H3 & H4) Hk.
  assert (lowest_free e <= next_id e <= lowest_free e + 1) as Hn.
  { unfold next_id, lowest_free, next_seq. case_match; lia. }
  assert (0 <= lowest_free e) by (unfold lowest_free, kInodeIdGroupSize; lia).
  split; [lia|]. split; [unfold in_u64; lia|].
  destruct (inodes a !! next_id e) as [ino|] eqn:Ei; [|done].
  specialize (H4 (next_id e) (mk_is_Some _ _ Ei)). lia.
Qed.

Lemma fresh_ids_used k a a' (e e' : E) :
  fresh_ids k e a → 1 <= k → Eng.inode_id_group_ e' = Eng.inode_id_group_ e →
  Eng.inode_id_seq_in_group_ e' = next_seq (Eng.inode_id_seq_in_group_ e) + 1 →
  (∀ i, is_Some (inodes a' !! i) → i = next_id e ∨ is_Some (inodes a !! i)) →
  fresh_ids (k - 1) e' a'.
Proof.
  intros (H1 & H2 & H3 & H4) Hk Hg Hq Ha. unfold fresh_ids, lowest_free. rewrite Hg, Hq.
  assert (Eng.inode_id_seq_in_group_ e <= next_seq (Eng.inode_id_seq_in_group_ e)
            <= Eng.inode_id_seq_in_group_ e + 1) as Hn by (unfold next_seq; case_match; lia).
  unfold lowest_free in *. repeat split; [done|lia|lia|].
  intros i [->|Hi]%Ha; [unfold next_id; lia|]. specialize (H4 i Hi). lia.
Qed.

Lemma residue_inodes a p n i ino a' j :
  create_residue a p n i ino a' → is_Some (inodes a' !! j) → j = i ∨ is_Some (inodes a !! j).
Proof.
  unfold create_residue. rewrite !list_elem_of_In. cbn [In]. intros [<-|[<-|[<-|[<-|[]]]]]; cbn.
  - by right.
  - rewrite lookup_insert_is_Some. naive_solver.
  - by right.
  - rewrite lookup_insert_is_Some. naive_solver.
Qed.

Lemma create_entry_run k a e path u g mk :
  stored e a → fresh_ids k e a → 1 <= k → inode_wf (mk (next_id e)) →
  runs e (create_entry get_group path u g mk) (create_outcome a path u g (mk (next_id e)) k e).
Proof.
  intros He Hf Hk Hw. assert (Ha : fs_ok a) by apply He. unfold create_entry.
  apply parent_runs with a; [done| |].
  { intros er e' H1 H2. unfold create_outcome, fs_create. by rewrite H1. }
  intros pid parent name e1 Hp H1.
  destruct (writable_parent_some _ _ _ _ _ _ _ Ha Hp) as (Hpi & Hpid & Hpw & _ & _).
  eapply runs_read; [apply H1|apply GetDentry_reads; [done|apply Hpid]|]. intros e2 H2.
  pose proof (unchanged_trans _ _ _ _ H1 H2) as [Hs3 Hi3].
  unfold create_outcome, fs_create. rewrite Hp. cbn [ebind]. unfold find_dentry.
  destruct (dentries a !! (pid, name)) as [c|] eqn:Hd; cbn [or_enoent].
  { exists (inl (- EEXIST)), e2. done. }
  destruct (ids_eq _ _ Hi3) as (En & El & Eg & Eq).
  destruct (next_id_fresh k a e Hf Hk) as (Hlow & Hid & Hnone).
  destruct Hf as (F1 & F2 & F3 & F4).
  assert (Hlt : pid < next_id e) by (specialize (F4 pid (mk_is_Some _ _ Hpi)); lia).
  eapply runs_step; [apply GetNewInodeId_run; rewrite ?Eg, ?Eq, ?El; lia|].
  rewrite En, Eg, Eq. eapply runs_leaves; [|by apply create_updates|].
  { exact Hs3. }
  intros r e' a' I' S' [[-> ->]|[-> Hres]]; injection I' as G' Q'.
  - left. split; [done|]. split; [done|]. eapply fresh_ids_used; [by repeat split|done..|].
    intros i. cbn. rewrite !lookup_insert_is_Some. naive_solver.
  - right. split; [done|]. exists a', pid, parent, name. split; [done|]. split; [done|].
    split; [done|]. eapply fresh_ids_used; [by repeat split|done..|].
    intros i. by eapply residue_inodes.
Qed.

(** ** Removal *)

Definition remove_outcome (a : fs) (path : string) (u g : Z) (refuse : Inode → option Z) (e : E)
    (r : Z + unit) (e' : E) : Prop :=
  match fs_remove a path u g refuse with
  | inl er => r = inl er ∧ unchanged a e e'
  | inr a1 =>
      ids e' = ids e ∧
      ((r = inr tt ∧ stored e' a1) ∨
       (r = inl (- EIO) ∧ ∃ a2 pid parent name i,
          writable_parent a path u g = inr (pid, parent, name) ∧
          dentries a !! (pid, name) = Some i ∧ remove_residue a pid name i a2 ∧ stored e' a2))
  end.

Lemma remove_updates a pid parent name i ino :
  inodes a !! pid = Some parent → inodes a !! i = Some ino → dentries a !! (pid, name) = Some i →
  in_u64 pid → in_u64 i → pid < i → inode_wf ino → inode_wf parent →
  leaves a (try_or (DeleteInode i) (CentralUnlockInode pid ;; CentralUnlockInode i) (λ _,
            try_or (DeleteDentry pid name)
                   (ignore (InsertInode i ino) ;; CentralUnlockInode pid ;; CentralUnlockInode i) (λ _,
            try_or (UpdateInode pid (bump (-1) parent))
                   (ignore (InsertInode i ino) ;; ignore (InsertDentry pid name i) ;;
                    CentralUnlockInode pid ;; CentralUnlockInode i) (λ _,
            CentralUnlockInode i ;; CentralUnlockInode pid ;; ok tt))))
    (λ r a', (r = inr tt ∧ a' = removed a pid parent name i) ∨
             (r = inl (- EIO) ∧ remove_residue a pid name i a')).
Proof.
  intros Hp Hi Hd Hpid Hid Hlt Hw Hpw. unfold remove_residue.
  assert (Hnone : inodes (del_inode i a) !! i = None) by (cbn; by rewrite lookup_delete_eq).
  eapply leaves_try; [apply DeleteInode_writes; [by eexists|done]| |]; last first.
  { apply leaves_ret. right. split; [done|]. by left. }
  eapply leaves_try; [apply DeleteDentry_writes; [by eexists|done]| |]; last first.
  { apply leaves_assoc. eapply leaves_ignore; [by apply InsertInode_writes| |];
      apply leaves_ret; right; (split; [done|]).
    - rewrite put_del_inode by done. by left.
    - by right; left. }
  eapply leaves_try; [apply UpdateInode_writes| |].
  { cbn. rewrite lookup_delete_ne by lia. by eexists. }
  { done. }
  { by apply bump_wf. }
  - apply leaves_ret. by left.
  - assert (E1 : put_inode i ino (del_dentry pid name (del_inode i a)) = del_dentry pid name a).
    { transitivity (del_dentry pid name (put_inode i ino (del_inode i a))); [done|].
      by rewrite put_del_inode. }
    apply leaves_assoc. eapply leaves_ignore; [by apply InsertInode_writes| |].
    + rewrite E1. apply leaves_assoc. eapply leaves_ignore;
        [apply InsertDentry_writes; [|done..]; cbn; by rewrite lookup_delete_eq| |];
        apply leaves_ret; right; (split; [done|]); [rewrite put_del_dentry by done|]; set_solver.
    + apply leaves_assoc. eapply leaves_ignore;
        [apply InsertDentry_writes; [|done..]; cbn; by rewrite lookup_delete_eq| |];
        apply leaves_ret; right; (split; [done|]); [rewrite put_del_dentry by done|]; set_solver.
Qed.

Lemma remove_entry_run a e path u g refuse :
  stored e a → runs e (remove_entry path u g refuse) (remove_outcome a path u g refuse e).
Proof.
  intros He. assert (Ha : fs_ok a) by apply He. unfold remove_entry.
  apply parent_runs with a; [done| |].
  { intros er e' H1 H2. unfold remove_outcome, fs_remove. by rewrite H1. }
  intros pid parent name e1 Hp H1.
  destruct (writable_parent_some _ _ _ _ _ _ _ Ha Hp) as (Hpi & Hpid & Hpw & _ & _).
  unfold remove_outcome, fs_remove. rewrite Hp. cbn [ebind].
  eapply runs_read; [apply H1|apply GetDentry_reads; [done|apply Hpid]|]. intros e2 H2.
  pose proof (unchanged_trans _ _ _ _ H1 H2) as H3.
  destruct (find_dentry a pid name) as [er|i] eqn:Hd; cbn [ebind].
  { exists (inl er), e2. done. }
  pose proof (find_dentry_ok _ _ _ _ Ha Hd) as Hlt.
  unfold find_dentry in Hd. destruct (dentries a !! (pid, name)) as [c|] eqn:Hd'; [|done].
  injection Hd as ->.
  apply (runs_read a e2 (GetInodeById i) (find_inode a i)); [apply H3| |].
  { apply GetInodeById_reads; [done|lia]. }
  intros e3 H4. pose proof (unchanged_trans _ _ _ _ H3 H4) as H5.
  destruct (find_inode a i) as [er|ino] eqn:Hi; cbn [ebind].
  { exists (inl er), e3. done. }
  apply find_inode_some in Hi. destruct (refuse ino) as [er|].
  { exists (inl (- er)), e3. done. }
  assert (in_u64 i ∧ inode_wf ino) as [Hid Hw] by (by apply Ha).
  eapply runs_leaves; [apply H5|apply remove_updates; try done; lia|].
  intros r e' a' I' S' HP. destruct H5 as [_ H5]. split; [by rewrite I'|].
  destruct HP as [[-> ->]|[-> Hres]]; [by left|right]. split; [done|].
  by exists a', pid, parent, name, i.
Qed.

Lemma Mkdir_run k a e path u g m :
  stored e a → fresh_ids k e a → 1 <= k → in_u64 now → in_u32 u → in_u32 g → in_u32 m →
  runs e (Mkdir get_group now path u g m)
    (create_outcome a path u g (mkInode (next_id e) 0 now now now 0 (Z.lor S_IFDIR m) u g) k e).
Proof.
  intros He Hf Hk Hn Hu Hg Hm. apply (create_entry_run k a e path u g
    (λ i, mkInode i 0 now now now 0 (Z.lor S_IFDIR m) u g)); [done..|].
  pose proof (next_id_fresh _ _ _ Hf Hk) as (_ & ? & _). by apply new_inode_wf.
Qed.

Lemma Creat_run k a e path u g m :
  stored e a → fresh_ids k e a → 1 <= k → in_u64 now → in_u64 junk_children →
  in_u32 u → in_u32 g → in_u32 m →
  runs e (Creat get_group now junk_children path u g m)
    (create_outcome a path u g
       (mkInode (next_id e) 0 now now now junk_children (Z.lor S_IFREG m) u g) k e).
Proof.
  intros He Hf Hk Hn Hj Hu Hg Hm. apply (create_entry_run k a e path u g
    (λ i, mkInode i 0 now now now junk_children (Z.lor S_IFREG m) u g)); [done..|].
  pose proof (next_id_fresh _ _ _ Hf Hk) as (_ & ? & _). by apply new_inode_wf.
Qed.
End refinement.

(** ** The theorems *)

Section theorems.
Context {S : Type} `{HK : !KvOps S} (view : S → gmap string (list Z)) `{HL : !KvLaws view}.

(** C22. Looking up a path and [Stat] implement the specification on every lawful
    store: they always end with the answer of the abstract file system, error
    codes included, and change neither the stored file system nor the counter of
    inode numbers. *)
Theorem Stat_correct (a : fs) (e : Eng.t S) (path : string) (u g : Z) :
  stored view e a →
  (∃ e', PathLookupToDentry path u g e = Done (resolve a path u g) e' ∧
         stored view e' a ∧ ids e' = ids e) ∧
  (∃ e', Stat path u g e = Done (fs_stat a path u g) e' ∧ stored view e' a ∧ ids e' = ids e).
Proof.
  intros He. assert (Ha : fs_ok a) by apply He.
  split; [by apply (PathLookup_reads view)|by apply (Stat_reads view)].
Qed.

(** C16. [Mkdir] and [Creat] implement the abstract creation on every lawful
    store.  Every refusal (missing or unreadable directory, a component that is
    not a directory, no write permission, an existing entry) is reported with
    its error code and changes nothing.  Otherwise the operation succeeds with
    exactly the three updates of the specification, under a number no inode has;
    or the store failed, the answer is [-EIO], and all that can be left behind is
    the new inode, the new entry, both or none. *)
Theorem create_correct (get_group : M S Z) (now junk_children k : Z) (a : fs) (e : Eng.t S)
    (path : string) (u g m : Z) :
  stored view e a → fresh_ids k e a → 1 <= k → in_u64 now → in_u64 junk_children →
  in_u32 u → in_u32 g → in_u32 m →
  inodes a !! next_id e = None ∧
  runs e (Mkdir get_group now path u g m)
    (create_outcome view a path u g (mkInode (next_id e) 0 now now now 0 (Z.lor S_IFDIR m) u g) k e) ∧
  runs e (Creat get_group now junk_children path u g m)
    (create_outcome view a path u g
       (mkInode (next_id e) 0 now now now junk_children (Z.lor S_IFREG m) u g) k e).
Proof.
  intros He Hf Hk Hn Hj Hu Hg Hm.
  split; [by apply (next_id_fresh k)|split; [by apply Mkdir_run|by apply Creat_run]].
Qed.

Definition rmdir_refuses (ino : Inode) : option Z :=
  if negb (IsDir (mode ino)) then Some ENOTDIR
  else if 0 <? children ino then Some ENOTEMPTY else None.
Definition unlink_refuses (ino : Inode) : option Z :=
  if IsDir (mode ino) then Some EISDIR else None.

(** C17. [Rmdir] and [Unlink] implement the abstract removal on every lawful
    store.  Every refusal (those of a creation, a missing entry or inode, a file
    where a directory is wanted and conversely, a directory with children) is
    reported with its error code and changes nothing.  Otherwise the operation
    succeeds with exactly the three updates of the specification, or the store
    failed, the answer is [-EIO], and at most the inode and the entry of the
    target are missing afterwards. *)
Theorem remove_correct (a : fs) (e : Eng.t S) (path : string) (u g : Z) :
  stored view e a →
  runs e (Rmdir path u g) (remove_outcome view a path u g rmdir_refuses e) ∧
  runs e (Unlink path u g) (remove_outcome view a path u g unlink_refuses e).
Proof. intros He. split; by apply remove_entry_run. Qed.
End theorems.

(** ** Examples on the map store *)

Definition example_root : Inode := mkInode kRootInodeId 0 7 7 7 0 (Z.lor S_IFDIR 0x1ED) 0 0.
Definition example_fs : fs := put_inode kRootInodeId example_root (mkfs ∅ ∅).

(** The engine after the first thread started, on a store whose next updates
    fail as told. *)
Definition example_engine (fl : list bool) : Eng.t MapStore :=
  match InitThread 7 0 0 (Eng.mk (mkMapStore ∅ []) 0 0) with
  | Done _ e | Stopped _ e =>
      Eng.mk (mkMapStore (entries (Eng.kv e)) fl) (Eng.inode_id_group_ e) (Eng.inode_id_seq_in_group_ e)
  end.
Definition no_group : M MapStore Z := mret 0.

Lemma example_stored fl : stored entries (example_engine fl) example_fs.
Proof.
  assert (repr ∅ (mkfs ∅ ∅)) as H.
  { split; [|split].
    - split; intros *; cbn [inodes dentries]; by rewrite lookup_empty.
    - intros i _. cbn [inodes]. by rewrite !lookup_empty.
    - intros p n _. cbn [dentries]. by rewrite !lookup_empty. }
  apply (repr_put_inode ∅ (mkfs ∅ ∅) kRootInodeId example_root H); [done|].
  by apply new_inode_wf.
Qed.

Lemma example_fresh fl k : k < 1000 → fresh_ids k (example_engine fl) example_fs.
Proof.
  intros Hk. unfold fresh_ids. change (Eng.inode_id_group_ (example_engine fl)) with 0.
  change (Eng.inode_id_seq_in_group_ (example_engine fl)) with 1.
  change (lowest_free (example_engine fl)) with 1. split; [done|]. split; [done|]. split; [lia|].
  intros i. cbn. rewrite lookup_insert_is_Some', lookup_empty. intros [<-|[? ?]]; [done|congruence].
Qed.

Example Stat_correct_witness :
  ∃ e', Stat "/" 5 5 (example_engine []) = Done (inr example_root) e'.
Proof.
  destruct (Stat_correct entries example_fs (example_engine []) "/" 5 5 (example_stored []))
    as [_ (e' & H & _)].
  exists e'. exact H.
Defined.

Example create_correct_witness :
  runs (example_engine [false; true]) (Mkdir no_group 7 "/a" 0 0 0x1ED)
    (create_outcome entries example_fs "/a" 0 0
       (mkInode 1 0 7 7 7 0 (Z.lor S_IFDIR 0x1ED) 0 0) 1 (example_engine [false; true])).
Proof.
  destruct (create_correct entries no_group 7 0 1 example_fs (example_engine [false; true]) "/a" 0 0 0x1ED
    (example_stored _) (example_fresh _ 1 eq_refl)) as (_ & H & _); try done.
Defined.

Example remove_correct_witness :
  runs (example_engine []) (Rmdir "/a" 0 0)
    (remove_outcome entries example_fs "/a" 0 0 rmdir_refuses (example_engine [])).
Proof.
  destruct (remove_correct entries example_fs (example_engine []) "/a" 0 0 (example_stored [])) as [H _].
  exact H.
Defined.

(** What a run of the example answers, and which keys it leaves. *)
Definition summary {A} (o : outcome (Eng.t MapStore) A) : option (A * list string) :=
  match o with
  | Done a e => Some (a, (map_to_list (entries (Eng.kv e))).*1)
  | Stopped _ _ => None
  end.

(** When the store fails to insert the entry and then to delete the inode again,
    the inode stays behind. *)
Example mkdir_leaves_orphan :
  summary (Mkdir no_group 7 "/a" 0 0 0x1ED (example_engine [false; true; true])) =
    Some (inl (- EIO), ["1"; "0"]%string).
Proof. by vm_compute. Qed.

(** A store that asks to redo its updates, as the client does when it loses a
    race, is taken for one that performed them: the directory is reported as
    created and does not exist. *)
Example mkdir_redo_lost :
  summary (@Mkdir _ (map_kv KV_OPS_FAIL_REDO) no_group 7 "/a" 0 0 0x1ED (example_engine [true; true; true]))
    = Some (inr tt, ["0"]%string).
Proof. by vm_compute. Qed.

(** Making the root directory adds an entry without a name to it. *)
Example mkdir_root :
  summary (Mkdir no_group 7 "/" 0 0 0x1ED (example_engine [])) = Some (inr tt, ["1"; "0/"; "0"]%string).
Proof. by vm_compute. Qed.
