(* ===== verification/FsTree.v ===== *)
(** * The tree of the file system

    The invariant [tree_ok] of abstract file systems: every entry leads from a
    directory to an inode, every inode but the root is the target of exactly one
    entry, whose directory has a smaller number, and the field [children] of a
    directory counts its entries; [InitThread] leaves that field of the root
    uninitialised, so that it counts from an arbitrary value.  Creation and removal
    preserve the invariant, and so does every history of operations the engine
    performs without an input/output error. *)

From Stdlib Require Import Ascii String.
From S2P Require Import Prelude KvUtils HashTable ServerMM Server Rdma ClientState FsCommon Engine.
From S2P Require Import EngineSpec.

(** ** The invariant *)









(** ** Creation *)



(** ** Removal *)


(** ** A created entry is found *)

(** The paths of [a] lead to the same places in [a']. *)
Definition extends (a a' : fs) : Prop :=
  (∀ k c, dentries a !! k = Some c → dentries a' !! k = Some c) ∧
  (∀ i ino, inodes a !! i = Some ino →
     ∃ ino', inodes a' !! i = Some ino' ∧ mode ino' = mode ino ∧ uid ino' = uid ino ∧ gid ino' = gid ino).

Lemma read_permission_eq ino ino' u g :
  mode ino' = mode ino → uid ino' = uid ino → gid ino' = gid ino →
  CheckReadPermission ino' u g = CheckReadPermission ino u g.
Proof. unfold CheckReadPermission. by intros -> -> ->. Qed.

Lemma walk_extends a a' names : extends a a' → ∀ p u g i,
  walk a p names u g = inr i → walk a' p names u g = inr i.
Proof.
  intros [Hd Hi]. assert (Hfd : ∀ p n c, find_dentry a p n = inr c → find_dentry a' p n = inr c).
  { intros p n c. unfold find_dentry. destruct (dentries a !! (p, n)) eqn:E; [|done].
    by rewrite (Hd _ _ E). }
  induction names as [|n [|n' rest] IH]; intros p u g i H; [done|by apply Hfd|].
  cbn [walk] in H |- *. destruct (find_dentry a p n) as [|c] eqn:Hc; [done|].
  rewrite (Hfd _ _ _ Hc). cbn [ebind] in H |- *.
  destruct (find_inode a c) as [|ino] eqn:Hino; [done|]. apply find_inode_some in Hino.
  destruct (Hi _ _ Hino) as (ino' & E1 & Em & Eu & Eg). unfold find_inode. rewrite E1.
  cbn [ebind or_enoent] in H |- *. rewrite (read_permission_eq ino ino'), Em by done.
  destruct (CheckReadPermission ino u g); [|done]. destruct (IsDir (mode ino)); [|done].
  by apply IH.
Qed.

Lemma walk_snoc a names n u g q ino : ∀ p,
  walk a p names u g = inr q → inodes a !! q = Some ino →
  CheckReadPermission ino u g = true → IsDir (mode ino) = true →
  walk a p (names ++ [n]) u g = find_dentry a q n.
Proof.
  induction names as [|m [|m' rest] IH]; intros p H Hq Hr Hd.
  - by injection H as ->.
  - cbn [walk app] in *. rewrite H. cbn [ebind]. unfold find_inode. rewrite Hq.
    cbn [ebind or_enoent]. by rewrite Hr, Hd.
  - cbn [walk app] in *. destruct (find_dentry a p m) as [|c]; [done|]. cbn [ebind] in *.
    destruct (find_inode a c) as [|o]; [done|]. cbn [ebind] in *.
    destruct (CheckReadPermission o u g); [|done]. destruct (IsDir (mode o)); [|done].
    by apply IH.
Qed.

Lemma resolve_walk a path u g i :
  resolve a path u g = inr i → walk a kRootInodeId (SplitPath path) u g = inr i.
Proof.
  unfold resolve. destruct (SplitPath path) as [|n l]; [done|].
  destruct (find_inode a kRootInodeId) as [|ino]; [done|]. cbn [ebind].
  by destruct (CheckReadPermission ino u g).
Qed.

Lemma created_extends a pid parent name i ino :
  inodes a !! pid = Some parent → inodes a !! i = None → dentries a !! (pid, name) = None →
  extends a (created a pid parent name i ino).
Proof.
  intros Hp Hi Hn. split.
  - intros k c Hk. cbn. rewrite lookup_insert_ne; [done|]. intros <-. congruence.
  - intros j o Hj. cbn. destruct (decide (pid = j)) as [<-|].
    + exists (bump 1 parent). rewrite lookup_insert_eq. split; [done|].
      assert (o = parent) as -> by congruence. done.
    + exists o. rewrite lookup_insert_ne, lookup_insert_ne by congruence. done.
Qed.

Lemma created_stat a path u g pid parent name i ino :
  fs_ok a → writable_parent a path u g = inr (pid, parent, name) → name ≠ ""%string →
  CheckReadPermission parent u g = true → inodes a !! i = None → dentries a !! (pid, name) = None →
  fs_stat (created a pid parent name i ino) path u g = inr ino.
Proof.
  intros Ha Hw Hne Hr Hi Hn. apply writable_parent_some in Hw as Hps; [|done].
  destruct Hps as (Hp & _ & _ & Hd & Hname). unfold writable_parent in Hw.
  destruct (SeparateLastComponent (FormatPath path)) as [dir n] eqn:Hsep. cbn in Hname. subst n.
  destruct (resolve a dir u g) as [|p] eqn:Hres; [done|]. cbn [ebind] in Hw.
  assert (p = pid) as ->.
  { destruct (find_inode a p) as [|o]; [done|]. cbn [ebind] in Hw. repeat case_match; congruence. }
  clear Hw. pose proof (created_extends a pid parent name i ino Hp Hi Hn) as Hext.
  set (a' := created _ _ _ _ _ _) in *. assert (Hpi : pid ≠ i) by congruence.
  assert (Hp' : inodes a' !! pid = Some (bump 1 parent)) by (cbn; by rewrite lookup_insert_eq).
  unfold fs_stat. enough (resolve a' path u g = inr i) as ->.
  { cbn [ebind]. unfold find_inode. cbn. by rewrite lookup_insert_ne, lookup_insert_eq. }
  unfold resolve. rewrite (SplitPath_last _ _ _ Hsep Hne).
  assert (∃ o, inodes a' !! kRootInodeId = Some o ∧ CheckReadPermission o u g = true) as (o & Ho & Hro).
  { unfold resolve in Hres. destruct (SplitPath dir) as [|x l].
    - injection Hres as <-. eauto.
    - destruct (find_inode a kRootInodeId) as [|o] eqn:Ho; [done|]. cbn [ebind] in Hres.
      apply find_inode_some, (proj2 Hext) in Ho as (o' & Ho & Em & Eu & Eg). exists o'.
      split; [done|]. rewrite (read_permission_eq o) by done.
      by destruct (CheckReadPermission o u g). }
  assert (Hwalk : walk a' kRootInodeId (SplitPath dir ++ [name]) u g = inr i).
  { erewrite walk_snoc; [|by eapply walk_extends, resolve_walk|done|done|done].
    unfold find_dentry. cbn. by rewrite lookup_insert_eq. }
  destruct (SplitPath dir ++ [name]) as [|x l] eqn:El; [by destruct (SplitPath dir)|].
  unfold find_inode. rewrite Ho. cbn [or_enoent ebind]. by rewrite Hro.
Qed.

(** ** Histories of operations *)



(** The answer of an operation: an error code, or the inode of a [Stat]. *)
Definition reply : Type := Z + option Inode.

Definition code_of (r : Z + fs) : reply := match r with inl e => inl e | inr _ => inr None end.




Lemma code_of_error r e : code_of r = inl e → r = inl e.
Proof. destruct r; [by intros [= ->]|done]. Qed.


Section histories.
Context {S : Type} `{HK : !KvOps S} (view : S → gmap string (list Z)) `{HL : !KvLaws view}.
Context (get_group : M S Z) (now junk_children : Z).

Notation E := (Eng.t S).
















End histories.

(** ** Round trip *)

Section roundtrip.
Context {S : Type} `{HK : !KvOps S} (view : S → gmap string (list Z)) `{HL : !KvLaws view}.
Context (get_group : M S Z) (now junk_children : Z).

Lemma create_outcome_stat a path u g ino k (e e1 : Eng.t S) :
  create_outcome view a path u g ino k e (inr tt) e1 →
  fs_ok a → inodes a !! next_id e = None → (SeparateLastComponent (FormatPath path)).2 ≠ ""%string →
  (∀ pid parent name, writable_parent a path u g = inr (pid, parent, name) →
     CheckReadPermission parent u g = true) →
  ∃ e2, Stat path u g e1 = Done (inr ino) e2.
Proof.
  unfold create_outcome, fs_create. intros H Ha Hi Hn Hr.
  destruct (writable_parent a path u g) as [|[[pid parent] name]] eqn:Hp; [by destruct H|].
  cbn [ebind] in H. destruct (dentries a !! (pid, name)) eqn:Hd; [by destruct H|].
  destruct H as [(_ & H & _)|[H _]]; [|done].
  destruct (Stat_reads view _ path u g (proj1 H) e1 H) as (e2 & E2 & _). exists e2.
  rewrite E2. erewrite created_stat; try done; [|by eapply Hr].
  apply writable_parent_some in Hp as (_ & _ & _ & _ & ->); done.
Qed.

(** C23. What was created is found: when [Mkdir] or [Creat] of a path with a file
    name succeeds for a user who can read the parent directory, [Stat] of the
    same path by the same user returns exactly the new inode, on every lawful
    store. *)
Theorem create_then_stat (a : fs) (e : Eng.t S) (path : string) (u g m : Z) :
  stored view e a → fresh_ids 1 e a → in_u64 now → in_u64 junk_children →
  in_u32 u → in_u32 g → in_u32 m → (SeparateLastComponent (FormatPath path)).2 ≠ ""%string →
  (∀ pid parent name, writable_parent a path u g = inr (pid, parent, name) →
     CheckReadPermission parent u g = true) →
  (∀ e1, Mkdir get_group now path u g m e = Done (inr tt) e1 →
     ∃ e2, Stat path u g e1 =
       Done (inr (mkInode (next_id e) 0 now now now 0 (Z.lor S_IFDIR m) u g)) e2) ∧
  (∀ e1, Creat get_group now junk_children path u g m e = Done (inr tt) e1 →
     ∃ e2, Stat path u g e1 =
       Done (inr (mkInode (next_id e) 0 now now now junk_children (Z.lor S_IFREG m) u g)) e2).
Proof.
  intros He Hf Hn Hj Hu Hg Hm Hname Hr. assert (Ha : fs_ok a) by apply He.
  destruct (next_id_fresh 1 a e Hf) as (_ & _ & Hnew); [done|]. split; intros e1 E1.
  - destruct (Mkdir_run view get_group now 1 a e path u g m) as (r & e' & E2 & H); [done..|].
    rewrite E1 in E2. injection E2 as <- <-. by eapply create_outcome_stat.
  - destruct (Creat_run view get_group now junk_children 1 a e path u g m) as (r & e' & E2 & H); [done..|].
    rewrite E1 in E2. injection E2 as <- <-. by eapply create_outcome_stat.
Qed.
End roundtrip.

(** ** Examples *)







Example create_then_stat_witness :
  ∃ e1 e2, Mkdir no_group 7 "/a" 0 0 0x1ED (example_engine []) = Done (inr tt) e1 ∧
    Stat "/a" 0 0 e1 = Done (inr (mkInode 1 0 7 7 7 0 (Z.lor S_IFDIR 0x1ED) 0 0)) e2.
Proof.
  destruct (create_then_stat entries no_group 7 0 example_fs (example_engine []) "/a" 0 0 0x1ED
    (example_stored []) (example_fresh [] 1 eq_refl)) as [H _]; try done.
  destruct (Mkdir no_group 7 "/a" 0 0 0x1ED (example_engine [])) as [[er|[]] e1|? e1] eqn:E1.
  - exfalso. by vm_compute in E1.
  - destruct (H e1 eq_refl) as [e2 E2]. by exists e1, e2.
  - exfalso. by vm_compute in E1.
Defined.
