(* ===== verification/EngineClient.v ===== *)
(** * The engine on the client ([src/fs/engine/engine.cc], [PrepareFuseeReq] and its
    callers)

    The instance [client_kv] of the interface of the engine: every access builds
    a request in the input buffer of the client and runs one synchronous
    operation.  The examples run whole file-system operations through the
    client, its index, its allocator and the memory of the nodes. *)

From Stdlib Require Import Ascii String.
From S2P Require Import Prelude Mem KvUtils HashTable ServerMM Server Rdma ClientState Network ClientMM.
From S2P Require Import BlockMap ClientIndex ClientConsensus ClientOps FsCommon Engine.

(** ** The store of the engine: the client *)

Section client_store.
Context {F : Fabric} (junk : mem) (spin : nat).
(** A request context fresh from [new], whose fields other than the vectors are
    not initialised; the memory of the fiber; the number of the thread. *)
Context (heap_ctx : KVReqCtx) (coro_local_addr local_thread_id : Z).

Definition key_bytes (key : string) : list Z :=
  (λ c, Z.of_N (N_of_ascii c)) <$> list_ascii_of_string key.

Definition PrepareFuseeReq (key : string) (value : list Z) (op_type : string) : M Sys unit :=
  s ← get;
  let buf := Cl.input_buf_ (cl s) in
  let key_size := Z.of_nat (length (key_bytes key)) in
  let value_size := Z.of_nat (length value) in
  let value_st_addr := buf + sizeof_KVLogHeader + key_size in
  wr_bytes (buf + sizeof_KVLogHeader) (key_bytes key) ;;
  wr_bytes value_st_addr value ;;
  set_lmem (λ m, store16 m (buf + off_key_length) key_size) ;;
  set_lmem (λ m, store32 m (buf + off_value_length) value_size) ;;
  wr8 (value_st_addr + value_size + off_op) (KVLogOp_val KV_OP_INSERT) ;;
  modify (λ s, s <| ctx := constructed heap_ctx |>) ;;
  init_kv_req_ctx (mkKVInfo buf (Cl.input_buf_lkey (cl s)) (u32 key_size) (u32 value_size)) op_type ;;
  init_kvreq_space local_thread_id coro_local_addr ;;
  set_ctx (λ c, c <| coro_id := local_thread_id |>).

(** The accesses: one request and one synchronous operation each.  The stop flag
    is set for searches only. *)
Definition search_key (key : string) (n : Z) : M Sys (option (list Z)) :=
  PrepareFuseeReq key [] "READ" ;;
  set_ctx (λ c, c <| should_stop := Some false |>) ;;
  value_addr ← kv_search_sync;
  m ← get_lmem;
  mret (if value_addr =? 0 then None else Some (load_bytes n m value_addr)).
Definition insert_key (key : string) (value : list Z) : M Sys Z :=
  PrepareFuseeReq key value "INSERT" ;; kv_insert_sync junk spin.
Definition update_key (key : string) (value : list Z) : M Sys Z :=
  PrepareFuseeReq key value "UPDATE" ;; kv_update_sync junk spin.
Definition delete_key (key : string) : M Sys Z :=
  PrepareFuseeReq key [] "DELETE" ;; kv_delete_sync junk spin.

#[export] Instance client_kv : KvOps Sys :=
  {| kv_get := search_key; kv_put := insert_key; kv_set := update_key; kv_del := delete_key |}.
End client_store.

(** ** The file system on the client *)

(** A client with thirty free subblocks, alone on one memory node. *)
Definition fs_client : Sys :=
  (example_client 1) <| cl ::= λ k, k <| Cl.input_buf_ := 2000 |> |>
    <| mm ::= λ m, m <| Cmm.subblock_free_queue_ :=
                          (λ i, example_sb (0x10000000 + 256 * i)) <$> zrange 0 30 |>
                     <| Cmm.mm_block_sz_ := 65536 |> <| Cmm.bmap_block_num_ := 1 |> |>.

#[local] Instance example_kv : KvOps Sys :=
  client_kv (F := quiet_fabric) mem_zero 1 KVReqCtx_zero 300000 0.

Definition answer {A} (o : outcome (Eng.t Sys) A) : option A :=
  match o with Done a _ => Some a | Stopped _ _ => None end.
Definition fs_run {A} (c : M (Eng.t Sys) A) : option A :=
  answer ((InitThread 7 0 0 ;; c) (Eng.mk fs_client 0 0)).

(** A directory is made and found, and counts in its parent. *)
Example mkdir_on_client :
  fs_run (_ ← Mkdir (mret 0) 7 "/a" 0 0 0x1ED; x ← Stat "/a" 0 0; y ← Stat "/" 0 0; mret (x, y)) =
  Some (inr (mkInode 1 0 7 7 7 0 0x41ED 0 0), inr (mkInode 0 0 7 7 7 1 0x41ED 0 0)).
Proof. by vm_compute. Qed.

(** A directory with a file in it is not removed; after the file it is. *)
Example remove_on_client :
  fs_run (_ ← Mkdir (mret 0) 7 "/a" 0 0 0x1ED; _ ← Creat (mret 0) 7 0 "/a/b" 0 0 0x1A4;
          x ← Rmdir "/a" 0 0; y ← Unlink "/a/b" 0 0; z ← Rmdir "/a" 0 0; w ← Stat "/a" 0 0;
          mret (x, y, z, w)) =
  Some (inl (- ENOTEMPTY), inr tt, inr tt, inl (- ENOENT)).
Proof. by vm_compute. Qed.
